(* ===== verification/_CoqProject ===== *)
-Q . S2P
Prelude.v
Fmt.v
Layout.v
Bootabi.v
HalTypes.v
Paging.v
World.v
Hal.v
Cpu.v
Log.v
Limine.v
BootPrint.v
Apic.v
ApicSpec.v
X86Mmu.v
Seg.v
Time.v
Intr.v
MmuProofs.v
MmuSpec.v
SegSpec.v
TlbSpec.v
IntrSpec.v
IdleSpec.v
AspaceSpec.v
AspaceDestroy.v
BootSpec.v
Vm.v
SpaceFrames.v
VmProofs.v
VmSpec.v
VmRefine.v
VmFrame.v
LimineSpec.v
BootPrintSpec.v
Kmain.v
KmainFrames.v
KmainSpec.v
Examples.v
BootExamples.v
Corners.v
