(* ===== verification/Prelude.v ===== *)
(** * RincOS: a verification development

    RincOS is a small x86-64 kernel.  The Limine bootloader jumps to [kentry]
    (kernel/src/main.rs), which gathers the boot information, brings the
    processor up and enters [kmain]; [kmain] installs descriptor tables and
    interrupt gates, adopts the bootloader's page tables, starts the VM
    service with a frame allocator over the boot memory map, brings up clock,
    local APIC and timer, and idles, ticking every 10 ms.  This development
    models that kernel, from the entry point to the timer interrupt, and
    proves it correct against a model of the processor.

    ** How the code is modelled

    Every Rust function is a Rocq function in the monad [M World]: explicit
    state passing with four outcomes.  [Ret] is a return; [Panic] a Rust panic
    (an [expect], an index out of bounds, an arithmetic overflow, which panics
    in the profile that is built); [Undef] an access the program has no right
    to (outside the direct map, a dangling handle, a fault the processor would
    raise); [Spin] a loop that never ends.  A theorem [wp m Q w] says that [m]
    returns from [w], in a state with [Q]; the other outcomes are excluded.
    [result] is Rust's [Result], [←?] its question mark.  A [u64] is a [Z];
    its wrap-around, checked and saturating operations are written out.
    [World] (World.v) is the state: the machine [hw] (control registers,
    model-specific registers, memory as 64-bit cells, translation cache, local
    APIC, UART), one record per Rust module for its statics, and the
    environment [env] that firmware and linker fix.  Memory is reached through
    the higher-half direct map only, as the kernel does.

    ** Files

    Shared: Prelude (machine integers, the monad, [wp] and its tactics,
    frames [keeps]), Fmt (what core::fmt prints for numbers), Layout (the
    [repr(C)] layout of structs).

    The machine: Paging (the processor's page walk [hw_walk] and the theory of
    trees of tables), World (state, instructions, devices).

    The program, one file per component:
    - Bootabi: crates/bootabi/src/lib.rs, the data handed over at boot;
    - HalTypes, Hal: crates/hal, the neutral types and the contract
      [FrameAllocLaws] between the MMU and the frame allocator it borrows;
    - Cpu: arch/x86_64/src/msr.rs, cpuid.rs, serial.rs;
    - Apic: arch/x86_64/src/apic.rs;
    - X86Mmu: arch/x86_64/src/mmu.rs;
    - Seg: arch/x86_64/src/tss.rs, gdt.rs, idt.rs;
    - Time: arch/x86_64/src/tsc.rs, crates/hal/src/time.rs,
      kernel/src/time.rs;
    - Intr: arch/x86_64/src/interrupts (the stubs on a stack of words, the
      dispatchers), crates/hal/src/interrupt.rs, kernel/src/interrupts.rs;
    - Log: crates/hal/src/serial.rs, kernel/src/debug/early_serial.rs,
      kernel/src/drivers/console, kernel/src/log, kernel/src/panic.rs;
    - Limine: crates/bootloader/limine/src/lib.rs;
    - BootPrint: kernel/src/bootinfo.rs;
    - Vm: kernel/src/svc/vm.rs;
    - Kmain: arch/x86_64/src/lib.rs, kernel/src/main.rs, kmain.rs.

    The proofs: MmuProofs and MmuSpec (the page operations against the
    processor's walk), TlbSpec (cached translations), AspaceSpec and
    AspaceDestroy (creation and destruction of address spaces), SpaceFrames
    and VmRefine (many address spaces side by side; the refinement), VmProofs
    and VmSpec (the frame allocator and the service), VmFrame (the lock, and
    calls whose frames come from the first entries of the memory map),
    BootSpec (adoption of the kernel's tables, activation, NX), ApicSpec,
    SegSpec, IntrSpec, IdleSpec (the idle loop as a step relation),
    LimineSpec, BootPrintSpec, KmainFrames and KmainSpec (the boot, end to
    end).  Examples and BootExamples hold a concrete machine on which the
    theorems' hypotheses hold; Corners runs the code outside of them.

    ** What is shown

    - The VM service refines a finite table of address spaces, each a finite
      map from user pages to frames and flags ([vm_refines]): every call on a
      live handle and a user page returns, gives the abstract result, and
      disturbs no other address space; [vm_contents] reads that table off the
      processor's walk, rights included; [clients_after_boot] runs any client
      on the booted kernel, as far as the frames before the first reclaimable
      entry go.  Below it: each page operation on every branch
      ([map_4k_correct], [unmap_4k_correct], [protect_4k_correct],
      [translate_is_walk]), creation and destruction, the frame allocator
      (each frame once, zeroed, none lost), cached translations, the slot
      table, and the allocator lock: which calls take it and what becomes of
      it on every outcome ([vm_lock_discipline]).
    - The boot ([kentry_boots]): on the machine Limine hands over, every step
      returns and the kernel idles with the invariants of every component;
      the glue hands on what Limine said, within its buffers
      ([gather_bootinfo_correct], [strbuf_never_overrun]), and feeds the
      allocator exactly the memory Limine declares usable or reclaimable
      ([gather_feeds_vm]); without the protocol revision the boot stops with a message.
    - Interrupts: the gates lead to the stubs ([init_core_ready]); an IRQ is
      handled, acknowledged once, and the interrupted code resumes with its
      frame and general registers as they were.  The stubs save no vector
      register and no MXCSR although the target has SSE2: the dispatchers'
      effect on them is a parameter ([compiled]), and the interrupted code
      gets its result.  An exception ends in a panic that names it, except
      those whose stub or stack the code has wrong: 21, 29 and 30
      ([stub_context_shifted]) and the double fault, which is not delivered
      ([double_fault_lost]).  The clock never stops ([ticks_forever]).
    - Devices and text: the local APIC in both modes, IPIs, the polled UART;
      what is printed is what arrives on the wire, and the boot information
      is printed faithfully.
    - Corners: large pages, user pages below kernel tables, frames beyond the
      address field, reclaimable memory, kernel mappings made after an address
      space was created, a frame lost when the slots run out, a per-CPU index
      that changes.  These are behaviours of the code outside the main
      theorems' hypotheses; the header of Corners lists them.

    ** Hypotheses

    The main hypotheses are records: [boot_ready] and [handed_over] (what
    firmware and bootloader provide), [space_inv] (a well-formed tree of
    tables, none of its frames available), [vm_rel] (the service's invariant),
    [uart_ok] (the UART drains within the polling bound).  Limine documents
    that its page tables are in memory it declares reclaimable, and
    [handed_over] says no more than that they are in none it declares usable.
    The boot theorems need nothing else, since the boot takes no frame.  The
    allocator hands out reclaimable memory too, in the order of the map
    ([boot_alloc_exhausts]), so once it gets there it destroys the tables in
    use ([reclaimable_root_handed_out]); what holds of the service on such a
    machine holds until then.  [confine n] is the state in which the allocator
    knows the first [n] entries only, and [within_drive] shows that calls
    whose frames come from these entries run the same in both states: so
    [vm_init_ready] and [clients_after_boot] carry the service's theorems over
    to entries without tables.  Limine also turns NX on when the processor has
    it; when it is off, the kernel's write to EFER clears LMA, and
    [enable_nx_in_step] tells the processors that ignore that
    ([lma_ignored]) from those that fault.  The local APIC's page is reached
    through the direct map, which has to cover it ([ab_covered]).  Clients of
    the VM service keep to user pages: a kernel page mapped into one address
    space is not shared with the others ([kernel_half_copied_once]).  A client
    that also maps pages without [USER] gets the right for user code in one
    direction only ([user_below_kernel_table]); the flag [ub] of [vm_rel]
    tells the clients apart.

    ** Fuel and bounds

    Loops whose recursion is not structural have fuel, and running out of it
    is the outcome [Spin], which the theorems exclude: [next_loop] gets the
    number of map entries left plus one, and each iteration that continues
    takes an entry; the busy-wait loops get [poll_fuel], an environment
    constant above the device's delay; digits of a number, 64, enough for a
    u64 in base 2.  [ticks_forever] leaves out counter values above
    2^64 - 2^40, more than a century at 5 GHz.  Strings from the bootloader
    are bounded by the code's own limits (1024 bytes each, 4096 in all).

    ** Not modelled

    The limine crate is a parameter: [LimineCrate] has the constants the glue
    matches on and [Responses] what its accessors return.  Other processors
    are not modelled beyond the IPIs sent to them (the kernel starts none).
    The processor's clearing of IF on gate entry and PAUSE have no effect on
    the modelled state.  Contents of memory other than page tables, the boot
    strings and the memory map are not interpreted.  arch/aarch64 consists of
    stubs that the modelled kernel does not run on; kernel/src/svc/sched.rs
    and ipc.rs are functions with empty bodies.  [BootloaderRevision] and
    [LimineBaseRevision] of the boot ABI are used nowhere.  The [Mmu] trait of
    crates/hal has one implementation, which is modelled directly. *)

From stdpp Require Export base gmap list strings.
From Stdlib Require Export ZArith Lia.

#[global] Open Scope Z_scope.
#[export] Set Default Goal Selector "!".

(** ** Machine integers

    A Rust unsigned integer of width [n] is a [Z] in [0 .. 2^n - 1]; the
    operations below are the ones the source uses.  The plain operators [+],
    [-] and [*] panic on overflow in the dev profile that `run` builds and
    `tools/x64_iso.sh` ships; they are the monadic operations further down. *)

Definition U64 : Z := 2 ^ 64.
Definition is_u64 (z : Z) : Prop := 0 <= z < U64.

Definition as_u8 (z : Z) : Z := z mod 2 ^ 8.
Definition as_u16 (z : Z) : Z := z mod 2 ^ 16.
Definition as_u32 (z : Z) : Z := z mod 2 ^ 32.
Definition as_u64 (z : Z) : Z := z mod U64.

Definition wrapping_add (a b : Z) : Z := (a + b) mod U64.
Definition wrapping_sub (a b : Z) : Z := (a - b) mod U64.
Definition checked_add (a b : Z) : option Z :=
  if a + b <? U64 then Some (a + b) else None.
Definition saturating_mul (a b : Z) : Z := Z.min (a * b) (U64 - 1).

(** Rust's [!x] on a u64. *)
Definition not64 (x : Z) : Z := U64 - 1 - x.

Definition bit (k : Z) : Z := Z.shiftl 1 k.

(** [(x & m) != 0] *)
Definition has_bits (x m : Z) : bool := negb (Z.land x m =? 0).

(** ** Fallible and effectful code

    A computation over a state [S] returns, panics, runs into undefined
    behaviour (or an access the machine model does not map), or is still
    spinning in a busy-wait loop when its polling fuel is used up. *)

Inductive outcome (S A : Type) : Type :=
| Ret (a : A) (s : S)
| Panic (why : string) (s : S)
| Undef (why : string) (s : S)
| Spin (s : S).
Arguments Ret {_ _} _ _.
Arguments Panic {_ _} _ _.
Arguments Undef {_ _} _ _.
Arguments Spin {_ _} _.

Definition M (S A : Type) : Type := S → outcome S A.

#[global] Instance M_ret S : MRet (M S) := λ A a s, Ret a s.
#[global] Instance M_bind S : MBind (M S) := λ A B k m s,
  match m s with
  | Ret a s' => k a s'
  | Panic why s' => Panic why s'
  | Undef why s' => Undef why s'
  | Spin s' => Spin s'
  end.

Definition gets {S A} (f : S → A) : M S A := λ s, Ret (f s) s.
Definition modify {S} (f : S → S) : M S unit := λ s, Ret () (f s).
Definition panic {S A} (why : string) : M S A := λ s, Panic why s.
Definition undef {S A} (why : string) : M S A := λ s, Undef why s.

(** [Option::expect] *)
Definition expect {S A} (o : option A) (why : string) : M S A :=
  match o with Some a => mret a | None => panic why end.

(** [+], [-] and [*] on u64 with the overflow checks of the dev profile. *)
Definition add64 {S} (a b : Z) : M S Z :=
  if a + b <? U64 then mret (a + b) else panic "attempt to add with overflow".
Definition sub64 {S} (a b : Z) : M S Z :=
  if b <=? a then mret (a - b) else panic "attempt to subtract with overflow".

Definition mul64 {S} (a b : Z) : M S Z :=
  if a * b <? U64 then mret (a * b) else panic "attempt to multiply with overflow".

(** Rust's [Result] and the [?] operator. *)
Inductive result (A E : Type) : Type :=
| Ok (a : A)
| Err (e : E).
Arguments Ok {_ _} _.
Arguments Err {_ _} _.

Definition is_ok {A E} (r : result A E) : bool :=
  match r with Ok _ => true | Err _ => false end.

Definition rbind {S A B E} (m : M S (result A E)) (k : A → M S (result B E))
  : M S (result B E) :=
  r ← m; match r with Ok a => k a | Err e => mret (Err e) end.

Notation "x '←?' y ; z" := (rbind y (λ x : _, z))
  (at level 20, y at level 100, z at level 200, only parsing) : stdpp_scope.

(** [for x in l { body }] *)
Fixpoint for_each {S A} (l : list A) (body : A → M S unit) : M S unit :=
  match l with
  | [] => mret ()
  | x :: l' => body x;; for_each l' body
  end.

(** ** Total-correctness triples

    [wp m Q s]: [m] started in [s] returns, in a state and with a value that
    satisfy [Q].  A panic, undefined behaviour or spinning does not satisfy
    any [wp]. *)

Definition wp {S A} (m : M S A) (Q : A → S → Prop) (s : S) : Prop :=
  match m s with Ret a s' => Q a s' | _ => False end.

Section wp_rules.
Context {S : Type}.
Implicit Types s : S.

Lemma wp_bind {A B} (m : M S A) (k : A → M S B) Q s :
  wp m (λ a s', wp (k a) Q s') s → wp (m ≫= k) Q s.
Proof. unfold wp, mbind, M_bind. by destruct (m s). Qed.

Lemma wp_bind_inv {A B} (m : M S A) (k : A → M S B) Q s :
  wp (m ≫= k) Q s → wp m (λ a s', wp (k a) Q s') s.
Proof. unfold wp, mbind, M_bind. by destruct (m s). Qed.

Lemma wp_ret {A} (a : A) (Q : A → S → Prop) s : Q a s → wp (mret a) Q s.
Proof. done. Qed.

Lemma wp_gets {A} (f : S → A) (Q : A → S → Prop) s : Q (f s) s → wp (gets f) Q s.
Proof. done. Qed.

Lemma wp_modify (f : S → S) (Q : unit → S → Prop) s : Q () (f s) → wp (modify f) Q s.
Proof. done. Qed.

Lemma wp_mono {A} (m : M S A) (P Q : A → S → Prop) s :
  wp m P s → (∀ a s', P a s' → Q a s') → wp m Q s.
Proof. unfold wp. destruct (m s); naive_solver. Qed.

Lemma wp_and {A} (m : M S A) (P Q : A → S → Prop) s :
  wp m P s → wp m Q s → wp m (λ a s', P a s' ∧ Q a s') s.
Proof. unfold wp. by destruct (m s). Qed.

Lemma wp_elim {A} (m : M S A) Q s :
  wp m Q s → ∃ a s', m s = Ret a s' ∧ Q a s'.
Proof. unfold wp. destruct (m s); naive_solver. Qed.

Lemma wp_intro {A} (m : M S A) (Q : A → S → Prop) a s s' :
  m s = Ret a s' → Q a s' → wp m Q s.
Proof. unfold wp. by intros ->. Qed.

Lemma wp_rbind {A B E} (m : M S (result A E)) (k : A → M S (result B E)) Q s :
  wp m (λ r s', match r with Ok a => wp (k a) Q s' | Err e => Q (Err e) s' end) s →
  wp (rbind m k) Q s.
Proof.
  intros H. apply wp_bind. eapply wp_mono; [exact H|].
  intros [a|e] s'; [done|]. by intros; apply wp_ret.
Qed.

Lemma wp_add64 a b (Q : Z → S → Prop) s :
  a + b < U64 → Q (a + b) s → wp (add64 a b) Q s.
Proof. intros Hlt HQ. unfold add64. by rewrite (proj2 (Z.ltb_lt _ _) Hlt). Qed.

Lemma wp_sub64 a b (Q : Z → S → Prop) s :
  b <= a → Q (a - b) s → wp (sub64 a b) Q s.
Proof. intros Hle HQ. unfold sub64. by rewrite (proj2 (Z.leb_le _ _) Hle). Qed.

Lemma wp_mul64 a b (Q : Z → S → Prop) s :
  a * b < U64 → Q (a * b) s → wp (mul64 a b) Q s.
Proof. intros Hlt HQ. unfold mul64. by rewrite (proj2 (Z.ltb_lt _ _) Hlt). Qed.

Lemma wp_expect {A} (o : option A) a why (Q : A → S → Prop) s :
  o = Some a → Q a s → wp (expect o why) Q s.
Proof. by intros ->. Qed.
End wp_rules.

(** [wp_step] runs one primitive step of a goal [wp m Q s]. *)
Ltac wp_step :=
  lazymatch goal with
  | |- wp (mbind _ _) _ _ => apply wp_bind
  | |- wp (rbind _ _) _ _ => apply wp_rbind
  | |- wp (mret _) _ _ => apply wp_ret
  | |- wp (gets _) _ _ => apply wp_gets
  | |- wp (modify _) _ _ => apply wp_modify
  end; cbv beta.
Ltac wp_steps := repeat wp_step.

(** [wp_call L] uses the specification [L] for the call at the head of the
    goal and continues after it. *)
Tactic Notation "wp_call" uconstr(L) := eapply wp_mono; [apply L | cbv beta].

(** ** Frames

    [keeps π m]: whenever [m] returns, [π] of the state is what it was. *)

Definition keeps {S A T} (π : S → T) (m : M S A) : Prop :=
  ∀ s, match m s with Ret _ s' => π s' = π s | _ => True end.

Section keeps.
Context {S T : Type} (π : S → T).

Lemma keeps_ret {A} (a : A) : keeps π (mret a).
Proof. by intros s. Qed.

Lemma keeps_gets {A} (f : S → A) : keeps π (gets f).
Proof. by intros s. Qed.

Lemma keeps_panic {A} why : keeps π (panic (A := A) why).
Proof. by intros s. Qed.

Lemma keeps_undef {A} why : keeps π (undef (A := A) why).
Proof. by intros s. Qed.

Lemma keeps_modify f : (∀ s, π (f s) = π s) → keeps π (modify f).
Proof. intros H s. apply H. Qed.

Lemma keeps_bind {A B} (m : M S A) (k : A → M S B) :
  keeps π m → (∀ a, keeps π (k a)) → keeps π (m ≫= k).
Proof.
  intros Hm Hk s. unfold mbind, M_bind. specialize (Hm s). destruct (m s) as [a s'| | |]; [|done..].
  specialize (Hk a s'). destruct (k a s'); [congruence|done..].
Qed.

Lemma keeps_for_each {A} (l : list A) f : (∀ x, keeps π (f x)) → keeps π (for_each l f).
Proof.
  intros H. induction l as [|x l IH]; [apply keeps_ret|]. cbn. apply keeps_bind; [apply H|done].
Qed.

Lemma keeps_add64 a b : keeps π (add64 a b).
Proof. unfold add64. case_match; [apply keeps_ret|apply keeps_panic]. Qed.

Lemma keeps_sub64 a b : keeps π (sub64 a b).
Proof. unfold sub64. case_match; [apply keeps_ret|apply keeps_panic]. Qed.

Lemma keeps_mul64 a b : keeps π (mul64 a b).
Proof. unfold mul64. case_match; [apply keeps_ret|apply keeps_panic]. Qed.

Lemma keeps_expect {A} (o : option A) why : keeps π (expect o why).
Proof. destruct o; [apply keeps_ret|apply keeps_panic]. Qed.

Lemma keeps_wp {A} (m : M S A) Q s : keeps π m → wp m Q s → wp m (λ a s', Q a s' ∧ π s' = π s) s.
Proof. intros Hk. unfold wp. specialize (Hk s). by destruct (m s). Qed.
End keeps.

Create HintDb keeps.
#[export] Hint Resolve keeps_ret keeps_gets keeps_panic keeps_undef keeps_add64 keeps_sub64 keeps_mul64
  keeps_expect : keeps.

Ltac keeps_step :=
  first
    [ solve [eauto 2 with keeps nocore]
    | apply keeps_bind; [|intros]
    | apply keeps_for_each; intros
    | apply keeps_modify; intros; reflexivity
    | match goal with
      | |- keeps _ (match ?x with _ => _ end) => destruct x
      | |- keeps _ (let _ := _ in _) => cbv zeta
      end ].
Ltac solve_keeps := repeat keeps_step.

(** ** Bits *)

Lemma bit_pow2 k : 0 <= k → bit k = 2 ^ k.
Proof. intros. unfold bit. by rewrite Z.shiftl_1_l. Qed.

Lemma land_pow2 x k : 0 <= k → Z.land x (2 ^ k) = if Z.testbit x k then 2 ^ k else 0.
Proof.
  intros Hk. apply Z.bits_inj'. intros n Hn.
  rewrite Z.land_spec, Z.pow2_bits_eqb by done.
  destruct (Z.eqb_spec k n) as [->|Hne].
  - destruct (Z.testbit x n) eqn:E; rewrite ?Z.bits_0, ?Z.pow2_bits_true by done; done.
  - rewrite andb_false_r. destruct (Z.testbit x k); rewrite ?Z.bits_0; [|done].
    by rewrite Z.pow2_bits_false.
Qed.

Lemma has_bits_bit x k : 0 <= k → has_bits x (bit k) = Z.testbit x k.
Proof.
  intros Hk. unfold has_bits. rewrite bit_pow2, land_pow2 by done.
  destruct (Z.testbit x k); [|done].
  assert (0 < 2 ^ k) by (by apply Z.pow_pos_nonneg).
  by rewrite (proj2 (Z.eqb_neq _ _)) by lia.
Qed.

Lemma land_ones_mod x n : 0 <= n → Z.land x (Z.ones n) = x mod 2 ^ n.
Proof. apply Z.land_ones. Qed.

(** Masking with a run of ones shifted up by [k] is rounding down to a
    multiple of [2^k] below [2^(k+n)]. *)
Lemma land_shifted_ones x k n :
  0 <= k → 0 <= n →
  Z.land x (Z.shiftl (Z.ones n) k) = (x / 2 ^ k) mod 2 ^ n * 2 ^ k.
Proof.
  intros Hk Hn. rewrite <- Z.land_ones, <- Z.shiftr_div_pow2, <- Z.shiftl_mul_pow2 by done.
  apply Z.bits_inj'. intros i Hi.
  rewrite Z.land_spec, !Z.shiftl_spec by done.
  destruct (Z.ltb_spec i k) as [Hlt|Hge].
  - rewrite !(Z.testbit_neg_r _ (i - k)) by lia. by rewrite andb_false_r.
  - rewrite Z.land_spec, Z.shiftr_spec by lia. by replace (i - k + k) with i by lia.
Qed.

Lemma land_shifted_ones_id x k n :
  0 <= k → 0 <= n → 0 <= x < 2 ^ (k + n) → x mod 2 ^ k = 0 →
  Z.land x (Z.shiftl (Z.ones n) k) = x.
Proof.
  intros Hk Hn Hx Hm. rewrite land_shifted_ones by done.
  rewrite Z.pow_add_r in Hx by done.
  assert (0 < 2 ^ k) by (by apply Z.pow_pos_nonneg).
  pose proof (Z.div_mod x (2 ^ k) ltac:(lia)) as Hd.
  rewrite Z.mod_small; [lia|]. split; [apply Z.div_pos; lia|].
  apply Z.div_lt_upper_bound; lia.
Qed.

Lemma land_low_high x y k :
  0 <= k → 0 <= x < 2 ^ k → y mod 2 ^ k = 0 → Z.land x y = 0.
Proof.
  intros Hk Hx Hy. apply Z.bits_inj'. intros i Hi. rewrite Z.land_spec, Z.bits_0.
  destruct (Z.ltb_spec i k) as [Hlt|Hge].
  - replace (Z.testbit y i) with false; [by rewrite andb_false_r|].
    rewrite <- (Z.mod_pow2_bits_low y k i) by lia. by rewrite Hy, Z.bits_0.
  - assert (Z.testbit x i = false) as ->; [|done].
    rewrite <- (Z.mod_small x (2 ^ k)) by done.
    apply Z.mod_pow2_bits_high; lia.
Qed.

Lemma lor_low_high x y k :
  0 <= k → 0 <= x < 2 ^ k → y mod 2 ^ k = 0 → Z.lor y x = y + x.
Proof.
  intros Hk Hx Hy. rewrite Z.add_nocarry_lxor.
  - apply Z.bits_inj'. intros i Hi.
    rewrite Z.lor_spec, Z.lxor_spec.
    pose proof (land_low_high x y k Hk Hx Hy) as Hl.
    apply (f_equal (λ z, Z.testbit z i)) in Hl.
    rewrite Z.land_spec, Z.bits_0 in Hl.
    by destruct (Z.testbit x i), (Z.testbit y i).
  - rewrite Z.land_comm. by apply (land_low_high _ _ k).
Qed.

Lemma land_range x n : 0 <= n → 0 <= Z.land x (Z.ones n) < 2 ^ n.
Proof. intros. rewrite Z.land_ones by done. apply Z.mod_pos_bound. by apply Z.pow_pos_nonneg. Qed.

Lemma u64_high_bits x n : is_u64 x → 64 <= n → Z.testbit x n = false.
Proof.
  unfold is_u64, U64. intros Hx Hn. rewrite <- (Z.mod_small x (2 ^ 64)) by done.
  apply Z.mod_pow2_bits_high. lia.
Qed.

(** [x & !m] clears the bits of [m]. *)
Lemma land_not64 x m : is_u64 x → is_u64 m → Z.land x (not64 m) = Z.ldiff x m.
Proof.
  intros Hx Hm. apply Z.bits_inj'. intros n Hn. rewrite Z.land_spec, Z.ldiff_spec.
  destruct (Z.lt_ge_cases n 64) as [Hlt|Hge]; [|by rewrite (u64_high_bits x)].
  f_equal. rewrite <- Z.lnot_spec by done.
  rewrite <- (Z.mod_pow2_bits_low (not64 m) 64), <- (Z.mod_pow2_bits_low (Z.lnot m) 64) by done.
  f_equal. unfold not64, U64, Z.lnot.
  replace (2 ^ 64 - 1 - m) with (Z.pred (- m) + 1 * 2 ^ 64) by lia. by rewrite Z.mod_add.
Qed.

Lemma u64_of_bits x : 0 <= x → (∀ n, 64 <= n → Z.testbit x n = false) → is_u64 x.
Proof.
  intros H0 Hb. assert (x mod 2 ^ 64 = x) as <-.
  - apply Z.bits_inj'. intros n Hn. destruct (Z.lt_ge_cases n 64).
    + by apply Z.mod_pow2_bits_low.
    + rewrite Z.mod_pow2_bits_high by lia. by rewrite Hb.
  - unfold is_u64, U64. apply Z.mod_pos_bound. lia.
Qed.

Lemma is_u64_lor x y : is_u64 x → is_u64 y → is_u64 (Z.lor x y).
Proof.
  intros Hx Hy. apply u64_of_bits; [apply Z.lor_nonneg; unfold is_u64 in *; lia|].
  intros n Hn. by rewrite Z.lor_spec, !u64_high_bits.
Qed.

Lemma lor_bit_u64 v k : is_u64 v → 0 <= k < 64 → is_u64 (Z.lor v (bit k)).
Proof.
  intros Hv Hk. rewrite bit_pow2 by lia. apply u64_of_bits.
  - apply Z.lor_nonneg. split; [by destruct Hv|]. apply Z.pow_nonneg. lia.
  - intros n Hn. rewrite Z.lor_spec, (u64_high_bits v), Z.pow2_bits_false by (done || lia). done.
Qed.

Lemma ldiff_u64 x m : is_u64 x → is_u64 (Z.ldiff x m).
Proof.
  intros Hx. apply u64_of_bits.
  - apply Z.ldiff_nonneg. left. by destruct Hx.
  - intros n Hn. by rewrite Z.ldiff_spec, (u64_high_bits x).
Qed.
