(* ===== verification/Fmt.v ===== *)
(** * Number formatting

    What [core::fmt] prints for the directives the kernel uses on unsigned
    integers: ["{}"], ["{:02}"], ["{:#x}"] and ["{:02x}"]. *)

From S2P Require Import Prelude.

Definition digit_char (d : Z) : Ascii.ascii :=
  Ascii.ascii_of_nat (Z.to_nat (if d <? 10 then 48 + d else 87 + d)).

(** Digits of [n] in base [b], most significant first, in front of [acc]; a
    u64 has at most 64 digits in any base. *)
Fixpoint digits (fuel : nat) (b n : Z) (acc : string) : string :=
  match fuel with
  | O => acc
  | S f =>
      let acc' := String (digit_char (n mod b)) acc in
      if n / b =? 0 then acc' else digits f b (n / b) acc'
  end.

Definition fmt_dec (n : Z) : string := digits 64 10 n "".
Definition fmt_hex_plain (n : Z) : string := digits 64 16 n "".
(** ["{:#x}"] *)
Definition fmt_hex (n : Z) : string := "0x" +:+ fmt_hex_plain n.

(** Width 2, padded with zeros. *)
Definition pad2 (s : string) : string :=
  if (String.length s <? 2)%nat then "0" +:+ s else s.
Definition fmt_dec2 (n : Z) : string := pad2 (fmt_dec n).
Definition fmt_hex2 (n : Z) : string := pad2 (fmt_hex_plain n).

(** ** Printing loses nothing *)

Definition char_digit (c : Ascii.ascii) : Z :=
  let k := Z.of_nat (Ascii.nat_of_ascii c) in if k <? 58 then k - 48 else k - 87.

Fixpoint parse (b : Z) (acc : Z) (s : string) : Z :=
  match s with
  | EmptyString => acc
  | String c s' => parse b (acc * b + char_digit c) s'
  end.

Lemma char_digit_char d : 0 <= d < 16 → char_digit (digit_char d) = d.
Proof.
  intros Hd. assert (d ∈ Z.of_nat <$> seq 0 16) as H.
  { apply list_elem_of_fmap. exists (Z.to_nat d). split; [lia|]. apply elem_of_seq. lia. }
  cbn in H. repeat (apply elem_of_cons in H as [->|H]; [reflexivity|]). by apply elem_of_nil in H.
Qed.

Lemma parse_digits fuel b n acc : 2 <= b <= 16 → 0 <= n < b ^ Z.of_nat fuel →
  parse b 0 (digits fuel b n acc) = parse b n acc.
Proof.
  intros Hb. revert n acc. induction fuel as [|f IH]; intros n acc Hn.
  { cbn in Hn. assert (n = 0) as -> by lia. done. }
  rewrite Nat2Z.inj_succ, Z.pow_succ_r in Hn by lia. cbn [digits]. cbv zeta.
  pose proof (Z.div_mod n b ltac:(lia)). pose proof (Z.mod_pos_bound n b ltac:(lia)).
  destruct (Z.eqb_spec (n / b) 0) as [E|E].
  - cbn [parse]. rewrite char_digit_char by lia. f_equal. lia.
  - rewrite IH.
    + cbn [parse]. rewrite char_digit_char by lia. f_equal. lia.
    + split; [apply Z.div_pos; lia|]. apply Z.div_lt_upper_bound; lia.
Qed.

Lemma fmt_dec_parse n : is_u64 n → parse 10 0 (fmt_dec n) = n.
Proof.
  intros Hn. unfold fmt_dec. rewrite parse_digits; [done|lia|]. unfold is_u64, U64 in Hn.
  split; [lia|]. eapply Z.lt_trans; [apply Hn|done].
Qed.

Lemma fmt_hex_parse n : is_u64 n → parse 16 0 (fmt_hex_plain n) = n.
Proof.
  intros Hn. unfold fmt_hex_plain. rewrite parse_digits; [done|lia|]. unfold is_u64, U64 in Hn.
  split; [lia|]. eapply Z.lt_trans; [apply Hn|done].
Qed.
