(* ===== verification/Layout.v ===== *)
(** * Layout of [#[repr(C)]] structs

    The kernel hands several structs to hardware or across the boot ABI and
    takes their size with [core::mem::size_of].  This file computes the
    [repr(C)] layout (the Rust reference's algorithm: each field at the next
    multiple of its alignment, the size rounded up to the struct's alignment)
    and proves that the fields it places are aligned and disjoint. *)

From S2P Require Import Prelude.

(** A field's size and alignment. *)
Record field := Field { f_size : Z; f_align : Z }.

Definition u8_f := Field 1 1.
Definition u16_f := Field 2 2.
Definition u32_f := Field 4 4.
Definition u64_f := Field 8 8.
Definition array_f (n : Z) (f : field) := Field (n * f_size f) (f_align f).

Definition round_up (x a : Z) : Z := (x + a - 1) / a * a.

Fixpoint offsets (off : Z) (fs : list field) : list Z :=
  match fs with
  | [] => []
  | f :: fs' => let o := round_up off (f_align f) in o :: offsets (o + f_size f) fs'
  end.

Fixpoint end_of (off : Z) (fs : list field) : Z :=
  match fs with
  | [] => off
  | f :: fs' => end_of (round_up off (f_align f) + f_size f) fs'
  end.

(** [min_align] is 1, or the [align(N)] of the attribute. *)
Definition struct_align (min_align : Z) (fs : list field) : Z :=
  foldr (λ f, Z.max (f_align f)) min_align fs.

Definition struct_size (min_align : Z) (fs : list field) : Z :=
  round_up (end_of 0 fs) (struct_align min_align fs).

Definition struct_f (min_align : Z) (fs : list field) : field :=
  Field (struct_size min_align fs) (struct_align min_align fs).

(** [repr(C, packed)]: every alignment is 1. *)
Definition packed (f : field) : field := Field (f_size f) 1.
Definition packed_f (fs : list field) : field := struct_f 1 (packed <$> fs).

(** ** Images

    The bytes of a struct: each field's bytes at its offset, zero padding in
    between. *)

Fixpoint le_bytes (n : nat) (v : Z) : list Z :=
  match n with
  | O => []
  | S n' => v mod 256 :: le_bytes n' (v / 256)
  end.

Fixpoint le_combine (l : list Z) : Z :=
  match l with
  | [] => 0
  | b :: l' => b + 256 * le_combine l'
  end.

Fixpoint place (cur : Z) (fs : list (field * list Z)) : list Z :=
  match fs with
  | [] => []
  | (f, b) :: fs' =>
      let o := round_up cur (f_align f) in
      replicate (Z.to_nat (o - cur)) 0 ++ b ++ place (o + f_size f) fs'
  end.

(** The [n]-byte little-endian integer at offset [o]. *)
Definition read_le (n : nat) (o : Z) (l : list Z) : Z := le_combine (take n (drop (Z.to_nat o) l)).

Definition field_ok (f : field) : Prop := 0 <= f_size f ∧ 0 < f_align f.

Lemma round_up_le x a : 0 < a → x <= round_up x a.
Proof. intros. unfold round_up. pose proof (Z.div_mod (x + a - 1) a ltac:(lia)).
  pose proof (Z.mod_pos_bound (x + a - 1) a ltac:(lia)). nia. Qed.

Lemma round_up_lt x a : 0 < a → round_up x a < x + a.
Proof. intros. unfold round_up. pose proof (Z.div_mod (x + a - 1) a ltac:(lia)).
  pose proof (Z.mod_pos_bound (x + a - 1) a ltac:(lia)). nia. Qed.

Lemma round_up_aligned x a : 0 < a → round_up x a mod a = 0.
Proof. intros. unfold round_up. by apply Z.mod_mul, not_eq_sym, Z.lt_neq. Qed.

Lemma round_up_id x a : 0 < a → x mod a = 0 → round_up x a = x.
Proof.
  intros Ha Hm. pose proof (round_up_le x a Ha). pose proof (round_up_lt x a Ha).
  pose proof (round_up_aligned x a Ha) as Hr. apply Z.mod_divide in Hr as [q Hq]; [|lia].
  apply Z.mod_divide in Hm as [r ->]; [|lia]. rewrite Hq in *.
  assert (q = r) as -> by nia. done.
Qed.

Lemma offsets_lookup fs off i o f :
  offsets off fs !! i = Some o → fs !! i = Some f → Forall field_ok fs →
  off <= o ∧ o mod f_align f = 0.
Proof.
  revert off i. induction fs as [|g fs IH]; intros off i Ho Hf Hok; [done|].
  apply Forall_cons in Hok as [[Hs Ha] Hok]. destruct i as [|i]; simplify_eq/=.
  - split; [by apply round_up_le|by apply round_up_aligned].
  - destruct (IH _ _ Ho Hf Hok) as [Hle Hal]. split; [|done].
    pose proof (round_up_le off (f_align g) Ha). lia.
Qed.

(** Fields placed by [offsets] are in declaration order and do not overlap. *)
Lemma offsets_disjoint fs off i j oi oj fi :
  Forall field_ok fs → (i < j)%nat →
  offsets off fs !! i = Some oi → offsets off fs !! j = Some oj →
  fs !! i = Some fi → oi + f_size fi <= oj.
Proof.
  revert off i j. induction fs as [|g fs IH]; intros off i j Hok Hij Hi Hj Hf; [done|].
  apply Forall_cons in Hok as [[Hs Ha] Hok]. destruct j as [|j]; [lia|]. simpl in Hj.
  destruct i as [|i]; simplify_eq/=.
  - assert (is_Some (fs !! j)) as [fj Hfj].
    { apply lookup_lt_is_Some. apply lookup_lt_Some in Hj.
      assert (∀ l z, length (offsets z l) = length l) as Hlen.
      { induction l as [|? l IHl]; intros z; simpl; [done|]. by rewrite IHl. }
      by rewrite Hlen in Hj. }
    by destruct (offsets_lookup _ _ _ _ _ Hj Hfj Hok).
  - eapply (IH _ i j); [done|lia|done..].
Qed.

Lemma le_combine_bytes n v : le_combine (le_bytes n v) = v mod 256 ^ Z.of_nat n.
Proof.
  revert v. induction n as [|n IH]; intros v; [by rewrite Z.mod_1_r|].
  cbn [le_bytes le_combine]. rewrite IH, Nat2Z.inj_succ, Z.pow_succ_r by lia.
  rewrite Z.rem_mul_r by lia. lia.
Qed.

Lemma length_le_bytes n v : length (le_bytes n v) = n.
Proof. revert v. induction n as [|n IH]; intros v; [done|]. cbn. by rewrite IH. Qed.
