(* ===== verification/Bootabi.v ===== *)
(** * The boot ABI (crates/bootabi/src/lib.rs)

    The plain data the bootloader glue hands to the kernel, with the
    discriminants and the sizes the ABI fixes. *)

From S2P Require Import Prelude Layout.

Definition BOOTABI_MAGIC : Z := 0x424f4f54.
Definition BOOTABI_VERSION : Z := 1.

Record BootHeader := mkBootHeader { magic : Z; version : Z; header_size : Z }.

Inductive Arch := X86_64 | Aarch64.
Definition Arch_raw (a : Arch) : Z := match a with X86_64 => 1 | Aarch64 => 2 end.

Inductive BootMode := BM_Unknown | BM_Bios | BM_Uefi.

Definition BootMode_from_raw (raw : Z) : BootMode :=
  if raw =? 1 then BM_Bios else if raw =? 2 then BM_Uefi else BM_Unknown.

Definition BootMode_as_raw (m : BootMode) : Z :=
  match m with BM_Unknown => 0 | BM_Bios => 1 | BM_Uefi => 2 end.

Record ByteSpan := mkByteSpan { span_ptr : Z; span_len : Z }.
Definition ByteSpan_empty : ByteSpan := mkByteSpan 0 0.
Definition ByteSpan_is_empty (s : ByteSpan) : bool :=
  (span_ptr s =? 0) || (span_len s =? 0).

Definition BootFlags_NONE : Z := 0.
Definition MemMapFlags_TRUNCATED : Z := bit 0.

Inductive MemType :=
| MT_Reserved | MT_Usable | MT_AcpiReclaimable | MT_AcpiNvs
| MT_Mmio | MT_BadMemory | MT_BootloaderReclaimable | MT_KernelAndModules.

Definition MemType_raw (t : MemType) : Z :=
  match t with
  | MT_Reserved => 0 | MT_Usable => 1 | MT_AcpiReclaimable => 2 | MT_AcpiNvs => 3
  | MT_Mmio => 4 | MT_BadMemory => 5 | MT_BootloaderReclaimable => 6
  | MT_KernelAndModules => 7
  end.

#[global] Instance MemType_eq_dec : EqDecision MemType.
Proof. solve_decision. Defined.

Record MemMapEntry := mkMemMapEntry {
  base : Z; len : Z; mem_type : MemType; me_pad : Z; me_flags : Z
}.

(** base, len, mem_type, _pad, flags *)
Definition MemMapEntry_fields : list field := [u64_f; u64_f; u8_f; u8_f; u16_f].
Definition sizeof_MemMapEntry : Z := struct_size 1 MemMapEntry_fields.

Record MemMapView := mkMemMapView {
  entries_ptr : Z; entry_count : Z; entry_size : Z; view_flags : Z
}.

Inductive FbFormat := Fb_Rgb | Fb_Bgr | Fb_Unknown.

Record Framebuffer := mkFramebuffer {
  fb_addr : Z; fb_width : Z; fb_height : Z; fb_pitch : Z; fb_bpp : Z; fb_format : FbFormat
}.

Record BootInfo := mkBootInfo {
  hdr : BootHeader;
  arch : Arch;
  boot_mode : Z;
  cpu_count : Z;
  phys_addr_bits : Z;
  virt_addr_bits : Z;
  hhdm_offset : Z;
  mem : MemMapView;
  acpi_rsdp : Z;
  fb : Framebuffer;
  cmdline : ByteSpan;
  bootloader : ByteSpan;
  boot_flags : Z
}.

Definition BootHeader_f : field := struct_f 1 [u32_f; u16_f; u16_f].
Definition MemMapView_f : field := struct_f 1 [u64_f; u32_f; u16_f; u16_f].
Definition ByteSpan_f : field := struct_f 1 [u64_f; u32_f; u32_f].
Definition Framebuffer_f : field :=
  struct_f 1 [u64_f; u32_f; u32_f; u32_f; u16_f; u8_f; u8_f].

(** hdr, arch, boot_mode, _pad0, cpu_count, phys_addr_bits, virt_addr_bits,
    _pad1, hhdm_offset, mem, acpi_rsdp, fb, cmdline, bootloader, boot_flags,
    _pad2 *)
Definition BootInfo_fields : list field :=
  [BootHeader_f; u8_f; u8_f; array_f 2 u8_f; u32_f; u8_f; u8_f; array_f 2 u8_f;
   u64_f; MemMapView_f; u64_f; Framebuffer_f; ByteSpan_f; ByteSpan_f; u32_f; u32_f].
Definition sizeof_BootInfo : Z := struct_size 1 BootInfo_fields.

(** [as_raw] and [from_raw] are inverse on the modes the bootloader reports. *)
Lemma BootMode_raw_roundtrip m : BootMode_from_raw (BootMode_as_raw m) = m.
Proof. by destruct m. Qed.

Lemma BootMode_from_raw_unknown raw :
  raw ≠ 1 → raw ≠ 2 → BootMode_from_raw raw = BM_Unknown.
Proof.
  intros. unfold BootMode_from_raw.
  by rewrite (proj2 (Z.eqb_neq _ _)), (proj2 (Z.eqb_neq _ _)).
Qed.

Lemma sizeof_MemMapEntry_eq : sizeof_MemMapEntry = 24.
Proof. reflexivity. Qed.

Lemma sizeof_BootInfo_eq : sizeof_BootInfo = 120.
Proof. reflexivity. Qed.
