(* ===== verification/HalTypes.v ===== *)
(** * Data of the HAL contracts (crates/hal)

    The neutral types that cross the arch / kernel boundary: addresses,
    mapping flags, error enums, the opaque address-space handle, interrupt
    frames, and the static objects that implement the HAL traits. *)

From S2P Require Import Prelude.

Definition PhysAddr : Type := Z.
Definition VirtAddr : Type := Z.

(** [bitflags! MapFlags : u32], a set of bits. *)
Definition MapFlags : Type := Z.
Definition READ : MapFlags := bit 0.
Definition WRITE : MapFlags := bit 1.
Definition EXEC : MapFlags := bit 2.
Definition USER : MapFlags := bit 3.
Definition GLOBAL : MapFlags := bit 4.
Definition UNCACHED : MapFlags := bit 5.

(** [MapFlags::contains] *)
Definition contains (self other : MapFlags) : bool := Z.land self other =? other.

Inductive MapError := Unaligned | AlreadyMapped | NotMapped | OutOfMemory | InvalidArgs.
Inductive TranslateError := TE_NotMapped | TE_InvalidAddress.

#[global] Instance MapError_eq_dec : EqDecision MapError.
Proof. solve_decision. Defined.
#[global] Instance TranslateError_eq_dec : EqDecision TranslateError.
Proof. solve_decision. Defined.

(** [AddressSpace(NonNull<()>)]: an opaque pointer to an arch-owned
    [X86AddressSpace].  The objects it can point to are the payload of the
    static [KAS] and the [space] field of each element of [AS_SLOTS];
    [NonNull::dangling()] is the third case. *)
Inductive AddressSpace := AsKas | AsSlot (i : nat) | AsDangling.

#[global] Instance AddressSpace_eq_dec : EqDecision AddressSpace.
Proof. solve_decision. Defined.

Inductive IrqKind := IK_Fault | IK_Timer | IK_External | IK_Spurious | IK_Unknown.
Inductive FaultKind :=
| FK_None | FK_PageFault | FK_GeneralProtection | FK_InvalidOpcode
| FK_DivideByZero | FK_DoubleFault | FK_Unknown.

#[global] Instance IrqKind_eq_dec : EqDecision IrqKind.
Proof. solve_decision. Defined.
#[global] Instance FaultKind_eq_dec : EqDecision FaultKind.
Proof. solve_decision. Defined.

Record IrqFrame := mkIrqFrame {
  kind : IrqKind; fault_kind : FaultKind; irq : Z; error_code : Z; fault_addr : Z
}.

(** The static objects of the program behind [&'static dyn Trait]: one
    implementor of each trait exists. *)
Inductive SerialObj := COM1_WRITER.
Inductive TimerObj := TSC_TIMER.
Inductive HandlerObj := KERNEL_INTERRUPTS.
Inductive LogObj := CONSOLE_SERIAL.

#[global] Instance SerialObj_eq_dec : EqDecision SerialObj.
Proof. solve_decision. Defined.
#[global] Instance TimerObj_eq_dec : EqDecision TimerObj.
Proof. solve_decision. Defined.
#[global] Instance HandlerObj_eq_dec : EqDecision HandlerObj.
Proof. solve_decision. Defined.
#[global] Instance LogObj_eq_dec : EqDecision LogObj.
Proof. solve_decision. Defined.

Lemma contains_spec (f : MapFlags) k : 0 <= k → contains f (bit k) = Z.testbit f k.
Proof.
  intros Hk. unfold contains. rewrite bit_pow2, land_pow2 by done.
  assert (0 < 2 ^ k) by (by apply Z.pow_pos_nonneg).
  destruct (Z.testbit f k); [by rewrite Z.eqb_refl|].
  by rewrite (proj2 (Z.eqb_neq _ _)) by lia.
Qed.
