(* ===== verification/Paging.v ===== *)
(** * x86-64 four-level paging

    The architecture's side of the MMU contract: physical memory as u64
    cells, the page walk the processor performs from CR3 (Intel SDM vol. 3,
    4-level paging, with 1 GiB and 2 MiB pages), and the tree of page tables
    that hangs off a root.  Nothing here is kernel code; the kernel's page
    table operations are specified against [hw_walk].

    The second half is the theory of that tree: what a write to a leaf table
    and the linking of a fresh zeroed table do to every walk. *)

From S2P Require Import Prelude.

(** ** Memory cells and entries *)

(** Physical memory, one cell per 8-byte aligned address; cells that were
    never written read as 0. *)
Abbreviation ram := (gmap Z Z).

Definition rd (m : ram) (a : Z) : Z := default 0 (m !! a).

(** Entry [i] of the table at physical address [t]. *)
Definition pte (m : ram) (t i : Z) : Z := rd m (t + 8 * i).

Definition pte_present (e : Z) : bool := Z.testbit e 0.
Definition pte_write (e : Z) : bool := Z.testbit e 1.
Definition pte_user (e : Z) : bool := Z.testbit e 2.
Definition pte_large (e : Z) : bool := Z.testbit e 7.
Definition pte_global (e : Z) : bool := Z.testbit e 8.
Definition pte_nx (e : Z) : bool := Z.testbit e 63.

(** Bits 51:12 of an entry or of CR3. *)
Definition frame_of (e : Z) : Z := (e / 2 ^ 12) mod 2 ^ 40 * 2 ^ 12.

(** Paging levels: 3 = PML4, 2 = PDPT, 1 = PD, 0 = PT. *)
Definition level_shift (l : nat) : Z := 12 + 9 * Z.of_nat l.
Definition index (l : nat) (va : Z) : Z := (va / 2 ^ level_shift l) mod 512.

(** ** The walk *)

Record mapping := mkMapping {
  m_pa : Z;      (** physical address *)
  m_w : bool;    (** writable at every level *)
  m_u : bool;    (** user at every level *)
  m_nx : bool;   (** no-execute at some level *)
  m_g : bool;    (** global *)
  m_level : nat  (** level of the leaf: 0 for 4 KiB pages *)
}.

Record rights := mkRights { r_w : bool; r_u : bool; r_nx : bool }.
Definition all_rights : rights := mkRights true true false.
Definition restrict (r : rights) (e : Z) : rights :=
  mkRights (r_w r && pte_write e) (r_u r && pte_user e) (r_nx r || pte_nx e).

Definition leaf_mapping (l : nat) (e va : Z) (r : rights) : mapping :=
  let s := level_shift l in
  mkMapping ((e / 2 ^ s) mod 2 ^ (52 - s) * 2 ^ s + va mod 2 ^ s)
            (r_w r) (r_u r) (r_nx r) (pte_global e) l.

Fixpoint walk (l : nat) (m : ram) (t va : Z) (r : rights) : option mapping :=
  let e := pte m t (index l va) in
  if negb (pte_present e) then None else
  let r' := restrict r e in
  match l with
  | O => Some (leaf_mapping 0 e va r')
  | S l' =>
      if pte_large e
      then (if Nat.eqb l 3 then None else Some (leaf_mapping l e va r'))
      else walk l' m (frame_of e) va r'
  end.

(** The translation of [va] by the tables under the root [root]; [None] is a
    page fault. *)
Definition hw_walk (m : ram) (root va : Z) : option mapping :=
  walk 3 m root va all_rights.

(** ** The tree of tables *)

(** The table reached from [t] through the entries listed in [p]. *)
Fixpoint follow (m : ram) (t : Z) (p : list Z) : option Z :=
  match p with
  | [] => Some t
  | i :: p' =>
      let e := pte m t i in
      if pte_present e && negb (pte_large e) then follow m (frame_of e) p' else None
  end.

(** The rights collected on the way down [p]. *)
Fixpoint collect (m : ram) (t : Z) (p : list Z) (r : rights) : rights :=
  match p with
  | [] => r
  | i :: p' => collect m (frame_of (pte m t i)) p' (restrict r (pte m t i))
  end.

(** The indices [va] selects from level [l] down. *)
Fixpoint path (l : nat) (va : Z) : list Z :=
  match l with
  | O => [index 0 va]
  | S l' => index l va :: path l' va
  end.

Definition table_index (i : Z) : Prop := 0 <= i < 512.

(** A path to a table: at most three indices below the root. *)
Definition table_path (p : list Z) : Prop :=
  (length p <= 3)%nat ∧ Forall table_index p.

(** No table is reached along two different paths. *)
Definition no_alias (m : ram) (root : Z) : Prop :=
  ∀ p q t, table_path p → table_path q →
    follow m root p = Some t → follow m root q = Some t → p = q.

Definition reachable (m : ram) (root t : Z) : Prop :=
  ∃ p, table_path p ∧ follow m root p = Some t.

(** A tree of page tables in the first [limit] bytes of memory. *)
Record tree_ok (limit : Z) (m : ram) (root : Z) : Prop := mkTreeOk {
  tree_root_aligned : root mod 4096 = 0;
  tree_no_alias : no_alias m root;
  tree_range : ∀ t, reachable m root t → 0 <= t ∧ t + 4096 <= limit
}.

(** Every present entry the walk of [va] meets above the page table
    satisfies [P]. *)
Definition path_entries (P : Z → Prop) (m : ram) (root va : Z) : Prop :=
  ∀ k t, (k < 3)%nat → follow m root (take k (path 3 va)) = Some t →
    pte_present (pte m t (index (3 - k) va)) = true →
    P (pte m t (index (3 - k) va)).

(** The walk of [va] meets no large page. *)
Definition no_large : ram → Z → Z → Prop := path_entries (λ e, pte_large e = false).

(** The raw entry of [va] in its page table, when the walk gets there. *)
Definition leaf_entry (m : ram) (root va : Z) : option Z :=
  t ← follow m root (take 3 (path 3 va)); Some (pte m t (index 0 va)).

(** [n] cells from [a] set to zero. *)
Definition zero_cells (m : ram) (a : Z) (n : nat) : ram :=
  foldr (λ i m', <[a + 8 * Z.of_nat i := 0]> m') m (seq 0 n).

(** [n] cells copied from [src] to [dst]. *)
Definition copy_cells (m : ram) (src dst : Z) (n : nat) : ram :=
  foldr (λ i m', <[dst + 8 * Z.of_nat i := rd m (src + 8 * Z.of_nat i)]> m') m (seq 0 n).

Arguments rd : simpl never.
Arguments pte : simpl never.
Arguments pte_present : simpl never.
Arguments pte_write : simpl never.
Arguments pte_user : simpl never.
Arguments pte_large : simpl never.
Arguments pte_global : simpl never.
Arguments pte_nx : simpl never.
Arguments frame_of : simpl never.
Arguments index : simpl never.
Arguments zero_cells : simpl never.
Arguments copy_cells : simpl never.

(** ** Cells *)

Lemma rd_insert_eq m a v : rd (<[a:=v]> m) a = v.
Proof. unfold rd. by rewrite lookup_insert_eq. Qed.

Lemma rd_insert_ne m a b v : a ≠ b → rd (<[a:=v]> m) b = rd m b.
Proof. intros. unfold rd. by rewrite lookup_insert_ne. Qed.

Lemma lookup_foldr_insert (m : ram) a (f : nat → Z) (l : list nat) b :
  foldr (λ i m', <[a + 8 * Z.of_nat i := f i]> m') m l !! b =
  match list_find (λ i, a + 8 * Z.of_nat i = b) l with
  | Some (_, i) => Some (f i)
  | None => m !! b
  end.
Proof.
  induction l as [|i l IH]; [done|]. cbn. destruct (decide (a + 8 * Z.of_nat i = b)) as [<-|Hne].
  - by rewrite lookup_insert_eq.
  - rewrite lookup_insert_ne, IH by done. by destruct (list_find _ l) as [[]|].
Qed.

Lemma rd_foldr_insert (m : ram) a (f : nat → Z) (l : list nat) b :
  rd (foldr (λ i m', <[a + 8 * Z.of_nat i := f i]> m') m l) b =
  match list_find (λ i, a + 8 * Z.of_nat i = b) l with
  | Some (_, i) => f i
  | None => rd m b
  end.
Proof. unfold rd. rewrite lookup_foldr_insert. by destruct (list_find _ l) as [[]|]. Qed.

(** Zeroing twice is zeroing once. *)
Lemma zero_cells_idem m a n : zero_cells (zero_cells m a n) a n = zero_cells m a n.
Proof.
  apply map_eq. intros b. unfold zero_cells.
  rewrite !(lookup_foldr_insert _ a (λ _, 0)). by destruct (list_find _ _) as [[]|].
Qed.

Lemma rd_range_in (m : ram) a (f : nat → Z) n (i : nat) :
  (i < n)%nat →
  rd (foldr (λ i m', <[a + 8 * Z.of_nat i := f i]> m') m (seq 0 n)) (a + 8 * Z.of_nat i) = f i.
Proof.
  intros Hi. rewrite rd_foldr_insert.
  destruct (list_find _ _) as [[k j]|] eqn:E.
  - apply list_find_Some in E as (_ & E & _). f_equal. lia.
  - exfalso. apply list_find_None in E. rewrite Forall_forall in E.
    apply (E i); [|done]. apply elem_of_seq. lia.
Qed.

Lemma rd_range_out (m : ram) a (f : nat → Z) n b :
  (∀ i : nat, (i < n)%nat → a + 8 * Z.of_nat i ≠ b) →
  rd (foldr (λ i m', <[a + 8 * Z.of_nat i := f i]> m') m (seq 0 n)) b = rd m b.
Proof.
  intros Hb. rewrite rd_foldr_insert.
  destruct (list_find _ _) as [[k j]|] eqn:E; [|done].
  apply list_find_Some in E as (Hk & E & _). apply lookup_seq in Hk as [-> ?].
  exfalso. by eapply Hb.
Qed.

Lemma rd_zero_in m a n (i : nat) :
  (i < n)%nat → rd (zero_cells m a n) (a + 8 * Z.of_nat i) = 0.
Proof. apply (rd_range_in m a (λ _, 0)). Qed.

Lemma rd_zero_out m a n b :
  (∀ i : nat, (i < n)%nat → a + 8 * Z.of_nat i ≠ b) → rd (zero_cells m a n) b = rd m b.
Proof. apply (rd_range_out m a (λ _, 0)). Qed.

Lemma rd_copy_in m src dst n (i : nat) :
  (i < n)%nat → rd (copy_cells m src dst n) (dst + 8 * Z.of_nat i) = rd m (src + 8 * Z.of_nat i).
Proof. apply (rd_range_in m dst (λ i, rd m (src + 8 * Z.of_nat i))). Qed.

Lemma rd_copy_out m src dst n b :
  (∀ i : nat, (i < n)%nat → dst + 8 * Z.of_nat i ≠ b) → rd (copy_cells m src dst n) b = rd m b.
Proof. apply (rd_range_out m dst (λ i, rd m (src + 8 * Z.of_nat i))). Qed.

(** ** Entries of distinct tables are distinct cells *)

Lemma cell_inj t t' i i' :
  t mod 4096 = 0 → t' mod 4096 = 0 → table_index i → table_index i' →
  t + 8 * i = t' + 8 * i' → t = t' ∧ i = i'.
Proof.
  unfold table_index. intros Ht Ht' Hi Hi' E.
  apply Z.mod_divide in Ht as [a ->]; [|lia]. apply Z.mod_divide in Ht' as [b ->]; [|lia]. lia.
Qed.

Lemma pte_insert_eq m t i v : pte (<[t + 8 * i := v]> m) t i = v.
Proof. apply rd_insert_eq. Qed.

Lemma pte_insert_ne m t t' i i' v :
  t mod 4096 = 0 → t' mod 4096 = 0 → table_index i → table_index i' →
  (t, i) ≠ (t', i') → pte (<[t + 8 * i := v]> m) t' i' = pte m t' i'.
Proof.
  intros Ht Ht' Hi Hi' Hne. apply rd_insert_ne. intros E.
  destruct (cell_inj _ _ _ _ Ht Ht' Hi Hi' E). congruence.
Qed.

Lemma pte_zero_in m f i : table_index i → pte (zero_cells m f 512) f i = 0.
Proof.
  unfold table_index. intros Hi. unfold pte.
  replace i with (Z.of_nat (Z.to_nat i)) by lia. apply rd_zero_in. lia.
Qed.

Lemma pte_zero_out m f t i :
  f mod 4096 = 0 → t mod 4096 = 0 → table_index i → t ≠ f →
  pte (zero_cells m f 512) t i = pte m t i.
Proof.
  intros Hf Ht Hi Hne. apply rd_zero_out. intros k Hk E.
  apply Hne. symmetry. apply (cell_inj f t (Z.of_nat k) i); [done|done| |done|done].
  unfold table_index. lia.
Qed.

Lemma index_range l va : table_index (index l va).
Proof. unfold index, table_index. apply Z.mod_pos_bound. lia. Qed.

Lemma frame_of_aligned e : frame_of e mod 4096 = 0.
Proof. unfold frame_of. apply Z.mod_mul. lia. Qed.

Lemma frame_of_range e : 0 <= frame_of e < 2 ^ 52.
Proof. unfold frame_of. pose proof (Z.mod_pos_bound (e / 2 ^ 12) (2 ^ 40)). lia. Qed.

Create HintDb paging.
#[export] Hint Resolve index_range frame_of_aligned : paging.

(** ** Paths *)

Lemma length_path l va : length (path l va) = S l.
Proof. induction l as [|l IH]; [done|]. cbn. by rewrite IH. Qed.

Lemma path_lookup l va k : (k <= l)%nat → path l va !! k = Some (index (l - k) va).
Proof.
  revert k. induction l as [|l IH]; intros [|k] Hk; [done|lia|done|].
  change (path l va !! k = Some (index (l - k) va)). apply IH. lia.
Qed.

Lemma path_indices l va : Forall table_index (path l va).
Proof. induction l as [|l IH]; cbn; auto using Forall_cons_2, index_range. Qed.

Lemma take_path_ok k va : (k <= 3)%nat → table_path (take k (path 3 va)).
Proof.
  intros Hk. split; [rewrite length_take; lia|]. apply Forall_take, path_indices.
Qed.

Lemma table_path_take k p : table_path p → table_path (take k p).
Proof. intros [Hl Hf]. split; [rewrite length_take; lia|by apply Forall_take]. Qed.

Lemma follow_app m t p q : follow m t (p ++ q) = follow m t p ≫= λ t', follow m t' q.
Proof.
  revert t. induction p as [|i p IH]; intros t; [done|]. cbn.
  destruct (pte_present (pte m t i) && negb (pte_large (pte m t i))); [apply IH|done].
Qed.

Lemma follow_aligned m t p t' : t mod 4096 = 0 → follow m t p = Some t' → t' mod 4096 = 0.
Proof.
  revert t. induction p as [|i p IH]; intros t Ht Hf; simplify_eq/=; [done|].
  case_match; [|done]. eapply IH; [|done]. apply frame_of_aligned.
Qed.

Lemma reachable_aligned m root t : root mod 4096 = 0 → reachable m root t → t mod 4096 = 0.
Proof. intros Hr (p & _ & Hp). by eapply follow_aligned. Qed.

Lemma root_reachable m root : reachable m root root.
Proof. exists []. split; [|done]. split; [simpl; lia|constructor]. Qed.

Lemma follow_take m t p k t' :
  follow m t p = Some t' → ∃ t'', follow m t (take k p) = Some t''.
Proof.
  intros H. rewrite <- (take_drop k p), follow_app in H.
  destruct (follow m t (take k p)); [eauto|done].
Qed.

Lemma follow_shorter m root va k : (k < 3)%nat → follow m root (take (S k) (path 3 va)) = None →
  follow m root (take 3 (path 3 va)) = None.
Proof.
  intros Hk H. destruct (follow m root (take 3 (path 3 va))) as [x|] eqn:E; [|done].
  destruct (follow_take _ _ _ (S k) _ E) as [y Hy].
  rewrite take_take in Hy. replace (S k `min` 3)%nat with (S k) in Hy by lia. congruence.
Qed.

(** ** Walks and table paths depend only on the entries they read *)

Lemma follow_agree m m' t p :
  (∀ k i t', p !! k = Some i → follow m t (take k p) = Some t' → pte m' t' i = pte m t' i) →
  follow m' t p = follow m t p.
Proof.
  revert t. induction p as [|i p IH]; intros t H; [done|]. cbn.
  rewrite (H 0%nat i t) by done.
  destruct (pte_present (pte m t i) && negb (pte_large (pte m t i))) eqn:E; [|done].
  apply IH. intros k j t' Hk Hf. apply (H (S k)); [done|]. cbn. by rewrite E.
Qed.

Lemma walk_agree l m m' t va r :
  (∀ k t', (k <= l)%nat → follow m t (take k (path l va)) = Some t' →
     pte m' t' (index (l - k) va) = pte m t' (index (l - k) va)) →
  walk l m' t va r = walk l m t va r.
Proof.
  revert t r. induction l as [|l IH]; intros t r H.
  - pose proof (H 0%nat t ltac:(lia) eq_refl) as H0. simpl in H0. cbn. by rewrite H0.
  - pose proof (H 0%nat t ltac:(lia) eq_refl) as H0. rewrite Nat.sub_0_r in H0.
    cbn [walk]. rewrite H0.
    destruct (pte_present (pte m t (index (S l) va))) eqn:Ep; [cbn [negb]|done].
    destruct (pte_large (pte m t (index (S l) va))) eqn:El; [done|].
    apply IH. intros k t' Hk Hf. apply (H (S k)); [lia|].
    cbn [path take]. cbn [follow]. by rewrite Ep, El.
Qed.

(** After the first [k] levels the walk is the walk from the table reached
    there, with the rights collected on the way. *)
Lemma walk_follow l m t va r k t' :
  (k <= l)%nat → follow m t (take k (path l va)) = Some t' →
  walk l m t va r = walk (l - k) m t' va (collect m t (take k (path l va)) r).
Proof.
  revert t r k. induction l as [|l IH]; intros t r k Hk Hf.
  - assert (k = 0%nat) as -> by lia. by simplify_eq/=.
  - destruct k as [|k]; [by simplify_eq/=|].
    cbn [path take follow] in Hf.
    destruct (pte_present (pte m t (index (S l) va)) &&
              negb (pte_large (pte m t (index (S l) va)))) eqn:E; [|done].
    apply andb_true_iff in E as [Ep El]. apply negb_true_iff in El.
    cbn [walk path take collect]. rewrite Ep, El. cbn [negb Nat.sub].
    apply IH; [lia|done].
Qed.

Lemma walk_absent l m t va r : pte_present (pte m t (index l va)) = false → walk l m t va r = None.
Proof. intros H. destruct l; cbn [walk]; by rewrite H. Qed.

(** ** Updating one table of the tree *)

Section tree.
Context (limit : Z) (m : ram) (root : Z).
Context (Htree : tree_ok limit m root).

Lemma tree_path_aligned p t : follow m root p = Some t → t mod 4096 = 0.
Proof. apply follow_aligned, Htree. Qed.

(** A write to entry [i] of the table at the end of [p] is seen by a path
    only when the path goes through that entry. *)
Lemma pte_write_other p t i v k q j t' :
  table_path p → follow m root p = Some t → table_index i →
  table_path (take k q) → q !! k = Some j → table_index j →
  follow m root (take k q) = Some t' →
  ¬ (p ++ [i]) `prefix_of` q →
  pte (<[t + 8 * i := v]> m) t' j = pte m t' j.
Proof.
  intros Hp Ht Hi Hq Hj Hji Ht' Hnp.
  apply pte_insert_ne; eauto using tree_path_aligned.
  intros [= -> ->]. apply Hnp.
  rewrite (tree_no_alias _ _ _ Htree p (take k q) t') by done.
  rewrite <- (take_S_r q k j) by done. apply prefix_take.
Qed.

Lemma follow_write p t i v q :
  table_path p → follow m root p = Some t → table_index i → table_path q →
  ¬ (p ++ [i]) `prefix_of` q →
  follow (<[t + 8 * i := v]> m) root q = follow m root q.
Proof.
  intros Hp Ht Hi Hq Hnp. apply follow_agree. intros k j t' Hj Ht'.
  eapply (pte_write_other p t i v k q); eauto using table_path_take.
  destruct Hq as [_ Hq]. by eapply Forall_lookup_1.
Qed.

Lemma walk_write p t i v va :
  table_path p → follow m root p = Some t → table_index i →
  ¬ (p ++ [i]) `prefix_of` (path 3 va) →
  hw_walk (<[t + 8 * i := v]> m) root va = hw_walk m root va.
Proof.
  intros Hp Ht Hi Hnp. apply walk_agree. intros k t' Hk Ht'.
  eapply (pte_write_other p t i v k (path 3 va));
    eauto using take_path_ok, path_lookup, index_range.
Qed.

(** Writing a leaf entry keeps the tree. *)
Lemma tree_write_leaf p t i v :
  table_path p → length p = 3%nat → follow m root p = Some t → table_index i →
  tree_ok limit (<[t + 8 * i := v]> m) root.
Proof.
  intros Hp Hl Ht Hi.
  assert (∀ q, table_path q → follow (<[t + 8 * i := v]> m) root q = follow m root q) as Heq.
  { intros q Hq. apply (follow_write p); try done.
    intros Hpre%prefix_length. rewrite length_app in Hpre. simpl in Hpre.
    destruct Hq. lia. }
  destruct Htree as [Ha Hn Hr]. split; [done| |].
  - intros q1 q2 t' Hq1 Hq2. rewrite !Heq by done. eauto.
  - intros t' (q & Hq & Hf). rewrite Heq in Hf by done. apply Hr. by exists q.
Qed.

(** Zeroing a frame that is not one of the tables changes nothing. *)
Lemma pte_zero_other f t i :
  f mod 4096 = 0 → ¬ reachable m root f → reachable m root t → table_index i →
  pte (zero_cells m f 512) t i = pte m t i.
Proof.
  intros Hf Hnr Hr Hi. apply pte_zero_out; [done| |done|].
  - by eapply reachable_aligned; [apply Htree|].
  - by intros ->.
Qed.

Lemma follow_zero f q :
  f mod 4096 = 0 → ¬ reachable m root f → table_path q →
  follow (zero_cells m f 512) root q = follow m root q.
Proof.
  intros Hf Hnr Hq. apply follow_agree. intros k j t' Hj Ht'.
  apply pte_zero_other; [done|done| |].
  - exists (take k q). eauto using table_path_take.
  - destruct Hq as [_ Hq]. by eapply Forall_lookup_1.
Qed.

Lemma walk_zero f va :
  f mod 4096 = 0 → ¬ reachable m root f →
  hw_walk (zero_cells m f 512) root va = hw_walk m root va.
Proof.
  intros Hf Hnr. apply walk_agree. intros k t' Hk Ht'.
  apply pte_zero_other; [done|done| |apply index_range].
  exists (take k (path 3 va)). split; [by apply take_path_ok|done].
Qed.

Lemma tree_zero f :
  f mod 4096 = 0 → ¬ reachable m root f → tree_ok limit (zero_cells m f 512) root.
Proof.
  intros Hf Hnr. destruct Htree as [Ha Hn Hr]. split; [done| |].
  - intros q1 q2 t Hq1 Hq2. rewrite !follow_zero by done. eauto.
  - intros t (q & Hq & Ht). rewrite follow_zero in Ht by done. apply Hr. by exists q.
Qed.
End tree.

(** ** Linking a fresh table *)

(** The memory after a fresh frame [f] is zeroed and entry [i] of [t] is set
    to [e]. *)
Definition link (m : ram) (t i f e : Z) : ram := <[t + 8 * i := e]> (zero_cells m f 512).

Section link.
Context (limit : Z) (m : ram) (root : Z) (p : list Z) (t i f e : Z).
Context (Htree : tree_ok limit m root).
Context (Hp : table_path p) (Hlen : (length p <= 2)%nat).
Context (Ht : follow m root p = Some t) (Hi : table_index i).
Context (Habs : pte_present (pte m t i) = false).
Context (Hf : f mod 4096 = 0) (Hfresh : ¬ reachable m root f).
Context (Hrange : 0 <= f ∧ f + 4096 <= limit).
Context (Hep : pte_present e = true) (Hel : pte_large e = false) (Hef : frame_of e = f).

#[local] Abbreviation m1 := (zero_cells m f 512).

Lemma link_tree1 : tree_ok limit m1 root.
Proof. by apply tree_zero. Qed.

Lemma link_follow1 : follow m1 root p = Some t.
Proof. by rewrite (follow_zero limit). Qed.

Lemma link_reachable_t : reachable m root t.
Proof. by exists p. Qed.

Lemma link_ne : t ≠ f.
Proof. intros E. apply Hfresh. rewrite <- E. apply link_reachable_t. Qed.

Lemma link_new_path : table_path (p ++ [i]).
Proof.
  destruct Hp as [? Hpi]. split; [rewrite length_app; simpl; lia|].
  apply Forall_app. split; [done|by apply Forall_singleton].
Qed.

(** The new table is empty. *)
Lemma link_new_empty j : table_index j → pte (link m t i f e) f j = 0.
Proof.
  intros Hj. unfold link. rewrite pte_insert_ne; try done.
  - by apply pte_zero_in.
  - by eapply tree_path_aligned.
  - intros [= ? ?]. by apply link_ne.
Qed.

Lemma follow_link_new : follow (link m t i f e) root (p ++ [i]) = Some f.
Proof.
  rewrite follow_app. unfold link.
  rewrite (follow_write limit m1 root link_tree1 p t i e p); try done.
  - rewrite link_follow1. cbn. by rewrite pte_insert_eq, Hep, Hel, Hef.
  - apply link_follow1.
  - intros Hpre%prefix_length. rewrite length_app in Hpre. simpl in Hpre. lia.
Qed.

Lemma follow_link_below q : table_path (p ++ [i] ++ q) →
  follow (link m t i f e) root (p ++ [i] ++ q) = if decide (q = []) then Some f else None.
Proof.
  intros Hq. rewrite app_assoc, follow_app, follow_link_new. cbn.
  destruct q as [|j q]; [done|]. cbn. rewrite link_new_empty; [done|].
  destruct Hq as [_ Hq]. apply Forall_app in Hq as [_ Hq].
  apply Forall_app in Hq as [_ Hq]. by apply Forall_cons in Hq as [? _].
Qed.

Lemma follow_link_old q : table_path q → ¬ (p ++ [i]) `prefix_of` q →
  follow (link m t i f e) root q = follow m root q.
Proof.
  intros Hq Hnp. unfold link.
  rewrite (follow_write limit m1 root link_tree1 p); try done; [|apply link_follow1].
  by apply (follow_zero limit).
Qed.

Lemma follow_absent q : follow m root (p ++ [i] ++ q) = None.
Proof. rewrite follow_app, Ht. cbn. by rewrite Habs. Qed.

(** Linking an empty table below an absent entry changes no translation. *)
Lemma walk_link va : hw_walk (link m t i f e) root va = hw_walk m root va.
Proof.
  destruct (decide ((p ++ [i]) `prefix_of` path 3 va)) as [Hpre|Hnp].
  - set (k := length p).
    assert (take k (path 3 va) = p ∧ index (3 - k) va = i) as [Hk Hki].
    { destruct Hpre as [q Hq]. rewrite Hq, <- app_assoc.
      split; [by apply take_app_length|].
      pose proof (path_lookup 3 va k ltac:(unfold k; lia)) as Hl.
      rewrite Hq, <- app_assoc in Hl. unfold k in Hl.
      rewrite lookup_app_r, Nat.sub_diag in Hl by lia. by simplify_eq/=. }
    assert (take (S k) (path 3 va) = p ++ [i]) as HSk.
    { rewrite (take_S_r _ _ i); [by rewrite Hk|].
      rewrite path_lookup by (unfold k; lia). by rewrite Hki. }
    transitivity (@None mapping).
    + unfold hw_walk. rewrite (walk_follow 3 _ _ _ _ (S k) f); [|unfold k; lia|].
      * apply walk_absent. by rewrite link_new_empty by apply index_range.
      * rewrite HSk. apply follow_link_new.
    + unfold hw_walk. rewrite (walk_follow 3 _ _ _ _ k t); [|unfold k; lia|by rewrite Hk].
      symmetry. apply walk_absent. by rewrite Hki.
  - unfold link. rewrite (walk_write limit m1 root link_tree1 p); try done.
    + by apply (walk_zero limit).
    + apply link_follow1.
Qed.

Lemma link_reachable x : reachable (link m t i f e) root x ↔ reachable m root x ∨ x = f.
Proof.
  split.
  - intros (q & Hq & Hx). destruct (decide ((p ++ [i]) `prefix_of` q)) as [[r ->]|Hnp].
    + rewrite <- app_assoc in Hq, Hx. rewrite follow_link_below in Hx by done.
      case_decide; simplify_eq. by right.
    + rewrite follow_link_old in Hx by done. left. by exists q.
  - intros [(q & Hq & Hx)| ->].
    + exists q. split; [done|]. rewrite follow_link_old; [done|done|].
      intros [r ->]. rewrite <- app_assoc, follow_absent in Hx. done.
    + exists (p ++ [i]). split; [apply link_new_path|apply follow_link_new].
Qed.

Lemma follow_link_inv q x : table_path q → follow (link m t i f e) root q = Some x →
  (q = p ++ [i] ∧ x = f) ∨ (follow m root q = Some x).
Proof.
  intros Hq Hx. destruct (decide ((p ++ [i]) `prefix_of` q)) as [[r ->]|Hnp].
  - rewrite <- app_assoc in Hq, Hx. rewrite follow_link_below in Hx by done.
    case_decide; simplify_eq. left. by rewrite app_nil_r.
  - right. by rewrite follow_link_old in Hx.
Qed.

Lemma tree_link : tree_ok limit (link m t i f e) root.
Proof.
  split.
  - apply Htree.
  - intros q1 q2 x Hq1 Hq2 H1 H2.
    apply follow_link_inv in H1, H2; [|done..].
    destruct H1 as [[-> ->]|H1], H2 as [[-> E]|H2]; simplify_eq; [done| | |].
    + destruct Hfresh. by exists q2.
    + destruct Hfresh. by exists q1.
    + by eapply (tree_no_alias _ _ _ Htree).
  - intros x [Hx| ->]%link_reachable; [|done]. by apply Htree.
Qed.
End link.

(** ** Virtual pages *)

(** Bits 63:47 of a canonical address are equal. *)
Definition canonical (va : Z) : Prop := 0 <= va < 2 ^ 47 ∨ 2 ^ 64 - 2 ^ 47 <= va < 2 ^ 64.

Definition page_of (va : Z) : Z := va / 4096.

(** The walk distinguishes the pages of canonical addresses. *)
Lemma path_inj va va' : canonical va → canonical va' →
  path 3 va = path 3 va' → page_of va = page_of va'.
Proof.
  unfold canonical, page_of, path, index. intros Hc Hc' [= H3 H2 H1 H0].
  change (2 ^ level_shift 3) with 549755813888 in *. change (2 ^ level_shift 2) with 1073741824 in *.
  change (2 ^ level_shift 1) with 2097152 in *. change (2 ^ level_shift 0) with 4096 in *.
  Z.to_euclidean_division_equations. lia.
Qed.

Lemma index_page l va : index l va = (page_of va / 2 ^ (9 * Z.of_nat l)) mod 512.
Proof.
  unfold index, page_of, level_shift. change 4096 with (2 ^ 12).
  rewrite Z.div_div, <- Z.pow_add_r by lia. done.
Qed.

Lemma path_page va va' : page_of va = page_of va' → path 3 va = path 3 va'.
Proof. intros H. unfold path. by rewrite !index_page, H. Qed.

Lemma path_entries_page P m root va v :
  page_of v = page_of va → path_entries P m root va → path_entries P m root v.
Proof.
  intros E H k t Hk. rewrite (path_page _ _ E), !(index_page _ v), E, <- !index_page. by apply H.
Qed.

Lemma canonical_page va v : canonical va → 0 <= v < 2 ^ 64 → page_of v = page_of va → canonical v.
Proof. unfold canonical, page_of. intros. Z.to_euclidean_division_equations. lia. Qed.

(** The whole path of an address is never a prefix of another page's path. *)
Lemma path_split va : path 3 va = take 3 (path 3 va) ++ [index 0 va].
Proof. done. Qed.

Lemma path_not_prefix va va' : canonical va → canonical va' → page_of va ≠ page_of va' →
  ¬ (take 3 (path 3 va) ++ [index 0 va]) `prefix_of` path 3 va'.
Proof.
  intros Hc Hc' Hne Hpre. rewrite <- path_split in Hpre. apply Hne, path_inj; [done..|].
  apply prefix_length_eq; [done|]. by rewrite !length_path.
Qed.

(** ** Setting one leaf entry *)

Section leaf.
Context (limit : Z) (m : ram) (root va t e : Z).
Context (Htree : tree_ok limit m root) (Hva : canonical va).
Context (Ht : follow m root (take 3 (path 3 va)) = Some t).

#[local] Abbreviation m' := (<[t + 8 * index 0 va := e]> m).

Lemma leaf_path : table_path (take 3 (path 3 va)).
Proof. by apply take_path_ok. Qed.

Lemma leaf_tree : tree_ok limit m' root.
Proof. by eapply tree_write_leaf; eauto using leaf_path, index_range. Qed.

Lemma leaf_follow q : table_path q → follow m' root q = follow m root q.
Proof.
  intros Hq. apply (follow_write limit m root Htree (take 3 (path 3 va)));
    [apply leaf_path|done|apply index_range|done|].
  intros Hpre%prefix_length. rewrite length_app in Hpre. simpl in Hpre. destruct Hq. lia.
Qed.

Lemma leaf_walk_other v : canonical v → page_of va ≠ page_of v →
  hw_walk m' root v = hw_walk m root v.
Proof.
  intros Hv Hne. apply (walk_write limit m root Htree (take 3 (path 3 va)));
    [apply leaf_path|done|apply index_range|by apply path_not_prefix].
Qed.

Lemma leaf_path_entries P v : path_entries P m root v → path_entries P m' root v.
Proof.
  intros HP k x Hk Hx Hpr. rewrite leaf_follow in Hx by (apply take_path_ok; lia).
  assert (pte m' x (index (3 - k) v) = pte m x (index (3 - k) v)) as E.
  { eapply (pte_write_other limit m root Htree (take 3 (path 3 va)) t (index 0 va) e k
    (take 3 (path 3 v))); try done; eauto using leaf_path, index_range, table_path_take, take_path_ok.
    - rewrite lookup_take_lt by lia. apply path_lookup. lia.
    - rewrite take_take. by replace (k `min` 3)%nat with k by lia.
    - intros Hpre%prefix_length. rewrite length_app in Hpre. simpl in Hpre. lia. }
  rewrite E in *. by apply HP.
Qed.

Lemma leaf_entry_new : leaf_entry m' root va = Some e.
Proof. unfold leaf_entry. rewrite leaf_follow, Ht by apply leaf_path. cbn. by rewrite pte_insert_eq. Qed.

Lemma leaf_entry_other v : canonical v → page_of va ≠ page_of v →
  leaf_entry m' root v = leaf_entry m root v.
Proof.
  intros Hv Hne. unfold leaf_entry. rewrite leaf_follow by by apply take_path_ok.
  destruct (follow m root (take 3 (path 3 v))) as [t'|] eqn:Ht'; [cbn; f_equal|done].
  eapply (pte_write_other limit m root Htree (take 3 (path 3 va)) t (index 0 va) e 3 (path 3 v));
    eauto using leaf_path, index_range, take_path_ok. by apply path_not_prefix.
Qed.
End leaf.

(** The walk of an address whose page table is reached. *)
Lemma walk_leaf m root va t :
  follow m root (take 3 (path 3 va)) = Some t →
  hw_walk m root va =
  if pte_present (pte m t (index 0 va))
  then Some (leaf_mapping 0 (pte m t (index 0 va)) va
               (restrict (collect m root (take 3 (path 3 va)) all_rights) (pte m t (index 0 va))))
  else None.
Proof.
  intros Ht. unfold hw_walk. rewrite (walk_follow 3 _ _ _ _ 3 t); [|lia|done].
  cbn [Nat.sub walk]. by destruct (pte_present _).
Qed.

(** An entry that lets every requested access through: writable, executable,
    and user-accessible when [user]. *)
Definition open_entry (user : bool) (e : Z) : Prop :=
  pte_write e = true ∧ (user = true → pte_user e = true) ∧ pte_nx e = false.

(** With open entries on the path the leaf alone decides the rights. *)
Lemma collect_open user m root va t :
  follow m root (take 3 (path 3 va)) = Some t →
  path_entries (open_entry user) m root va →
  let r := collect m root (take 3 (path 3 va)) all_rights in
  r_w r = true ∧ (user = true → r_u r = true) ∧ r_nx r = false.
Proof.
  intros Hf Ho r.
  assert (∀ k, (k < 3)%nat → ∃ x, follow m root (take k (path 3 va)) = Some x ∧
    open_entry user (pte m x (index (3 - k) va))) as He.
  { intros k Hk. destruct (follow_take m root (take 3 (path 3 va)) (S k) t Hf) as [y Hy].
    rewrite take_take in Hy. replace (S k `min` 3)%nat with (S k) in Hy by lia.
    rewrite (take_S_r _ _ (index (3 - k) va)), follow_app in Hy by (apply path_lookup; lia).
    destruct (follow m root (take k (path 3 va))) as [x|] eqn:Hx; [|done].
    exists x. split; [done|]. apply Ho; [done|done|]. cbn in Hy.
    by destruct (pte_present (pte m x (index (3 - k) va))). }
  destruct (He 0%nat ltac:(lia)) as (x0 & Hx0 & Hw0 & Hu0 & Hn0).
  destruct (He 1%nat ltac:(lia)) as (x1 & Hx1 & Hw1 & Hu1 & Hn1).
  destruct (He 2%nat ltac:(lia)) as (x2 & Hx2 & Hw2 & Hu2 & Hn2).
  cbn [Nat.sub] in *. cbn in Hx0, Hx1, Hx2. repeat case_match; simplify_eq.
  unfold r. cbn. rewrite Hw0, Hw1, Hw2, Hn0, Hn1, Hn2. split; [done|]. split; [|done].
  intros Hu. by rewrite Hu0, Hu1, Hu2.
Qed.

(** All addresses of a page fault together. *)
Lemma walk_none_page l m t va v r : page_of v = page_of va →
  walk l m t va r = None → walk l m t v r = None.
Proof.
  intros E. revert t r. induction l as [|l IH]; intros t r; cbn [walk];
    rewrite !(index_page _ v), E, <- !index_page.
  - by destruct (negb _).
  - destruct (negb _); [done|]. destruct (pte_large _); [by destruct (Nat.eqb _ _)|]. apply IH.
Qed.

Lemma hw_walk_none_page m root va v : page_of va = page_of v →
  hw_walk m root va = None → hw_walk m root v = None.
Proof. intros E. by apply walk_none_page. Qed.
