(* ===== verification/World.v ===== *)
(** * The machine and the kernel's static variables

    [World] is the state every operation of the kernel runs in: the fixed
    environment (what firmware, linker and bootloader decide), the processor
    and its devices, and one record per Rust module for its [static]s.

    The second half gives the instructions the source issues through [asm!]
    and intrinsics: control registers, MSRs, port I/O, the local APIC, the
    TLB, and memory accesses through the higher-half direct map. *)

From S2P Require Import Prelude Bootabi HalTypes Paging.

(** ** Data behind the statics *)

(** mmu.rs *)
Record X86AddressSpace := mkX86AddressSpace { pml4_phys : PhysAddr }.

Record AddressSpaceSlot := mkSlot {
  used : bool; space : X86AddressSpace; handle : AddressSpace
}.

Record MmuSt := mkMmuSt {
  KAS : option X86AddressSpace;
  KAS_HANDLE : option AddressSpace;
  CURRENT_PER_CPU : list (option AddressSpace);
  AS_SLOTS : list AddressSpaceSlot;
  NXE_ENABLED : bool
}.

(** apic.rs *)
Record ApicSt := mkApicSt { APIC_MODE : Z; LAPIC_BASE_VIRT : Z }.

(** svc/vm.rs *)
Record BootPtAlloc := mkBootPtAlloc {
  pa_entries_ptr : Z;
  pa_entry_count : Z;
  pa_cur_entry : Z;
  pa_cur_addr : Z;
  pa_hhdm_offset : Z;
  pa_free_list : list PhysAddr;
  pa_free_count : Z
}.

Record VmSt := mkVmSt { PT_ALLOC : option BootPtAlloc; PT_ALLOC_LOCKED : bool }.

(** tss.rs: the task-state segment *)
Record Tss64 := mkTss64 {
  rsp0 : Z; rsp1 : Z; rsp2 : Z; ist : list Z; iopb_offset : Z
}.

(** idt.rs: one gate *)
Record IdtEntry := mkIdtEntry {
  offset_lo : Z; selector : Z; gate_ist : Z; type_attr : Z; offset_mid : Z; offset_hi : Z; gate_zero : Z
}.

(** A segment-table register: limit and base. *)
Record TableReg := mkTableReg { tr_limit : Z; tr_base : Z }.

(** The selectors in the data-segment registers. *)
Record DataSegs := mkDataSegs {
  seg_ds : Z; seg_es : Z; seg_ss : Z; seg_fs : Z; seg_gs : Z
}.

(** tss.rs, gdt.rs and idt.rs, with the processor's registers that point at
    them.  [FULL] is the table the processor reads, as quadwords. *)
Record SegSt := mkSegSt {
  TSS : Tss64;
  GDT : list Z;
  TSS_DESC : Z * Z;
  FULL : list Z;
  IDT : list IdtEntry;
  gdtr : TableReg;
  idtr : TableReg;
  seg_cs : Z;
  seg_data : DataSegs;
  task_reg : option (Z * Z)    (** selector and base loaded by LTR *)
}.

(** The addresses the linker gives the tables and the entry stubs. *)
Record SegEnv := mkSegEnv {
  tss_addr : Z; full_addr : Z; idt_addr : Z; df_stack_addr : Z; boot_rsp : Z;
  isr_stub_table : list Z; irq_stub_table : list Z; irq_224 : Z; irq_225 : Z
}.

(** The registries of crates/hal and the kernel's log sink. *)
Record HalSt := mkHalSt {
  SERIAL : option SerialObj;
  TIMER : option TimerObj;
  HANDLER : option HandlerObj;
  LOGGER : option LogObj
}.

(** tsc.rs, with the processor's counter: it moves on by [tsc_step] between
    two reads. *)
Record TscSt := mkTscSt { TSC_HZ : Z; tsc_counter : Z; tsc_step : Z }.

(** The string buffer of the bootloader glue, and the addresses the linker
    gives it and the buffer of the memory map. *)
Record LimineSt := mkLimineSt {
  STRBUF : list Z; STRBUF_USED : Z; strbuf_addr : Z; membuf_addr : Z
}.

(** RFLAGS: the interrupt flag and the direction flag. *)
Record FlagsSt := mkFlagsSt { if_flag : bool; df_flag : bool }.

(** The statics of the modules that do not touch page tables. *)
Record SysSt := mkSysSt {
  segenv : SegEnv; seg : SegSt; hal : HalSt; tsc : TscSt; lim : LimineSt; cpu_flags : FlagsSt
}.

(** ** The environment: constants of one boot *)

Record Env := mkEnv {
  hhdm_base : Z;                      (** where the bootloader maps physical memory *)
  phys_limit : Z;                     (** how much of it the direct map covers *)
  cpuid_leaf : Z → Z → Z * Z * Z * Z; (** CPUID: leaf, subleaf -> eax, ebx, ecx, edx *)
  lapic_id : Z;                       (** APIC id of the boot processor *)
  ipi_delay : nat;                    (** polls until an IPI is delivered *)
  uart_delay : nat;                   (** polls until a byte has left the UART *)
  poll_fuel : nat;                    (** bound on the polls of a busy-wait loop *)
  lma_ignored : bool                  (** a WRMSR that changes EFER.LMA has no effect on that bit
                                          (Intel SDM vol. 3, 2.2.1); else it is a fault *)
}.

(** ** The processor, its memory and its devices *)

Record Hw := mkHw {
  cr0 : Z; cr2 : Z; cr3 : Z; cr4 : Z;
  msrs : gmap Z Z;
  tlb : gmap Z mapping;        (** virtual page number -> cached translation *)
  mem64 : ram;                 (** physical memory as u64 cells *)
  mem_entries : gmap Z MemMapEntry; (** [MemMapEntry] objects by address *)
  lapic : gmap Z Z;            (** local APIC registers by offset *)
  icr_busy : nat;              (** polls until the pending IPI is delivered *)
  ipis : list Z;               (** IPIs sent, newest first *)
  eois : nat;                  (** end-of-interrupt signals *)
  uart_busy : nat;             (** polls until the transmitter is empty *)
  ports : list (Z * Z)         (** port writes, newest first *)
}.

Record World := mkWorld {
  env : Env;
  hw : Hw;
  HHDM_OFFSET : Z;             (** arch/x86_64/src/lib.rs *)
  mmu : MmuSt;
  apic : ApicSt;
  vm : VmSt;
  sys : SysSt
}.

(** ** Updates *)

Definition set_hw (f : Hw → Hw) (w : World) : World :=
  mkWorld (env w) (f (hw w)) (HHDM_OFFSET w) (mmu w) (apic w) (vm w) (sys w).
Definition set_HHDM_OFFSET (v : Z) (w : World) : World :=
  mkWorld (env w) (hw w) v (mmu w) (apic w) (vm w) (sys w).
Definition set_mmu (f : MmuSt → MmuSt) (w : World) : World :=
  mkWorld (env w) (hw w) (HHDM_OFFSET w) (f (mmu w)) (apic w) (vm w) (sys w).
Definition set_apic (f : ApicSt → ApicSt) (w : World) : World :=
  mkWorld (env w) (hw w) (HHDM_OFFSET w) (mmu w) (f (apic w)) (vm w) (sys w).
Definition set_vm (f : VmSt → VmSt) (w : World) : World :=
  mkWorld (env w) (hw w) (HHDM_OFFSET w) (mmu w) (apic w) (f (vm w)) (sys w).
Definition set_sys (f : SysSt → SysSt) (w : World) : World :=
  mkWorld (env w) (hw w) (HHDM_OFFSET w) (mmu w) (apic w) (vm w) (f (sys w)).
Definition set_hal (f : HalSt → HalSt) : World → World :=
  set_sys (λ s, mkSysSt (segenv s) (seg s) (f (hal s)) (tsc s) (lim s) (cpu_flags s)).
Definition set_lim (f : LimineSt → LimineSt) : World → World :=
  set_sys (λ s, mkSysSt (segenv s) (seg s) (hal s) (tsc s) (f (lim s)) (cpu_flags s)).
Definition set_cpu_flags (f : FlagsSt → FlagsSt) : World → World :=
  set_sys (λ s, mkSysSt (segenv s) (seg s) (hal s) (tsc s) (lim s) (f (cpu_flags s))).

Definition hw_cr0 (v : Z) (h : Hw) : Hw :=
  mkHw v (cr2 h) (cr3 h) (cr4 h) (msrs h) (tlb h) (mem64 h) (mem_entries h) (lapic h)
       (icr_busy h) (ipis h) (eois h) (uart_busy h) (ports h).
Definition hw_cr3 (v : Z) (t : gmap Z mapping) (h : Hw) : Hw :=
  mkHw (cr0 h) (cr2 h) v (cr4 h) (msrs h) t (mem64 h) (mem_entries h) (lapic h)
       (icr_busy h) (ipis h) (eois h) (uart_busy h) (ports h).
Definition hw_cr4 (v : Z) (t : gmap Z mapping) (h : Hw) : Hw :=
  mkHw (cr0 h) (cr2 h) (cr3 h) v (msrs h) t (mem64 h) (mem_entries h) (lapic h)
       (icr_busy h) (ipis h) (eois h) (uart_busy h) (ports h).
Definition hw_msrs (v : gmap Z Z) (h : Hw) : Hw :=
  mkHw (cr0 h) (cr2 h) (cr3 h) (cr4 h) v (tlb h) (mem64 h) (mem_entries h) (lapic h)
       (icr_busy h) (ipis h) (eois h) (uart_busy h) (ports h).
Definition hw_tlb (v : gmap Z mapping) (h : Hw) : Hw :=
  mkHw (cr0 h) (cr2 h) (cr3 h) (cr4 h) (msrs h) v (mem64 h) (mem_entries h) (lapic h)
       (icr_busy h) (ipis h) (eois h) (uart_busy h) (ports h).
Definition hw_mem64 (v : ram) (h : Hw) : Hw :=
  mkHw (cr0 h) (cr2 h) (cr3 h) (cr4 h) (msrs h) (tlb h) v (mem_entries h) (lapic h)
       (icr_busy h) (ipis h) (eois h) (uart_busy h) (ports h).
Definition hw_mem_entries (f : gmap Z MemMapEntry → gmap Z MemMapEntry) (h : Hw) : Hw :=
  mkHw (cr0 h) (cr2 h) (cr3 h) (cr4 h) (msrs h) (tlb h) (mem64 h) (f (mem_entries h))
       (lapic h) (icr_busy h) (ipis h) (eois h) (uart_busy h) (ports h).
Definition hw_lapic (v : gmap Z Z) (busy : nat) (sent : list Z) (e : nat) (h : Hw) : Hw :=
  mkHw (cr0 h) (cr2 h) (cr3 h) (cr4 h) (msrs h) (tlb h) (mem64 h) (mem_entries h) v
       busy sent e (uart_busy h) (ports h).
Definition hw_ports (busy : nat) (v : list (Z * Z)) (h : Hw) : Hw :=
  mkHw (cr0 h) (cr2 h) (cr3 h) (cr4 h) (msrs h) (tlb h) (mem64 h) (mem_entries h) (lapic h)
       (icr_busy h) (ipis h) (eois h) busy v.

(** ** Memory through the higher-half direct map *)

(** The physical address behind the [n] bytes at virtual address [va]. *)
Definition hhdm_phys (w : World) (va n : Z) : option Z :=
  let p := va - hhdm_base (env w) in
  if (0 <=? p) && (p + n <=? phys_limit (env w)) then Some p else None.

Definition set_mem64 (m : ram) : World → World := set_hw (hw_mem64 m).

Definition load64 (va : Z) : M World Z := λ w,
  match hhdm_phys w va 8 with
  | Some p => Ret (rd (mem64 (hw w)) p) w
  | None => Undef "load outside the direct map" w
  end.

Definition store64 (va v : Z) : M World unit := λ w,
  match hhdm_phys w va 8 with
  | Some p => Ret () (set_mem64 (<[p := v]> (mem64 (hw w))) w)
  | None => Undef "store outside the direct map" w
  end.

(** [core::ptr::write_bytes(va, 0, n)] on [n] u64s. *)
Definition write_zero64 (va : Z) (n : nat) : M World unit := λ w,
  match hhdm_phys w va (8 * Z.of_nat n) with
  | Some p => Ret () (set_mem64 (zero_cells (mem64 (hw w)) p n) w)
  | None => Undef "store outside the direct map" w
  end.

(** [core::ptr::copy_nonoverlapping(src, dst, n)] on [n] u64s. *)
Definition copy_nonoverlapping64 (src dst : Z) (n : nat) : M World unit := λ w,
  match hhdm_phys w src (8 * Z.of_nat n), hhdm_phys w dst (8 * Z.of_nat n) with
  | Some s, Some d =>
      if (s + 8 * Z.of_nat n <=? d) || (d + 8 * Z.of_nat n <=? s)
      then Ret () (set_mem64 (copy_cells (mem64 (hw w)) s d n) w)
      else Undef "copy_nonoverlapping on overlapping ranges" w
  | _, _ => Undef "copy outside the direct map" w
  end.

(** [*ptr] on a [MemMapEntry]. *)
Definition load_entry (va : Z) : M World MemMapEntry := λ w,
  match mem_entries (hw w) !! va with
  | Some e => Ret e w
  | None => Undef "no MemMapEntry at this address" w
  end.

(** ** Control registers and the TLB *)

Definition CR4_PGE_bit : Z := 7.

(** Reloading CR3 drops the cached translations, except the global ones when
    CR4.PGE is set. *)
Definition tlb_after_cr3 (h : Hw) : gmap Z mapping :=
  if Z.testbit (cr4 h) CR4_PGE_bit
  then filter (λ '(_, e), m_g e = true) (tlb h)
  else ∅.

(** A change of CR4.PGE drops every cached translation. *)
Definition tlb_after_cr4 (h : Hw) (v : Z) : gmap Z mapping :=
  if Bool.eqb (Z.testbit (cr4 h) CR4_PGE_bit) (Z.testbit v CR4_PGE_bit) then tlb h else ∅.

Definition read_cr0 : M World Z := gets (λ w, cr0 (hw w)).
Definition read_cr4 : M World Z := gets (λ w, cr4 (hw w)).
Definition mov_cr0 (v : Z) : M World unit := modify (set_hw (hw_cr0 v)).
Definition mov_cr3 (v : Z) : M World unit :=
  modify (set_hw (λ h, hw_cr3 v (tlb_after_cr3 h) h)).
Definition mov_cr4 (v : Z) : M World unit :=
  modify (set_hw (λ h, hw_cr4 v (tlb_after_cr4 h v) h)).

(** INVLPG drops the translations of one page, global or not. *)
Definition invlpg (va : Z) : M World unit :=
  modify (set_hw (λ h, hw_tlb (delete (page_of va) (tlb h)) h)).

(** ** Model-specific registers and the local APIC *)

Definition rd_msr (w : World) (n : Z) : Z := default 0 (msrs (hw w) !! n).

Definition APIC_BASE_msr : Z := 0x1b.
Definition EFER_msr : Z := 0xc0000080.

Definition lapic_enabled (w : World) : bool := Z.testbit (rd_msr w APIC_BASE_msr) 11.
Definition x2apic_enabled (w : World) : bool :=
  lapic_enabled w && Z.testbit (rd_msr w APIC_BASE_msr) 10.

(** Bits 35:12 of IA32_APIC_BASE. *)
Definition lapic_phys (w : World) : Z :=
  (rd_msr w APIC_BASE_msr / 2 ^ 12) mod 2 ^ 24 * 2 ^ 12.

Definition set_lapic (v : gmap Z Z) (busy : nat) (sent : list Z) (e : nat) : World → World :=
  set_hw (hw_lapic v busy sent e).

(** Reading a local APIC register.  The id register holds the id in bits
    31:24 in xAPIC mode; the low half of the interrupt command register shows
    a delivery-status bit while an IPI is pending. *)
Definition lapic_read (off : Z) : M World Z := λ w,
  let h := hw w in
  let v := default 0 (lapic h !! off) in
  if off =? 0x20 then
    Ret (if x2apic_enabled w then lapic_id (env w) else Z.shiftl (lapic_id (env w) mod 256) 24) w
  else if off =? 0x300 then
    match icr_busy h with
    | O => Ret v w
    | S b => Ret (Z.lor v (bit 12)) (set_lapic (lapic h) b (ipis h) (eois h) w)
    end
  else Ret v w.

(** Writing one: the interrupt command register sends an IPI, the EOI
    register signals the end of an interrupt. *)
Definition lapic_write (off v : Z) : M World unit := λ w,
  let h := hw w in
  let regs := <[off := v]> (lapic h) in
  if off =? 0x300 then Ret () (set_lapic regs (ipi_delay (env w)) (v :: ipis h) (eois h) w)
  else if off =? 0xb0 then Ret () (set_lapic regs (icr_busy h) (ipis h) (S (eois h)) w)
  else Ret () (set_lapic regs (icr_busy h) (ipis h) (eois h) w).

(** The register offset behind a 4-byte access at [va], when the direct map
    covers that address and the local APIC is enabled and decodes it. *)
Definition lapic_offset (w : World) (va : Z) : option Z :=
  match hhdm_phys w va 4 with
  | Some p =>
      let off := p - lapic_phys w in
      if lapic_enabled w && (0 <=? off) && (off + 4 <=? 4096) then Some off else None
  | None => None
  end.

Definition mmio_read32 (va : Z) : M World Z := λ w,
  match lapic_offset w va with
  | Some off => lapic_read off w
  | None => Undef "read outside the local APIC page" w
  end.

Definition mmio_write32 (va v : Z) : M World unit := λ w,
  match lapic_offset w va with
  | Some off => lapic_write off v w
  | None => Undef "write outside the local APIC page" w
  end.

Definition is_x2apic_msr (n : Z) : bool := (0x800 <=? n) && (n <? 0x900).

(** RDMSR: EDX:EAX. *)
Definition hw_rdmsr (n : Z) : M World (Z * Z) :=
  v ← (if is_x2apic_msr n
       then λ w, if x2apic_enabled w then lapic_read (Z.shiftl (n - 0x800) 4) w
                 else Undef "rdmsr: #GP" w
       else gets (λ w, rd_msr w n));
  mret (v / 2 ^ 32, v mod 2 ^ 32).

(** Software cannot change EFER.LMA (bit 10): a write that tries to leaves the
    bit as it is or is a fault. *)
Definition efer_write (old new : Z) : Z :=
  Z.lor (Z.land new (not64 (bit 10))) (Z.land old (bit 10)).
Definition efer_write_faults (w : World) (new : Z) : bool :=
  negb (lma_ignored (env w)) && negb (Bool.eqb (Z.testbit (rd_msr w EFER_msr) 10) (Z.testbit new 10)).

(** WRMSR of EDX:EAX. *)
Definition hw_wrmsr (n hi lo : Z) : M World unit := λ w,
  let v := hi * 2 ^ 32 + lo in
  if is_x2apic_msr n then
    (if x2apic_enabled w then lapic_write (Z.shiftl (n - 0x800) 4) v w
     else Undef "wrmsr: #GP" w)
  else if (n =? EFER_msr) && efer_write_faults w v then Undef "wrmsr: #GP" w
  else
    let v' := if n =? EFER_msr then efer_write (rd_msr w EFER_msr) v else v in
    Ret () (set_hw (λ h, hw_msrs (<[n := v']> (msrs h)) h) w).

(** ** Port I/O: the first UART *)

Definition uart_base : Z := 0x3f8.

Definition hw_in (port : Z) : M World Z := λ w,
  if port =? uart_base + 5 then
    match uart_busy (hw w) with
    | O => Ret 0x60 w
    | S b => Ret 0 (set_hw (λ h, hw_ports b (ports h) h) w)
    end
  else Undef "port read" w.

Definition hw_out (port v : Z) : M World unit := λ w,
  Ret () (set_hw (λ h, hw_ports (if port =? uart_base then uart_delay (env w) else uart_busy h)
                                ((port, v) :: ports h) h) w).

(** ** Facts about accesses *)

Lemma hhdm_phys_some w p n :
  0 <= p → p + n <= phys_limit (env w) → hhdm_phys w (p + hhdm_base (env w)) n = Some p.
Proof.
  intros H0 H1. unfold hhdm_phys.
  replace (p + hhdm_base (env w) - hhdm_base (env w)) with p by lia.
  by rewrite (proj2 (Z.leb_le _ _) H0), (proj2 (Z.leb_le _ _) H1).
Qed.

Lemma wp_load64 w p Q :
  0 <= p → p + 8 <= phys_limit (env w) → Q (rd (mem64 (hw w)) p) w →
  wp (load64 (p + hhdm_base (env w))) Q w.
Proof. intros. unfold wp, load64. by rewrite hhdm_phys_some. Qed.

Lemma wp_store64 w p v (Q : unit → World → Prop) :
  0 <= p → p + 8 <= phys_limit (env w) →
  Q () (set_mem64 (<[p := v]> (mem64 (hw w))) w) →
  wp (store64 (p + hhdm_base (env w)) v) Q w.
Proof. intros. unfold wp, store64. by rewrite hhdm_phys_some. Qed.

Lemma wp_write_zero64 w p n (Q : unit → World → Prop) :
  0 <= p → p + 8 * Z.of_nat n <= phys_limit (env w) →
  Q () (set_mem64 (zero_cells (mem64 (hw w)) p n) w) →
  wp (write_zero64 (p + hhdm_base (env w)) n) Q w.
Proof. intros. unfold wp, write_zero64. by rewrite hhdm_phys_some. Qed.

Lemma wp_copy64 w s d n (Q : unit → World → Prop) :
  0 <= s → s + 8 * Z.of_nat n <= phys_limit (env w) →
  0 <= d → d + 8 * Z.of_nat n <= phys_limit (env w) →
  s + 8 * Z.of_nat n <= d ∨ d + 8 * Z.of_nat n <= s →
  Q () (set_mem64 (copy_cells (mem64 (hw w)) s d n) w) →
  wp (copy_nonoverlapping64 (s + hhdm_base (env w)) (d + hhdm_base (env w)) n) Q w.
Proof.
  intros ???? Hd HQ. unfold wp, copy_nonoverlapping64. rewrite !hhdm_phys_some by done.
  replace ((_ <=? d) || _) with true; [done|]. symmetry. apply orb_true_iff.
  rewrite !Z.leb_le. done.
Qed.
