(* ===== verification/Hal.v ===== *)
(** * The frame-allocator contract between kernel and MMU (hal/mmu.rs)

    [PageTableFrameAlloc] is the trait object the kernel lends to the MMU:
    two operations over the state.  [FrameAllocLaws] is what the MMU's
    theorems assume of an implementation: the frames it may still hand out,
    an invariant that makes them well-formed, and what one call does to
    them.  The boot-time allocator of svc/vm.rs discharges it in [Vm]. *)

From S2P Require Import Prelude HalTypes Paging World.

Record PageTableFrameAlloc := mkFrameAlloc {
  alloc_frame_4k : M World (option PhysAddr);
  free_frame_4k : PhysAddr → M World unit
}.

(** The worlds differ at most in memory cells and cached translations. *)
Record same_but_mem (w w' : World) : Prop := mkSameButMem {
  sbm_env : env w' = env w;
  sbm_hhdm : HHDM_OFFSET w' = HHDM_OFFSET w;
  sbm_mmu : mmu w' = mmu w;
  sbm_apic : apic w' = apic w;
  sbm_vm : vm w' = vm w;
  sbm_cr3 : cr3 (hw w') = cr3 (hw w);
  sbm_cr4 : cr4 (hw w') = cr4 (hw w);
  sbm_msrs : msrs (hw w') = msrs (hw w);
  sbm_entries : mem_entries (hw w') = mem_entries (hw w)
}.

(** The worlds differ at most in memory cells, cached translations and the
    kernel's allocator object. *)
Record same_but_alloc (w w' : World) : Prop := mkSameButAlloc {
  sba_env : env w' = env w;
  sba_hhdm : HHDM_OFFSET w' = HHDM_OFFSET w;
  sba_mmu : mmu w' = mmu w;
  sba_apic : apic w' = apic w;
  sba_cr3 : cr3 (hw w') = cr3 (hw w);
  sba_cr4 : cr4 (hw w') = cr4 (hw w);
  sba_tlb : tlb (hw w') = tlb (hw w);
  sba_msrs : msrs (hw w') = msrs (hw w)
}.

(** A frame a page table can live in. *)
Definition frame_ok (w : World) (f : Z) : Prop :=
  f mod 4096 = 0 ∧ 0 <= f ∧ f + 4096 <= phys_limit (env w).

(** The worlds agree on what an allocator of the kernel may depend on: the
    environment, the kernel's statics and the boot memory map. *)
Definition same_kernel (w w' : World) : Prop :=
  env w' = env w ∧ vm w' = vm w ∧ mem_entries (hw w') = mem_entries (hw w).

Class FrameAllocLaws (A : PageTableFrameAlloc) := {
  (** the allocator's own invariant *)
  fa_inv : World → Prop;
  (** the frames it may still hand out *)
  fa_avail : World → Z → Prop;
  (** it looks at nothing an MMU operation changes *)
  fa_stable : ∀ w w', same_kernel w w' → fa_inv w →
    fa_inv w' ∧ (∀ f, fa_avail w' f ↔ fa_avail w f);
  (** a call of [alloc_frame_4k] returns; a frame it hands out was available,
      is zeroed and is the only one that is no longer available *)
  fa_alloc : ∀ w, fa_inv w →
    wp (alloc_frame_4k A) (λ r w',
      fa_inv w' ∧ same_but_alloc w w' ∧ (∀ f, fa_avail w' f → fa_avail w f) ∧
      match r with
      | Some f => fa_avail w f ∧ ¬ fa_avail w' f ∧ frame_ok w f ∧
                  mem64 (hw w') = zero_cells (mem64 (hw w)) f 512 ∧
                  (∀ g, fa_avail w g → g ≠ f → fa_avail w' g)
      | None => mem64 (hw w') = mem64 (hw w) ∧ (∀ g, fa_avail w g → fa_avail w' g)
      end) w;
  (** a frame that is not available can be given back; nothing else becomes
      available and nothing available is lost *)
  fa_free : ∀ w f, fa_inv w → frame_ok w f → ¬ fa_avail w f →
    wp (free_frame_4k A f) (λ _ w',
      fa_inv w' ∧ same_but_alloc w w' ∧ mem64 (hw w') = mem64 (hw w) ∧
      (∀ g, fa_avail w' g → fa_avail w g ∨ g = f) ∧
      (∀ g, fa_avail w g → fa_avail w' g)) w
}.

Lemma same_but_mem_refl w : same_but_mem w w.
Proof. by split. Qed.

Lemma same_but_mem_trans w1 w2 w3 :
  same_but_mem w1 w2 → same_but_mem w2 w3 → same_but_mem w1 w3.
Proof. intros [] []. split; congruence. Qed.

Lemma same_but_alloc_refl w : same_but_alloc w w.
Proof. by split. Qed.

Lemma same_but_alloc_trans w1 w2 w3 :
  same_but_alloc w1 w2 → same_but_alloc w2 w3 → same_but_alloc w1 w3.
Proof. intros [] []. split; congruence. Qed.

Lemma same_but_mem_kernel w w' : same_but_mem w w' → same_kernel w w'.
Proof. intros []. by split_and!. Qed.

Lemma same_kernel_set_mem64 m w : same_kernel w (set_mem64 m w).
Proof. by split_and!. Qed.

Lemma same_kernel_set_mmu f w : same_kernel w (set_mmu f w).
Proof. by split_and!. Qed.

Lemma same_but_mem_set_mem64 m w : same_but_mem w (set_mem64 m w).
Proof. by split. Qed.

Lemma same_but_alloc_set_mem64 m w : same_but_alloc w (set_mem64 m w).
Proof. by split. Qed.

#[export] Hint Resolve same_but_mem_refl same_but_mem_set_mem64
  same_but_alloc_refl same_but_alloc_set_mem64 : paging.
