(* ===== verification/Cpu.v ===== *)
(** * Small x86-64 drivers: msr.rs, cpuid.rs, serial.rs

    Wrappers over the instructions of [World]: MSR access, CPU feature
    detection, port I/O and the polled UART output. *)

From S2P Require Import Prelude HalTypes Paging World.

(** ** msr.rs *)

Definition IA32_TSC_DEADLINE : Z := 0x6e0.
Definition IA32_APIC_BASE : Z := 0x1b.
Definition IA32_EFER : Z := 0xc0000080.

Definition wrmsr (msr val : Z) : M World unit :=
  let lo := as_u32 val in
  let hi := as_u32 (Z.shiftr val 32) in
  hw_wrmsr msr hi lo.

Definition rdmsr (msr : Z) : M World Z :=
  '(hi, lo) ← hw_rdmsr msr;
  mret (Z.lor (Z.shiftl hi 32) lo).

(** ** cpuid.rs *)

Definition cpuid (leaf sub : Z) : M World (Z * Z * Z * Z) :=
  gets (λ w, cpuid_leaf (env w) leaf sub).

Definition has_leaf (leaf : Z) : M World bool :=
  '(max, _, _, _) ← cpuid 0 0;
  mret (leaf <=? max).

Definition has_invariant_tsc : M World bool :=
  '(max_ext, _, _, _) ← cpuid 0x80000000 0;
  if max_ext <? 0x80000007 then mret false else
  '(_, _, _, edx) ← cpuid 0x80000007 0;
  mret (has_bits edx (bit 8)).

Definition has_x2apic : M World bool :=
  '(_, _, ecx, _) ← cpuid 1 0;
  mret (has_bits ecx (bit 21)).

Definition has_nx : M World bool :=
  '(max_ext, _, _, _) ← cpuid 0x80000000 0;
  if max_ext <? 0x80000001 then mret false else
  '(_, _, _, edx) ← cpuid 0x80000001 0;
  mret (has_bits edx (bit 20)).

Definition tsc_hz_leaf16 : M World (option Z) :=
  ok ← has_leaf 0x16;
  if negb ok then mret None else
  '(mhz, _, _, _) ← cpuid 0x16 0;
  if negb (mhz =? 0) then (hz ← mul64 mhz 1000000; mret (Some hz)) else mret None.

Definition tsc_hz : M World (option Z) :=
  ok ← has_leaf 0x15;
  if negb ok then tsc_hz_leaf16 else
  '(denom, numer, crystal, _) ← cpuid 0x15 0;
  if negb (denom =? 0) && negb (numer =? 0) && negb (crystal =? 0)
  then mret (Some (saturating_mul crystal numer / denom))
  else tsc_hz_leaf16.

(** ** serial.rs *)

Definition COM1 : Z := 0x3f8.

Definition outb (port val : Z) : M World unit := hw_out port val.
Definition inb (port : Z) : M World Z := hw_in port.

(** [while (inb(COM1 + 5) & 0x20) == 0 {}] *)
Fixpoint com1_wait (fuel : nat) : M World unit :=
  match fuel with
  | O => λ w, Spin w
  | S n =>
      v ← inb (COM1 + 5);
      if Z.land v 0x20 =? 0 then com1_wait n else mret ()
  end.

Definition com1_write (b : Z) : M World unit :=
  fuel ← gets (λ w, poll_fuel (env w));
  com1_wait fuel;;
  outb COM1 b.

(** ** lib.rs: the legacy PIC *)

Definition mask_legacy_pic : M World unit :=
  let PIC1_DATA := 0x21 in
  let PIC2_DATA := 0xa1 in
  outb PIC1_DATA 0xff;;
  outb PIC2_DATA 0xff;;
  outb 0x20 0x20;;
  outb 0xa0 0x20.

(** ** Correctness *)

(** The halves [wrmsr] splits a value into are the value the instruction
    reassembles. *)
Lemma split_halves val : is_u64 val →
  as_u32 (Z.shiftr val 32) * 2 ^ 32 + as_u32 val = val.
Proof.
  unfold is_u64, U64, as_u32. intros Hv. rewrite Z.shiftr_div_pow2 by lia.
  rewrite (Z.mod_small (val / 2 ^ 32)).
  - pose proof (Z.div_mod val (2 ^ 32) ltac:(lia)). lia.
  - split; [apply Z.div_pos; lia|]. apply Z.div_lt_upper_bound; lia.
Qed.

Lemma join_halves v : Z.lor (Z.shiftl (v / 2 ^ 32) 32) (v mod 2 ^ 32) = v.
Proof.
  rewrite Z.shiftl_mul_pow2 by lia.
  rewrite (lor_low_high _ _ 32); [|lia|apply Z.mod_pos_bound; lia|apply Z.mod_mul; lia].
  pose proof (Z.div_mod v (2 ^ 32) ltac:(lia)). lia.
Qed.

Lemma wrmsr_eq n v w : is_u64 v → is_x2apic_msr n = false → n ≠ EFER_msr →
  wrmsr n v w = Ret () (set_hw (λ h, hw_msrs (<[n := v]> (msrs h)) h) w).
Proof.
  intros Hv Hx Hn. unfold wrmsr, hw_wrmsr. cbv zeta. rewrite Hx, split_halves by done.
  by rewrite (proj2 (Z.eqb_neq _ _) Hn).
Qed.

Lemma wrmsr_efer v w : is_u64 v → efer_write_faults w v = false →
  wrmsr IA32_EFER v w =
  Ret () (set_hw (λ h, hw_msrs (<[EFER_msr := efer_write (rd_msr w EFER_msr) v]> (msrs h)) h) w).
Proof. intros Hv Hf. unfold wrmsr, hw_wrmsr. cbv zeta. rewrite split_halves by done. by rewrite Hf. Qed.

Lemma wrmsr_efer_fault v w : is_u64 v → efer_write_faults w v = true →
  wrmsr IA32_EFER v w = Undef "wrmsr: #GP" w.
Proof. intros Hv Hf. unfold wrmsr, hw_wrmsr. cbv zeta. rewrite split_halves by done. by rewrite Hf. Qed.

Lemma rdmsr_eq n w : is_x2apic_msr n = false → rdmsr n w = Ret (rd_msr w n) w.
Proof.
  intros Hn. unfold rdmsr, hw_rdmsr, mbind, M_bind, gets, mret, M_ret. rewrite Hn.
  by rewrite join_halves.
Qed.

(** The UART loop ends as soon as the transmitter is empty. *)
Lemma com1_wait_done fuel w :
  (uart_busy (hw w) < fuel)%nat →
  com1_wait fuel w = Ret () (set_hw (λ h, hw_ports 0 (ports h) h) w).
Proof.
  revert w. induction fuel as [|n IH]; intros w Hb; [lia|].
  cbn [com1_wait]. unfold mbind, M_bind, inb, hw_in.
  change (COM1 + 5 =? uart_base + 5) with true. cbn iota.
  destruct (uart_busy (hw w)) as [|b] eqn:E.
  - destruct w as [? h]; destruct h; simpl in *; by subst.
  - cbn. rewrite IH by (cbn; lia). done.
Qed.

Lemma com1_wait_spins fuel w :
  (fuel <= uart_busy (hw w))%nat → ∃ w', com1_wait fuel w = Spin w'.
Proof.
  revert w. induction fuel as [|n IH]; intros w Hb; [by eexists|].
  cbn [com1_wait]. unfold mbind, M_bind, inb, hw_in.
  change (COM1 + 5 =? uart_base + 5) with true. cbn iota.
  destruct (uart_busy (hw w)) as [|b] eqn:E; [lia|].
  cbn. apply IH. cbn. lia.
Qed.

Lemma com1_write_eq b w : (uart_busy (hw w) < poll_fuel (env w))%nat →
  com1_write b w = Ret () (set_hw (hw_ports (uart_delay (env w)) ((COM1, b) :: ports (hw w))) w).
Proof.
  intros Hd. unfold com1_write, mbind, M_bind, gets. rewrite com1_wait_done by done.
  unfold outb, hw_out. by destruct w as [? h]; destruct h.
Qed.

(** [com1_write] waits until the transmitter is empty and then writes the
    byte, once: it returns whenever the UART drains within the polling bound,
    and is still waiting, with nothing written, when it does not. *)
Theorem com1_write_sends b w :
  if decide (uart_busy (hw w) < poll_fuel (env w))%nat
  then com1_write b w = Ret () (set_hw (hw_ports (uart_delay (env w)) ((COM1, b) :: ports (hw w))) w)
  else ∃ w', com1_write b w = Spin w'.
Proof.
  case_decide as Hd; [by apply com1_write_eq|]. unfold com1_write, mbind, M_bind, gets.
  destruct (com1_wait_spins (poll_fuel (env w)) w) as [w' ->]; [lia|]. by exists w'.
Qed.
