(* ===== verification/Log.v ===== *)
(** * Text output (hal/serial.rs, debug/early_serial.rs, drivers/console,
    log/mod.rs, panic.rs)

    Everything the kernel prints goes byte by byte through the HAL's serial
    writer to the first UART; a text is the list of its bytes. *)

From S2P Require Import Prelude Bootabi HalTypes Paging World Cpu.

(** ["..."] as bytes. *)
Definition bytes_of (s : string) : list Z :=
  (λ c, Z.of_nat (Ascii.nat_of_ascii c)) <$> String.list_ascii_of_string s.

(** A line feed. *)
Definition nl : list Z := [10].

(** ** hal/serial.rs and the writer of arch/x86_64/src/lib.rs *)

Definition register_serial_writer (o : SerialObj) : M World unit :=
  modify (set_hal (λ s, mkHalSt (Some o) (TIMER s) (HANDLER s) (LOGGER s))).

Definition Com1Writer_write_byte (b : Z) : M World unit := com1_write b.

Definition write_byte (b : Z) : M World unit :=
  o ← gets (λ w, SERIAL (hal (sys w)));
  match o with Some COM1_WRITER => Com1Writer_write_byte b | None => mret () end.

(** ** debug/early_serial.rs *)

Definition early_write_str (s : list Z) : M World unit :=
  for_each s (λ b, (if b =? 10 then write_byte 13 else mret ());; write_byte b).

(** ** drivers/console/serial.rs *)

Definition Serial_init : M World unit := mret ().
Definition Serial_write_raw (b : Z) : M World unit := write_byte b.
Definition Serial_write_str (s : list Z) : M World unit :=
  for_each s (λ b, (if b =? 10 then Serial_write_raw 13 else mret ());; Serial_write_raw b).

(** ** log/mod.rs *)

Definition set_logger (l : LogObj) : M World unit :=
  modify (set_hal (λ s, mkHalSt (SERIAL s) (TIMER s) (HANDLER s) (Some l))).

(** [Adapter::write_str], for one piece of the formatted text. *)
Definition Adapter_write_str (s : list Z) : M World unit :=
  o ← gets (λ w, LOGGER (hal (sys w)));
  match o with Some CONSOLE_SERIAL => Serial_write_str s | None => mret () end.

(** The pieces [core::fmt] hands to the adapter, in order. *)
Definition _print (pieces : list (list Z)) : M World unit := for_each pieces Adapter_write_str.

Definition klog (pieces : list (list Z)) : M World unit := _print pieces.
Definition klogln (pieces : list (list Z)) : M World unit := klog (pieces ++ [nl]).

(** ** drivers/console/mod.rs *)

Definition console_init (boot : BootInfo) : M World unit :=
  Serial_init;;
  set_logger CONSOLE_SERIAL;;
  Serial_write_raw 79;;
  Serial_write_raw 75;;
  Serial_write_raw 10.

(** ** panic.rs: the text of the panic, then [loop {}] *)

(** [loop {}] *)
Definition halt : M World unit := λ w, Spin w.

Definition panic_handler (info : list (list Z)) : M World unit :=
  early_write_str (nl ++ bytes_of "[PANIC] ");;
  for_each info early_write_str;;
  early_write_str nl;;
  halt.

(** ** Correctness *)

(** What a text looks like on the wire: a carriage return before each line
    feed. *)
Definition on_wire (s : list Z) : list Z := s ≫= λ b, if b =? 10 then [13; 10] else [b].

(** [w] after the UART has taken [bs]. *)
Definition sent (bs : list Z) (w : World) : World :=
  match bs with
  | [] => w
  | _ => set_hw (hw_ports (uart_delay (env w)) (reverse ((λ b, (COM1, b)) <$> bs) ++ ports (hw w))) w
  end.

(** The UART drains within the polling bound. *)
Definition uart_ok (w : World) : Prop :=
  (uart_busy (hw w) < poll_fuel (env w))%nat ∧ (uart_delay (env w) < poll_fuel (env w))%nat.

Lemma sent_app a b w : sent b (sent a w) = sent (a ++ b) w.
Proof.
  destruct a as [|x a]; [done|]. destruct b as [|y b]; [by rewrite app_nil_r|].
  unfold sent. rewrite <- app_comm_cons, !app_comm_cons. rewrite (fmap_app _ (x :: a)), reverse_app, <- app_assoc.
  by destruct w as [? h]; destruct h.
Qed.

Lemma sent_sys bs w : sys (sent bs w) = sys w.
Proof. by destruct bs. Qed.

Lemma sent_uart_ok bs w : uart_ok w → uart_ok (sent bs w).
Proof. intros [H1 H2]. destruct bs; [done|]. by split. Qed.

Lemma write_byte_eq b w : uart_ok w →
  write_byte b w = Ret () (if SERIAL (hal (sys w)) then sent [b] w else w).
Proof.
  intros [H1 H2]. unfold write_byte, gets, mbind, M_bind.
  destruct (SERIAL (hal (sys w))) as [[]|]; [|done].
  unfold Com1Writer_write_byte. by rewrite com1_write_eq.
Qed.

Lemma on_wire_cons b s : on_wire (b :: s) = (if b =? 10 then [13; 10] else [b]) ++ on_wire s.
Proof. done. Qed.

Lemma early_write_str_eq s w : uart_ok w →
  early_write_str s w = Ret () (if SERIAL (hal (sys w)) then sent (on_wire s) w else w).
Proof.
  revert w. induction s as [|b s IH]; intros w Hu.
  { by destruct (SERIAL (hal (sys w))). }
  unfold early_write_str in *. cbn [for_each]. unfold mbind, M_bind in *.
  rewrite (on_wire_cons b s). destruct (Z.eqb_spec b 10) as [->|Hb].
  - rewrite write_byte_eq by done. destruct (SERIAL (hal (sys w))) as [o|] eqn:Es.
    + rewrite write_byte_eq by by apply sent_uart_ok. rewrite sent_sys, Es, sent_app.
      rewrite IH by by apply sent_uart_ok. rewrite sent_sys, Es, sent_app.
      done.
    + rewrite write_byte_eq by done. rewrite Es, IH by done. by rewrite Es.
  - unfold mret, M_ret. rewrite write_byte_eq by done. destruct (SERIAL (hal (sys w))) as [o|] eqn:Es.
    + rewrite IH by by apply sent_uart_ok. rewrite sent_sys, Es, sent_app.
      done.
    + rewrite IH by done. by rewrite Es.
Qed.

(** The logger is up: a console over the serial writer. *)
Definition log_up (w : World) : bool :=
  match LOGGER (hal (sys w)), SERIAL (hal (sys w)) with Some _, Some _ => true | _, _ => false end.

Lemma Adapter_write_str_eq s w : uart_ok w →
  Adapter_write_str s w = Ret () (if log_up w then sent (on_wire s) w else w).
Proof.
  intros Hu. unfold Adapter_write_str, gets, mbind, M_bind, log_up.
  destruct (LOGGER (hal (sys w))) as [[]|]; [|done].
  rewrite (early_write_str_eq s w Hu : Serial_write_str s w = _).
  by destruct (SERIAL (hal (sys w))).
Qed.

Lemma on_wire_app a b : on_wire (a ++ b) = on_wire a ++ on_wire b.
Proof. apply bind_app. Qed.

Lemma log_up_sent bs w : log_up (sent bs w) = log_up w.
Proof. unfold log_up. by rewrite sent_sys. Qed.

Lemma print_eq pieces w : uart_ok w →
  _print pieces w = Ret () (if log_up w then sent (on_wire (mjoin pieces)) w else w).
Proof.
  revert w. induction pieces as [|s l IH]; intros w Hu; [by destruct (log_up w)|].
  unfold _print in *. cbn [for_each]. unfold mbind, M_bind. rewrite Adapter_write_str_eq by done.
  destruct (log_up w) eqn:El.
  - rewrite IH by by apply sent_uart_ok. rewrite log_up_sent, El, sent_app.
    cbn [mjoin list_join]. by rewrite on_wire_app.
  - by rewrite IH, El by done.
Qed.

(** C38: what is printed is what arrives at the UART.  While the UART drains
    within the polling bound, a print returns, and puts exactly the bytes of
    the formatted text, each line feed preceded by a carriage return, on the
    data port, in order, changing nothing else; before a writer (or, for
    the log, a sink) is registered it does nothing. *)
Theorem text_reaches_uart w s pieces : uart_ok w →
  early_write_str s w = Ret () (if SERIAL (hal (sys w)) then sent (on_wire s) w else w) ∧
  klogln pieces w =
    Ret () (if log_up w then sent (on_wire (mjoin pieces ++ [10])) w else w).
Proof.
  intros Hu. split; [by apply early_write_str_eq|]. unfold klogln, klog. rewrite print_eq by done.
  by rewrite join_app.
Qed.
