(* ===== verification/Limine.v ===== *)
(** * The bootloader glue (crates/bootloader/limine/src/lib.rs)

    Builds the [BootInfo] the kernel starts from out of the responses Limine
    left in the image.  The [limine] crate is a parameter: [LimineCrate] holds
    the constants the code matches on, [Responses] what its accessors
    return. *)

From S2P Require Import Prelude Layout Bootabi HalTypes Paging World.

(** ** The limine crate *)

Record LimineCrate := mkLimineCrate {
  FirmwareType : Type;
  FirmwareType_eq : EqDecision FirmwareType;
  X86_BIOS : FirmwareType; UEFI_64 : FirmwareType; UEFI_32 : FirmwareType;
  EntryType : Type;
  EntryType_eq : EqDecision EntryType;
  USABLE : EntryType; RESERVED : EntryType; ACPI_RECLAIMABLE : EntryType; ACPI_NVS : EntryType;
  BAD_MEMORY : EntryType; BOOTLOADER_RECLAIMABLE : EntryType; EXECUTABLE_AND_MODULES : EntryType
}.
#[export] Existing Instance FirmwareType_eq.
#[export] Existing Instance EntryType_eq.

(** [limine::memory_map::Entry] *)
Record Entry (L : LimineCrate) := mkEntry { e_base : Z; e_length : Z; e_type : EntryType L }.
Arguments mkEntry {_} _ _ _.
Arguments e_base {_} _.
Arguments e_length {_} _.
Arguments e_type {_} _.

(** What the request statics answer; [cmdline_response] and
    [bootloader_info_response] are the C-string pointers of the raw
    responses. *)
Record Responses (L : LimineCrate) := mkResponses {
  base_is_valid : bool;
  base_is_supported : bool;
  firmware_type_response : option (FirmwareType L);
  hhdm_response : option Z;
  rsdp_response : option Z;
  memmap_response : option (list (Entry L));
  cmdline_response : option Z;
  bootloader_info_response : option (Z * Z)
}.
Arguments mkResponses {_} _ _ _ _ _ _ _ _.
Arguments base_is_valid {_} _.
Arguments base_is_supported {_} _.
Arguments firmware_type_response {_} _.
Arguments hhdm_response {_} _.
Arguments rsdp_response {_} _.
Arguments memmap_response {_} _.
Arguments cmdline_response {_} _.
Arguments bootloader_info_response {_} _.

(** ** Memory *)

(** The byte of physical memory at [p]. *)
Definition byte_at (m : ram) (p : Z) : Z := (rd m (p - p mod 8) / 256 ^ (p mod 8)) mod 256.

Definition MAX_MEMMAP : nat := 1024.
Definition STRBUF_SIZE : Z := 4096.
Definition MAX_STR_BYTES : Z := 1024.

(** A byte load: the string buffer, or the direct map. *)
Definition load8 (va : Z) : M World Z := λ w,
  let l := lim (sys w) in
  if (strbuf_addr l <=? va) && (va <? strbuf_addr l + STRBUF_SIZE) then
    match STRBUF l !! Z.to_nat (va - strbuf_addr l) with
    | Some b => Ret b w
    | None => Undef "load8: outside the string buffer" w
    end
  else
    match hhdm_phys w va 1 with
    | Some p => Ret (byte_at (mem64 (hw w)) p) w
    | None => Undef "load8: unmapped address" w
    end.

(** The elements of [slice::from_raw_parts(ptr, n)]. *)
Fixpoint load_bytes (ptr : Z) (n : nat) : M World (list Z) :=
  match n with
  | O => mret []
  | S n' => b ← load8 ptr; l ← load_bytes (ptr + 1) n'; mret (b :: l)
  end.

(** A store to [MEMBUF]. *)
Definition store_entry (va : Z) (e : MemMapEntry) : M World unit :=
  modify (set_hw (hw_mem_entries (λ m, <[va := e]> m))).

(** ** Strings *)

Definition set_STRBUF_USED (v : Z) : M World unit :=
  modify (set_lim (λ l, mkLimineSt (STRBUF l) v (strbuf_addr l) (membuf_addr l))).

(** [buf[off..off + bytes.len()].copy_from_slice(bytes)] *)
Definition copy_to_strbuf (off : Z) (bytes : list Z) : M World unit :=
  buf ← gets (λ w, STRBUF (lim (sys w)));
  if off + Z.of_nat (length bytes) <=? Z.of_nat (length buf) then
    modify (set_lim (λ l, mkLimineSt (list_inserts (Z.to_nat off) bytes (STRBUF l)) (STRBUF_USED l)
                            (strbuf_addr l) (membuf_addr l)))
  else panic "range end index out of range".

(** [(STRBUF_USED + 7) & !7] *)
Definition strbuf_off : M World Z :=
  used ← gets (λ w, STRBUF_USED (lim (sys w)));
  s ← add64 used 7;
  mret (Z.land s (not64 7)).

Definition strbuf_span (off need : Z) : M World ByteSpan :=
  a ← gets (λ w, strbuf_addr (lim (sys w)));
  mret (mkByteSpan (a + off) (as_u32 need)).

Definition strbuf_alloc_copy (bytes : list Z) : M World ByteSpan :=
  match bytes with
  | [] => mret ByteSpan_empty
  | _ =>
      off ← strbuf_off;
      let need := Z.of_nat (length bytes) in
      end_ ← add64 off need;
      if STRBUF_SIZE <? end_ then mret ByteSpan_empty else
      copy_to_strbuf off bytes;;
      set_STRBUF_USED end_;;
      strbuf_span off need
  end.

Definition strbuf_alloc_join (a b : list Z) : M World ByteSpan :=
  match a, b with
  | [], _ => strbuf_alloc_copy b
  | _, [] => strbuf_alloc_copy a
  | _, _ =>
      off ← strbuf_off;
      let sep := [32] in
      let need := Z.of_nat (length a) + Z.of_nat (length sep) + Z.of_nat (length b) in
      end_ ← add64 off need;
      if STRBUF_SIZE <? end_ then mret ByteSpan_empty else
      let cur := off in
      copy_to_strbuf cur a;;
      let cur := cur + Z.of_nat (length a) in
      copy_to_strbuf cur sep;;
      let cur := cur + Z.of_nat (length sep) in
      copy_to_strbuf cur b;;
      set_STRBUF_USED (cur + Z.of_nat (length b));;
      strbuf_span off need
  end.

(** The loop over [entries]: [n] of them, from [ptr]. *)
Fixpoint phys_available (phys ptr : Z) (n : nat) : M World (option Z) :=
  match n with
  | O => mret None
  | S n' =>
      entry ← load_entry ptr;
      match checked_add (base entry) (len entry) with
      | None => mret None
      | Some end_ =>
          if (base entry <=? phys) && (phys <? end_) then mret (Some (end_ - phys))
          else phys_available phys (ptr + sizeof_MemMapEntry) n'
      end
  end.

Definition resolve_limine_ptr (ptr hhdm entries : Z) (n : nat) : M World (option (Z * Z)) :=
  if negb (hhdm =? 0) && (ptr <? hhdm) then
    o ← phys_available ptr entries n;
    mret ((λ max, (wrapping_add ptr hhdm, max)) <$> o)
  else
    let phys := if negb (hhdm =? 0) then wrapping_sub ptr hhdm else ptr in
    o ← phys_available phys entries n;
    mret ((λ max, (ptr, max)) <$> o).

(** [bytes.iter().position(|&b| b == 0)] over [n] bytes from [ptr]; [i] is the
    index of the first. *)
Fixpoint position_zero (ptr i : Z) (n : nat) : M World (option Z) :=
  match n with
  | O => mret None
  | S n' =>
      b ← load8 ptr;
      if b =? 0 then mret (Some i) else position_zero (ptr + 1) (i + 1) n'
  end.

(** [Some (ptr, len)] is a [StrView]. *)
Definition cstr_view (ptr hhdm : Z) (mem : MemMapView) : M World (option (Z * Z)) :=
  if (ptr =? 0) || (entries_ptr mem =? 0) || (entry_count mem =? 0)
     || negb (entry_size mem =? sizeof_MemMapEntry) then mret None else
  o ← resolve_limine_ptr ptr hhdm (entries_ptr mem) (Z.to_nat (entry_count mem));
  match o with
  | None => mret None
  | Some (virt, max_len) =>
      let max_len := Z.min max_len MAX_STR_BYTES in
      if max_len =? 0 then mret None else
      o ← position_zero virt 0 (Z.to_nat max_len);
      match o with
      | None => mret None
      | Some len => if len =? 0 then mret None else mret (Some (virt, len))
      end
  end.

(** The view as a slice. *)
Definition cstr_bytes (ptr hhdm : Z) (mem : MemMapView) : M World (option (list Z)) :=
  o ← cstr_view ptr hhdm mem;
  match o with
  | None => mret None
  | Some (p, n) => l ← load_bytes p (Z.to_nat n); mret (Some l)
  end.

(** ** The memory map *)

Definition default_addr_bits (a : Arch) : Z * Z :=
  match a with X86_64 => (52, 48) | Aarch64 => (48, 48) end.

Definition empty_memmap_view : MemMapView * Z := (mkMemMapView 0 0 sizeof_MemMapEntry 0, 0).

Definition no_framebuffer : Framebuffer := mkFramebuffer 0 0 0 0 0 Fb_Unknown.

(** [#[cfg(target_arch = "x86_64")]] *)
Definition current_arch : Arch := X86_64.

Definition minimal_bootinfo (arch : Arch) (cpu_count : Z) : BootInfo :=
  let '(phys_bits, virt_bits) := default_addr_bits arch in
  mkBootInfo (mkBootHeader BOOTABI_MAGIC BOOTABI_VERSION (as_u16 sizeof_BootInfo)) arch
    (BootMode_as_raw BM_Unknown) cpu_count phys_bits virt_bits 0
    (mkMemMapView 0 0 sizeof_MemMapEntry 0) 0 no_framebuffer ByteSpan_empty ByteSpan_empty BootFlags_NONE.

Section glue.
Context {L : LimineCrate} (R : Responses L).

Definition map_memtype (t : EntryType L) : MemType :=
  if decide (t = USABLE L) then MT_Usable
  else if decide (t = RESERVED L) then MT_Reserved
  else if decide (t = ACPI_RECLAIMABLE L) then MT_AcpiReclaimable
  else if decide (t = ACPI_NVS L) then MT_AcpiNvs
  else if decide (t = BAD_MEMORY L) then MT_BadMemory
  else if decide (t = BOOTLOADER_RECLAIMABLE L) then MT_BootloaderReclaimable
  else if decide (t = EXECUTABLE_AND_MODULES L) then MT_KernelAndModules
  else MT_Reserved.

Definition convert_entry (e : Entry L) : MemMapEntry :=
  mkMemMapEntry (e_base e) (e_length e) (map_memtype (e_type e)) 0 0.

Definition convert_memmap_entries (entries : list (Entry L)) : M World (MemMapView * Z) :=
  match entries with
  | [] => mret empty_memmap_view
  | _ =>
      let n_total := length entries in
      let n := Nat.min n_total MAX_MEMMAP in
      buf ← gets (λ w, membuf_addr (lim (sys w)));
      for_each (zip (seq 0 n) (take n entries))
        (λ '(i, e), store_entry (buf + sizeof_MemMapEntry * Z.of_nat i) (convert_entry e));;
      let truncated := if (n <? n_total)%nat then MemMapFlags_TRUNCATED else 0 in
      mret (mkMemMapView buf (as_u32 (Z.of_nat n)) sizeof_MemMapEntry truncated, truncated)
  end.

(** The bootloader's name and version. *)
Definition bootloader_string (hhdm : Z) (mem : MemMapView) : M World ByteSpan :=
  match bootloader_info_response R with
  | None => mret ByteSpan_empty
  | Some (name, version) =>
      name ← cstr_bytes name hhdm mem;
      version ← cstr_bytes version hhdm mem;
      match name, version with
      | Some a, Some b => strbuf_alloc_join a b
      | Some a, None => strbuf_alloc_copy a
      | None, Some b => strbuf_alloc_copy b
      | None, None => mret ByteSpan_empty
      end
  end.

Definition cmdline_string (hhdm : Z) (mem : MemMapView) : M World ByteSpan :=
  match cmdline_response R with
  | None => mret ByteSpan_empty
  | Some p =>
      o ← cstr_bytes p hhdm mem;
      match o with Some l => strbuf_alloc_copy l | None => mret ByteSpan_empty end
  end.

Definition boot_mode_of (f : option (FirmwareType L)) : BootMode :=
  match f with
  | Some t =>
      if decide (t = X86_BIOS L) then BM_Bios
      else if decide (t = UEFI_64 L) then BM_Uefi
      else if decide (t = UEFI_32 L) then BM_Uefi
      else BM_Unknown
  | None => BM_Unknown
  end.

Definition gather_bootinfo (cpu_count : Z) : M World BootInfo :=
  let arch := current_arch in
  set_STRBUF_USED 0;;
  if negb (base_is_valid R) || negb (base_is_supported R)
  then mret (minimal_bootinfo arch cpu_count) else
  let boot_mode := boot_mode_of (firmware_type_response R) in
  let hhdm_offset := default 0 (hhdm_response R) in
  let acpi_rsdp := default 0 (rsdp_response R) in
  '(memmap_view, memmap_flags) ←
    match memmap_response R with
    | Some entries => convert_memmap_entries entries
    | None => mret empty_memmap_view
    end;
  cmdline ← cmdline_string hhdm_offset memmap_view;
  bootloader ← bootloader_string hhdm_offset memmap_view;
  let '(phys_bits, virt_bits) := default_addr_bits arch in
  mret (mkBootInfo (mkBootHeader BOOTABI_MAGIC BOOTABI_VERSION (as_u16 sizeof_BootInfo)) arch
      (BootMode_as_raw boot_mode) cpu_count phys_bits virt_bits hhdm_offset memmap_view acpi_rsdp
      no_framebuffer cmdline bootloader (Z.lor BootFlags_NONE memmap_flags)).
End glue.
