(* ===== verification/Apic.v ===== *)
(** * The local APIC driver (arch/x86_64/src/apic.rs)

    Initialisation in x2APIC or xAPIC mode, the CPU id, the IPI to all other
    processors used for TLB shootdowns, and the end-of-interrupt signal. *)

From S2P Require Import Prelude HalTypes Paging World Cpu.

Definition APIC_BASE_ENABLE : Z := bit 11.
Definition APIC_BASE_X2APIC : Z := bit 10.

Definition LAPIC_ID : Z := 0x020.
Definition LAPIC_EOI : Z := 0x0b0.
Definition LAPIC_SVR : Z := 0x0f0.
Definition LAPIC_LVT_TIMER : Z := 0x320.
Definition LAPIC_TIMER_DIV : Z := 0x3e0.
Definition LAPIC_ICR_LOW : Z := 0x300.
Definition LAPIC_ICR_HIGH : Z := 0x310.

Definition SVR_APIC_ENABLE : Z := bit 8.
Definition LVT_MODE_TSC_DEADLINE : Z := Z.shiftl 2 17.
Definition ICR_DELIVERY_PENDING : Z := bit 12.

Definition APIC_MODE_NONE : Z := 0.
Definition APIC_MODE_XAPIC : Z := 1.
Definition APIC_MODE_X2APIC : Z := 2.

(** idt.rs *)
Definition TIMER_VEC : Z := 0xe0.
Definition TLB_SHOOTDOWN_VEC : Z := 0xe1.

Definition apic_msr (off : Z) : Z := 0x800 + Z.shiftr off 4.

Definition read (off : Z) : M World Z :=
  mode ← gets (λ w, APIC_MODE (apic w));
  if mode =? APIC_MODE_X2APIC then v ← rdmsr (apic_msr off); mret (as_u32 v)
  else if mode =? APIC_MODE_XAPIC then
    base ← gets (λ w, LAPIC_BASE_VIRT (apic w));
    addr ← add64 base off;
    mmio_read32 addr
  else mret 0.

Definition write (off val : Z) : M World unit :=
  mode ← gets (λ w, APIC_MODE (apic w));
  if mode =? APIC_MODE_X2APIC then wrmsr (apic_msr off) val
  else if mode =? APIC_MODE_XAPIC then
    base ← gets (λ w, LAPIC_BASE_VIRT (apic w));
    addr ← add64 base off;
    mmio_write32 addr val
  else mret ().

Definition set_mode (mode : Z) : M World unit :=
  modify (set_apic (λ a, mkApicSt mode (LAPIC_BASE_VIRT a))).
Definition set_lapic_base (v : Z) : M World unit :=
  modify (set_apic (λ a, mkApicSt (APIC_MODE a) v)).

(** The register programming common to both modes. *)
Definition init_regs : M World unit :=
  let svr := Z.lor SVR_APIC_ENABLE 0xff in
  write LAPIC_SVR svr;;
  write LAPIC_TIMER_DIV 0xb;;
  let lvt := Z.lor TIMER_VEC LVT_MODE_TSC_DEADLINE in
  write LAPIC_LVT_TIMER lvt;;
  _ ← read LAPIC_ID;
  mret ().

Definition init (hhdm_offset : Z) : M World bool :=
  x2 ← has_x2apic;
  if x2 : bool then
    apic_base ← rdmsr IA32_APIC_BASE;
    let new_base := Z.lor (Z.lor apic_base APIC_BASE_ENABLE) APIC_BASE_X2APIC in
    wrmsr IA32_APIC_BASE new_base;;
    set_mode APIC_MODE_X2APIC;;
    init_regs;;
    mret true
  else
    apic_base ← rdmsr IA32_APIC_BASE;
    let apic_phys := Z.land apic_base 0xfffff000 in
    let new_base := Z.lor apic_base APIC_BASE_ENABLE in
    wrmsr IA32_APIC_BASE new_base;;
    set_mode APIC_MODE_XAPIC;;
    set_lapic_base (wrapping_add apic_phys hhdm_offset);;
    init_regs;;
    mret true.

Definition cpu_id : M World Z :=
  id ← read LAPIC_ID;
  mode ← gets (λ w, APIC_MODE (apic w));
  mret (if mode =? APIC_MODE_XAPIC then Z.shiftr id 24
        else if mode =? APIC_MODE_X2APIC then id
        else 0).

(** [while (read(LAPIC_ICR_LOW) & ICR_DELIVERY_PENDING) != 0 {}] *)
Fixpoint icr_wait (fuel : nat) : M World unit :=
  match fuel with
  | O => λ w, Spin w
  | S n =>
      v ← read LAPIC_ICR_LOW;
      if has_bits v ICR_DELIVERY_PENDING then icr_wait n else mret ()
  end.

Definition send_ipi_all_others (vector : Z) : M World unit :=
  mode ← gets (λ w, APIC_MODE (apic w));
  if mode =? APIC_MODE_NONE then mret () else
  let icr := Z.lor vector (Z.shiftl 3 18) in
  if mode =? APIC_MODE_XAPIC then
    write LAPIC_ICR_HIGH 0;;
    write LAPIC_ICR_LOW icr;;
    fuel ← gets (λ w, poll_fuel (env w));
    icr_wait fuel
  else write LAPIC_ICR_LOW icr.

Definition eoi : M World unit :=
  mode ← gets (λ w, APIC_MODE (apic w));
  if negb (mode =? APIC_MODE_NONE) then write LAPIC_EOI 0 else mret ().
