(* ===== verification/ApicSpec.v ===== *)
(** * Correctness of the local APIC driver

    Both modes of the driver reach the same device registers; [init] leaves
    the device and the driver's statics in agreement; an IPI is sent exactly
    once and its busy-wait ends; the CPU id is the device's. *)

From S2P Require Import Prelude HalTypes Paging World Cpu Apic.

(** The driver's statics agree with the device. *)
Definition apic_ready (w : World) : Prop :=
  APIC_MODE (apic w) = APIC_MODE_NONE ∨
  (APIC_MODE (apic w) = APIC_MODE_X2APIC ∧ x2apic_enabled w = true) ∨
  (APIC_MODE (apic w) = APIC_MODE_XAPIC ∧ lapic_enabled w = true ∧ x2apic_enabled w = false ∧
   LAPIC_BASE_VIRT (apic w) = lapic_phys w + hhdm_base (env w) ∧
   0 <= lapic_phys w + hhdm_base (env w) ∧ lapic_phys w + hhdm_base (env w) + 4096 <= U64 ∧
   lapic_phys w + 4096 <= phys_limit (env w)).

Definition apic_on (w : World) : Prop := apic_ready w ∧ APIC_MODE (apic w) ≠ APIC_MODE_NONE.

(** The register offsets of the driver. *)
Definition lapic_reg (off : Z) : Prop := 0 <= off < 0x400 ∧ off mod 16 = 0.

(** Closes [lapic_reg off] for a register constant. *)
Ltac lapic_off := solve [split; [split|]; vm_compute; done].

Lemma apic_msr_x2 off : lapic_reg off →
  is_x2apic_msr (apic_msr off) = true ∧ Z.shiftl (apic_msr off - 0x800) 4 = off.
Proof.
  intros [Hr Ha]. unfold apic_msr, is_x2apic_msr. rewrite Z.shiftr_div_pow2, Z.shiftl_mul_pow2 by lia.
  rewrite andb_true_iff, Z.leb_le, Z.ltb_lt. Z.to_euclidean_division_equations. lia.
Qed.

Lemma lapic_phys_nonneg w : 0 <= lapic_phys w.
Proof. unfold lapic_phys. pose proof (Z.mod_pos_bound (rd_msr w APIC_BASE_msr / 2 ^ 12) (2 ^ 24)). lia. Qed.

Lemma xapic_offset w off : lapic_enabled w = true → lapic_reg off → lapic_phys w + 4096 <= phys_limit (env w) →
  lapic_offset w (lapic_phys w + hhdm_base (env w) + off) = Some off.
Proof.
  intros He [Hr _] Hc. pose proof (lapic_phys_nonneg w). unfold lapic_offset.
  replace (lapic_phys w + hhdm_base (env w) + off) with (lapic_phys w + off + hhdm_base (env w)) by lia.
  rewrite hhdm_phys_some, He by lia. cbn [andb]. cbv zeta.
  replace (lapic_phys w + off - lapic_phys w) with off by lia.
  by rewrite (proj2 (Z.leb_le _ _)), (proj2 (Z.leb_le _ _)) by lia.
Qed.

(** Every value the device returns fits in 32 bits. *)
Definition regs_u32 (w : World) : Prop :=
  0 <= lapic_id (env w) < 2 ^ 32 ∧ ∀ off v, lapic (hw w) !! off = Some v → 0 <= v < 2 ^ 32.

Lemma lapic_read_u32 w off v w' : regs_u32 w → lapic_read off w = Ret v w' → 0 <= v < 2 ^ 32.
Proof.
  intros [Hid Hr] E. assert (0 <= default 0 (lapic (hw w) !! off) < 2 ^ 32) as Hd.
  { destruct (lapic (hw w) !! off) eqn:El; cbn; [by eapply Hr|lia]. }
  unfold lapic_read in E. cbv zeta in E.
  destruct (off =? 32); [|destruct (off =? 0x300)].
  - injection E as <- _. destruct (x2apic_enabled w); [done|]. rewrite Z.shiftl_mul_pow2 by lia.
    pose proof (Z.mod_pos_bound (lapic_id (env w)) 256). lia.
  - destruct (icr_busy (hw w)); injection E as <- _; [done|].
    change (bit 12) with (2 ^ 12). set (d := default 0 _) in *.
    assert (0 <= Z.lor d (2 ^ 12)) by (apply Z.lor_nonneg; lia). split; [done|].
    destruct (decide (Z.lor d (2 ^ 12) = 0)) as [->|Hne]; [lia|].
    apply Z.log2_lt_pow2; [lia|]. rewrite Z.log2_lor by lia.
    change (Z.log2 (2 ^ 12)) with 12.
    destruct (decide (d = 0)) as [->|Hd0]; [done|].
    apply Z.max_lub_lt; [apply Z.log2_lt_pow2; lia|lia].
  - by injection E as <- _.
Qed.

(** ** Register access reaches the device in both modes *)

Lemma read_eq w off : apic_on w → regs_u32 w → lapic_reg off → read off w = lapic_read off w.
Proof.
  intros [[Hn|[[Hm Hx]|(Hm & He & Hx & Hb & H0 & H1 & H2)]] Hne] Hu Ho; [done|..];
    unfold read, mbind, M_bind, gets; rewrite Hm; cbn [Z.eqb Pos.eqb APIC_MODE_X2APIC APIC_MODE_XAPIC].
  - destruct (apic_msr_x2 off Ho) as [Hx2 Hs]. unfold rdmsr, hw_rdmsr, mbind, M_bind.
    rewrite Hx2, Hx, Hs. destruct (lapic_read off w) as [v w1|?|?|?] eqn:E; [|done..].
    cbn. rewrite join_halves. pose proof (lapic_read_u32 _ _ _ _ Hu E). unfold as_u32.
    unfold mret, M_ret. by rewrite Z.mod_small.
  - rewrite Hb. unfold add64. destruct Ho as [Hr Ha]. rewrite (proj2 (Z.ltb_lt _ _)) by lia. cbn.
    unfold mmio_read32. by rewrite xapic_offset.
Qed.

Lemma write_eq w off v : apic_on w → 0 <= v < 2 ^ 32 → lapic_reg off → write off v w = lapic_write off v w.
Proof.
  intros [[Hn|[[Hm Hx]|(Hm & He & Hx & Hb & H0 & H1 & H2)]] Hne] Hu Ho; [done|..];
    unfold write, mbind, M_bind, gets; rewrite Hm; cbn [Z.eqb Pos.eqb APIC_MODE_X2APIC APIC_MODE_XAPIC].
  - destruct (apic_msr_x2 off Ho) as [Hx2 Hs]. unfold wrmsr, hw_wrmsr. cbv zeta.
    rewrite split_halves by (unfold is_u64, U64; lia). by rewrite Hx2, Hx, Hs.
  - rewrite Hb. unfold add64. destruct Ho as [Hr Ha]. rewrite (proj2 (Z.ltb_lt _ _)) by lia. cbn.
    unfold mmio_write32. by rewrite xapic_offset.
Qed.

Lemma write_none w off v : APIC_MODE (apic w) = APIC_MODE_NONE → write off v w = Ret () w.
Proof. intros Hm. unfold write, mbind, M_bind, gets. by rewrite Hm. Qed.

(** A write keeps the driver and the device in agreement. *)
Lemma apic_on_lapic w v b s e : apic_on w → apic_on (set_lapic v b s e w).
Proof. done. Qed.

(** ** The CPU id *)

Lemma cpu_id_eq w : apic_ready w → regs_u32 w →
  cpu_id w = Ret (if decide (APIC_MODE (apic w) = APIC_MODE_NONE) then 0
                  else if decide (APIC_MODE (apic w) = APIC_MODE_X2APIC) then lapic_id (env w)
                  else lapic_id (env w) mod 256) w.
Proof.
  intros Hr Hu. unfold cpu_id, mbind, M_bind. case_decide as Hn.
  { unfold read, mbind, M_bind, gets. rewrite Hn. cbn. by rewrite Hn. }
  rewrite read_eq by (done || lapic_off || by split). unfold lapic_read. cbv zeta.
  change (LAPIC_ID =? 32) with true. cbn iota. unfold gets, mret, M_ret.
  destruct Hr as [?|[[Hm Hx]|(Hm & _ & Hx & _)]]; [done| |]; rewrite Hm, Hx; cbn; [done|].
  f_equal. rewrite Z.shiftr_div_pow2, Z.shiftl_mul_pow2 by lia. apply Z.div_mul. lia.
Qed.

(** ** Inter-processor interrupts *)

(** [w] after the device has delivered the pending IPI. *)
Definition icr_idle (w : World) : World :=
  set_lapic (lapic (hw w)) 0 (ipis (hw w)) (eois (hw w)) w.

Lemma icr_poll w : apic_on w → regs_u32 w →
  Z.testbit (default 0 (lapic (hw w) !! LAPIC_ICR_LOW)) 12 = false →
  ∃ v, read LAPIC_ICR_LOW w = Ret v
      (set_lapic (lapic (hw w)) (pred (icr_busy (hw w))) (ipis (hw w)) (eois (hw w)) w) ∧
    has_bits v ICR_DELIVERY_PENDING = negb (Nat.eqb (icr_busy (hw w)) 0).
Proof.
  intros Hon Hu Hb. rewrite read_eq by (done || lapic_off). unfold lapic_read. cbv zeta.
  change (LAPIC_ICR_LOW =? 32) with false. change (LAPIC_ICR_LOW =? 0x300) with true. cbn iota.
  unfold ICR_DELIVERY_PENDING. destruct w as [e h]; destruct h as [? ? ? ? ? ? ? ? l b].
  cbn [hw icr_busy] in *. destruct b as [|b]; eexists; (split; [reflexivity|]);
    rewrite has_bits_bit by lia; [done|].
  rewrite Z.lor_spec. apply orb_true_r.
Qed.

(** The busy-wait ends with the delivery. *)
Lemma icr_wait_done fuel w : apic_on w → regs_u32 w →
  Z.testbit (default 0 (lapic (hw w) !! LAPIC_ICR_LOW)) 12 = false →
  (icr_busy (hw w) < fuel)%nat → icr_wait fuel w = Ret () (icr_idle w).
Proof.
  revert w. induction fuel as [|n IH]; intros w Hon Hu Hb Hf; [lia|].
  destruct (icr_poll w Hon Hu Hb) as (v & Hr & Hp).
  cbn [icr_wait]. unfold mbind, M_bind. rewrite Hr, Hp.
  destruct (icr_busy (hw w)) as [|b] eqn:Eb; cbn [Nat.eqb negb pred].
  - done.
  - rewrite IH by (try done; cbn; lia). done.
Qed.

(** The interrupt command [send_ipi_all_others] writes. *)
Definition icr_all_others (vector : Z) : Z := Z.lor vector (Z.shiftl 3 18).

Lemma icr_all_others_eq vector : 0 <= vector < 256 → icr_all_others vector = 0xc0000 + vector.
Proof.
  intros Hv. unfold icr_all_others. rewrite Z.lor_comm.
  apply (lor_low_high _ _ 8); [lia|done|done].
Qed.

Lemma icr_not_pending vector : 0 <= vector < 256 → Z.testbit (icr_all_others vector) 12 = false.
Proof.
  intros Hv. unfold icr_all_others. rewrite Z.lor_spec, orb_false_r.
  apply Z.bits_above_log2; [lia|].
  destruct (decide (vector = 0)) as [->|]; [done|]. apply Z.log2_lt_pow2; lia.
Qed.

(** C33: [send_ipi_all_others] returns once the device has accepted the
    interrupt, and sends exactly one: a fixed interrupt with the given vector
    to all processors but the sender.  The polling bound only has to exceed
    the device's delivery time. *)
Theorem send_ipi_sends_one w vector :
  apic_on w → regs_u32 w → 0 <= vector < 256 → (ipi_delay (env w) < poll_fuel (env w))%nat →
  wp (send_ipi_all_others vector) (λ _ w',
    ipis (hw w') = icr_all_others vector :: ipis (hw w) ∧
    (APIC_MODE (apic w) = APIC_MODE_XAPIC → icr_busy (hw w') = 0%nat) ∧
    apic_on w' ∧ mmu w' = mmu w ∧ vm w' = vm w ∧
    tlb (hw w') = tlb (hw w) ∧ mem64 (hw w') = mem64 (hw w)) w.
Proof.
  intros Hon Hu Hv Hf. pose proof (icr_all_others_eq vector Hv) as Hicr.
  unfold send_ipi_all_others. wp_step. apply wp_gets. cbv zeta. fold (icr_all_others vector).
  rewrite (proj2 (Z.eqb_neq _ _)) by apply Hon.
  assert (∀ w1, apic_on w1 → write LAPIC_ICR_LOW (icr_all_others vector) w1 =
    Ret () (set_lapic (<[0x300 := icr_all_others vector]> (lapic (hw w1))) (ipi_delay (env w1))
              (icr_all_others vector :: ipis (hw w1)) (eois (hw w1)) w1)) as Hw.
  { intros w1 H1. rewrite write_eq by (done || lapic_off || lia). reflexivity. }
  destruct (Z.eqb_spec (APIC_MODE (apic w)) APIC_MODE_XAPIC) as [Hx|Hx].
  - wp_step. eapply wp_intro; [rewrite write_eq by (done || lapic_off); reflexivity|].
    wp_step. eapply wp_intro; [by apply Hw|]. cbn [ipis hw set_lapic set_hw hw_lapic]. wp_steps.
    eapply wp_intro; [apply icr_wait_done|].
    + by apply apic_on_lapic, apic_on_lapic.
    + destruct Hu as [Hid Hr]. split; [done|]. intros off v. cbn.
      rewrite !lookup_insert_Some. intros [[_ <-]|[_ [[_ <-]|[_ H]]]]; [lia|lia|by eapply Hr].
    + unfold LAPIC_ICR_LOW. cbn [hw lapic set_lapic set_hw hw_lapic]. rewrite lookup_insert_eq.
      by apply icr_not_pending.
    + done.
    + done.
  - eapply wp_intro; [by apply Hw|]. split_and!; try done.
Qed.

(** The end-of-interrupt signal is sent once when the APIC is in use. *)
Lemma eoi_once w : apic_on w →
  eoi w = Ret () (set_lapic (<[0xb0 := 0]> (lapic (hw w))) (icr_busy (hw w)) (ipis (hw w))
                    (S (eois (hw w))) w).
Proof.
  intros Hon. unfold eoi, mbind, M_bind, gets. rewrite (proj2 (Z.eqb_neq _ _)) by apply Hon.
  cbn [negb]. rewrite write_eq by (done || lapic_off). reflexivity.
Qed.

(** ** Initialisation *)

(** The registers [init] programs: the spurious vector with the enable bit,
    the timer divisor and the timer vector in TSC-deadline mode. *)
Definition init_lapic (l : gmap Z Z) : gmap Z Z :=
  <[LAPIC_LVT_TIMER := 0x400e0]> (<[LAPIC_TIMER_DIV := 0xb]> (<[LAPIC_SVR := 0x1ff]> l)).

Lemma init_regs_eq w : apic_on w → regs_u32 w →
  init_regs w = Ret () (set_lapic (init_lapic (lapic (hw w))) (icr_busy (hw w)) (ipis (hw w))
                          (eois (hw w)) w).
Proof.
  intros Hon Hu. unfold init_regs, mbind, M_bind. cbv zeta.
  assert (∀ w1 off v, apic_on w1 → lapic_reg off → 0 <= v < 2 ^ 32 →
    (off =? 0x300) = false → (off =? 0xb0) = false →
    write off v w1 = Ret () (set_lapic (<[off := v]> (lapic (hw w1))) (icr_busy (hw w1))
                               (ipis (hw w1)) (eois (hw w1)) w1)) as Hw.
  { intros w1 off v H1 Ho Hv E1 E2. rewrite write_eq by done. unfold lapic_write. cbv zeta.
    by rewrite E1, E2. }
  rewrite Hw; [|done|lapic_off|by vm_compute|done|done].
  rewrite Hw; [|done|lapic_off|by vm_compute|done|done].
  rewrite Hw; [|done|lapic_off|by vm_compute|done|done].
  rewrite read_eq; [done|done| |lapic_off].
  destruct Hu as [Hid Hr]. split; [done|]. intros off v. cbn.
  rewrite !lookup_insert_Some. intros H. repeat destruct H as [[_ <-]|[_ H]]; [done..|by eapply Hr].
Qed.

Lemma apic_base_msr_plain : is_x2apic_msr IA32_APIC_BASE = false ∧ IA32_APIC_BASE ≠ EFER_msr.
Proof. done. Qed.

(** [w] with a new value in IA32_APIC_BASE. *)
Definition with_apic_base (v : Z) (w : World) : World :=
  set_hw (λ h, hw_msrs (<[IA32_APIC_BASE := v]> (msrs h)) h) w.

Lemma rd_with_apic_base v w : rd_msr (with_apic_base v w) APIC_BASE_msr = v.
Proof. unfold rd_msr, with_apic_base. cbn. by rewrite lookup_insert_eq. Qed.

(** The mask of the driver and the field of the register agree for a local
    APIC below 4 GiB. *)
Lemma apic_phys_field v w : lapic_phys w < 2 ^ 32 → rd_msr w APIC_BASE_msr = v →
  Z.land v 0xfffff000 = lapic_phys w.
Proof.
  intros Hlt <-. unfold lapic_phys in *. change 0xfffff000 with (Z.shiftl (Z.ones 20) 12).
  rewrite land_shifted_ones by lia. set (x := rd_msr w APIC_BASE_msr / 2 ^ 12) in *. f_equal.
  change (2 ^ 24) with (2 ^ 20 * 2 ^ 4) in Hlt |- *. rewrite Z.rem_mul_r in * by lia.
  pose proof (Z.mod_pos_bound (x / 2 ^ 20) (2 ^ 4)). pose proof (Z.mod_pos_bound x (2 ^ 20)).
  change (2 ^ 32) with (2 ^ 20 * 2 ^ 12) in Hlt.
  assert ((x / 2 ^ 20) mod 2 ^ 4 = 0) by nia. lia.
Qed.

Lemma lapic_phys_enable w : lapic_phys (with_apic_base (Z.lor (rd_msr w APIC_BASE_msr) APIC_BASE_ENABLE) w)
  = lapic_phys w.
Proof.
  unfold lapic_phys. rewrite rd_with_apic_base. f_equal. f_equal.
  rewrite <- !Z.shiftr_div_pow2, Z.shiftr_lor by lia.
  change (Z.shiftr APIC_BASE_ENABLE 12) with 0. by rewrite Z.lor_0_r.
Qed.

(** What [init] relies on: the local APIC's base is below 4 GiB, firmware did
    not select a mode the processor does not report, and on a processor
    without x2APIC the direct map covers the register page. *)
Record apic_boot (w : World) : Prop := mkApicBoot {
  ab_hhdm : 0 <= hhdm_base (env w) ∧ hhdm_base (env w) + 2 ^ 32 <= U64;
  ab_base : is_u64 (rd_msr w APIC_BASE_msr);
  ab_low : lapic_phys w < 2 ^ 32;
  ab_regs : regs_u32 w;
  ab_mode : Z.testbit (let '(_, _, ecx, _) := cpuid_leaf (env w) 1 0 in ecx) 21 = false →
            Z.testbit (rd_msr w APIC_BASE_msr) 10 = false;
  ab_covered : Z.testbit (let '(_, _, ecx, _) := cpuid_leaf (env w) 1 0 in ecx) 21 = false →
               lapic_phys w + 4096 <= phys_limit (env w)
}.

Lemma has_x2apic_eq w :
  has_x2apic w = Ret (Z.testbit (let '(_, _, ecx, _) := cpuid_leaf (env w) 1 0 in ecx) 21) w.
Proof.
  unfold has_x2apic, cpuid, mbind, M_bind, gets.
  destruct (cpuid_leaf (env w) 1 0) as [[[a b] c] d]. unfold mret, M_ret.
  by rewrite has_bits_bit.
Qed.

(** What [init] leaves. *)
Definition init_post (w : World) (r : bool) (w' : World) : Prop :=
  r = true ∧ apic_on w' ∧ lapic (hw w') = init_lapic (lapic (hw w)) ∧
  APIC_MODE (apic w') =
    (if Z.testbit (let '(_, _, ecx, _) := cpuid_leaf (env w) 1 0 in ecx) 21
     then APIC_MODE_X2APIC else APIC_MODE_XAPIC) ∧
  mmu w' = mmu w ∧ vm w' = vm w ∧ mem64 (hw w') = mem64 (hw w) ∧ ipis (hw w') = ipis (hw w).

Lemma wp_apic_init w : apic_boot w → wp (init (hhdm_base (env w))) (init_post w) w.
Proof.
  intros [Hh Hb Hl Hu Hm Hcov]. destruct apic_base_msr_plain as [Hp He]. unfold init. wp_step.
  eapply wp_intro; [apply has_x2apic_eq|]. destruct (Z.testbit _ 21) eqn:Ex.
  - wp_step. eapply wp_intro; [by apply rdmsr_eq|]. cbv zeta.
    wp_step. eapply wp_intro; [apply wrmsr_eq; [|done|done]; by repeat apply lor_bit_u64|].
    change (set_hw _ w) with (with_apic_base
      (Z.lor (Z.lor (rd_msr w IA32_APIC_BASE) APIC_BASE_ENABLE) APIC_BASE_X2APIC) w).
    set (w1 := with_apic_base _ w). unfold set_mode. wp_steps. match goal with |- wp _ _ ?x => enough (apic_on x) as Hon end.
    { eapply wp_intro; [by apply init_regs_eq|]. wp_steps. unfold init_post. rewrite Ex. by split_and!. }
    split; [|done]. right. left. split; [done|].
    change (x2apic_enabled w1 = true). unfold x2apic_enabled, lapic_enabled, w1.
    rewrite rd_with_apic_base, !Z.lor_spec. cbn. by rewrite !orb_true_r.
  - wp_step. eapply wp_intro; [by apply rdmsr_eq|]. cbv zeta.
    wp_step. eapply wp_intro; [apply wrmsr_eq; [|done|done]; by apply lor_bit_u64|].
    change (set_hw _ w) with (with_apic_base (Z.lor (rd_msr w APIC_BASE_msr) APIC_BASE_ENABLE) w).
    set (w1 := with_apic_base _ w). assert (lapic_phys w1 = lapic_phys w) as Hlp by apply lapic_phys_enable.
    assert (0 <= lapic_phys w <= 2 ^ 32 - 4096) as Hr.
    { unfold lapic_phys in *. Z.to_euclidean_division_equations. lia. }
    unfold set_mode, set_lapic_base. wp_steps.
    match goal with |- wp _ _ ?x => enough (apic_on x) as Hon end.
    { eapply wp_intro; [by apply init_regs_eq|]. wp_steps. unfold init_post. rewrite Ex. by split_and!. }
    split; [|done]. right. right. pose proof (apic_phys_field _ w Hl eq_refl) as Hap.
    split_and!.
    + done.
    + change (lapic_enabled w1 = true). unfold lapic_enabled, w1.
      rewrite rd_with_apic_base, Z.lor_spec. cbn. by rewrite orb_true_r.
    + change (x2apic_enabled w1 = false). unfold x2apic_enabled, w1.
      rewrite rd_with_apic_base, Z.lor_spec, Hm by done. by rewrite andb_false_r.
    + change (wrapping_add (Z.land (rd_msr w APIC_BASE_msr) 0xfffff000) (hhdm_base (env w)) =
              lapic_phys w1 + hhdm_base (env w)).
      rewrite Hap, Hlp. unfold wrapping_add. apply Z.mod_small. lia.
    + change (0 <= lapic_phys w1 + hhdm_base (env w)). lia.
    + change (lapic_phys w1 + hhdm_base (env w) + 4096 <= U64). lia.
    + change (lapic_phys w1 + 4096 <= phys_limit (env w)). rewrite Hlp. by apply Hcov.
Qed.

(** C32: [init] succeeds in both modes: afterwards the driver's mode and base
    agree with the device, the device is enabled with the spurious, divisor
    and timer registers programmed, and nothing else of the kernel changed. *)
Theorem apic_init_ready w : apic_boot w → wp (init (hhdm_base (env w))) (init_post w) w.
Proof. apply wp_apic_init. Qed.
