(* ===== verification/X86Mmu.v ===== *)
(** * The x86-64 MMU (arch/x86_64/src/mmu.rs)

    Every operation of the [Mmu] implementation, statement by statement:
    kernel address-space setup, creation and destruction of address spaces,
    mapping, unmapping, protecting and translating 4 KiB pages, activation
    and TLB maintenance.  Correctness is in [MmuProofs]. *)

From S2P Require Import Prelude HalTypes Paging World Hal Cpu Apic.

Definition MAX_CPUS : nat := 256.
Definition MAX_ADDRESS_SPACES : nat := 64.

Definition PAGE_SIZE : Z := 4096.
Definition ENTRY_COUNT : nat := 512.
Definition KERNEL_PML4_START : nat := 256.

Definition ADDR_MASK : Z := 0x000ffffffffff000.

Definition PTE_P : Z := bit 0.
Definition PTE_W : Z := bit 1.
Definition PTE_U : Z := bit 2.
Definition PTE_PWT : Z := bit 3.
Definition PTE_PCD : Z := bit 4.
Definition PTE_PS : Z := bit 7.
Definition PTE_G : Z := bit 8.
Definition PTE_NX : Z := bit 63.

Definition CR0_WP : Z := bit 16.
Definition CR4_PGE : Z := bit 7.
Definition EFER_LMA : Z := bit 10.
Definition EFER_NXE : Z := bit 11.

Definition EMPTY_HANDLE : AddressSpace := AsDangling.
Definition EMPTY_SLOT : AddressSpaceSlot := mkSlot false (mkX86AddressSpace 0) EMPTY_HANDLE.

(** The initial values of the statics. *)
Definition mmu_init_st : MmuSt :=
  mkMmuSt None None (replicate MAX_CPUS None) (replicate MAX_ADDRESS_SPACES EMPTY_SLOT) false.

Definition aligned_4k (x : Z) : bool := Z.land x (PAGE_SIZE - 1) =? 0.

(** Updates of single statics. *)
Definition set_KAS (v : option X86AddressSpace) : M World unit :=
  modify (set_mmu (λ s, mkMmuSt v (KAS_HANDLE s) (CURRENT_PER_CPU s) (AS_SLOTS s) (NXE_ENABLED s))).
Definition set_KAS_HANDLE (v : option AddressSpace) : M World unit :=
  modify (set_mmu (λ s, mkMmuSt (KAS s) v (CURRENT_PER_CPU s) (AS_SLOTS s) (NXE_ENABLED s))).
Definition set_CURRENT (v : list (option AddressSpace)) : M World unit :=
  modify (set_mmu (λ s, mkMmuSt (KAS s) (KAS_HANDLE s) v (AS_SLOTS s) (NXE_ENABLED s))).
Definition set_AS_SLOTS (v : list AddressSpaceSlot) : M World unit :=
  modify (set_mmu (λ s, mkMmuSt (KAS s) (KAS_HANDLE s) (CURRENT_PER_CPU s) v (NXE_ENABLED s))).
Definition set_NXE_ENABLED (v : bool) : M World unit :=
  modify (set_mmu (λ s, mkMmuSt (KAS s) (KAS_HANDLE s) (CURRENT_PER_CPU s) (AS_SLOTS s) v)).

Definition cpu_index : M World nat :=
  id ← cpu_id;
  mret (if id <? Z.of_nat MAX_CPUS then Z.to_nat id else 0%nat).

(** [*current_slot_mut() = v] *)
Definition store_current_slot (v : option AddressSpace) : M World unit :=
  idx ← cpu_index;
  l ← gets (λ w, CURRENT_PER_CPU (mmu w));
  if (idx <? length l)%nat then set_CURRENT (<[idx := v]> l)
  else panic "index out of bounds".

Definition current_slot : M World (option AddressSpace) :=
  idx ← cpu_index;
  l ← gets (λ w, CURRENT_PER_CPU (mmu w));
  match l !! idx with Some v => mret v | None => panic "index out of bounds" end.

Definition is_canonical (addr : Z) : bool :=
  let sign := Z.land (Z.shiftr addr 47) 1 in
  let upper := Z.shiftr addr 48 in
  if sign =? 0 then upper =? 0 else upper =? 0xffff.

Definition pml4_index (v : Z) : Z := Z.land (Z.shiftr v 39) 0x1ff.
Definition pdpt_index (v : Z) : Z := Z.land (Z.shiftr v 30) 0x1ff.
Definition pd_index (v : Z) : Z := Z.land (Z.shiftr v 21) 0x1ff.
Definition pt_index (v : Z) : Z := Z.land (Z.shiftr v 12) 0x1ff.

Definition phys_to_virt (p : PhysAddr) : M World Z :=
  off ← gets HHDM_OFFSET;
  add64 p off.

Definition nxe_enabled : M World bool := gets (λ w, NXE_ENABLED (mmu w)).

Definition read_cr3 : M World Z := gets (λ w, cr3 (hw w)).

Definition flush_tlb_all_global : M World unit :=
  cr4 ← read_cr4;
  if has_bits cr4 CR4_PGE then
    let cr4_no_pge := Z.land cr4 (not64 CR4_PGE) in
    mov_cr4 cr4_no_pge;;
    cr3 ← read_cr3;
    mov_cr3 cr3;;
    mov_cr4 cr4
  else
    cr3 ← read_cr3;
    mov_cr3 cr3.

(** The EFER part of [init_features]; returns the local [nxe]. *)
Definition init_features_efer (enable_nx : bool) : M World bool :=
  nx ← (if enable_nx then has_nx else mret false);
  if nx : bool then
    efer ← rdmsr IA32_EFER;
    efer' ← (if negb (has_bits efer EFER_NXE) then
               let e1 := Z.lor efer EFER_NXE in
               let e2 := Z.land e1 (not64 EFER_LMA) in
               wrmsr IA32_EFER e2;;
               mret e2
             else mret efer);
    mret (has_bits efer' EFER_NXE)
  else mret false.

Definition init_features (enable_nx : bool) : M World unit :=
  cr0 ← read_cr0;
  cr4 ← read_cr4;
  mov_cr0 (Z.lor cr0 CR0_WP);;
  mov_cr4 (Z.lor cr4 CR4_PGE);;
  nxe ← init_features_efer enable_nx;
  set_NXE_ENABLED nxe.

Definition enable_nx : M World (result unit MapError) :=
  on ← nxe_enabled;
  if on : bool then mret (Ok ()) else
  nx ← has_nx;
  if negb nx then mret (Ok ()) else
  init_features true;;
  flush_tlb_all_global;;
  mret (Ok ()).

Definition zero_frame (p : PhysAddr) : M World unit :=
  ptr ← phys_to_virt p;
  write_zero64 ptr (Z.to_nat (PAGE_SIZE / 8)).

Definition flags_to_pte_nxe (nxe : bool) (flags : MapFlags) : Z :=
  let p := PTE_P in
  let p := if contains flags WRITE then Z.lor p PTE_W else p in
  let p := if contains flags USER then Z.lor p PTE_U else p in
  let p := if contains flags GLOBAL then Z.lor p PTE_G else p in
  let p := if negb (contains flags EXEC) && nxe then Z.lor p PTE_NX else p in
  if contains flags UNCACHED then Z.lor p (Z.lor PTE_PCD PTE_PWT) else p.

Definition flags_to_pte (flags : MapFlags) : M World Z :=
  nxe ← nxe_enabled;
  mret (flags_to_pte_nxe nxe flags).

(** A [&mut [u64; ENTRY_COUNT]] is the address of the table. *)
Definition table_mut (p : PhysAddr) : M World Z := phys_to_virt p.

Definition table_get (t idx : Z) : M World Z :=
  if idx <? Z.of_nat ENTRY_COUNT then load64 (t + 8 * idx) else panic "index out of bounds".
Definition table_set (t idx v : Z) : M World unit :=
  if idx <? Z.of_nat ENTRY_COUNT then store64 (t + 8 * idx) v else panic "index out of bounds".

Definition ensure_table (pt_alloc : PageTableFrameAlloc) (parent idx : Z) (user : bool)
  : M World (result PhysAddr MapError) :=
  entry ← table_get parent idx;
  if has_bits entry PTE_P then mret (Ok (Z.land entry ADDR_MASK)) else
  o ← alloc_frame_4k pt_alloc;
  match o with
  | None => mret (Err OutOfMemory)
  | Some frame =>
      zero_frame frame;;
      let flags := Z.lor PTE_P PTE_W in
      let flags := if user then Z.lor flags PTE_U else flags in
      table_set parent idx (Z.lor (Z.land frame ADDR_MASK) flags);;
      mret (Ok frame)
  end.

(** The [for slot in slots.iter_mut()] loop of [alloc_slot]: the first unused
    slot, counted from [i], is taken. *)
Fixpoint take_slot (i : nat) (slots : list AddressSpaceSlot) (pml4 : PhysAddr)
  : option (AddressSpace * list AddressSpaceSlot) :=
  match slots with
  | [] => None
  | slot :: rest =>
      if negb (used slot)
      then Some (AsSlot i, mkSlot true (mkX86AddressSpace pml4) (AsSlot i) :: rest)
      else match take_slot (S i) rest pml4 with
           | Some (h, rest') => Some (h, slot :: rest')
           | None => None
           end
  end.

Definition alloc_slot (pml4 : PhysAddr) : M World (result AddressSpace MapError) :=
  slots ← gets (λ w, AS_SLOTS (mmu w));
  match take_slot 0 slots pml4 with
  | Some (h, slots') => set_AS_SLOTS slots';; mret (Ok h)
  | None => mret (Err OutOfMemory)
  end.

(** The loop of [free_slot]: the first used slot with the handle is released. *)
Fixpoint release_slot (needle : AddressSpace) (slots : list AddressSpaceSlot)
  : list AddressSpaceSlot :=
  match slots with
  | [] => []
  | slot :: rest =>
      if used slot && bool_decide (handle slot = needle)
      then mkSlot false (mkX86AddressSpace 0) (handle slot) :: rest
      else slot :: release_slot needle rest
  end.

Definition free_slot (aspace : AddressSpace) : M World unit :=
  slots ← gets (λ w, AS_SLOTS (mmu w));
  set_AS_SLOTS (release_slot aspace slots).

(** Dereferencing the handle. *)
Definition as_x86 (aspace : AddressSpace) : M World X86AddressSpace :=
  match aspace with
  | AsKas =>
      k ← gets (λ w, KAS (mmu w));
      match k with Some s => mret s | None => undef "dereference of an empty KAS" end
  | AsSlot i =>
      l ← gets (λ w, AS_SLOTS (mmu w));
      match l !! i with Some s => mret (space s) | None => undef "no such slot" end
  | AsDangling => undef "dereference of a dangling handle"
  end.

(** ** [impl Mmu for X86Mmu] *)

Definition flush_tlb_page (vaddr : VirtAddr) : M World unit := invlpg vaddr.

Definition flush_tlb_all : M World unit :=
  cr3 ← read_cr3;
  mov_cr3 cr3.

Definition shootdown_tlb_page (vaddr : VirtAddr) : M World unit :=
  flush_tlb_page vaddr;;
  send_ipi_all_others TLB_SHOOTDOWN_VEC.

Definition shootdown_tlb_all : M World unit :=
  flush_tlb_all;;
  send_ipi_all_others TLB_SHOOTDOWN_VEC.

Definition handle_tlb_shootdown : M World unit := flush_tlb_all.

Definition current : M World AddressSpace :=
  o ← current_slot;
  expect o "MMU not initialized".

Definition init_kernel : M World (result AddressSpace MapError) :=
  kh ← gets (λ w, KAS_HANDLE (mmu w));
  match kh with
  | Some h => mret (Ok h)
  | None =>
      v ← read_cr3;
      let cr3 := Z.land v ADDR_MASK in
      if cr3 =? 0 then mret (Err InvalidArgs) else
      let root := cr3 in
      set_KAS (Some (mkX86AddressSpace root));;
      let h := AsKas in
      set_KAS_HANDLE (Some h);;
      store_current_slot (Some h);;
      mret (Ok h)
  end.

Definition address_space_new (pt_alloc : PageTableFrameAlloc)
  : M World (result AddressSpace MapError) :=
  _ ←? init_kernel;
  kas ← gets (λ w, KAS (mmu w));
  match kas with
  | None => mret (Err InvalidArgs)
  | Some k =>
      let kernel_root := pml4_phys k in
      o ← alloc_frame_4k pt_alloc;
      match o with
      | None => mret (Err OutOfMemory)
      | Some pml4 =>
          zero_frame pml4;;
          src ← phys_to_virt kernel_root;
          dst ← phys_to_virt pml4;
          copy_nonoverlapping64 (src + 8 * Z.of_nat KERNEL_PML4_START)
                                (dst + 8 * Z.of_nat KERNEL_PML4_START)
                                (ENTRY_COUNT - KERNEL_PML4_START);;
          alloc_slot pml4
      end
  end.

(** One entry of the three nested loops: skipped when absent or large, else
    [inner] runs on its frame and the frame is freed. *)
Definition destroy_entry (pt_alloc : PageTableFrameAlloc) (inner : PhysAddr → M World unit)
  (e : Z) : M World unit :=
  if negb (has_bits e PTE_P) then mret ()
  else if has_bits e PTE_PS then mret ()
  else
    let phys := Z.land e ADDR_MASK in
    inner phys;;
    free_frame_4k pt_alloc phys.

Definition destroy_pd (pt_alloc : PageTableFrameAlloc) (pd_phys : PhysAddr) : M World unit :=
  pd ← table_mut pd_phys;
  for_each (seq 0 ENTRY_COUNT) (λ i,
    e3 ← table_get pd (Z.of_nat i);
    destroy_entry pt_alloc (λ _, mret ()) e3).

Definition destroy_pdpt (pt_alloc : PageTableFrameAlloc) (pdpt_phys : PhysAddr) : M World unit :=
  pdpt ← table_mut pdpt_phys;
  for_each (seq 0 ENTRY_COUNT) (λ i,
    e2 ← table_get pdpt (Z.of_nat i);
    destroy_entry pt_alloc (destroy_pd pt_alloc) e2).

Definition address_space_destroy (pt_alloc : PageTableFrameAlloc) (aspace : AddressSpace)
  : M World unit :=
  kh ← gets (λ w, KAS_HANDLE (mmu w));
  if bool_decide (kh = Some aspace) then mret () else
  x ← as_x86 aspace;
  let root := pml4_phys x in
  pml4 ← table_mut root;
  for_each (seq 0 KERNEL_PML4_START) (λ i,
    e1 ← table_get pml4 (Z.of_nat i);
    destroy_entry pt_alloc (destroy_pdpt pt_alloc) e1);;
  free_frame_4k pt_alloc root;;
  free_slot aspace.

Definition map_4k (pt_alloc : PageTableFrameAlloc) (aspace : AddressSpace)
  (vaddr : VirtAddr) (paddr : PhysAddr) (flags : MapFlags) : M World (result unit MapError) :=
  if negb (aligned_4k vaddr) || negb (aligned_4k paddr) then mret (Err Unaligned) else
  if negb (is_canonical vaddr) then mret (Err InvalidArgs) else
  let user := contains flags USER in
  x ← as_x86 aspace;
  let root := pml4_phys x in
  pml4 ← table_mut root;
  pdpt_phys ←? ensure_table pt_alloc pml4 (pml4_index vaddr) user;
  pdpt ← table_mut pdpt_phys;
  pd_phys ←? ensure_table pt_alloc pdpt (pdpt_index vaddr) user;
  pd ← table_mut pd_phys;
  pt_phys ←? ensure_table pt_alloc pd (pd_index vaddr) user;
  pt ← table_mut pt_phys;
  let idx := pt_index vaddr in
  e ← table_get pt idx;
  if has_bits e PTE_P then mret (Err AlreadyMapped) else
  f ← flags_to_pte flags;
  table_set pt idx (Z.lor (Z.land paddr ADDR_MASK) f);;
  flush_tlb_page vaddr;;
  mret (Ok ()).

(** The walk shared by [unmap_4k], [protect_4k] and [translate]: the page
    table of [vaddr], or the error [e] when an upper entry is absent. *)
Definition walk_to_pt {E} (root vaddr : Z) (e : E) : M World (result Z E) :=
  pml4 ← table_mut root;
  e1 ← table_get pml4 (pml4_index vaddr);
  if negb (has_bits e1 PTE_P) then mret (Err e) else
  pdpt ← table_mut (Z.land e1 ADDR_MASK);
  e2 ← table_get pdpt (pdpt_index vaddr);
  if negb (has_bits e2 PTE_P) then mret (Err e) else
  pd ← table_mut (Z.land e2 ADDR_MASK);
  e3 ← table_get pd (pd_index vaddr);
  if negb (has_bits e3 PTE_P) then mret (Err e) else
  pt ← table_mut (Z.land e3 ADDR_MASK);
  mret (Ok pt).

Definition unmap_4k (aspace : AddressSpace) (vaddr : VirtAddr) : M World (result unit MapError) :=
  if negb (aligned_4k vaddr) then mret (Err Unaligned) else
  if negb (is_canonical vaddr) then mret (Err InvalidArgs) else
  x ← as_x86 aspace;
  let root := pml4_phys x in
  pt ←? walk_to_pt root vaddr NotMapped;
  let idx := pt_index vaddr in
  e ← table_get pt idx;
  if negb (has_bits e PTE_P) then mret (Err NotMapped) else
  table_set pt idx 0;;
  flush_tlb_page vaddr;;
  mret (Ok ()).

Definition protect_4k (aspace : AddressSpace) (vaddr : VirtAddr) (flags : MapFlags)
  : M World (result unit MapError) :=
  if negb (aligned_4k vaddr) then mret (Err Unaligned) else
  if negb (is_canonical vaddr) then mret (Err InvalidArgs) else
  x ← as_x86 aspace;
  let root := pml4_phys x in
  pt ←? walk_to_pt root vaddr NotMapped;
  let idx := pt_index vaddr in
  e ← table_get pt idx;
  if negb (has_bits e PTE_P) then mret (Err NotMapped) else
  let paddr := Z.land e ADDR_MASK in
  f ← flags_to_pte flags;
  table_set pt idx (Z.lor paddr f);;
  flush_tlb_page vaddr;;
  mret (Ok ()).

Definition translate (aspace : AddressSpace) (vaddr : VirtAddr)
  : M World (result PhysAddr TranslateError) :=
  if negb (is_canonical vaddr) then mret (Err TE_InvalidAddress) else
  x ← as_x86 aspace;
  let root := pml4_phys x in
  pt ←? walk_to_pt root vaddr TE_NotMapped;
  e4 ← table_get pt (pt_index vaddr);
  if negb (has_bits e4 PTE_P) then mret (Err TE_NotMapped) else
  let base := Z.land e4 ADDR_MASK in
  let off := Z.land vaddr 0xfff in
  mret (Ok (Z.lor base off)).

Definition activate (aspace : AddressSpace) : M World unit :=
  x ← as_x86 aspace;
  let root := pml4_phys x in
  let cr3 := Z.land root ADDR_MASK in
  mov_cr3 cr3;;
  store_current_slot (Some aspace).
