(* ===== verification/Seg.v ===== *)
(** * Descriptor tables (tss.rs, gdt.rs, idt.rs)

    The task-state segment, the global descriptor table with the TSS
    descriptor, the interrupt gates, and the instructions that load them.
    The processor's side is the architecture's: how a system descriptor, a
    gate and the TSS image are decoded. *)

From S2P Require Import Prelude Layout Bootabi HalTypes Paging World Cpu Apic X86Mmu.

(** ** The processor *)

(** Base and limit of a 16-byte system descriptor. *)
Definition desc_base (lo hi : Z) : Z :=
  (lo / 2 ^ 16) mod 2 ^ 16 + (lo / 2 ^ 32) mod 2 ^ 8 * 2 ^ 16 + (lo / 2 ^ 56) mod 2 ^ 8 * 2 ^ 24
  + hi mod 2 ^ 32 * 2 ^ 32.
Definition desc_limit (lo : Z) : Z := lo mod 2 ^ 16 + (lo / 2 ^ 48) mod 2 ^ 4 * 2 ^ 16.

(** Bits 47:40: present, privilege level and type. *)
Definition desc_access (lo : Z) : Z := (lo / 2 ^ 40) mod 2 ^ 8.

(** A gate's target and the rest of it the processor looks at. *)
Definition gate_offset (g : IdtEntry) : Z :=
  offset_lo g + offset_mid g * 2 ^ 16 + offset_hi g * 2 ^ 32.
Definition gate_present (g : IdtEntry) : bool := Z.testbit (type_attr g) 7.

(** Where the processor reads the fields of a 64-bit TSS. *)
Definition hw_tss_rsp0 (image : list Z) : Z := read_le 8 4 image.
Definition hw_tss_ist (image : list Z) (n : Z) : Z := read_le 8 (36 + 8 * (n - 1)) image.
Definition hw_tss_iopb (image : list Z) : Z := read_le 2 102 image.

Definition set_seg (f : SegSt → SegSt) : World → World :=
  set_sys (λ s, mkSysSt (segenv s) (f (seg s)) (hal s) (tsc s) (lim s) (cpu_flags s)).

Definition get_seg : M World SegSt := gets (λ w, seg (sys w)).
Definition get_segenv : M World SegEnv := gets (λ w, segenv (sys w)).

Definition lgdt (r : TableReg) : M World unit :=
  modify (set_seg (λ s, mkSegSt (TSS s) (GDT s) (TSS_DESC s) (FULL s) (IDT s) r (idtr s)
                          (seg_cs s) (seg_data s) (task_reg s))).
Definition lidt (r : TableReg) : M World unit :=
  modify (set_seg (λ s, mkSegSt (TSS s) (GDT s) (TSS_DESC s) (FULL s) (IDT s) (gdtr s) r
                          (seg_cs s) (seg_data s) (task_reg s))).

(** The quadword of the loaded GDT at byte offset [off]. *)
Definition gdt_read (off : Z) : M World Z :=
  s ← get_seg;
  e ← get_segenv;
  if (tr_base (gdtr s) =? full_addr e) && (off + 7 <=? tr_limit (gdtr s)) then
    match FULL s !! Z.to_nat (off / 8) with
    | Some v => mret v
    | None => undef "descriptor outside the table"
    end
  else undef "#GP: selector beyond the GDT limit".

(** Loading CS wants a present 64-bit code segment, SS a present writable data
    segment, the others a present data segment. *)
Definition load_cs (sel : Z) : M World unit :=
  d ← gdt_read sel;
  if Z.testbit d 47 && Z.testbit d 44 && Z.testbit d 43 && Z.testbit d 53 then
    modify (set_seg (λ s, mkSegSt (TSS s) (GDT s) (TSS_DESC s) (FULL s) (IDT s) (gdtr s) (idtr s)
                            sel (seg_data s) (task_reg s)))
  else undef "#GP: bad code segment".

Definition set_data (f : DataSegs → DataSegs) : M World unit :=
  modify (set_seg (λ s, mkSegSt (TSS s) (GDT s) (TSS_DESC s) (FULL s) (IDT s) (gdtr s) (idtr s)
                          (seg_cs s) (f (seg_data s)) (task_reg s))).

Definition check_data (sel : Z) (stack : bool) : M World unit :=
  d ← gdt_read sel;
  if Z.testbit d 47 && Z.testbit d 44 && negb (Z.testbit d 43) && (negb stack || Z.testbit d 41)
  then mret () else undef "#GP: bad data segment".

Definition load_ds (sel : Z) : M World unit :=
  check_data sel false;; set_data (λ d, mkDataSegs sel (seg_es d) (seg_ss d) (seg_fs d) (seg_gs d)).
Definition load_es (sel : Z) : M World unit :=
  check_data sel false;; set_data (λ d, mkDataSegs (seg_ds d) sel (seg_ss d) (seg_fs d) (seg_gs d)).
Definition load_ss (sel : Z) : M World unit :=
  check_data sel true;; set_data (λ d, mkDataSegs (seg_ds d) (seg_es d) sel (seg_fs d) (seg_gs d)).
Definition load_fs (sel : Z) : M World unit :=
  check_data sel false;; set_data (λ d, mkDataSegs (seg_ds d) (seg_es d) (seg_ss d) sel (seg_gs d)).
Definition load_gs (sel : Z) : M World unit :=
  check_data sel false;; set_data (λ d, mkDataSegs (seg_ds d) (seg_es d) (seg_ss d) (seg_fs d) sel).

(** LTR wants a present, available TSS with a canonical base; it marks the
    descriptor busy. *)
Definition ltr (sel : Z) : M World unit :=
  lo ← gdt_read sel;
  hi ← gdt_read (sel + 8);
  if (desc_access lo =? 0x89) && bool_decide (canonical (desc_base lo hi)) then
    modify (set_seg (λ s, mkSegSt (TSS s) (GDT s) (TSS_DESC s)
                            (<[Z.to_nat (sel / 8) := Z.lor lo (bit 41)]> (FULL s)) (IDT s) (gdtr s) (idtr s)
                            (seg_cs s) (seg_data s) (Some (sel, desc_base lo hi))))
  else undef "#GP: bad TSS descriptor".

(** ** tss.rs *)

(** _rsv0, rsp0, rsp1, rsp2, _rsv1, ist, _rsv2, _rsv3, iopb_offset *)
Definition Tss64_fields : list field :=
  [u32_f; u64_f; u64_f; u64_f; u64_f; array_f 7 u64_f; u64_f; u16_f; u16_f].
Definition sizeof_Tss64 : Z := struct_size 16 Tss64_fields.

(** The bytes of the struct; the reserved fields are zero. *)
Definition tss_image (t : Tss64) : list Z :=
  place 0 (zip Tss64_fields
    [le_bytes 4 0; le_bytes 8 (rsp0 t); le_bytes 8 (rsp1 t); le_bytes 8 (rsp2 t); le_bytes 8 0;
     ist t ≫= le_bytes 8; le_bytes 8 0; le_bytes 2 0; le_bytes 2 (iopb_offset t)]).

Definition Tss64_new : Tss64 := mkTss64 0 0 0 (replicate 7 0) (as_u16 sizeof_Tss64).

Definition IST_STACK_SIZE : Z := 16 * 1024.

Definition stack_top (s : Z) : M World Z := add64 s IST_STACK_SIZE.

(** The initial value of the static [TSS]. *)
Definition TSS_init_st : Tss64 := mkTss64 0 0 0 (replicate 7 0) 0.

Definition set_TSS (t : Tss64) : M World unit :=
  modify (set_seg (λ s, mkSegSt t (GDT s) (TSS_DESC s) (FULL s) (IDT s) (gdtr s) (idtr s)
                          (seg_cs s) (seg_data s) (task_reg s))).

Definition init_tss (rsp0_top : Z) : M World unit :=
  e ← get_segenv;
  s ← get_seg;
  let t := TSS s in
  top ← stack_top (df_stack_addr e);
  set_TSS (mkTss64 rsp0_top (rsp1 t) (rsp2 t) (<[0%nat := top]> (ist t)) (as_u16 sizeof_Tss64)).

(** ** gdt.rs *)

Definition KERNEL_CS : Z := 0x08.
Definition KERNEL_DS : Z := 0x10.
Definition TSS_SEL : Z := 0x18.

Definition gdt_code64 : Z := 0x00AF9A000000FFFF.
Definition gdt_data : Z := 0x00CF92000000FFFF.

Definition make_tss_desc (tss_addr tss_len : Z) : M World (Z * Z) :=
  limit ← sub64 tss_len 1;
  let lo := 0 in
  let lo := Z.lor lo (Z.land limit 0xFFFF) in
  let lo := Z.lor lo (Z.shiftl (Z.land tss_addr 0xFFFF) 16) in
  let lo := Z.lor lo (Z.shiftl (Z.land (Z.shiftr tss_addr 16) 0xFF) 32) in
  let lo := Z.lor lo (Z.shiftl 0x89 40) in
  let lo := Z.lor lo (Z.shiftl (Z.land limit 0xF0000) 32) in
  let lo := Z.lor lo (Z.shiftl (Z.land (Z.shiftr tss_addr 24) 0xFF) 56) in
  let hi := Z.shiftr tss_addr 32 in
  mret (lo, hi).

(** [is_canonical] of gdt.rs, a copy of the one in mmu.rs. *)
Definition gdt_is_canonical (addr : Z) : bool :=
  let sign := Z.land (Z.shiftr addr 47) 1 in
  let upper := Z.shiftr addr 48 in
  if sign =? 0 then upper =? 0 else upper =? 0xffff.

Definition init_tss_only (rsp0_top : Z) : M World unit := init_tss rsp0_top.

Definition build_gdt_entries_only : M World unit :=
  modify (set_seg (λ s, mkSegSt (TSS s) (<[2%nat := gdt_data]> (<[1%nat := gdt_code64]> (GDT s)))
                          (TSS_DESC s) (FULL s) (IDT s) (gdtr s) (idtr s) (seg_cs s) (seg_data s)
                          (task_reg s))).

Definition build_tss_desc : M World unit :=
  e ← get_segenv;
  if negb (gdt_is_canonical (tss_addr e)) then mret () else
  d ← make_tss_desc (tss_addr e) sizeof_Tss64;
  modify (set_seg (λ s, mkSegSt (TSS s) (GDT s) d (FULL s) (IDT s) (gdtr s) (idtr s)
                          (seg_cs s) (seg_data s) (task_reg s))).

Definition build_gdt_entries : M World unit :=
  build_gdt_entries_only;;
  build_tss_desc.

(** [gdt] then the two halves of [tss]. *)
Definition build_full_table : M World unit :=
  modify (set_seg (λ s, mkSegSt (TSS s) (GDT s) (TSS_DESC s)
                          (GDT s ++ [fst (TSS_DESC s); snd (TSS_DESC s)]) (IDT s) (gdtr s) (idtr s)
                          (seg_cs s) (seg_data s) (task_reg s))).

Definition build_gdt_tss (rsp0_top : Z) : M World unit :=
  init_tss_only rsp0_top;;
  build_gdt_entries;;
  build_full_table.

Definition GDT_BYTES : Z := f_size (packed_f [u64_f]) * 3 + f_size (packed_f [u64_f; u64_f]).

Definition load_gdt : M World unit :=
  e ← get_segenv;
  lgdt (mkTableReg (as_u16 (GDT_BYTES - 1)) (full_addr e)).

Definition reload_segments : M World unit :=
  load_cs KERNEL_CS;;
  load_ds KERNEL_DS;;
  load_es KERNEL_DS;;
  load_ss KERNEL_DS;;
  load_fs KERNEL_DS;;
  load_gs KERNEL_DS.

Definition gdt_load_tss : M World unit := ltr TSS_SEL.

Definition init_gdt_and_tss (rsp0_top : Z) : M World unit :=
  build_gdt_tss rsp0_top;;
  load_gdt;;
  reload_segments;;
  gdt_load_tss.

(** ** idt.rs *)

(** offset_lo, selector, ist, type_attr, offset_mid, offset_hi, zero *)
Definition IdtEntry_fields : list field := [u16_f; u16_f; u8_f; u8_f; u16_f; u32_f; u32_f].
Definition sizeof_IdtEntry : Z := f_size (packed_f IdtEntry_fields).

Definition IdtEntry_missing : IdtEntry := mkIdtEntry 0 0 0 0 0 0 0.

Definition gate_of (handler ist : Z) : IdtEntry :=
  mkIdtEntry (as_u16 handler) KERNEL_CS (Z.land ist 7) 0x8E (as_u16 (Z.shiftr handler 16))
    (as_u32 (Z.shiftr handler 32)) 0.

Definition set_gate (vec handler ist : Z) : M World unit :=
  s ← get_seg;
  if (Z.to_nat vec <? length (IDT s))%nat then
    modify (set_seg (λ s, mkSegSt (TSS s) (GDT s) (TSS_DESC s) (FULL s)
                            (<[Z.to_nat vec := gate_of handler ist]> (IDT s)) (gdtr s) (idtr s)
                            (seg_cs s) (seg_data s) (task_reg s)))
  else panic "index out of bounds".

Definition init_idt : M World unit :=
  e ← get_segenv;
  for_each (seq 0 32) (λ vec,
    match isr_stub_table e !! vec with
    | Some handler => set_gate (as_u8 (Z.of_nat vec)) handler (if Nat.eqb vec 8 then 1 else 0)
    | None => panic "index out of bounds"
    end);;
  for_each (seq 0 16) (λ i,
    match irq_stub_table e !! i with
    | Some handler => set_gate (as_u8 (32 + Z.of_nat i)) handler 0
    | None => panic "index out of bounds"
    end);;
  set_gate TIMER_VEC (irq_224 e) 0;;
  set_gate TLB_SHOOTDOWN_VEC (irq_225 e) 0;;
  lidt (mkTableReg (as_u16 (sizeof_IdtEntry * 256 - 1)) (idt_addr e)).

(** ** lib.rs: [init_core] *)

Definition init_gdt_and_segments (rsp0_top : Z) : M World unit :=
  init_tss_only rsp0_top;;
  build_gdt_entries_only;;
  build_full_table;;
  load_gdt;;
  reload_segments.

Definition load_tss : M World unit :=
  build_tss_desc;;
  build_full_table;;
  gdt_load_tss.

Definition init_core : M World unit :=
  e ← get_segenv;
  let rsp0_top := boot_rsp e in
  init_gdt_and_segments rsp0_top;;
  init_idt;;
  mask_legacy_pic;;
  load_tss.

(** The initial values of the statics, and the registers as the bootloader
    leaves them. *)
Definition seg_init_st : SegSt :=
  mkSegSt TSS_init_st [0; 0; 0] (0, 0) [0; 0; 0; 0; 0] (replicate 256 IdtEntry_missing)
    (mkTableReg 0 0) (mkTableReg 0 0) 0 (mkDataSegs 0 0 0 0 0) None.
