(* ===== verification/Time.v ===== *)
(** * Time (tsc.rs, hal/time.rs, kernel/time.rs)

    The TSC clock source, the HAL's timer registry and the kernel's periodic
    tick, which re-arms a one-shot deadline every 10 ms. *)

From S2P Require Import Prelude Bootabi HalTypes Paging World Cpu.

(** ** The processor's counter *)

Definition set_tsc (f : TscSt → TscSt) : World → World :=
  set_sys (λ s, mkSysSt (segenv s) (seg s) (hal s) (f (tsc s)) (lim s) (cpu_flags s)).

(** RDTSCP: the counter, which has moved on by the next read. *)
Definition rdtscp : M World Z :=
  t ← gets (λ w, tsc_counter (tsc (sys w)));
  modify (set_tsc (λ s, mkTscSt (TSC_HZ s) (wrapping_add (tsc_counter s) (tsc_step s)) (tsc_step s)));;
  mret t.

(** ** tsc.rs *)

Definition set_TSC_HZ (v : Z) : M World unit :=
  modify (set_tsc (λ s, mkTscSt v (tsc_counter s) (tsc_step s))).

Definition tsc_init : M World bool :=
  ok ← has_invariant_tsc;
  if negb ok then set_TSC_HZ 0;; mret false else
  o ← tsc_hz;
  set_TSC_HZ (default 0 o);;
  mret true.

Definition hz : M World (option Z) :=
  h ← gets (λ w, TSC_HZ (tsc (sys w)));
  mret (if h =? 0 then None else Some h).

Definition now : M World Z := rdtscp.

Definition ticks_from_ns (ns : Z) : M World (option Z) :=
  o ← hz;
  mret (match o with
        | None => None
        | Some h => Some (saturating_mul ns h / 1000000000)
        end).

Definition set_deadline_tsc (abs_tsc : Z) : M World unit := wrmsr IA32_TSC_DEADLINE abs_tsc.

Definition set_deadline_after_ticks (ticks : Z) : M World unit :=
  t ← now;
  set_deadline_tsc (wrapping_add t ticks).

(** [impl TimerOps for TscTimer] *)
Definition TscTimer_now_ticks : M World Z := now.
Definition TscTimer_frequency_hz : M World Z := o ← hz; mret (default 0 o).
Definition TscTimer_arm_one_shot (deadline_ticks : Z) : M World unit := set_deadline_tsc deadline_ticks.

(** ** hal/time.rs *)

Definition hal_register_timer (t : TimerObj) : M World unit :=
  modify (set_hal (λ s, mkHalSt (SERIAL s) (Some t) (HANDLER s) (LOGGER s))).

Definition get_TIMER : M World (option TimerObj) := gets (λ w, TIMER (hal (sys w))).

Definition now_ticks : M World Z :=
  o ← get_TIMER;
  match o with Some TSC_TIMER => TscTimer_now_ticks | None => mret 0 end.

Definition frequency_hz : M World Z :=
  o ← get_TIMER;
  match o with Some TSC_TIMER => TscTimer_frequency_hz | None => mret 0 end.

Definition arm_one_shot (deadline_ticks : Z) : M World unit :=
  o ← get_TIMER;
  match o with Some TSC_TIMER => TscTimer_arm_one_shot deadline_ticks | None => mret () end.

(** tsc.rs *)
Definition register_timer : M World unit := hal_register_timer TSC_TIMER.

(** ** kernel/time.rs *)

Definition TICK_NS : Z := 10000000.

Definition arm_next_tick : M World unit :=
  hz ← frequency_hz;
  if hz =? 0 then mret () else
  let ticks := saturating_mul TICK_NS hz / 1000000000 in
  if ticks =? 0 then mret () else
  now ← now_ticks;
  arm_one_shot (wrapping_add now ticks).

Definition time_init : M World unit := arm_next_tick.
Definition on_timer_tick : M World unit := arm_next_tick.

(** ** Correctness *)

(** The state after the deadline was armed [ticks] after the counter. *)
Definition armed (ticks : Z) (w : World) : World :=
  set_hw (λ h, hw_msrs (<[IA32_TSC_DEADLINE :=
                          wrapping_add (tsc_counter (tsc (sys w))) ticks]> (msrs h)) h)
    (set_tsc (λ s, mkTscSt (TSC_HZ s) (wrapping_add (tsc_counter s) (tsc_step s)) (tsc_step s)) w).

Lemma wrapping_add_u64 a b : is_u64 (wrapping_add a b).
Proof. unfold is_u64, wrapping_add, U64. apply Z.mod_pos_bound. lia. Qed.

Lemma tick_count h : 0 <= h < 2 ^ 40 → saturating_mul TICK_NS h / 1000000000 = h / 100.
Proof.
  intros Hh. unfold saturating_mul, TICK_NS, U64.
  rewrite Z.min_l by lia. replace (10000000 * h) with (h * 10000000) by lia.
  change 1000000000 with (100 * 10000000). by rewrite Z.div_mul_cancel_r by lia.
Qed.

Lemma arm_next_tick_eq w : 0 <= TSC_HZ (tsc (sys w)) < 2 ^ 40 →
  arm_next_tick w =
  if bool_decide (TIMER (hal (sys w)) = None) || (TSC_HZ (tsc (sys w)) <? 100) then Ret () w
  else Ret () (armed (TSC_HZ (tsc (sys w)) / 100) w).
Proof.
  intros Hh. pose proof (tick_count _ Hh) as Ht.
  unfold arm_next_tick, frequency_hz, get_TIMER, gets, mbind, M_bind.
  destruct (TIMER (hal (sys w))) as [[]|] eqn:E.
  2: { by rewrite bool_decide_eq_true_2. }
  rewrite bool_decide_eq_false_2 by done. cbn [orb].
  unfold TscTimer_frequency_hz, hz, gets, mbind, M_bind, mret, M_ret.
  set (h := TSC_HZ (tsc (sys w))) in *.
  assert (default 0 (if h =? 0 then None else Some h) = h) as Hd by (destruct (Z.eqb_spec h 0); cbn; lia).
  rewrite Hd, Ht. cbv zeta. destruct (Z.ltb_spec h 100) as [Hlt|Hge].
  - rewrite (Z.div_small h 100) by lia. by destruct (h =? 0).
  - rewrite (proj2 (Z.eqb_neq h 0)) by lia.
    assert (0 < h / 100) by (apply Z.div_str_pos; lia). rewrite (proj2 (Z.eqb_neq (h / 100) 0)) by lia.
    unfold now_ticks, get_TIMER, gets, mbind, M_bind. rewrite E.
    unfold TscTimer_now_ticks, now, rdtscp, gets, modify, mbind, M_bind, mret, M_ret.
    unfold arm_one_shot, get_TIMER, gets, mbind, M_bind. cbn [sys hal TIMER set_tsc set_sys]. rewrite E.
    unfold TscTimer_arm_one_shot, set_deadline_tsc.
    rewrite wrmsr_eq; [done|apply wrapping_add_u64|done|done].
Qed.

(** C36: every tick arms the next one: with a registered timer of at least
    100 Hz the deadline is set to the counter plus a hundredth of a second,
    modulo 2^64, and nothing else changes but the passing of time; without a
    timer, or with a slower one, nothing happens. *)
Theorem tick_armed_in_10ms w : 0 <= TSC_HZ (tsc (sys w)) < 2 ^ 40 →
  on_timer_tick w =
  if bool_decide (TIMER (hal (sys w)) = None) || (TSC_HZ (tsc (sys w)) <? 100) then Ret () w
  else Ret () (armed (TSC_HZ (tsc (sys w)) / 100) w).
Proof. apply arm_next_tick_eq. Qed.
