(* ===== verification/Intr.v ===== *)
(** * Interrupts (interrupts/mod.rs, stubs.S, hal/interrupt.rs,
    kernel/interrupts.rs)

    From the processor's stack frame through the entry stubs to the kernel's
    handler: the context the stubs build, the decoding of exceptions and
    IRQs, the HAL's handler registry and the kernel's policy. *)

From S2P Require Import Prelude Fmt Layout Bootabi HalTypes Paging World Hal Cpu Apic X86Mmu Time.

(** ** stubs.S *)

(** The vectors whose stub relies on the processor's error code
    ([ISR_ERR]). *)
Definition stub_expects_error (vec : Z) : bool :=
  bool_decide (vec ∈ [8; 10; 11; 12; 13; 14; 17]).

Record Gprs := mkGprs {
  rax : Z; rbx : Z; rcx : Z; rdx : Z; rbp : Z; rsi : Z; rdi : Z;
  r8 : Z; r9 : Z; r10 : Z; r11 : Z; r12 : Z; r13 : Z; r14 : Z; r15 : Z
}.

(** XMM0 .. XMM15 and MXCSR, which the stubs do not save. *)
Record SseState := mkSseState { xmm : list Z; mxcsr : Z }.

Record CpuFrame := mkCpuFrame { rip : Z; cs : Z; rflags : Z; rsp : Z; ss : Z }.

Definition frame_words (f : CpuFrame) : list Z := [rip f; cs f; rflags f; rsp f; ss f].

(** [PUSH_GPRS], the last push first. *)
Definition push_gprs (g : Gprs) (stack : list Z) : list Z :=
  foldl (λ s v, v :: s) stack
    [rax g; rbx g; rcx g; rdx g; rbp g; rsi g; rdi g; r8 g; r9 g; r10 g; r11 g; r12 g; r13 g; r14 g; r15 g].

(** The stack at the call of the dispatcher; [stack] is what the processor
    pushed. *)
Definition stub_entry (vec : Z) (g : Gprs) (stack : list Z) : list Z :=
  let stack := if stub_expects_error vec then stack else 0 :: stack in
  push_gprs g (vec :: stack).

(** [POP_GPRS], the order reversed. *)
Definition pop_gprs (stack : list Z) : option (Gprs * list Z) :=
  match stack with
  | v15 :: v14 :: v13 :: v12 :: v11 :: v10 :: v9 :: v8 :: vdi :: vsi :: vbp :: vdx :: vcx :: vbx :: vax :: s =>
      Some (mkGprs vax vbx vcx vdx vbp vsi vdi v8 v9 v10 v11 v12 v13 v14 v15, s)
  | _ => None
  end.

(** [add rsp, 16] and IRETQ: the state the processor goes on with. *)
Definition stub_exit (stack : list Z) : option (Gprs * CpuFrame) :=
  match pop_gprs stack with
  | Some (g, _ :: _ :: vip :: vcs :: vfl :: vsp :: vss :: _) => Some (g, mkCpuFrame vip vcs vfl vsp vss)
  | _ => None
  end.

(** ** interrupts/mod.rs *)

Record ExceptionContext := mkExceptionContext {
  ctx_gprs : Gprs; vector : Z; ctx_error_code : Z; ctx_frame : CpuFrame
}.

(** The struct at the top of the stack: r15 .. rax, vector, error code and the
    processor's frame. *)
Definition read_context (stack : list Z) : option ExceptionContext :=
  match stack with
  | v15 :: v14 :: v13 :: v12 :: v11 :: v10 :: v9 :: v8 :: vdi :: vsi :: vbp :: vdx :: vcx :: vbx :: vax ::
    vec :: err :: vip :: vcs :: vfl :: vsp :: vss :: _ =>
      Some (mkExceptionContext (mkGprs vax vbx vcx vdx vbp vsi vdi v8 v9 v10 v11 v12 v13 v14 v15)
              vec err (mkCpuFrame vip vcs vfl vsp vss))
  | _ => None
  end.

Definition read_cr2 : M World Z := gets (λ w, cr2 (hw w)).

Definition decode_fault_kind (vec : Z) : FaultKind :=
  if vec =? 0 then FK_DivideByZero
  else if vec =? 6 then FK_InvalidOpcode
  else if vec =? 8 then FK_DoubleFault
  else if vec =? 13 then FK_GeneralProtection
  else if vec =? 14 then FK_PageFault
  else FK_Unknown.

Definition irq_line (vec : Z) : Z :=
  if (32 <=? vec) && (vec <? 48) then as_u16 (vec - 32) else 0.

(** ** kernel/interrupts.rs *)

Definition fault_name (k : FaultKind) : string :=
  match k with
  | FK_None => "None" | FK_PageFault => "PageFault" | FK_GeneralProtection => "GeneralProtection"
  | FK_InvalidOpcode => "InvalidOpcode" | FK_DivideByZero => "DivideByZero"
  | FK_DoubleFault => "DoubleFault" | FK_Unknown => "Unknown"
  end.

Definition handle_fault (frame : IrqFrame) : M World unit :=
  panic ("fault " +:+ fault_name (fault_kind frame) +:+ " err=" +:+ fmt_hex (error_code frame)
         +:+ " addr=" +:+ fmt_hex (fault_addr frame)).

Definition on_interrupt (frame : IrqFrame) : M World unit :=
  match kind frame with
  | IK_Timer => on_timer_tick
  | IK_Fault => handle_fault frame
  | IK_External => mret ()
  | IK_Spurious | IK_Unknown => mret ()
  end.

(** ** hal/interrupt.rs *)

Definition register_handler (h : HandlerObj) : M World unit :=
  modify (set_hal (λ s, mkHalSt (SERIAL s) (TIMER s) (Some h) (LOGGER s))).

Definition dispatch (frame : IrqFrame) : M World unit :=
  o ← gets (λ w, HANDLER (hal (sys w)));
  match o with
  | None => mret ()
  | Some KERNEL_INTERRUPTS => on_interrupt frame
  end.

(** kernel/interrupts.rs *)
Definition interrupts_init : M World unit := register_handler KERNEL_INTERRUPTS.

(** interrupts/mod.rs *)

Definition exception_dispatch (ctx : ExceptionContext) : M World unit :=
  let vec := as_u8 (vector ctx) in
  let fk := decode_fault_kind vec in
  fault_addr ← (if decide (fk = FK_PageFault) then read_cr2 else mret 0);
  dispatch (mkIrqFrame IK_Fault fk 0 (ctx_error_code ctx) fault_addr).

Definition irq_dispatch (ctx : ExceptionContext) : M World unit :=
  let vec := as_u8 (vector ctx) in
  if vec =? TLB_SHOOTDOWN_VEC then
    handle_tlb_shootdown;;
    eoi
  else
    let kind := if vec =? TIMER_VEC then IK_Timer else IK_External in
    dispatch (mkIrqFrame kind FK_None (irq_line vec) (ctx_error_code ctx) 0);;
    eoi.

(** ** A whole stub: [EXC_COMMON] for the exceptions, [IRQ_COMMON] for the
    others.  The dispatchers read the context through a pointer and write
    nothing to it.

    The kernel is compiled for a target with SSE2 and the calling convention
    lets a callee overwrite every XMM register, so what the interrupted code
    finds in them is up to the compiler: [compiled ctx x] stands for the SSE
    state in which the machine code of the dispatcher leaves a processor it
    was called on in SSE state [x]. *)
Section stub.
Context (compiled : ExceptionContext → SseState → SseState).

Definition stub (vec : Z) (g : Gprs) (x : SseState) (stack : list Z) : M World (Gprs * CpuFrame * SseState) :=
  let stack := stub_entry vec g stack in
  match read_context stack, stub_exit stack with
  | Some ctx, Some st =>
      (if vec <? 32 then exception_dispatch ctx else irq_dispatch ctx);;
      mret (st, compiled ctx x)
  | _, _ => undef "stub: stack underflow"
  end.
End stub.
