(* ===== verification/MmuProofs.v ===== *)
(** * Correctness of the MMU operations

    The kernel's page-table operations are related to the processor's walk
    [hw_walk]: what they return, what they do to the translation of the page
    they are called on, and that every other translation stays as it was. *)

From S2P Require Import Prelude HalTypes Paging World Hal Cpu Apic X86Mmu.

(** ** The bit tests of mmu.rs are the architecture's fields *)

Lemma PTE_P_spec e : has_bits e PTE_P = pte_present e.
Proof. by apply has_bits_bit. Qed.

Lemma PTE_PS_spec e : has_bits e PTE_PS = pte_large e.
Proof. by apply has_bits_bit. Qed.

Lemma ADDR_MASK_ones : ADDR_MASK = Z.shiftl (Z.ones 40) 12.
Proof. reflexivity. Qed.

Lemma ADDR_MASK_spec e : Z.land e ADDR_MASK = frame_of e.
Proof. rewrite ADDR_MASK_ones. by rewrite land_shifted_ones. Qed.

Lemma frame_of_id f : f mod 4096 = 0 → 0 <= f < 2 ^ 52 → frame_of f = f.
Proof.
  intros Hm Hr. rewrite <- ADDR_MASK_spec, ADDR_MASK_ones.
  by apply land_shifted_ones_id.
Qed.

Lemma index_bits v l k : k = level_shift l → Z.land (Z.shiftr v k) 0x1ff = index l v.
Proof.
  intros ->. change 0x1ff with (Z.ones 9). rewrite Z.land_ones by lia.
  unfold index. rewrite Z.shiftr_div_pow2 by (unfold level_shift; lia). done.
Qed.

Lemma pml4_index_spec v : pml4_index v = index 3 v.
Proof. by apply index_bits. Qed.
Lemma pdpt_index_spec v : pdpt_index v = index 2 v.
Proof. by apply index_bits. Qed.
Lemma pd_index_spec v : pd_index v = index 1 v.
Proof. by apply index_bits. Qed.
Lemma pt_index_spec v : pt_index v = index 0 v.
Proof. by apply index_bits. Qed.

Lemma aligned_4k_spec x : aligned_4k x = true ↔ x mod 4096 = 0.
Proof.
  unfold aligned_4k. change (PAGE_SIZE - 1) with (Z.ones 12).
  rewrite Z.land_ones by lia. apply Z.eqb_eq.
Qed.

Create Rewrite HintDb mmu.
#[export] Hint Rewrite PTE_P_spec PTE_PS_spec ADDR_MASK_spec pml4_index_spec
  pdpt_index_spec pd_index_spec pt_index_spec : mmu.

(** ** Addresses *)

(** The kernel's idea of the direct map is the bootloader's. *)
Record hhdm_ready (w : World) : Prop := mkHhdmReady {
  hr_offset : HHDM_OFFSET w = hhdm_base (env w);
  hr_base : 0 <= hhdm_base (env w);
  hr_fits : hhdm_base (env w) + phys_limit (env w) <= U64;
  hr_limit : phys_limit (env w) <= 2 ^ 52
}.

Lemma hhdm_ready_alloc w w' : hhdm_ready w → same_but_alloc w w' → hhdm_ready w'.
Proof. intros [? ? ? ?] [E1 E2 _ _ _ _ _ _]. split; rewrite ?E1, ?E2; done. Qed.

Lemma phys_to_virt_eq w p :
  hhdm_ready w → 0 <= p < phys_limit (env w) →
  phys_to_virt p w = Ret (p + hhdm_base (env w)) w.
Proof.
  intros [Ho Hb Hf Hl] Hp. unfold phys_to_virt, mbind, M_bind, gets, add64.
  rewrite Ho. by rewrite (proj2 (Z.ltb_lt _ _)) by lia.
Qed.

Lemma wp_phys_to_virt w p (Q : Z → World → Prop) :
  hhdm_ready w → 0 <= p < phys_limit (env w) → Q (p + hhdm_base (env w)) w →
  wp (phys_to_virt p) Q w.
Proof. intros. unfold wp. by rewrite phys_to_virt_eq. Qed.

Lemma table_index_lt i : table_index i → (i <? Z.of_nat ENTRY_COUNT) = true.
Proof. unfold table_index. intros. apply Z.ltb_lt. change (Z.of_nat ENTRY_COUNT) with 512. lia. Qed.

Lemma wp_table_get w t i (Q : Z → World → Prop) :
  frame_ok w t → table_index i → Q (pte (mem64 (hw w)) t i) w →
  wp (table_get (t + hhdm_base (env w)) i) Q w.
Proof.
  intros (Ha & H0 & H1) Hi HQ. unfold table_get. rewrite table_index_lt by done.
  replace (t + hhdm_base (env w) + 8 * i) with (t + 8 * i + hhdm_base (env w)) by lia.
  unfold table_index in Hi. apply wp_load64; [lia|lia|done].
Qed.

Lemma wp_table_set w t i v (Q : unit → World → Prop) :
  frame_ok w t → table_index i →
  Q () (set_mem64 (<[t + 8 * i := v]> (mem64 (hw w))) w) →
  wp (table_set (t + hhdm_base (env w)) i v) Q w.
Proof.
  intros (Ha & H0 & H1) Hi HQ. unfold table_set. rewrite table_index_lt by done.
  replace (t + hhdm_base (env w) + 8 * i) with (t + 8 * i + hhdm_base (env w)) by lia.
  unfold table_index in Hi. apply wp_store64; [lia|lia|done].
Qed.

Lemma wp_zero_frame w f (Q : unit → World → Prop) :
  hhdm_ready w → frame_ok w f →
  Q () (set_mem64 (zero_cells (mem64 (hw w)) f 512) w) → wp (zero_frame f) Q w.
Proof.
  intros Hr (Ha & H0 & H1) HQ. unfold zero_frame. wp_step.
  apply wp_phys_to_virt; [done|lia|]. by apply wp_write_zero64.
Qed.


(** ** Entries the kernel builds *)

Lemma frame_of_lor a fl : Z.land fl ADDR_MASK = 0 → frame_of (Z.lor (frame_of a) fl) = frame_of a.
Proof.
  intros Hfl. rewrite <- !ADDR_MASK_spec, Z.land_lor_distr_l, Hfl, Z.lor_0_r.
  by rewrite <- Z.land_assoc, Z.land_diag.
Qed.

(** A flag bit is outside the address field. *)
Lemma entry_flag a fl j :
  Z.testbit ADDR_MASK j = false → Z.testbit (Z.lor (frame_of a) fl) j = Z.testbit fl j.
Proof. intros Hj. by rewrite <- ADDR_MASK_spec, Z.lor_spec, Z.land_spec, Hj, andb_false_r. Qed.

(** The flags [ensure_table] gives a new table. *)
Definition table_flags (user : bool) : Z :=
  let flags := Z.lor PTE_P PTE_W in if user then Z.lor flags PTE_U else flags.

Lemma table_flags_mask user : Z.land (table_flags user) ADDR_MASK = 0.
Proof. by destruct user. Qed.

Lemma flags_to_pte_mask nxe fl : Z.land (flags_to_pte_nxe nxe fl) ADDR_MASK = 0.
Proof. unfold flags_to_pte_nxe. cbv zeta. repeat case_match; reflexivity. Qed.

(** An aligned frame below 2^52, the range of an entry's address field. *)
Definition frame_ok_range (f : Z) : Prop := f mod 4096 = 0 ∧ 0 <= f < 2 ^ 52.

(** ** Growing the tree *)

Section ops.
Context (A : PageTableFrameAlloc) `{!FrameAllocLaws A}.

#[local] Abbreviation m_of w := (mem64 (hw w)).

(** The allocator will not hand out a table of this address space. *)
Definition fresh_frames (w : World) (root : Z) : Prop :=
  ∀ f, fa_avail w f → ¬ reachable (m_of w) root f.

(** An address space the kernel can operate on. *)
Record space_inv (root : Z) (w : World) : Prop := mkSpaceInv {
  si_ready : hhdm_ready w;
  si_tree : tree_ok (phys_limit (env w)) (m_of w) root;
  si_alloc : fa_inv w;
  si_fresh : fresh_frames w root
}.

Lemma space_inv_set_mmu root f w : space_inv root w → space_inv root (set_mmu f w).
Proof.
  intros [Hr Ht Hi Hfr]. destruct (fa_stable w _ (same_kernel_set_mmu f w) Hi) as [Hi' Hav].
  split; [by destruct Hr|done|done|]. intros g Hg. by apply Hfr, Hav.
Qed.

(** Entry [j] of [x] is above the page table on the path of [va]. *)
Definition upper_entry (m : ram) (root va x j : Z) : Prop :=
  ∃ k, (k <= 2)%nat ∧ follow m root (take k (path 3 va)) = Some x ∧ j = index (3 - k) va.

(** What adding the missing tables for [va] may change. *)
Record grown (user : bool) (root va : Z) (w w' : World) : Prop := mkGrown {
  gr_same : same_but_alloc w w';
  gr_inv : space_inv root w';
  gr_avail : ∀ f, fa_avail w' f → fa_avail w f;
  gr_no_leak : ∀ f, fa_avail w f → fa_avail w' f ∨ reachable (m_of w') root f;
  gr_walk : ∀ v, hw_walk (m_of w') root v = hw_walk (m_of w) root v;
  gr_follow : ∀ q x, table_path q →
    follow (m_of w) root q = Some x → follow (m_of w') root q = Some x;
  gr_back : ∀ q x, table_path q → follow (m_of w') root q = Some x →
    follow (m_of w) root q = Some x ∨ fa_avail w x;
  gr_entries : ∀ (P : Z → Prop) v,
    path_entries P (m_of w) root v →
    (∀ f, frame_ok_range f → P (Z.lor (frame_of f) (table_flags user))) →
    path_entries P (m_of w') root v;
  gr_keep : ∀ x j, reachable (m_of w) root x → table_index j →
    pte_present (pte (m_of w) x j) = true → pte (m_of w') x j = pte (m_of w) x j;
  gr_other : ∀ x j, x mod 4096 = 0 → table_index j →
    ¬ upper_entry (m_of w) root va x j → ¬ fa_avail w x →
    pte (m_of w') x j = pte (m_of w) x j
}.

Lemma grown_refl user root va w : space_inv root w → grown user root va w w.
Proof. intros. split; eauto with paging. Qed.

Lemma grown_trans user root va w1 w2 w3 :
  grown user root va w1 w2 → grown user root va w2 w3 → grown user root va w1 w3.
Proof.
  intros [] []. split; eauto using same_but_alloc_trans.
  - intros f Hf. destruct (gr_no_leak0 f Hf) as [|(q & Hq & Hx)]; [auto|].
    right. exists q. eauto.
  - intros v. by rewrite gr_walk1, gr_walk0.
  - intros q x Hq Hx. destruct (gr_back1 q x Hq Hx) as [H2|]; eauto.
  - intros x j (q & Hq & Hx) Hj Hp. rewrite gr_keep1; [by apply gr_keep0; [exists q|..]|..].
    + exists q. eauto.
    + done.
    + rewrite gr_keep0; [done|by exists q|done|done].
  - intros x j Hx Hj Hu Ha. rewrite gr_other1; [by apply gr_other0| | | |]; try done.
    + intros (k & Hk & Hf & Ej). destruct (gr_back0 _ x (take_path_ok k va ltac:(lia)) Hf); [|done].
      apply Hu. by exists k.
    + eauto.
Qed.

Lemma path_step k va : (k <= 3)%nat →
  take (S k) (path 3 va) = take k (path 3 va) ++ [index (3 - k) va].
Proof. intros Hk. apply take_S_r. by apply path_lookup. Qed.

Lemma space_inv_frame root w t :
  space_inv root w → reachable (m_of w) root t → frame_ok w t.
Proof.
  intros [_ Ht _ _] Hr. split; [|by apply Ht].
  eapply reachable_aligned; [apply Ht|done].
Qed.

Lemma table_entry_fields f user : frame_ok_range f →
  pte_present (Z.lor (Z.land f ADDR_MASK) (table_flags user)) = true ∧
  pte_large (Z.lor (Z.land f ADDR_MASK) (table_flags user)) = false ∧
  frame_of (Z.lor (Z.land f ADDR_MASK) (table_flags user)) = f.
Proof.
  intros [Ha Hr]. rewrite ADDR_MASK_spec.
  rewrite frame_of_lor by apply table_flags_mask. rewrite frame_of_id by done.
  rewrite <- (frame_of_id f) by done.
  unfold pte_present, pte_large. rewrite !entry_flag by done. by destruct user.
Qed.

(** The state after [ensure_table] linked a fresh table [f] into entry
    [index (3 - k) va] of [t], the table after [k] steps of the path. *)
Section linked.
Context (user : bool) (root va : Z) (w w1 : World) (k : nat) (t f : Z).
#[local] Abbreviation e := (Z.lor (frame_of f) (table_flags user)).
#[local] Abbreviation p := (take k (path 3 va)).
#[local] Abbreviation i := (index (3 - k) va).
#[local] Abbreviation m := (m_of w).
#[local] Abbreviation m' := (link m t i f e).
Context (Hinv : space_inv root w) (Hk : (k <= 2)%nat).
Context (Ht : follow m root p = Some t) (Habs : pte_present (pte m t i) = false).
Context (Hi1 : fa_inv w1) (Hs1 : same_but_alloc w w1).
Context (Hav : ∀ g, fa_avail w1 g → fa_avail w g).
Context (Hf : fa_avail w f) (Hf1 : ¬ fa_avail w1 f) (Hfok : frame_ok w f).
Context (Hkeep : ∀ g, fa_avail w g → g ≠ f → fa_avail w1 g).

Lemma linked_range : frame_ok_range f.
Proof.
  destruct Hfok as (? & ? & ?). pose proof (hr_limit _ (si_ready _ _ Hinv)). split; [done|lia].
Qed.

Lemma linked_entry : pte_present e = true ∧ pte_large e = false ∧ frame_of e = f.
Proof. rewrite <- ADDR_MASK_spec. apply table_entry_fields, linked_range. Qed.

Lemma linked_path : table_path p ∧ (length p <= 2)%nat.
Proof. split; [apply take_path_ok; lia|rewrite length_take; lia]. Qed.

Lemma linked_fresh : ¬ reachable m root f.
Proof. by apply (si_fresh _ _ Hinv). Qed.

Lemma linked_aligned : t mod 4096 = 0.
Proof. eapply follow_aligned; [apply (si_tree _ _ Hinv)|exact Ht]. Qed.

Lemma linked_tree : tree_ok (phys_limit (env w)) m' root.
Proof.
  destruct linked_path, linked_entry as (? & ? & ?), Hfok as (? & ? & ?).
  eapply (tree_link _ _ _ p); eauto using si_tree, index_range, linked_fresh.
Qed.

Lemma linked_back q x : table_path q → follow m' root q = Some x →
  (q = p ++ [i] ∧ x = f) ∨ follow m root q = Some x.
Proof.
  destruct linked_path, linked_entry as (? & ? & ?), Hfok as (? & ? & ?). intros Hq Hx.
  eapply (follow_link_inv _ _ _ p); eauto using si_tree, index_range, linked_fresh.
Qed.

Lemma linked_new : follow m' root (p ++ [i]) = Some f.
Proof.
  destruct linked_path, linked_entry as (? & ? & ?), Hfok as (? & ? & ?).
  eapply (follow_link_new _ _ _ p); eauto using si_tree, index_range, linked_fresh.
Qed.

Lemma linked_empty j : table_index j → pte m' f j = 0.
Proof.
  destruct linked_path, linked_entry as (? & ? & ?), Hfok as (? & ? & ?).
  eapply (link_new_empty _ _ _ p); eauto using si_tree, index_range, linked_fresh.
Qed.

Lemma linked_pte x j : x mod 4096 = 0 → table_index j → x ≠ f → (x, j) ≠ (t, i) →
  pte m' x j = pte m x j.
Proof.
  intros Hx Hj Hxf Hne. destruct Hfok as (? & ? & ?). unfold link.
  rewrite pte_insert_ne; [by apply pte_zero_out|apply linked_aligned|done| |done|congruence].
  apply index_range.
Qed.

Lemma linked_reachable_pte x j : reachable m root x → table_index j → (x, j) ≠ (t, i) →
  pte m' x j = pte m x j.
Proof.
  intros Hx Hj Hne. apply linked_pte; [|done| |done].
  - eapply reachable_aligned; [apply (si_tree _ _ Hinv)|done].
  - intros ->. by apply linked_fresh.
Qed.

Lemma linked_entries (P : Z → Prop) v :
  path_entries P m root v → P e → path_entries P m' root v.
Proof.
  intros HP He k' x Hk' Hx Hpr.
  destruct (linked_back _ x (take_path_ok k' v ltac:(lia)) Hx) as [[_ ->]|Hx'].
  - by rewrite linked_empty in Hpr by apply index_range.
  - destruct (decide ((x, index (3 - k') v) = (t, i))) as [[= -> E]|Hne].
    + rewrite E. unfold link. by rewrite pte_insert_eq.
    + assert (reachable m root x) as Hr.
      { exists (take k' (path 3 v)). split; [apply take_path_ok; lia|done]. }
      rewrite linked_reachable_pte in Hpr |- * by (done || apply index_range). eauto.
Qed.

Lemma linked_space : space_inv root (set_mem64 m' w1).
Proof.
  destruct (fa_stable w1 _ (same_kernel_set_mem64 m' w1) Hi1) as [Hi2 Hav2].
  split; cbn [hw set_mem64 set_hw hw_mem64 mem64 env]; [| |done|].
  - eapply hhdm_ready_alloc; [apply Hinv|].
    eapply same_but_alloc_trans; [done|apply same_but_alloc_set_mem64].
  - rewrite (sba_env _ _ Hs1). apply linked_tree.
  - intros g Hg (q & Hq & Hx). apply Hav2 in Hg.
    destruct (linked_back q g Hq Hx) as [[_ ->]|Hx']; [done|].
    apply (si_fresh _ _ Hinv g); [by apply Hav|by exists q].
Qed.

Lemma grown_link : grown user root va w (set_mem64 m' w1).
Proof.
  destruct linked_path as [Hp Hl], linked_entry as (? & ? & ?), Hfok as (? & ? & ?).
  destruct (fa_stable w1 _ (same_kernel_set_mem64 m' w1) Hi1) as [_ Hav2].
  split; cbn [hw set_mem64 set_hw hw_mem64 mem64].
  - eapply same_but_alloc_trans; [done|]. apply same_but_alloc_set_mem64.
  - apply linked_space.
  - intros g Hg. by apply Hav, Hav2.
  - intros g Hg. destruct (decide (g = f)) as [->|Hne].
    + right. exists (p ++ [i]). split; [|apply linked_new].
      eapply link_new_path; eauto using index_range.
    + left. apply Hav2, Hkeep; done.
  - intros v. eapply (walk_link _ _ _ p); eauto using si_tree, index_range, linked_fresh.
  - intros q x Hq Hx.
    erewrite (follow_link_old _ _ _ p); eauto using si_tree, index_range, linked_fresh.
    intros [r ->]. rewrite <- app_assoc in Hx.
    erewrite (follow_absent _ _ p) in Hx; done.
  - intros q x Hq Hx. destruct (linked_back q x Hq Hx) as [[_ ->]|]; auto.
  - intros P v HP He. by apply linked_entries; [|apply He, linked_range].
  - intros x j Hx Hj Hpr. apply linked_reachable_pte; [done|done|]. congruence.
  - intros x j Hx Hj Hu Ha. apply linked_pte; [done|done|congruence|].
    intros [= -> ->]. apply Hu. by exists k.
Qed.
End linked.

(** A failed allocation changes nothing the MMU depends on. *)
Lemma grown_no_frame user root va w w1 :
  space_inv root w → fa_inv w1 → same_but_alloc w w1 →
  (∀ f, fa_avail w1 f → fa_avail w f) → m_of w1 = m_of w ∧ (∀ f, fa_avail w f → fa_avail w1 f) →
  grown user root va w w1.
Proof.
  intros [Hr Ht Hi Hfr] Hi1 Hs1 Hav [Hm Hav']. split; rewrite ?Hm; eauto.
  split; [by eapply hhdm_ready_alloc| |done|].
  - by rewrite Hm, (sba_env _ _ Hs1).
  - intros f Hf. rewrite Hm. by apply Hfr, Hav.
Qed.

Lemma set_mem64_twice m1 m2 w : set_mem64 m2 (set_mem64 m1 w) = set_mem64 m2 w.
Proof. done. Qed.

Lemma wp_ensure_table root va w k t user :
  space_inv root w → (k <= 2)%nat →
  follow (m_of w) root (take k (path 3 va)) = Some t →
  no_large (m_of w) root va →
  wp (ensure_table A (t + hhdm_base (env w)) (index (3 - k) va) user) (λ r w',
  grown user root va w w' ∧
  match r with
  | Ok f => follow (m_of w') root (take (S k) (path 3 va)) = Some f
  | Err e => e = OutOfMemory ∧ follow (m_of w) root (take (S k) (path 3 va)) = None
  end) w.
Proof.
  intros Hinv Hk Ht Hnl. unfold ensure_table.
  assert (reachable (m_of w) root t) as Hrt.
  { exists (take k (path 3 va)). split; [apply take_path_ok; lia|done]. }
  wp_step. apply wp_table_get; [by eapply space_inv_frame|apply index_range|].
  autorewrite with mmu. rewrite path_step by lia.
  destruct (pte_present _) eqn:Hp.
  { wp_step. split; [by apply grown_refl|]. rewrite follow_app, Ht. cbn.
    rewrite Hp, (Hnl k t) by (done || lia). done. }
  wp_step. eapply wp_mono; [apply fa_alloc, Hinv|].
  intros [f|] w1 (Hi1 & Hs1 & Hav & Hr); wp_step.
  2: { split; [by apply grown_no_frame|]. split; [done|]. rewrite follow_app, Ht. cbn. by rewrite Hp. }
  destruct Hr as (Hf & Hf1 & Hfok & Hm & Hkeep). pose proof (sba_env _ _ Hs1) as Henv.
  assert (hhdm_ready w1) by (eapply hhdm_ready_alloc; [apply Hinv|done]).
  apply wp_zero_frame; [done|by unfold frame_ok; rewrite Henv|].
  rewrite Hm, zero_cells_idem. fold (table_flags user). wp_step. rewrite <- Henv.
  apply (wp_table_set (set_mem64 _ w1)); [|apply index_range|].
  { unfold frame_ok. cbn. rewrite Henv. by apply space_inv_frame with root. }
  rewrite set_mem64_twice. autorewrite with mmu. wp_step.
  split; [by apply grown_link|by eapply linked_new].
Qed.

Lemma new_table_not_large user f :
  frame_ok_range f → pte_large (Z.lor (frame_of f) (table_flags user)) = false.
Proof. intros Hf. rewrite <- ADDR_MASK_spec. by apply table_entry_fields. Qed.

(** One level of [map_4k]: take the table and make sure the next one is
    there. *)
Lemma wp_ensure_level {B} root va w0 w k t user (K : Z → M World (result B MapError)) Q :
  grown user root va w0 w → (k <= 2)%nat →
  follow (m_of w) root (take k (path 3 va)) = Some t →
  no_large (m_of w0) root va →
  (∀ w', grown user root va w0 w' → follow (m_of w0) root (take (S k) (path 3 va)) = None →
  Q (Err OutOfMemory) w') →
  (∀ f w', grown user root va w0 w' →
  follow (m_of w') root (take (S k) (path 3 va)) = Some f → wp (K f) Q w') →
  wp (tbl ← table_mut t; rbind (ensure_table A tbl (index (3 - k) va) user) K) Q w.
Proof.
  intros Hg Hk Ht Hnl Herr Hok. pose proof (gr_inv _ _ _ _ _ Hg) as Hinv.
  assert (frame_ok w t) as (? & ? & ?).
  { eapply space_inv_frame; [done|]. exists (take k (path 3 va)).
    split; [apply take_path_ok; lia|done]. }
  wp_step. apply wp_phys_to_virt; [apply Hinv|lia|]. wp_step.
  eapply wp_mono; [eapply wp_ensure_table; try done|].
  - apply (gr_entries _ _ _ _ _ Hg); [done|]. apply new_table_not_large.
  - intros [f|e] w' [Hg' Hf].
    + eapply Hok; [by eapply grown_trans|done].
    + destruct Hf as [-> Hf]. apply Herr; [by eapply grown_trans|].
      destruct (follow (m_of w0) root (take (S k) (path 3 va))) as [x|] eqn:E; [|done].
      rewrite (gr_follow _ _ _ _ _ Hg _ x) in Hf; [done|apply take_path_ok; lia|done].
Qed.
End ops.

(** The root a handle denotes. *)
Definition aspace_root (s : MmuSt) (h : AddressSpace) : option Z :=
  match h with
  | AsKas => pml4_phys <$> KAS s
  | AsSlot i => (λ sl, pml4_phys (space sl)) <$> AS_SLOTS s !! i
  | AsDangling => None
  end.

Lemma wp_as_x86 w h root (Q : X86AddressSpace → World → Prop) :
  aspace_root (mmu w) h = Some root → Q (mkX86AddressSpace root) w → wp (as_x86 h) Q w.
Proof.
  intros Hr HQ. unfold as_x86. destruct h as [|i|]; simpl in Hr; [| |done].
  - wp_steps. destruct (KAS (mmu w)) as [[r]|]; simplify_eq/=. by wp_step.
  - wp_steps. destruct (AS_SLOTS (mmu w) !! i) as [[u [r] hd]|]; simplify_eq/=. by wp_step.
Qed.

Section map.
Context (A : PageTableFrameAlloc) `{!FrameAllocLaws A}.
#[local] Abbreviation m_of w := (mem64 (hw w)).

(** The entry [map_4k] writes. *)
Definition new_entry (w : World) (pa : Z) (flags : MapFlags) : Z :=
  Z.lor (frame_of pa) (flags_to_pte_nxe (NXE_ENABLED (mmu w)) flags).

(** [w] with one leaf entry set and the page flushed from the TLB. *)
Definition set_leaf (t va e : Z) (w : World) : World :=
  let w1 := set_mem64 (<[t + 8 * index 0 va := e]> (m_of w)) w in
  set_hw (λ h, hw_tlb (delete (page_of va) (tlb h)) h) w1.

Lemma set_leaf_mem t va e w :
  m_of (set_leaf t va e w) = <[t + 8 * index 0 va := e]> (m_of w).
Proof. done. Qed.

Lemma wp_map_4k_raw root h va pa flags w :
  aspace_root (mmu w) h = Some root → space_inv A root w → no_large (m_of w) root va →
  aligned_4k va = true → aligned_4k pa = true → is_canonical va = true →
  wp (map_4k A h va pa flags) (λ r w',
  ∃ w1, grown A (contains flags USER) root va w w1 ∧
  match r with
  | Ok _ => ∃ t, follow (m_of w1) root (take 3 (path 3 va)) = Some t ∧
  pte_present (pte (m_of w1) t (index 0 va)) = false ∧
  w' = set_leaf t va (new_entry w pa flags) w1
  | Err AlreadyMapped => w' = w1 ∧ ∃ t, follow (m_of w1) root (take 3 (path 3 va)) = Some t ∧
  pte_present (pte (m_of w1) t (index 0 va)) = true
  | Err e => e = OutOfMemory ∧ w' = w1 ∧ follow (m_of w) root (take 3 (path 3 va)) = None
  end) w.
Proof.
  intros Hroot Hinv Hnl Hva Hpa Hc.
  assert (∀ k, (k < 3)%nat → follow (m_of w) root (take (S k) (path 3 va)) = None →
    follow (m_of w) root (take 3 (path 3 va)) = None) as Hext by (intros; by eapply follow_shorter).
  unfold map_4k. rewrite Hva, Hpa, Hc. cbn [negb orb].
  wp_step. apply (wp_as_x86 _ _ root); [done|]. cbv zeta. cbn [pml4_phys].
  rewrite pml4_index_spec, pdpt_index_spec, pd_index_spec, pt_index_spec.
  apply (wp_ensure_level A root va w w 0); [by apply grown_refl|lia|done|done|eauto 10 with lia|].
  intros f1 w1 Hg1 Hf1.
  apply (wp_ensure_level A root va w w1 1); [done|lia|done|done|eauto 10 with lia|].
  intros f2 w2 Hg2 Hf2.
  apply (wp_ensure_level A root va w w2 2); [done|lia|done|done|eauto 10 with lia|].
  intros f3 w3 Hg3 Hf3. pose proof (gr_inv _ _ _ _ _ _ Hg3) as Hinv3.
  assert (frame_ok w3 f3) as Hok.
  { eapply space_inv_frame; [done|]. eexists. split; [by apply take_path_ok|done]. }
  wp_step. apply wp_phys_to_virt; [apply Hinv3|unfold frame_ok in Hok; lia|].
  wp_step. apply wp_table_get; [done|apply index_range|].
  rewrite PTE_P_spec. destruct (pte_present _) eqn:Hp; [wp_step; eauto 10|].
  unfold flags_to_pte, nxe_enabled. wp_steps. rewrite ADDR_MASK_spec.
  apply wp_table_set; [done|apply index_range|]. unfold flush_tlb_page, invlpg. wp_steps.
  exists w3. split; [done|]. exists f3. split; [done|]. split; [done|].
  unfold set_leaf, new_entry.
  by rewrite <- (sba_mmu _ _ (gr_same _ _ _ _ _ _ Hg3)).
Qed.

Lemma new_entry_fields w pa flags :
  let e := new_entry w pa flags in
  pte_present e = true ∧ frame_of e = frame_of pa ∧
  pte_write e = contains flags WRITE ∧ pte_user e = contains flags USER ∧
  pte_nx e = negb (contains flags EXEC) && NXE_ENABLED (mmu w) ∧
  pte_global e = contains flags GLOBAL ∧ pte_large e = false.
Proof.
  intros e. split_and!; [|by apply frame_of_lor, flags_to_pte_mask|..];
    unfold e, new_entry, pte_present, pte_write, pte_user, pte_nx, pte_global, pte_large;
    rewrite entry_flag by done; unfold flags_to_pte_nxe; cbv zeta;
    by destruct (contains flags WRITE), (contains flags USER), (contains flags GLOBAL),
    (contains flags EXEC), (NXE_ENABLED (mmu w)), (contains flags UNCACHED).
Qed.

Lemma new_table_open user f :
  frame_ok_range f → open_entry user (Z.lor (frame_of f) (table_flags user)).
Proof.
  intros _. unfold open_entry, pte_write, pte_user, pte_nx. rewrite !entry_flag by done.
  by destruct user.
Qed.

(** The translations of all pages but that of [va] are kept. *)
Definition others_same (root va : Z) (w w' : World) : Prop :=
  ∀ v, canonical v → page_of va ≠ page_of v →
  hw_walk (m_of w') root v = hw_walk (m_of w) root v.

(** The rights of a mapping are the requested ones. *)
Definition rights_are (w : World) (flags : MapFlags) (mp : mapping) : Prop :=
  m_w mp = contains flags WRITE ∧ m_u mp = contains flags USER ∧
  m_nx mp = negb (contains flags EXEC) && NXE_ENABLED (mmu w) ∧
  m_g mp = contains flags GLOBAL.

(** The walk of [va] after its leaf entry was set to [new_entry]. *)
Lemma set_leaf_walk w0 root va t pa flags w :
  tree_ok (phys_limit (env w)) (m_of w) root → canonical va → va mod 4096 = 0 →
  follow (m_of w) root (take 3 (path 3 va)) = Some t →
  let w' := set_leaf t va (new_entry w0 pa flags) w in
  ∃ mp, hw_walk (m_of w') root va = Some mp ∧ m_pa mp = frame_of pa ∧ m_level mp = 0%nat ∧
  (path_entries (open_entry (contains flags USER)) (m_of w) root va → rights_are w0 flags mp).
Proof.
  intros Htree Hc Hva Ht w'.
  destruct (new_entry_fields w0 pa flags) as (Hp & Hfr & Hw & Hu & Hn & Hgl & _).
  set (e := new_entry w0 pa flags) in *. set (m' := <[t + 8 * index 0 va := e]> (m_of w)).
  assert (follow m' root (take 3 (path 3 va)) = Some t) as Ht'.
  { unfold m'. erewrite leaf_follow; eauto using take_path_ok. }
  eexists. split.
  { change (m_of w') with m'. rewrite (walk_leaf _ _ _ _ Ht').
    unfold m' at 1. rewrite pte_insert_eq, Hp. reflexivity. }
  unfold m'. rewrite pte_insert_eq. fold m'. cbn [m_pa m_level]. split; [|split; [done|]].
  { unfold leaf_mapping. cbn [m_pa]. change (level_shift 0) with 12. change (52 - 12) with 40.
    fold (frame_of e). change (2 ^ 12) with 4096. rewrite Hva, Hfr. lia. }
  intros Hop. destruct (collect_open (contains flags USER) m' root va t Ht') as (Hcw & Hcu & Hcn).
  { by eapply leaf_path_entries. }
  unfold rights_are, leaf_mapping, restrict. cbn [m_w m_u m_nx m_g r_w r_u r_nx].
  rewrite Hcw, Hcn, Hw, Hu, Hn. split_and!; [done| |done|done].
  destruct (contains flags USER); [by rewrite Hcu|apply andb_false_r].
Qed.
End map.

(** ** The walk of the other operations *)

(** An address space the kernel can look at and edit in place. *)
Record space_ready (root : Z) (w : World) : Prop := mkSpaceReady {
  sr_hhdm : hhdm_ready w;
  sr_tree : tree_ok (phys_limit (env w)) (mem64 (hw w)) root
}.

Lemma space_inv_ready A `{!FrameAllocLaws A} root w : space_inv A root w → space_ready root w.
Proof. by intros []. Qed.

(** Without large pages the walk ends at the leaf. *)
Lemma walk_no_table m root v : no_large m root v → follow m root (take 3 (path 3 v)) = None →
  hw_walk m root v = None.
Proof.
  intros Hnl H.
  assert (∃ k t, (k < 3)%nat ∧ follow m root (take k (path 3 v)) = Some t ∧
    follow m root (take (S k) (path 3 v)) = None) as (k & t & Hk & Ht & Hn).
  { destruct (follow m root (take 1 (path 3 v))) as [t1|] eqn:E1; [|by exists 0%nat, root; auto with lia].
    destruct (follow m root (take 2 (path 3 v))) as [t2|] eqn:E2; [|by exists 1%nat, t1; auto with lia].
    exists 2%nat, t2; auto with lia. }
  unfold hw_walk. rewrite (walk_follow 3 _ _ _ _ k t) by (done || lia). apply walk_absent.
  rewrite path_step, follow_app, Ht in Hn by lia. cbn in Hn.
  destruct (pte_present _) eqn:Hp; [|done]. by rewrite (Hnl k t Hk Ht Hp) in Hn.
Qed.

Section in_place.
#[local] Abbreviation m_of w := (mem64 (hw w)).

Lemma space_ready_frame root w k t va :
  space_ready root w → (k <= 3)%nat →
  follow (m_of w) root (take k (path 3 va)) = Some t → frame_ok w t.
Proof.
  intros [_ Htree] Hk Ht. split; [by eapply follow_aligned; [apply Htree|]|].
  apply Htree. eexists. split; [by apply take_path_ok|done].
Qed.

(** One step of the walk down. *)
Lemma wp_walk_level {B E} root va w k t (err : E) (K : Z → M World (result B E)) Q :
  space_ready root w → no_large (m_of w) root va → (k <= 2)%nat →
  follow (m_of w) root (take k (path 3 va)) = Some t →
  (follow (m_of w) root (take (S k) (path 3 va)) = None →
  hw_walk (m_of w) root va = None → Q (Err err) w) →
  (∀ e, follow (m_of w) root (take (S k) (path 3 va)) = Some (Z.land e ADDR_MASK) → wp (K e) Q w) →
  wp (tbl ← table_mut t; e ← table_get tbl (index (3 - k) va);
  if negb (has_bits e PTE_P) then mret (Err err) else K e) Q w.
Proof.
  intros Hsr Hnl Hk Ht Hnone Hsome. pose proof (space_ready_frame root w k t va Hsr ltac:(lia) Ht) as Hok.
  wp_step. apply wp_phys_to_virt; [apply Hsr|unfold frame_ok in Hok; lia|].
  wp_step. apply wp_table_get; [done|apply index_range|]. rewrite PTE_P_spec.
  rewrite path_step, follow_app, Ht in Hnone, Hsome by lia.
  cbn [mbind option_bind follow] in Hnone, Hsome.
  destruct (pte_present (pte (m_of w) t (index (3 - k) va))) eqn:Hp; cbn [negb].
  - apply Hsome. by rewrite (Hnl k t), ADDR_MASK_spec by (done || lia).
  - wp_step. apply Hnone; [done|]. unfold hw_walk.
    rewrite (walk_follow 3 _ _ _ _ k t) by (done || lia). by apply walk_absent.
Qed.

Lemma wp_walk_to_pt {E} root va w (err : E) (Q : result Z E → World → Prop) :
  space_ready root w → no_large (m_of w) root va →
  (follow (m_of w) root (take 3 (path 3 va)) = None →
  hw_walk (m_of w) root va = None → Q (Err err) w) →
  (∀ t, follow (m_of w) root (take 3 (path 3 va)) = Some t →
  frame_ok w t → Q (Ok (t + hhdm_base (env w))) w) →
  wp (walk_to_pt root va err) Q w.
Proof.
  intros Hsr Hnl Hnone Hsome. unfold walk_to_pt.
  rewrite pml4_index_spec, pdpt_index_spec, pd_index_spec.
  assert (∀ k, (k < 3)%nat → follow (m_of w) root (take (S k) (path 3 va)) = None →
    follow (m_of w) root (take 3 (path 3 va)) = None) as Hext by (intros; by eapply follow_shorter).
  apply (wp_walk_level root va w 0); [done|done|lia|done| |].
  { intros H ?. apply Hnone; [|done]. by apply (Hext 0%nat ltac:(lia)). }
  intros t1 H1.
  apply (wp_walk_level root va w 1); [done|done|lia|done| |].
  { intros H ?. apply Hnone; [|done]. by apply (Hext 1%nat ltac:(lia)). }
  intros t2 H2.
  apply (wp_walk_level root va w 2); [done|done|lia|done| |].
  { intros H ?. apply Hnone; [|done]. by apply (Hext 2%nat ltac:(lia)). }
  intros t3 H3.
  pose proof (space_ready_frame root w 3 _ va Hsr ltac:(lia) H3) as Hok.
  wp_step. apply wp_phys_to_virt; [apply Hsr|unfold frame_ok in Hok; lia|]. wp_step. auto.
Qed.

(** What a leaf write keeps. *)
Lemma set_leaf_ready root va t e w :
  space_ready root w → canonical va →
  follow (m_of w) root (take 3 (path 3 va)) = Some t →
  space_ready root (set_leaf t va e w) ∧ others_same root va w (set_leaf t va e w) ∧
  same_but_mem w (set_leaf t va e w) ∧
  tlb (hw (set_leaf t va e w)) = delete (page_of va) (tlb (hw w)).
Proof.
  intros [Hh Htree] Hc Ht. split_and!; [|..|done].
  - split; [by destruct Hh|]. by eapply leaf_tree.
  - intros v Hv Hne. by eapply leaf_walk_other.
  - by split.
Qed.

Lemma unmapped_walk root va w t :
  follow (m_of w) root (take 3 (path 3 va)) = Some t →
  pte_present (pte (m_of w) t (index 0 va)) = false → hw_walk (m_of w) root va = None.
Proof. intros Ht Hp. by rewrite (walk_leaf _ _ _ _ Ht), Hp. Qed.

Lemma mapped_walk root va w t :
  follow (m_of w) root (take 3 (path 3 va)) = Some t →
  pte_present (pte (m_of w) t (index 0 va)) = true →
  ∃ mp, hw_walk (m_of w) root va = Some mp ∧ m_level mp = 0%nat ∧
  m_pa mp = frame_of (pte (m_of w) t (index 0 va)) + va mod 4096.
Proof. intros Ht Hp. rewrite (walk_leaf _ _ _ _ Ht), Hp. by eexists. Qed.
End in_place.

Lemma is_canonical_spec va : is_u64 va → is_canonical va = true ↔ canonical va.
Proof.
  unfold is_u64, U64, is_canonical, canonical. intros Hva. change 1 with (Z.ones 1) at 1.
  rewrite Z.land_ones, !Z.shiftr_div_pow2 by lia.
  destruct (Z.eqb_spec ((va / 2 ^ 47) mod 2 ^ 1) 0); rewrite Z.eqb_eq;
    Z.to_euclidean_division_equations; lia.
Qed.
