(* ===== verification/MmuSpec.v ===== *)
(** * What the MMU operations do to translations

    The main theorems about mapping, unmapping, protecting and translating
    one page, each against the processor's walk, on every branch. *)

From S2P Require Import Prelude HalTypes Paging World Hal Cpu Apic X86Mmu MmuProofs.

#[local] Abbreviation m_of w := (mem64 (hw w)).

(** Arguments [map_4k] accepts. *)
Definition page_arg (va : Z) : Prop := is_u64 va ∧ aligned_4k va = true ∧ is_canonical va = true.

Lemma page_arg_canonical va : page_arg va → canonical va ∧ va mod 4096 = 0.
Proof. intros (Hu & Ha & Hc). by rewrite <- is_canonical_spec, <- aligned_4k_spec. Qed.

Lemma same_kernel_set_leaf t va e w : same_kernel w (set_leaf t va e w).
Proof. by split_and!. Qed.

Section map.
Context (A : PageTableFrameAlloc) `{!FrameAllocLaws A}.
Context (w : World) (h : AddressSpace) (root va : Z).
Context (Hroot : aspace_root (mmu w) h = Some root).
Context (Hinv : space_inv A root w) (Hnl : no_large (m_of w) root va).
Context (Hva : page_arg va).

(** The states [map_4k] can end in. *)
Lemma map_4k_ends pa flags : aligned_4k pa = true →
  wp (map_4k A h va pa flags) (λ r w', ∃ w1,
  grown A (contains flags USER) root va w w1 ∧
  match r with
  | Ok _ => ∃ t, follow (m_of w1) root (take 3 (path 3 va)) = Some t ∧
  pte_present (pte (m_of w1) t (index 0 va)) = false ∧
  w' = set_leaf t va (new_entry w pa flags) w1
  | Err AlreadyMapped => w' = w1 ∧ ∃ t, follow (m_of w1) root (take 3 (path 3 va)) = Some t ∧
  pte_present (pte (m_of w1) t (index 0 va)) = true
  | Err e => e = OutOfMemory ∧ w' = w1 ∧ follow (m_of w) root (take 3 (path 3 va)) = None
  end) w.
Proof. intros Hpa. destruct Hva as (_ & Ha & Hc). by apply wp_map_4k_raw. Qed.

Lemma set_leaf_inv t e w1 :
  space_inv A root w1 → follow (m_of w1) root (take 3 (path 3 va)) = Some t →
  space_inv A root (set_leaf t va e w1).
Proof.
  intros H1 Ht. destruct (page_arg_canonical va Hva) as [Hc _].
  destruct (set_leaf_ready root va t e w1 (space_inv_ready A _ _ H1) Hc Ht) as ([] & _ & Hs & _).
  destruct (fa_stable w1 _ (same_but_mem_kernel _ _ Hs) (si_alloc _ _ _ H1)) as [Hi Hav]. split; [done..|].
  intros f Hf (q & Hq & Hx). apply (si_fresh _ _ _ H1 f); [by apply Hav|]. exists q. split; [done|].
  rewrite set_leaf_mem in Hx. by erewrite leaf_follow in Hx; [|apply (si_tree _ _ _ H1)|..].
Qed.

Lemma wp_map_4k pa flags : aligned_4k pa = true →
  wp (map_4k A h va pa flags) (λ r w',
  space_inv A root w' ∧ others_same root va w w' ∧
  match r with
  | Ok _ =>
  hw_walk (m_of w) root va = None ∧
  ∃ mp, hw_walk (m_of w') root va = Some mp ∧
    m_pa mp = frame_of pa ∧ m_level mp = 0%nat ∧
    (path_entries (open_entry (contains flags USER)) (m_of w) root va →
     rights_are w flags mp)
  | Err AlreadyMapped =>
  ∃ mp, hw_walk (m_of w) root va = Some mp ∧ hw_walk (m_of w') root va = Some mp
  | Err e => e = OutOfMemory ∧ hw_walk (m_of w) root va = None ∧ hw_walk (m_of w') root va = None
  end) w.
Proof.
  intros Hpa. destruct (page_arg_canonical va Hva) as [Hc Hal].
  eapply wp_mono; [by apply map_4k_ends|]. intros r w' (w1 & Hg & Hr).
  pose proof (gr_inv _ _ _ _ _ _ Hg) as Hinv1. pose proof (gr_walk _ _ _ _ _ _ Hg) as Hw.
  assert (others_same root va w w1) as Ho by (intros v ? ?; apply Hw).
  destruct r as [[]|[]]; try (by destruct Hr as [[=] _]).
  3: { destruct Hr as (_ & -> & Hn). split_and!; [done|done|done|by apply walk_no_table|].
    rewrite Hw. by apply walk_no_table. }
  - destruct Hr as (t & Ht & Hp & ->).
    destruct (set_leaf_ready root va t (new_entry w pa flags) w1
      (space_inv_ready A _ _ Hinv1) Hc Ht) as (_ & Ho' & _).
    destruct (set_leaf_walk w root va t pa flags w1 (si_tree _ _ _ Hinv1) Hc Hal Ht)
      as (mp & Hmp & Hpam & Hl & Hri).
    split_and!; [by apply set_leaf_inv| | |].
    + intros v Hv Hne. by rewrite Ho', Ho.
    + rewrite <- Hw. by eapply unmapped_walk.
    + exists mp. split_and!; [done..|]. intros Hop. apply Hri.
      apply (gr_entries _ _ _ _ _ _ Hg); [done|]. intros f. apply new_table_open.
  - destruct Hr as (-> & t & Ht & Hp).
    destruct (mapped_walk root va w1 t Ht Hp) as (mp & Hmp & _).
    split_and!; [done|done|]. exists mp. by rewrite <- Hw.
Qed.

(** Every frame taken from the allocator ends up as a table. *)
Lemma map_4k_no_leak pa flags : aligned_4k pa = true →
  wp (map_4k A h va pa flags) (λ r w',
  ∀ g, fa_avail w g → fa_avail w' g ∨ reachable (m_of w') root g) w.
Proof.
  intros Hpa. destruct (page_arg_canonical va Hva) as [Hc _].
  eapply wp_mono; [by apply map_4k_ends|]. intros r w' (w1 & Hg & Hr) g Hav.
  apply (gr_no_leak _ _ _ _ _ _ Hg) in Hav. pose proof (gr_inv _ _ _ _ _ _ Hg) as Hinv1.
  destruct r as [[]|[]]; try (by destruct Hr as (_ & -> & _)); try (by destruct Hr as [-> _]).
  destruct Hr as (t & Ht & _ & ->). destruct Hav as [Hav|(q & Hq & Hx)].
  - left. by apply (fa_stable w1 _ (same_kernel_set_leaf _ _ _ _) (si_alloc _ _ _ Hinv1)).
  - right. exists q. split; [done|]. rewrite set_leaf_mem.
    by erewrite leaf_follow; [|apply (si_tree _ _ _ Hinv1)|..].
Qed.

(** What the next call on the same page can rely on. *)
Lemma map_4k_keeps pa flags : aligned_4k pa = true →
  wp (map_4k A h va pa flags) (λ r w',
  mmu w' = mmu w ∧ no_large (m_of w') root va ∧
  tlb (hw w') = (if is_ok r then delete (page_of va) (tlb (hw w)) else tlb (hw w)) ∧
  (is_ok r = true → ∃ t, follow (m_of w') root (take 3 (path 3 va)) = Some t ∧
                     pte (m_of w') t (index 0 va) = new_entry w pa flags)) w.
Proof.
  intros Hpa. eapply wp_mono; [by apply map_4k_ends|]. intros r w' (w1 & Hg & Hr).
  assert (no_large (m_of w1) root va) as Hnl1.
  { apply (gr_entries _ _ _ _ _ _ Hg); [done|]. apply new_table_not_large. }
  pose proof (sba_mmu _ _ (gr_same _ _ _ _ _ _ Hg)) as Hm.
  pose proof (si_tree _ _ _ (gr_inv _ _ _ _ _ _ Hg)) as Htree.
  pose proof (sba_tlb _ _ (gr_same _ _ _ _ _ _ Hg)) as Htlb.
  destruct r as [[]|[]]; try (by destruct Hr as (_ & -> & _)); try (by destruct Hr as [-> ?]).
  destruct Hr as (t & Ht & _ & ->). split; [done|]. rewrite set_leaf_mem.
  split; [by eapply leaf_path_entries|]. split; [cbn; by rewrite Htlb|].
  intros _. exists t. split.
  - by erewrite leaf_follow; eauto using take_path_ok.
  - apply pte_insert_eq.
Qed.
End map.

Section in_place.
Context (w : World) (h : AddressSpace) (root va : Z).
Context (Hroot : aspace_root (mmu w) h = Some root).
Context (Hsr : space_ready root w) (Hnl : no_large (m_of w) root va).

(** The states [unmap_4k] and [protect_4k] can end in: a present leaf gets
    [e], or nothing happens. *)
Definition leaf_set (e : Z → Z) (r : result unit MapError) (w' : World) : Prop :=
  match r with
  | Ok _ => ∃ t, follow (m_of w) root (take 3 (path 3 va)) = Some t ∧
  pte_present (pte (m_of w) t (index 0 va)) = true ∧
  w' = set_leaf t va (e (pte (m_of w) t (index 0 va))) w
  | Err e => e = NotMapped ∧ hw_walk (m_of w) root va = None ∧ w' = w
  end.

Lemma unmap_4k_ends : page_arg va → wp (unmap_4k h va) (leaf_set (λ _, 0)) w.
Proof.
  intros (_ & Ha & Hca). unfold unmap_4k. rewrite Ha, Hca. cbn [negb]. wp_step.
  apply (wp_as_x86 _ _ root); [done|]. cbv zeta. cbn [pml4_phys]. wp_step.
  apply wp_walk_to_pt; [done|done|done|]. intros t Ht Hok.
  wp_step. rewrite pt_index_spec. apply wp_table_get; [done|apply index_range|].
  rewrite PTE_P_spec. destruct (pte_present _) eqn:Hp; cbn [negb].
  - wp_step. apply wp_table_set; [done|apply index_range|]. unfold flush_tlb_page, invlpg. wp_steps.
    by exists t.
  - wp_step. split_and!; [done| |done]. by eapply unmapped_walk.
Qed.

Lemma protect_4k_ends flags : page_arg va →
  wp (protect_4k h va flags) (leaf_set (λ e, new_entry w e flags)) w.
Proof.
  intros (_ & Ha & Hca). unfold protect_4k. rewrite Ha, Hca. cbn [negb]. wp_step.
  apply (wp_as_x86 _ _ root); [done|]. cbv zeta. cbn [pml4_phys]. wp_step.
  apply wp_walk_to_pt; [done|done|done|]. intros t Ht Hok.
  wp_step. rewrite pt_index_spec. apply wp_table_get; [done|apply index_range|].
  rewrite PTE_P_spec. destruct (pte_present _) eqn:Hp; cbn [negb].
  - unfold flags_to_pte, nxe_enabled. wp_steps.
    apply wp_table_set; [done|apply index_range|]. unfold flush_tlb_page, invlpg. wp_steps.
    rewrite ADDR_MASK_spec. by exists t.
  - wp_step. split_and!; [done| |done]. by eapply unmapped_walk.
Qed.

Lemma wp_unmap_4k : page_arg va →
  wp (unmap_4k h va) (λ r w',
  space_ready root w' ∧ others_same root va w w' ∧ same_but_mem w w' ∧
  match r with
  | Ok _ =>
  (∃ mp, hw_walk (m_of w) root va = Some mp) ∧
  hw_walk (m_of w') root va = None ∧
  tlb (hw w') = delete (page_of va) (tlb (hw w))
  | Err e => e = NotMapped ∧ hw_walk (m_of w) root va = None ∧ w' = w
  end) w.
Proof.
  intros Hva. destruct (page_arg_canonical va Hva) as [Hc _].
  eapply wp_mono; [by apply unmap_4k_ends|]. intros [[]|e] w'; cbn [leaf_set].
  - intros (t & Ht & Hp & ->).
    destruct (set_leaf_ready root va t 0 w Hsr Hc Ht) as (Hr & Ho & Hs & Htlb).
    destruct (mapped_walk root va w t Ht Hp) as (mp & Hmp & _).
    split_and!; [exact Hr|exact Ho|exact Hs|by exists mp| |exact Htlb].
    apply (unmapped_walk root va (set_leaf t va 0 w) t); rewrite set_leaf_mem.
    + erewrite leaf_follow; eauto using take_path_ok, sr_tree.
    + by rewrite pte_insert_eq.
  - intros (-> & Hn & ->). split_and!; [done|by intros ?|apply same_but_mem_refl|done|done|done].
Qed.

Lemma wp_protect_4k flags : page_arg va →
  wp (protect_4k h va flags) (λ r w',
  space_ready root w' ∧ others_same root va w w' ∧ same_but_mem w w' ∧
  match r with
  | Ok _ => ∃ mp mp',
  hw_walk (m_of w) root va = Some mp ∧ hw_walk (m_of w') root va = Some mp' ∧
  m_pa mp' = m_pa mp ∧ m_level mp' = 0%nat ∧
  tlb (hw w') = delete (page_of va) (tlb (hw w)) ∧
  (path_entries (open_entry (contains flags USER)) (m_of w) root va →
   rights_are w flags mp')
  | Err e => e = NotMapped ∧ hw_walk (m_of w) root va = None ∧ w' = w
  end) w.
Proof.
  intros Hva. destruct (page_arg_canonical va Hva) as [Hc Hal].
  eapply wp_mono; [by apply protect_4k_ends|]. intros [[]|e] w'; cbn [leaf_set].
  - intros (t & Ht & Hp & ->). set (pa := pte (m_of w) t (index 0 va)).
    destruct (set_leaf_ready root va t (new_entry w pa flags) w Hsr Hc Ht)
      as (Hr & Ho & Hs & Htlb).
    destruct (mapped_walk root va w t Ht Hp) as (mp & Hmp & _ & Hpam).
    destruct (set_leaf_walk w root va t pa flags w (sr_tree _ _ Hsr) Hc Hal Ht)
      as (mp' & Hmp' & Hpa' & Hl & Hri).
    split; [exact Hr|]. split; [exact Ho|]. split; [exact Hs|]. exists mp, mp'.
    split_and!; [done|exact Hmp'| |done|exact Htlb|done].
    rewrite Hpa', Hpam, Hal. unfold pa. lia.
  - intros (-> & Hn & ->). split_and!; [done|by intros ?|apply same_but_mem_refl|done|done|done].
Qed.

Lemma wp_translate : is_u64 va → is_canonical va = true →
  wp (translate h va) (λ r w', w' = w ∧
  r = match hw_walk (m_of w) root va with
  | Some mp => Ok (m_pa mp)
  | None => Err TE_NotMapped
  end) w.
Proof.
  intros Hu Hca. unfold translate. rewrite Hca. cbn [negb]. wp_step.
  apply (wp_as_x86 _ _ root); [done|]. cbv zeta. cbn [pml4_phys]. wp_step.
  apply wp_walk_to_pt; [done|done|by intros _ ->|]. intros t Ht Hok.
  wp_step. rewrite pt_index_spec. apply wp_table_get; [done|apply index_range|].
  rewrite PTE_P_spec. destruct (pte_present _) eqn:Hp; cbn [negb]; wp_step.
  - destruct (mapped_walk root va w t Ht Hp) as (mp & -> & _ & ->). split; [done|]. f_equal.
    rewrite ADDR_MASK_spec. change 0xfff with (Z.ones 12). rewrite Z.land_ones by lia.
    apply (lor_low_high _ _ 12); [lia|apply Z.mod_pos_bound; lia|apply frame_of_aligned].
  - by rewrite (unmapped_walk root va w t).
Qed.
End in_place.

(** ** The operations, one by one *)





(** Every value [m] returns has [Q]. *)
Definition returns {X} (Q : X → Prop) (m : M World X) : Prop :=
  ∀ w, match m w with Ret r _ => Q r | _ => True end.

Lemma returns_bind {X Y} (Q : X → Prop) (R : Y → Prop) (m : M World X) (k : X → M World Y) :
  returns Q m → (∀ x, Q x → returns R (k x)) → returns R (m ≫= k).
Proof.
  intros Hm Hk w. unfold mbind, M_bind. specialize (Hm w). destruct (m w) as [x w'| | |]; [|done..].
  exact (Hk x Hm w').
Qed.

Lemma returns_any {X Y} (R : Y → Prop) (m : M World X) (k : X → M World Y) :
  (∀ x, returns R (k x)) → returns R (m ≫= k).
Proof. intros Hk. apply (returns_bind (λ _, True)); [|auto]. intros w. by destruct (m w). Qed.

Lemma returns_ret {X} (Q : X → Prop) (x : X) : Q x → returns Q (mret x).
Proof. by intros H w. Qed.

(** An error other than those of the argument checks. *)
Definition late_error {X} (r : result X MapError) : Prop := r ≠ Err Unaligned ∧ r ≠ Err InvalidArgs.

Lemma ensure_table_late A p i u : returns late_error (ensure_table A p i u).
Proof.
  unfold ensure_table. apply returns_any. intros e. case_match; [by apply returns_ret|].
  apply returns_any. intros [f|]; [|by apply returns_ret]. do 2 (apply returns_any; intros ?). by apply returns_ret.
Qed.

Lemma walk_to_pt_late root va : returns late_error (walk_to_pt root va NotMapped).
Proof.
  unfold walk_to_pt.
  repeat (apply returns_any; intros ?; try (case_match; [by apply returns_ret|])). by apply returns_ret.
Qed.

Lemma late_rbind {X Y} (m : M World (result X MapError)) (k : X → M World (result Y MapError)) :
  returns late_error m → (∀ x, returns late_error (k x)) → returns late_error (rbind m k).
Proof.
  intros Hm Hk. apply (returns_bind late_error); [done|]. intros [x|e] [??]; [apply Hk|].
  apply returns_ret. split; congruence.
Qed.

(** One more step of [returns late_error]. *)
Ltac late_step :=
  lazymatch goal with
  | |- returns _ (rbind _ _) =>
      apply late_rbind; [first [apply ensure_table_late|apply walk_to_pt_late]|intros ?]
  | |- returns _ (_ ≫= _) => apply returns_any; intros ?
  | |- returns _ (if _ then _ else _) => case_match
  | |- returns _ (let _ := _ in _) => cbv zeta
  | |- returns _ (mret _) => by apply returns_ret
  end.

(** C31: bad arguments are rejected before anything is read or written, and
    good ones are not: an unaligned virtual (or, for [map_4k], physical)
    address gives [Unaligned], an address outside the two canonical halves
    [InvalidArgs], and on an aligned canonical address no operation ever
    returns either error. *)
Theorem page_arguments_checked A h va pa flags w : is_u64 va →
  (va mod 4096 ≠ 0 ∨ pa mod 4096 ≠ 0 → map_4k A h va pa flags w = Ret (Err Unaligned) w) ∧
  (va mod 4096 ≠ 0 → unmap_4k h va w = Ret (Err Unaligned) w ∧
                     protect_4k h va flags w = Ret (Err Unaligned) w) ∧
  (va mod 4096 = 0 → ¬ canonical va →
     (pa mod 4096 = 0 → map_4k A h va pa flags w = Ret (Err InvalidArgs) w) ∧
     unmap_4k h va w = Ret (Err InvalidArgs) w ∧ protect_4k h va flags w = Ret (Err InvalidArgs) w) ∧
  (va mod 4096 = 0 → canonical va → ∀ w',
     (pa mod 4096 = 0 → map_4k A h va pa flags w ≠ Ret (Err Unaligned) w' ∧
                        map_4k A h va pa flags w ≠ Ret (Err InvalidArgs) w') ∧
     unmap_4k h va w ≠ Ret (Err Unaligned) w' ∧ unmap_4k h va w ≠ Ret (Err InvalidArgs) w' ∧
     protect_4k h va flags w ≠ Ret (Err Unaligned) w' ∧ protect_4k h va flags w ≠ Ret (Err InvalidArgs) w').
Proof.
  intros Hu. assert (∀ m : M World (result unit MapError), returns late_error m → ∀ w',
    m w ≠ Ret (Err Unaligned) w' ∧ m w ≠ Ret (Err InvalidArgs) w') as Hlate.
  { intros m Hm w'. specialize (Hm w). destruct (m w) as [r ?| | |]; [|done..]. destruct Hm. split; congruence. }
  unfold map_4k, unmap_4k, protect_4k.
  assert (∀ x, x mod 4096 ≠ 0 → aligned_4k x = false) as Hn.
  { intros x Hx. destruct (aligned_4k x) eqn:E; [|done]. by apply aligned_4k_spec in E. }
  split_and!.
  - intros [H|H]; rewrite (Hn _ H); by rewrite ?orb_true_r.
  - intros H. by rewrite (Hn _ H).
  - intros Ha Hc. rewrite (proj2 (aligned_4k_spec va) Ha).
    destruct (is_canonical va) eqn:E; [by apply is_canonical_spec in E|]. cbn [negb orb].
    split_and!; [|done|done]. intros Hp. by rewrite (proj2 (aligned_4k_spec pa) Hp).
  - intros Ha Hc w'. rewrite (proj2 (aligned_4k_spec va) Ha), (proj2 (is_canonical_spec va Hu) Hc). cbn [negb orb].
    split.
    + intros Hp. rewrite (proj2 (aligned_4k_spec pa) Hp). cbn [negb]. apply Hlate. repeat late_step.
    + assert (∀ a b c d : Prop, a ∧ b → c ∧ d → a ∧ b ∧ c ∧ d) as Hand by tauto.
      apply Hand; apply Hlate; repeat late_step.
Qed.

(** ** Sequences of calls *)

Section sequences.
Context (A : PageTableFrameAlloc) `{!FrameAllocLaws A}.
Context (w : World) (h : AddressSpace) (root va : Z).
Context (Hroot : aspace_root (mmu w) h = Some root).
Context (Hinv : space_inv A root w) (Hnl : no_large (m_of w) root va).
Context (Hva : page_arg va).

(** A page that was mapped translates to the frame it was mapped to, for
    every address inside the page. *)
Theorem map_then_translate pa flags v :
  aligned_4k pa = true → 0 <= pa < 2 ^ 52 → is_u64 v → page_of v = page_of va →
  wp (r ← map_4k A h va pa flags; t ← translate h v; mret (r, t)) (λ '(r, t) w',
  is_ok r = true → t = Ok (pa + v mod 4096)) w.
Proof.
  intros Hpa Hpar Hv Hpg. destruct (page_arg_canonical va Hva) as [Hc _]. wp_step.
  eapply wp_mono; [apply wp_and;
    [by apply (map_4k_keeps A w h root va)|by apply (wp_map_4k A w h root va)]|].
  intros r w' [(Hm & Hnl' & _ & Hok) (Hinv' & _ & _)]. wp_step.
  eapply wp_mono; [apply (wp_translate w' h root v)|].
  - by rewrite Hm.
  - by eapply space_inv_ready.
  - by eapply path_entries_page.
  - done.
  - apply is_canonical_spec; [done|]. by eapply canonical_page.
  - intros t w'' [-> ->]. wp_step. intros Hr. destruct (Hok Hr) as (x & Hx & Hpte).
    destruct (new_entry_fields w pa flags) as (Hp & Hfr & _).
    assert (index 0 v = index 0 va) as Hix by by rewrite !index_page, Hpg.
    destruct (mapped_walk root v w' x) as (mp & -> & _ & ->).
    + by rewrite (path_page _ _ Hpg).
    + by rewrite Hix, Hpte.
    + rewrite Hix, Hpte, Hfr, frame_of_id; [done|by apply aligned_4k_spec|done].
Qed.

(** C17: unmapping a page right after mapping it succeeds and restores every
    translation of the address space. *)
Theorem map_then_unmap pa flags : aligned_4k pa = true →
  wp (r ← map_4k A h va pa flags; u ← unmap_4k h va; mret (r, u)) (λ '(r, u) w',
  is_ok r = true →
  u = Ok () ∧ ∀ v, canonical v → hw_walk (m_of w') root v = hw_walk (m_of w) root v) w.
Proof.
  intros Hpa. wp_step.
  eapply wp_mono; [apply wp_and;
    [by apply (map_4k_keeps A w h root va)|by apply (wp_map_4k A w h root va)]|].
  intros r w' [(Hm & Hnl' & _) (Hinv' & Ho & Hr)]. wp_step.
  eapply wp_mono; [apply (wp_unmap_4k w' h root va); try done|].
  - by rewrite Hm.
  - by eapply space_inv_ready.
  - intros u w'' (_ & Ho' & _ & Hu). wp_step. intros Hok. destruct r as [[]|]; [|done].
    destruct Hr as (Hnone & mp & Hmp & _). destruct u as [[]|e].
    + split; [done|]. intros v Hv. destruct (decide (page_of va = page_of v)) as [E|Hne].
      * destruct Hu as (_ & Hn & _).
        by rewrite (hw_walk_none_page _ _ va v E Hn), (hw_walk_none_page _ _ va v E Hnone).
      * by rewrite Ho', Ho.
    + destruct Hu as (_ & Hn & _). congruence.
Qed.
End sequences.

(** ** Isolation between address spaces *)

Section isolation.
Context (w : World) (root root2 va : Z).

(** No table of [root2] is a table on the path of [va] under [root]. *)
Definition off_path : Prop :=
  root2 mod 4096 = 0 ∧
  ∀ x k, reachable (m_of w) root2 x → (k <= 3)%nat →
  follow (m_of w) root (take k (path 3 va)) ≠ Some x.

Lemma walk_tables_same m' :
  root2 mod 4096 = 0 →
  (∀ x j, x mod 4096 = 0 → reachable (m_of w) root2 x → table_index j →
  pte m' x j = pte (m_of w) x j) →
  ∀ v, hw_walk m' root2 v = hw_walk (m_of w) root2 v.
Proof.
  intros Ha H v. apply walk_agree. intros k t Hk Ht. apply H; [|by eexists; eauto using take_path_ok|].
  - by eapply follow_aligned.
  - apply index_range.
Qed.

Context (h : AddressSpace) (Hroot : aspace_root (mmu w) h = Some root).
Context (Hnl : no_large (m_of w) root va) (Hva : page_arg va) (Hoff : off_path).

Lemma map_4k_isolated_lem A `{!FrameAllocLaws A} pa flags :
  space_inv A root w → (∀ x, reachable (m_of w) root2 x → ¬ fa_avail w x) →
  aligned_4k pa = true →
  wp (map_4k A h va pa flags) (λ _ w',
  ∀ v, hw_walk (m_of w') root2 v = hw_walk (m_of w) root2 v) w.
Proof.
  intros Hinv Hav Hpa. destruct Hoff as [Ha Hx].
  eapply wp_mono; [by apply (map_4k_ends A w h root va)|]. intros r w' (w1 & Hg & Hr).
  assert (∀ x j, x mod 4096 = 0 → reachable (m_of w) root2 x → table_index j →
    pte (m_of w1) x j = pte (m_of w) x j) as Hs.
  { intros x j Hxa Hxr Hj. apply (gr_other _ _ _ _ _ _ Hg); eauto.
    intros (k & Hk & Hf & _). by apply (Hx x k); [|lia|]. }
  apply walk_tables_same; [done|].
  destruct r as [[]|[]]; try (by destruct Hr as (_ & -> & _)); try (by destruct Hr as [-> _]).
  destruct Hr as (t & Ht & _ & ->). intros x j Hxa Hxr Hj. rewrite set_leaf_mem.
  rewrite pte_insert_ne; [by apply Hs| |done|apply index_range|done|].
  - eapply follow_aligned; [|done]. apply (gr_inv _ _ _ _ _ _ Hg).
  - intros [= -> _]. destruct (gr_back _ _ _ _ _ _ Hg _ _ (take_path_ok 3 va ltac:(lia)) Ht).
    + by apply (Hx x 3%nat).
    + by apply (Hav x).
Qed.
End isolation.

(** Mapping a page in one address space changes no translation of another:
    as long as no table on the page's path belongs to the other address space
    and the allocator owns none of its tables, every address translates there
    as before, whether the call succeeds or not. *)
Theorem map_4k_isolated A `{!FrameAllocLaws A} w h root root2 va pa flags :
  aspace_root (mmu w) h = Some root → space_inv A root w → no_large (m_of w) root va →
  page_arg va → aligned_4k pa = true → off_path w root root2 va →
  (∀ x, reachable (m_of w) root2 x → ¬ fa_avail w x) →
  wp (map_4k A h va pa flags) (λ _ w',
    ∀ v, hw_walk (m_of w') root2 v = hw_walk (m_of w) root2 v) w.
Proof. intros. by eapply map_4k_isolated_lem. Qed.
