(* ===== verification/SegSpec.v ===== *)
(** * Correctness of the descriptor tables

    The TSS descriptor and the interrupt gates decode to what they were built
    from; [init_core] installs every gate, loads the segments and the task
    register; and what the processor finds in the TSS. *)

From S2P Require Import Prelude Layout Bootabi HalTypes Paging World Cpu Apic X86Mmu MmuProofs Seg.

(** ** The TSS descriptor *)

(** The low quadword as a sum of its fields. *)
Lemma tss_desc_lo addr limit :
  Z.lor (Z.lor (Z.lor (Z.lor (Z.lor (Z.lor 0 (Z.land limit 0xFFFF))
    (Z.shiftl (Z.land addr 0xFFFF) 16)) (Z.shiftl (Z.land (Z.shiftr addr 16) 0xFF) 32))
    (Z.shiftl 0x89 40)) (Z.shiftl (Z.land limit 0xF0000) 32))
    (Z.shiftl (Z.land (Z.shiftr addr 24) 0xFF) 56) =
  limit mod 2 ^ 16 + addr mod 2 ^ 16 * 2 ^ 16 + (addr / 2 ^ 16) mod 2 ^ 8 * 2 ^ 32 + 0x89 * 2 ^ 40
  + (limit / 2 ^ 16) mod 2 ^ 4 * 2 ^ 48 + (addr / 2 ^ 24) mod 2 ^ 8 * 2 ^ 56.
Proof.
  change 0xFFFF with (Z.ones 16). change 0xFF with (Z.ones 8).
  change 0xF0000 with (Z.shiftl (Z.ones 4) 16). rewrite land_shifted_ones by lia.
  rewrite !Z.land_ones, !Z.shiftr_div_pow2, !Z.shiftl_mul_pow2, Z.lor_0_l by lia.
  pose proof (Z.mod_pos_bound limit (2 ^ 16) ltac:(lia)). pose proof (Z.mod_pos_bound addr (2 ^ 16) ltac:(lia)).
  pose proof (Z.mod_pos_bound (addr / 2 ^ 16) (2 ^ 8) ltac:(lia)).
  pose proof (Z.mod_pos_bound (limit / 2 ^ 16) (2 ^ 4) ltac:(lia)).
  pose proof (Z.mod_pos_bound (addr / 2 ^ 24) (2 ^ 8) ltac:(lia)).
  assert (∀ x y k, 0 <= k → 0 <= x < 2 ^ k → Z.lor x (y * 2 ^ k) = x + y * 2 ^ k) as Hlor.
  { intros x y k Hk Hx. rewrite Z.lor_comm, (lor_low_high x _ k); [lia|done|done|].
    apply Z.mod_mul. apply Z.pow_nonzero; lia. }
  replace ((limit / 2 ^ 16) mod 2 ^ 4 * 2 ^ 16 * 2 ^ 32) with ((limit / 2 ^ 16) mod 2 ^ 4 * 2 ^ 48) by lia.
  rewrite (Hlor _ _ 16), (Hlor _ _ 32), (Hlor _ _ 40), (Hlor _ _ 48), (Hlor _ _ 56) by lia. lia.
Qed.

Lemma tss_fields addr limit : is_u64 addr → 0 <= limit < 2 ^ 20 →
  let lo := limit mod 2 ^ 16 + addr mod 2 ^ 16 * 2 ^ 16 + (addr / 2 ^ 16) mod 2 ^ 8 * 2 ^ 32
    + 0x89 * 2 ^ 40 + (limit / 2 ^ 16) mod 2 ^ 4 * 2 ^ 48 + (addr / 2 ^ 24) mod 2 ^ 8 * 2 ^ 56 in
  desc_base lo (addr / 2 ^ 32) = addr ∧ desc_limit lo = limit ∧ desc_access lo = 0x89.
Proof.
  intros Ha Hl lo. unfold is_u64, U64 in Ha. unfold desc_base, desc_limit, desc_access.
  pose proof (Z.mod_pos_bound limit (2 ^ 16) ltac:(lia)).
  pose proof (Z.mod_pos_bound addr (2 ^ 16) ltac:(lia)).
  pose proof (Z.mod_pos_bound (addr / 2 ^ 16) (2 ^ 8) ltac:(lia)).
  pose proof (Z.mod_pos_bound (limit / 2 ^ 16) (2 ^ 4) ltac:(lia)).
  pose proof (Z.mod_pos_bound (addr / 2 ^ 24) (2 ^ 8) ltac:(lia)).
  assert ((lo / 2 ^ 16) mod 2 ^ 16 = addr mod 2 ^ 16) as -> by
    (unfold lo; Z.to_euclidean_division_equations; lia).
  assert ((lo / 2 ^ 32) mod 2 ^ 8 = (addr / 2 ^ 16) mod 2 ^ 8) as -> by
    (unfold lo; Z.to_euclidean_division_equations; lia).
  assert ((lo / 2 ^ 56) mod 2 ^ 8 = (addr / 2 ^ 24) mod 2 ^ 8) as -> by
    (unfold lo; Z.to_euclidean_division_equations; lia).
  assert (lo mod 2 ^ 16 = limit mod 2 ^ 16) as -> by
    (unfold lo; Z.to_euclidean_division_equations; lia).
  assert ((lo / 2 ^ 48) mod 2 ^ 4 = (limit / 2 ^ 16) mod 2 ^ 4) as -> by
    (unfold lo; Z.to_euclidean_division_equations; lia).
  assert ((lo / 2 ^ 40) mod 2 ^ 8 = 0x89) as -> by
    (unfold lo; Z.to_euclidean_division_equations; lia).
  split_and!; [| |done]; clear lo; Z.to_euclidean_division_equations; lia.
Qed.

Lemma tss_desc_fields addr len w : is_u64 addr → 0 < len <= 2 ^ 20 →
  ∃ lo hi, make_tss_desc addr len w = Ret (lo, hi) w ∧
    desc_base lo hi = addr ∧ desc_limit lo = len - 1 ∧ desc_access lo = 0x89.
Proof.
  intros Ha Hl. unfold make_tss_desc, sub64, mbind, M_bind.
  rewrite (proj2 (Z.leb_le 1 len)) by lia. cbv zeta. eexists _, _. split; [reflexivity|].
  rewrite tss_desc_lo, Z.shiftr_div_pow2 by lia. apply tss_fields; [done|lia].
Qed.

Lemma gate_of_target handler ist : is_u64 handler → gate_offset (gate_of handler ist) = handler.
Proof.
  unfold is_u64, U64, gate_offset, gate_of. intros Hh. cbn [offset_lo offset_mid offset_hi].
  rewrite !Z.shiftr_div_pow2 by lia. unfold as_u16, as_u32. Z.to_euclidean_division_equations. lia.
Qed.

(** The TSS descriptor decodes to the address and size it was built from,
    as a present, available 64-bit TSS; an interrupt gate decodes to its
    handler. *)
Theorem descriptors_roundtrip addr len handler n w : is_u64 addr → 0 < len <= 2 ^ 20 → is_u64 handler →
  (∃ lo hi, make_tss_desc addr len w = Ret (lo, hi) w ∧
     desc_base lo hi = addr ∧ desc_limit lo = len - 1 ∧ desc_access lo = 0x89) ∧
  gate_offset (gate_of handler n) = handler ∧ gate_present (gate_of handler n) = true.
Proof. intros. split; [by apply tss_desc_fields|]. split; [by apply gate_of_target|done]. Qed.

(** ** Gates *)

(** [w] with another interrupt table. *)
Definition with_IDT (t : list IdtEntry) (w : World) : World :=
  set_seg (λ s, mkSegSt (TSS s) (GDT s) (TSS_DESC s) (FULL s) t (gdtr s) (idtr s)
                  (seg_cs s) (seg_data s) (task_reg s)) w.

Lemma set_gate_eq vec handler i w : (Z.to_nat vec < length (IDT (seg (sys w))))%nat →
  set_gate vec handler i w =
  Ret () (with_IDT (<[Z.to_nat vec := gate_of handler i]> (IDT (seg (sys w)))) w).
Proof.
  intros Hv. unfold set_gate, get_seg, gets, mbind, M_bind. by rewrite (proj2 (Nat.ltb_lt _ _) Hv).
Qed.

(** The gates a loop over a stub table installs. *)
Definition install (base : nat) (table : list Z) (istf : nat → Z) (l : list nat) (t : list IdtEntry)
  : list IdtEntry :=
  foldl (λ t i, <[(base + i)%nat := gate_of (default 0 (table !! i)) (istf i)]> t) t l.

Lemma install_length base table istf l t : length (install base table istf l t) = length t.
Proof.
  revert t. induction l as [|i l IH]; intros t; [done|]. cbn. unfold install in IH.
  by rewrite IH, length_insert.
Qed.

Lemma install_lookup base table istf l t v : (v < length t)%nat →
  install base table istf l t !! v =
  if decide (base <= v ∧ v - base ∈ l)%nat
  then Some (gate_of (default 0 (table !! (v - base)%nat)) (istf (v - base)%nat))
  else t !! v.
Proof.
  revert t. induction l as [|i l IH]; intros t Hv.
  { cbn. rewrite decide_False; [done|]. intros [_ H]. by apply elem_of_nil in H. }
  cbn. unfold install in IH. rewrite IH by by rewrite length_insert.
  destruct (decide (base <= v ∧ v - base ∈ l)%nat) as [[Hb Hin]|Hout].
  - rewrite decide_True; [done|]. split; [done|by apply list_elem_of_further].
  - destruct (decide (base + i = v)%nat) as [<-|Hne].
    + replace (base + i - base)%nat with i by lia. rewrite list_lookup_insert_eq by done.
      rewrite decide_True; [done|]. split; [lia|apply list_elem_of_here].
    + rewrite list_lookup_insert_ne by done. rewrite decide_False; [done|].
      intros [Hb Hin]. apply Hout. split; [done|]. apply elem_of_cons in Hin as [E|]; [lia|done].
Qed.

Lemma install_loop base table istf (vecf : nat → Z) l w :
  (∀ i, i ∈ l → Z.to_nat (vecf i) = (base + i)%nat ∧ (i < length table)%nat ∧
     (base + i < length (IDT (seg (sys w))))%nat) →
  for_each l (λ i, match table !! i with
                   | Some handler => set_gate (vecf i) handler (istf i)
                   | None => panic "index out of bounds"
                   end) w =
  Ret () (with_IDT (install base table istf l (IDT (seg (sys w)))) w).
Proof.
  revert w. induction l as [|i l IH]; intros w Hl.
  { cbn. unfold mret, M_ret. destruct w as [? ? ? ? ? ? sy]; destruct sy as [? sg]; by destruct sg. }
  destruct (Hl i) as (Hv & Ht & Hb); [apply list_elem_of_here|].
  destruct (lookup_lt_is_Some_2 table i Ht) as [handler Hh].
  cbn [for_each]. unfold mbind at 1, M_bind. rewrite Hh, set_gate_eq by by rewrite Hv.
  rewrite Hv, IH.
  - cbn. by rewrite Hh.
  - intros j Hj. destruct (Hl j) as (? & ? & ?); [by apply list_elem_of_further|].
    split_and!; [done|done|]. cbn. by rewrite length_insert.
Qed.

(** What the linker and the bootloader provide. *)
Record seg_boot (w : World) : Prop := mkSegBoot {
  sb_isr : length (isr_stub_table (segenv (sys w))) = 32%nat;
  sb_irq : length (irq_stub_table (segenv (sys w))) = 16%nat;
  sb_idt : length (IDT (seg (sys w))) = 256%nat;
  sb_gdt : ∃ g1 g2, GDT (seg (sys w)) = [0; g1; g2];
  sb_tss : is_u64 (tss_addr (segenv (sys w))) ∧ canonical (tss_addr (segenv (sys w)));
  sb_stack : df_stack_addr (segenv (sys w)) + IST_STACK_SIZE < U64;
  sb_ist : length (ist (TSS (seg (sys w)))) = 7%nat;
  sb_stubs : Forall is_u64 (irq_224 (segenv (sys w)) :: irq_225 (segenv (sys w)) ::
               isr_stub_table (segenv (sys w)) ++ irq_stub_table (segenv (sys w)))
}.

(** The gate [init_idt] leaves for a vector. *)
Definition idt_gate (e : SegEnv) (t : list IdtEntry) (v : nat) : option IdtEntry :=
  if decide (v < 32)%nat then
    (λ h, gate_of h (if Nat.eqb v 8 then 1 else 0)) <$> isr_stub_table e !! v
  else if decide (v < 48)%nat then (λ h, gate_of h 0) <$> irq_stub_table e !! (v - 32)%nat
  else if decide (v = 224%nat) then Some (gate_of (irq_224 e) 0)
  else if decide (v = 225%nat) then Some (gate_of (irq_225 e) 0)
  else t !! v.

Lemma wp_init_idt w : seg_boot w →
  wp init_idt (λ _ w', ∃ t, w' = set_seg (λ s, mkSegSt (TSS s) (GDT s) (TSS_DESC s) (FULL s) t (gdtr s)
        (mkTableReg 4095 (idt_addr (segenv (sys w)))) (seg_cs s) (seg_data s) (task_reg s)) w ∧
      ∀ v, (v < 256)%nat → t !! v = idt_gate (segenv (sys w)) (IDT (seg (sys w))) v) w.
Proof.
  intros [Hisr Hirq Hidt _ _ _ _ _]. unfold init_idt, get_segenv. wp_steps. set (e := segenv (sys w)).
  eapply wp_intro; [apply (install_loop 0 (isr_stub_table e) (λ vec, if Nat.eqb vec 8 then 1 else 0)
                             (λ vec, as_u8 (Z.of_nat vec)))|].
  { intros i Hi%elem_of_seq. unfold as_u8. rewrite Z.mod_small by lia.
    split_and!; [lia|unfold e; lia|lia]. }
  set (t1 := install _ _ _ _ _). assert (length t1 = 256%nat) as L1 by (unfold t1; by rewrite install_length).
  wp_step. eapply wp_intro; [apply (install_loop 32 (irq_stub_table e) (λ _, 0)
                             (λ i, as_u8 (32 + Z.of_nat i)))|].
  { intros i Hi%elem_of_seq. unfold as_u8. rewrite Z.mod_small by lia.
    change (IDT _) with t1. split_and!; [lia|unfold e; lia|lia]. }
  change (IDT (seg (sys (with_IDT t1 w)))) with t1.
  set (t2 := install 32 _ _ _ _). assert (length t2 = 256%nat) as L2 by (unfold t2; by rewrite install_length).
  wp_step. eapply wp_intro; [apply set_gate_eq; change (IDT _) with t2; rewrite L2; vm_compute; lia|].
  wp_step. eapply wp_intro; [apply set_gate_eq; cbn [with_IDT set_seg set_sys sys seg IDT];
    rewrite length_insert, L2; vm_compute; lia|].
  unfold lidt. wp_step. eexists. split; [reflexivity|]. cbn [with_IDT set_seg set_sys sys seg IDT].
  change (Z.to_nat TLB_SHOOTDOWN_VEC) with 225%nat. change (Z.to_nat TIMER_VEC) with 224%nat.
  intros v Hv. unfold idt_gate.
  destruct (decide (v = 225%nat)) as [->|N1]; [|rewrite list_lookup_insert_ne by done].
  { rewrite list_lookup_insert_eq by (rewrite length_insert; lia). done. }
  destruct (decide (v = 224%nat)) as [->|N2]; [|rewrite list_lookup_insert_ne by done].
  { rewrite list_lookup_insert_eq by lia. done. }
  unfold t2. rewrite install_lookup by lia.
  destruct (decide (32 <= v ∧ v - 32 ∈ seq 0 16)%nat) as [[Hv1 Hv2%elem_of_seq]|Hv1].
  - rewrite (decide_False (P := (v < 32)%nat)), (decide_True (P := (v < 48)%nat)) by lia.
    destruct (lookup_lt_is_Some_2 (irq_stub_table e) (v - 32)) as [h ->]; [unfold e; lia|done].
  - rewrite elem_of_seq in Hv1. unfold t1. rewrite install_lookup by lia. rewrite Nat.sub_0_r.
    destruct (decide (0 <= v ∧ v ∈ seq 0 32)%nat) as [[_ Hv2%elem_of_seq]|Hv2].
    + rewrite (decide_True (P := (v < 32)%nat)) by lia.
      destruct (lookup_lt_is_Some_2 (isr_stub_table e) v) as [h ->]; [unfold e; lia|done].
    + rewrite elem_of_seq in Hv2.
      rewrite (decide_False (P := (v < 32)%nat)), (decide_False (P := (v < 48)%nat)) by lia. done.
Qed.

(** ** Bringing the processor up *)

Lemma wp_gdt_read w off v (Q : Z → World → Prop) :
  tr_base (gdtr (seg (sys w))) = full_addr (segenv (sys w)) →
  off + 7 <= tr_limit (gdtr (seg (sys w))) →
  FULL (seg (sys w)) !! Z.to_nat (off / 8) = Some v → Q v w → wp (gdt_read off) Q w.
Proof.
  intros Hb Hl Hv HQ. unfold gdt_read, get_seg, get_segenv. wp_steps.
  rewrite Hb, Z.eqb_refl, (proj2 (Z.leb_le _ _) Hl), Hv. exact HQ.
Qed.

Lemma wp_check_data w stack (Q : unit → World → Prop) :
  tr_base (gdtr (seg (sys w))) = full_addr (segenv (sys w)) → 23 <= tr_limit (gdtr (seg (sys w))) →
  FULL (seg (sys w)) !! 2%nat = Some gdt_data → Q () w → wp (check_data KERNEL_DS stack) Q w.
Proof.
  intros Hb Hl Hv HQ. unfold check_data. wp_step. apply (wp_gdt_read _ _ gdt_data); [done|done|done|].
  by destruct stack.
Qed.

(** The segment state after [init_gdt_and_segments]. *)
Definition segments_up (e : SegEnv) (s : SegSt) : SegSt :=
  mkSegSt (mkTss64 (boot_rsp e) (rsp1 (TSS s)) (rsp2 (TSS s))
             (<[0%nat := df_stack_addr e + IST_STACK_SIZE]> (ist (TSS s))) 112)
    [0; gdt_code64; gdt_data] (TSS_DESC s)
    [0; gdt_code64; gdt_data; fst (TSS_DESC s); snd (TSS_DESC s)] (IDT s)
    (mkTableReg 39 (full_addr e)) (idtr s) 0x08 (mkDataSegs 0x10 0x10 0x10 0x10 0x10) (task_reg s).

Lemma wp_segments w : seg_boot w →
  wp (init_gdt_and_segments (boot_rsp (segenv (sys w)))) (λ _ w',
    w' = set_seg (segments_up (segenv (sys w))) w) w.
Proof.
  intros [_ _ _ (g1 & g2 & Hg) _ Hst _ _].
  unfold init_gdt_and_segments, init_tss_only, init_tss, get_segenv, get_seg, stack_top. wp_steps.
  apply wp_add64; [done|]. unfold set_TSS, build_gdt_entries_only, build_full_table, load_gdt,
    get_segenv, lgdt, reload_segments, load_cs, load_ds, load_es, load_ss, load_fs, load_gs. wp_steps.
  match goal with |- wp _ _ ?x => set (w1 := x) end.
  assert (FULL (seg (sys w1)) = [0; gdt_code64; gdt_data; fst (TSS_DESC (seg (sys w)));
                                 snd (TSS_DESC (seg (sys w)))]) as HF by (cbn; by rewrite Hg).
  apply (wp_gdt_read w1 _ gdt_code64); [done|done|by rewrite HF|]. apply wp_modify.
  do 4 (do 2 apply wp_bind; apply wp_check_data;
        [done|done|cbn [seg sys FULL set_seg set_sys]; by rewrite HF|]; unfold set_data; apply wp_modify).
  apply wp_bind, wp_check_data; [done|done|cbn [seg sys FULL set_seg set_sys]; by rewrite HF|].
  unfold set_data. apply wp_modify.
  unfold w1. destruct w as [? ? ? ? ? ? sy]; destruct sy as [se sg]; destruct sg.
  cbn in *. by rewrite Hg.
Qed.

(** The stub the table of the linker has for a vector. *)
Definition vector_stub (e : SegEnv) (v : nat) : option Z :=
  if decide (v < 32)%nat then isr_stub_table e !! v
  else if decide (v < 48)%nat then irq_stub_table e !! (v - 32)%nat
  else if decide (v = 224%nat) then Some (irq_224 e)
  else if decide (v = 225%nat) then Some (irq_225 e)
  else None.

(** The processor reads [g] as a present 64-bit interrupt gate of privilege
    level 0 to [target] in the code segment 0x08, on interrupt stack [n] (0 for
    the current stack). *)
Record gate_to (g : IdtEntry) (target n : Z) : Prop := mkGateTo {
  gt_present : Z.testbit (type_attr g) 7 = true;
  gt_dpl : (type_attr g / 2 ^ 5) mod 4 = 0;
  gt_type : type_attr g mod 2 ^ 5 = 14;
  gt_target : gate_offset g = target;
  gt_segment : selector g = 0x08;
  gt_stack : gate_ist g = n;
  gt_reserved : gate_zero g = 0
}.

(** Table [t] has a gate for every stub, the double fault's (vector 8) on
    interrupt stack 1, and is [t0] elsewhere. *)
Definition gates_up (e : SegEnv) (t0 t : list IdtEntry) : Prop := ∀ v, (v < 256)%nat →
  ∃ g, t !! v = Some g ∧
    match vector_stub e v with
    | Some h => gate_to g h (if decide (v = 8%nat) then 1 else 0)
    | None => t0 !! v = Some g
    end.

Lemma gate_of_to handler n : is_u64 handler → 0 <= n < 8 → gate_to (gate_of handler n) handler n.
Proof.
  intros Hh Hn. split; try done; [by apply gate_of_target|].
  cbn. change 7 with (Z.ones 3). rewrite Z.land_ones by lia. by apply Z.mod_small.
Qed.

Lemma gates_up_idt w t : seg_boot w →
  (∀ v, (v < 256)%nat → t !! v = idt_gate (segenv (sys w)) (IDT (seg (sys w))) v) →
  gates_up (segenv (sys w)) (IDT (seg (sys w))) t.
Proof.
  intros [H1 H2 H3 _ _ _ _ Hst] Ht v Hv. rewrite Ht by done.
  apply Forall_cons in Hst as [Hs1 [Hs2 [Hs3 Hs4]%Forall_app]%Forall_cons].
  set (e := segenv (sys w)) in *. unfold idt_gate, vector_stub.
  destruct (decide (v < 32)%nat) as [Hlt|Hge]; [|destruct (decide (v < 48)%nat) as [Hlt|Hge']].
  - destruct (lookup_lt_is_Some_2 (isr_stub_table e) v) as [h Eh]; [lia|]. rewrite Eh. eexists. split; [done|].
    pose proof (Forall_lookup_1 _ _ _ _ Hs3 Eh).
    destruct (Nat.eqb_spec v 8), (decide (v = 8%nat)); try lia; by apply gate_of_to.
  - destruct (lookup_lt_is_Some_2 (irq_stub_table e) (v - 32)) as [h Eh]; [lia|]. rewrite Eh. eexists. split; [done|].
    rewrite decide_False by lia. apply gate_of_to; [by eapply Forall_lookup_1|done].
  - destruct (decide (v = 224%nat)) as [->|]; [by eexists; split; [done|apply gate_of_to]|].
    destruct (decide (v = 225%nat)) as [->|]; [by eexists; split; [done|apply gate_of_to]|].
    destruct (lookup_lt_is_Some_2 (IDT (seg (sys w))) v) as [g Eg]; [lia|]. by exists g.
Qed.

(** What [init_core] leaves. *)
Definition core_post (w w' : World) : Prop :=
  let s := seg (sys w') in let e := segenv (sys w) in
  task_reg s = Some (0x18, tss_addr e) ∧ seg_cs s = 0x08 ∧
  seg_data s = mkDataSegs 0x10 0x10 0x10 0x10 0x10 ∧
  gdtr s = mkTableReg 39 (full_addr e) ∧ idtr s = mkTableReg 4095 (idt_addr e) ∧
  gates_up e (IDT (seg (sys w))) (IDT s) ∧
  rsp0 (TSS s) = boot_rsp e ∧ ist (TSS s) !! 0%nat = Some (df_stack_addr e + IST_STACK_SIZE) ∧
  ports (hw w') = [(0xa0, 0x20); (0x20, 0x20); (0xa1, 0xff); (0x21, 0xff)] ++ ports (hw w) ∧
  mmu w' = mmu w ∧ mem64 (hw w') = mem64 (hw w).

Lemma wp_init_core w : seg_boot w → wp init_core (λ _ w', core_post w w') w.
Proof.
  intros Hb. pose proof Hb as [H1 H2 H3 _ [Htu Htc] _ H7 _].
  unfold init_core, get_segenv. wp_steps. eapply wp_mono; [by apply wp_segments|]. intros ? ? ->.
  set (w1 := set_seg _ w). assert (seg_boot w1) as Hb1.
  { destruct Hb. split; try done; [by eexists _, _|]. cbn. by rewrite length_insert. }
  wp_step. eapply wp_mono; [by apply wp_init_idt|]. intros ? ? (t & -> & Ht).
  unfold mask_legacy_pic, outb, hw_out. wp_step.
  eapply wp_intro; [reflexivity|]. match goal with |- wp _ _ ?x => set (w2 := x) end.
  unfold load_tss, build_tss_desc, get_segenv. wp_steps.
  change (segenv (sys w2)) with (segenv (sys w)).
  change (gdt_is_canonical (tss_addr (segenv (sys w)))) with (is_canonical (tss_addr (segenv (sys w)))).
  rewrite (proj2 (is_canonical_spec _ Htu) Htc). cbn [negb]. wp_step.
  destruct (tss_desc_fields (tss_addr (segenv (sys w))) sizeof_Tss64 w2) as (lo & hi & E & E1 & E2 & E3);
    [done|done|].
  eapply wp_intro; [exact E|]. unfold build_full_table, gdt_load_tss, ltr. wp_steps.
  apply (wp_gdt_read _ _ lo); [done|done|done|]. wp_step.
  apply (wp_gdt_read _ _ hi); [done|done|done|].
  rewrite E1, E3, Z.eqb_refl, bool_decide_eq_true_2 by done. cbn [andb]. wp_step.
  cbv zeta. split_and!; try done; [by apply gates_up_idt|]. cbn. apply list_lookup_insert_eq. rewrite H7. lia.
Qed.

(** C35: [init_core] brings the processor's tables up: CS and the five data
    segments hold the kernel's selectors, the processor having accepted the
    descriptors of the kernel's GDT; the task register holds the address of
    the TSS; every exception, IRQ, timer and shootdown vector has a present
    ring-0 interrupt gate to its own stub in the kernel's code segment, the
    double fault's alone on interrupt stack 1, and no other gate changes; the
    fields of the [Tss64] struct are set, and the legacy PIC is masked. *)
Theorem init_core_ready w : seg_boot w → wp init_core (λ _ w', core_post w w') w.
Proof. apply wp_init_core. Qed.

(** ** What the processor finds in the TSS *)

(** [Tss64] is not packed, so its fields lie four bytes above the places the
    processor reads. *)
Lemma tss_offsets : offsets 0 Tss64_fields = [0; 8; 16; 24; 32; 40; 96; 104; 106] ∧ sizeof_Tss64 = 112.
Proof. split; reflexivity. Qed.

(** The processor does not find the stacks the kernel sets: the fields of
    [Tss64] start at offset 8 where the architecture has them at offset 4, so
    the ring-0 stack and interrupt stack 1 the processor reads are the low
    halves of the kernel's values moved to the high half. *)
Theorem tss_stacks_misread t i0 l : ist t = i0 :: l →
  hw_tss_rsp0 (tss_image t) = rsp0 t mod 2 ^ 32 * 2 ^ 32 ∧
  hw_tss_ist (tss_image t) 1 = i0 mod 2 ^ 32 * 2 ^ 32.
Proof.
  intros Hi. unfold hw_tss_rsp0, hw_tss_ist, read_le, tss_image. rewrite Hi.
  assert (∀ v, le_combine ([0; 0; 0; 0] ++ le_bytes 4 v) = v mod 2 ^ 32 * 2 ^ 32) as H.
  { intros v. cbn [app le_combine]. rewrite le_combine_bytes. change (256 ^ Z.of_nat 4) with (2 ^ 32). lia. }
  split; (etransitivity; [|apply H]); reflexivity.
Qed.
