(* ===== verification/TlbSpec.v ===== *)
(** * The translation cache

    The kernel's flushes against the processor's TLB: the page operations
    keep every cached translation in agreement with the tables, and what each
    of the flush operations really drops. *)

From S2P Require Import Prelude HalTypes Paging World Hal Cpu Apic X86Mmu MmuProofs MmuSpec.

#[local] Abbreviation m_of w := (mem64 (hw w)).

(** Every cached translation of a canonical page is what the tables under
    [root] say. *)
Definition tlb_coherent (root : Z) (w : World) : Prop :=
  ∀ v mp, canonical v → v mod 4096 = 0 → tlb (hw w) !! page_of v = Some mp →
    hw_walk (m_of w) root v = Some mp.

(** A change of one page's translation that drops that page from the cache. *)
Lemma coherent_flushed root va w w' :
  tlb_coherent root w → others_same root va w w' →
  tlb (hw w') = delete (page_of va) (tlb (hw w)) → tlb_coherent root w'.
Proof.
  intros Hc Ho Ht v mp Hv Ha. rewrite Ht, lookup_delete_Some. intros [Hne Hl].
  rewrite Ho by done. by apply Hc.
Qed.

Lemma coherent_same root w w' :
  tlb_coherent root w → (∀ v, hw_walk (m_of w') root v = hw_walk (m_of w) root v) →
  tlb (hw w') = tlb (hw w) → tlb_coherent root w'.
Proof. intros Hc Hw Ht v mp Hv Ha. rewrite Ht, Hw. by apply Hc. Qed.

Section page_operations.
Context (w : World) (h : AddressSpace) (root va : Z).
Context (Hroot : aspace_root (mmu w) h = Some root) (Hnl : no_large (m_of w) root va).
Context (Hva : page_arg va) (Hcoh : tlb_coherent root w).

Lemma map_4k_coherent A `{!FrameAllocLaws A} pa flags :
  space_inv A root w → aligned_4k pa = true →
  wp (map_4k A h va pa flags) (λ _ w', tlb_coherent root w') w.
Proof.
  intros Hinv Hpa. eapply wp_mono; [apply wp_and;
    [by apply (map_4k_keeps A w h root va)|by apply (wp_map_4k A w h root va)]|].
  intros r w' [(_ & _ & Ht & _) (_ & Ho & Hr)]. destruct r as [[]|e].
  - by eapply coherent_flushed.
  - intros v mp Hv Ha Hl. rewrite Ht in Hl. cbn [is_ok] in Hl.
    destruct (decide (page_of va = page_of v)) as [E|Hne]; [|rewrite Ho by done; by apply Hcoh].
    destruct (page_arg_canonical va Hva) as [_ Hva0].
    assert (v = va) as -> by (unfold page_of in E; Z.to_euclidean_division_equations; lia).
    pose proof (Hcoh va mp Hv Ha Hl) as Hw. destruct e; naive_solver congruence.
Qed.

Lemma unmap_4k_coherent : space_ready root w →
  wp (unmap_4k h va) (λ _ w', tlb_coherent root w') w.
Proof.
  intros Hsr. eapply wp_mono; [by apply (wp_unmap_4k w h root va)|].
  intros [[]|e] w' (_ & Ho & _ & Hr).
  - eapply coherent_flushed; [done|done|apply Hr].
  - by destruct Hr as (_ & _ & ->).
Qed.

Lemma protect_4k_coherent flags : space_ready root w →
  wp (protect_4k h va flags) (λ _ w', tlb_coherent root w') w.
Proof.
  intros Hsr. eapply wp_mono; [by apply (wp_protect_4k w h root va)|].
  intros [[]|e] w' (_ & Ho & _ & Hr).
  - destruct Hr as (mp & mp' & _ & _ & _ & _ & Ht & _). by eapply coherent_flushed.
  - by destruct Hr as (_ & _ & ->).
Qed.

(** C40: no page operation leaves a stale translation behind: when the cache
    agrees with the tables before the call, it agrees with them after it,
    whether the call succeeds or fails. *)
Theorem page_ops_tlb_coherent A `{!FrameAllocLaws A} pa flags : space_inv A root w →
  (aligned_4k pa = true → wp (map_4k A h va pa flags) (λ _ w', tlb_coherent root w') w) ∧
  wp (unmap_4k h va) (λ _ w', tlb_coherent root w') w ∧
  wp (protect_4k h va flags) (λ _ w', tlb_coherent root w') w.
Proof.
  intros Hinv. pose proof (space_inv_ready A _ _ Hinv) as Hsr.
  split_and!; [intros; by apply (map_4k_coherent A)|by apply unmap_4k_coherent|by apply protect_4k_coherent].
Qed.
End page_operations.

(** ** Full flushes *)

Lemma PGE_spec c : has_bits c CR4_PGE = Z.testbit c CR4_PGE_bit.
Proof. by apply has_bits_bit. Qed.

Lemma clear_PGE c : Z.testbit (Z.land c (not64 CR4_PGE)) CR4_PGE_bit = false.
Proof. by rewrite Z.land_spec, andb_false_r. Qed.

Lemma flush_tlb_all_global_eq w : flush_tlb_all_global w = Ret () (set_hw (hw_tlb ∅) w).
Proof.
  destruct w as [e h o mu ap v sy]; destruct h as [c0 c2 c3 c4 ms t].
  unfold flush_tlb_all_global, mbind, M_bind, read_cr4, gets. rewrite PGE_spec. cbn [hw cr4].
  destruct (Z.testbit c4 CR4_PGE_bit) eqn:E;
    unfold mov_cr4, mov_cr3, read_cr3, gets, modify, set_hw, tlb_after_cr4, tlb_after_cr3;
    cbn [hw cr4 cr3 hw_cr3 hw_cr4 tlb env HHDM_OFFSET mmu apic vm sys];
    by rewrite ?clear_PGE, E.
Qed.

Lemma flush_tlb_all_eq w : flush_tlb_all w = Ret () (set_hw (λ h, hw_tlb (tlb_after_cr3 h) h) w).
Proof.
  unfold flush_tlb_all, mbind, M_bind, read_cr3, gets, mov_cr3, modify.
  destruct w as [? h]; by destruct h.
Qed.

