(* ===== verification/IntrSpec.v ===== *)
(** * Correctness of interrupt entry and dispatch *)

From S2P Require Import Prelude Fmt Layout Bootabi HalTypes Paging World Hal Cpu Apic ApicSpec X86Mmu Seg SegSpec TlbSpec Time Intr.

(** Exceptions for which the processor pushes an error code (Intel SDM vol. 3,
    6.3.1; AMD APM vol. 2, 8.2: #VC and #SX). *)
Definition cpu_pushes_error (vec : Z) : bool :=
  bool_decide (vec ∈ [8; 10; 11; 12; 13; 14; 17; 21; 29; 30]).

(** What the processor pushes for [vec]. *)
Definition cpu_stack (vec err : Z) (f : CpuFrame) (below : list Z) : list Z :=
  (if cpu_pushes_error vec then [err] else []) ++ frame_words f ++ below.

Lemma stub_expects_pushed vec : vec ≠ 21 → vec ≠ 29 → vec ≠ 30 →
  stub_expects_error vec = cpu_pushes_error vec.
Proof.
  intros H1 H2 H3. unfold stub_expects_error, cpu_pushes_error. apply bool_decide_ext.
  rewrite !elem_of_cons, elem_of_nil. naive_solver.
Qed.

Lemma stub_words vec err g f below : vec ≠ 21 → vec ≠ 29 → vec ≠ 30 →
  stub_entry vec g (cpu_stack vec err f below) =
  push_gprs g (vec :: (if cpu_pushes_error vec then err else 0) :: frame_words f ++ below).
Proof.
  intros H1 H2 H3. unfold stub_entry, cpu_stack. rewrite stub_expects_pushed by done.
  by destruct (cpu_pushes_error vec).
Qed.

Section run.
Context (compiled : ExceptionContext → SseState → SseState).

(** The parts of a stub around the dispatcher. *)
Lemma stub_run vec err g x f below w : vec ≠ 21 → vec ≠ 29 → vec ≠ 30 →
  let ctx := mkExceptionContext g vec (if cpu_pushes_error vec then err else 0) f in
  stub compiled vec g x (cpu_stack vec err f below) w =
  ((if vec <? 32 then exception_dispatch else irq_dispatch) ctx;; mret (g, f, compiled ctx x)) w.
Proof.
  intros H1 H2 H3. unfold stub. cbv zeta. rewrite stub_words by done. cbn.
  destruct g, f; by destruct (vec <? 32).
Qed.
End run.

(** The stubs save and restore the interrupted state: for every vector
    except 21, 29 and 30 the struct the dispatcher gets a pointer to holds the
    interrupted registers, the vector, the processor's error code (0 when it
    pushes none) and the processor's frame; the stack is aligned to 16 bytes
    at the call, as it was when the processor pushed its frame; and after the
    dispatcher the registers and the frame are the interrupted ones. *)
Theorem stub_context vec err g f below top : vec ≠ 21 → vec ≠ 29 → vec ≠ 30 → top mod 16 = 0 →
  let s := stub_entry vec g (cpu_stack vec err f below) in
  read_context s = Some (mkExceptionContext g vec (if cpu_pushes_error vec then err else 0) f) ∧
  stub_exit s = Some (g, f) ∧
  (top - 8 * (Z.of_nat (length s) - Z.of_nat (length below))) mod 16 = 0.
Proof.
  intros H1 H2 H3 Ht s. unfold s. rewrite stub_words by done. split_and!; [by destruct g, f..|].
  cbn [push_gprs foldl frame_words app length].
  replace (_ - _) with (top + (-11) * 16) by lia. by rewrite Z_mod_plus_full.
Qed.

(** For #CP, #VC and #SX the stub pushes a zero below which the processor's
    error code is taken for the instruction pointer: the context is shifted
    by one word, and the return would go to the error code. *)
Theorem stub_context_shifted vec err g f below : vec = 21 ∨ vec = 29 ∨ vec = 30 →
  let s := stub_entry vec g (cpu_stack vec err f below) in
  read_context s = Some (mkExceptionContext g vec 0 (mkCpuFrame err (rip f) (cs f) (rflags f) (rsp f))) ∧
  stub_exit s = Some (g, mkCpuFrame err (rip f) (cs f) (rflags f) (rsp f)).
Proof. intros [->|[->| ->]]; by destruct g. Qed.

(** ** Dispatch *)

Definition eoi_world (w : World) : World :=
  set_lapic (<[0xb0 := 0]> (lapic (hw w))) (icr_busy (hw w)) (ipis (hw w)) (S (eois (hw w))) w.

Lemma apic_on_armed t w : apic_on w → apic_on (armed t w).
Proof.
  assert (rd_msr (armed t w) APIC_BASE_msr = rd_msr w APIC_BASE_msr) as E.
  { unfold rd_msr, armed. cbn. by rewrite lookup_insert_ne. }
  unfold apic_on, apic_ready, x2apic_enabled, lapic_enabled, lapic_phys. by rewrite E.
Qed.

(** What handling the IRQ does before it is acknowledged. *)
Definition irq_effect (vec : Z) (w : World) : World :=
  if vec =? TLB_SHOOTDOWN_VEC then set_hw (λ h, hw_tlb (tlb_after_cr3 h) h) w
  else if (vec =? TIMER_VEC) && bool_decide (HANDLER (hal (sys w)) = Some KERNEL_INTERRUPTS) &&
          bool_decide (TIMER (hal (sys w)) = Some TSC_TIMER) && (100 <=? TSC_HZ (tsc (sys w)))
  then armed (TSC_HZ (tsc (sys w)) / 100) w
  else w.

Lemma irq_dispatch_eq w ctx : apic_on w → 0 <= TSC_HZ (tsc (sys w)) < 2 ^ 40 →
  irq_dispatch ctx w = Ret () (eoi_world (irq_effect (as_u8 (vector ctx)) w)).
Proof.
  intros Hon Hhz. unfold irq_dispatch, irq_effect. cbv zeta. destruct (as_u8 (vector ctx) =? TLB_SHOOTDOWN_VEC).
  - unfold handle_tlb_shootdown, mbind, M_bind. rewrite flush_tlb_all_eq. by rewrite eoi_once.
  - unfold dispatch, mbind, M_bind, gets.
    destruct (HANDLER (hal (sys w))) as [[]|] eqn:EH.
    2: { rewrite bool_decide_eq_false_2 by done. rewrite andb_false_r. cbn [andb].
         unfold mret, M_ret. by rewrite eoi_once. }
    rewrite bool_decide_eq_true_2 by done. rewrite andb_true_r.
    destruct (as_u8 (vector ctx) =? TIMER_VEC); cbn [andb].
    + unfold on_interrupt, on_timer_tick. cbn [kind]. rewrite arm_next_tick_eq by done.
      destruct (TIMER (hal (sys w))) as [[]|] eqn:ET.
      * rewrite (bool_decide_eq_true_2 (Some TSC_TIMER = Some TSC_TIMER)) by done.
        rewrite bool_decide_eq_false_2 by done. cbn [orb andb].
        destruct (Z.ltb_spec (TSC_HZ (tsc (sys w))) 100), (Z.leb_spec 100 (TSC_HZ (tsc (sys w))));
          try lia; by rewrite eoi_once by (done || by apply apic_on_armed).
      * rewrite bool_decide_eq_true_2 by done. cbn [orb].
        rewrite bool_decide_eq_false_2 by done. by rewrite eoi_once.
    + unfold on_interrupt. cbn [kind]. unfold mret, M_ret. by rewrite eoi_once.
Qed.

Lemma irq_stub_eq compiled w vec g x f below :
  apic_on w → 0 <= TSC_HZ (tsc (sys w)) < 2 ^ 40 → 32 <= vec < 256 →
  stub compiled vec g x (cpu_stack vec 0 f below) w =
  Ret (g, f, compiled (mkExceptionContext g vec 0 f) x) (eoi_world (irq_effect vec w)).
Proof.
  intros Hon Hhz Hv. rewrite stub_run by lia. rewrite (proj2 (Z.ltb_ge _ _)) by lia.
  assert (cpu_pushes_error vec = false) as ->.
  { unfold cpu_pushes_error. apply bool_decide_eq_false_2. rewrite !elem_of_cons, elem_of_nil. lia. }
  unfold mbind, M_bind. rewrite irq_dispatch_eq by done. cbn [vector]. unfold as_u8.
  by rewrite Z.mod_small by lia.
Qed.

(** C12: an IRQ that arrives at a stub is handled and acknowledged exactly
    once, in this order, and the interrupted code goes on with its general
    registers and frame: the timer vector arms the next tick when the handler
    and the timer are registered, the shootdown vector flushes the
    translation cache, any other vector does nothing.  The SSE registers are
    not among what is restored: they are as the machine code of the
    dispatcher left them. *)
Theorem irq_handled_and_resumed compiled w vec g x f below :
  apic_on w → 0 <= TSC_HZ (tsc (sys w)) < 2 ^ 40 → 32 <= vec < 256 →
  stub compiled vec g x (cpu_stack vec 0 f below) w =
  Ret (g, f, compiled (mkExceptionContext g vec 0 f) x) (eoi_world (irq_effect vec w)).
Proof. apply irq_stub_eq. Qed.

Lemma exception_dispatch_eq w ctx :
  exception_dispatch ctx w =
  match HANDLER (hal (sys w)) with
  | None => Ret () w
  | Some KERNEL_INTERRUPTS =>
      let fk := decode_fault_kind (as_u8 (vector ctx)) in
      Panic ("fault " +:+ fault_name fk +:+ " err=" +:+ fmt_hex (ctx_error_code ctx) +:+ " addr=" +:+
             fmt_hex (if decide (fk = FK_PageFault) then cr2 (hw w) else 0)) w
  end.
Proof.
  unfold exception_dispatch, dispatch, mbind, M_bind, read_cr2, gets. cbv zeta.
  destruct (decide (decode_fault_kind (as_u8 (vector ctx)) = FK_PageFault));
    destruct (HANDLER (hal (sys w))) as [[]|] eqn:E; unfold mret, M_ret; rewrite ?E; reflexivity.
Qed.

(** ** Delivery *)

(** What the processor does with vector [vec]: it takes the gate, which must
    be present, takes the stack the gate asks for (a stack of the TSS must be
    canonical; when it is not, the attempt ends, for the double fault, in a
    shutdown), pushes its frame and goes to the gate's target. *)
Definition deliver compiled (vec err : Z) (g : Gprs) (x : SseState) (f : CpuFrame) (below : list Z)
  : M World (Gprs * CpuFrame * SseState) := λ w,
  match IDT (seg (sys w)) !! Z.to_nat vec with
  | Some gate =>
      if negb (gate_present gate) then Undef "#NP" w
      else if negb (gate_ist gate =? 0) &&
              negb (bool_decide (canonical (hw_tss_ist (tss_image (TSS (seg (sys w)))) (gate_ist gate))))
      then Undef "#SS" w
      else if decide (vector_stub (segenv (sys w)) (Z.to_nat vec) = Some (gate_offset gate))
      then stub compiled vec g x (cpu_stack vec err f below) w
      else Undef "no stub at the gate's target" w
  | None => Undef "#GP: vector beyond the IDT" w
  end.

Lemma deliver_stub compiled w t0 vec err g x f below h :
  gates_up (segenv (sys w)) t0 (IDT (seg (sys w))) → 0 <= vec < 256 → vec ≠ 8 →
  vector_stub (segenv (sys w)) (Z.to_nat vec) = Some h →
  deliver compiled vec err g x f below w = stub compiled vec g x (cpu_stack vec err f below) w.
Proof.
  intros Hg Hv H8 Hs. destruct (Hg (Z.to_nat vec)) as (gate & Hl & Hgt); [lia|]. rewrite Hs in Hgt.
  rewrite decide_False in Hgt by lia. destruct Hgt as [G1 _ _ G4 _ G6 _].
  unfold deliver, gate_present. rewrite Hl, G1, G6, Hs, G4. cbn [negb andb Z.eqb]. by rewrite decide_True.
Qed.

(** The names of the exceptions the kernel tells apart (Intel SDM vol. 3,
    table 6-1). *)
Definition exception_name (vec : Z) : string :=
  default "Unknown"%string
    ((list_to_map [(0, "DivideByZero"); (6, "InvalidOpcode"); (8, "DoubleFault");
                   (13, "GeneralProtection"); (14, "PageFault")] : gmap Z string) !! vec).

Lemma fault_name_spec vec : fault_name (decode_fault_kind vec) = exception_name vec.
Proof.
  unfold exception_name, decode_fault_kind. cbn [list_to_map foldr fst snd].
  repeat (match goal with
          | |- context [vec =? ?k] => destruct (Z.eqb_spec vec k) as [->|?]; [by vm_compute|]
          end). by rewrite !lookup_insert_ne, lookup_empty by done.
Qed.

(** C34: with the gates of [init_core] in place and the kernel's handler
    registered, an exception ends in a panic that names the fault as the
    architecture does, the error code the processor pushed (0 when it pushes
    none) and, for a page fault, the faulting address from CR2; without a
    handler the stub ignores the exception and returns to the interrupted
    registers and frame.  Left out are the double fault, which does not
    arrive ([double_fault_lost]), and vectors 21, 29 and 30, whose stubs hand
    on a shifted context ([stub_context_shifted]). *)
Theorem exception_ends_in_panic compiled w t0 vec err g x f below :
  gates_up (segenv (sys w)) t0 (IDT (seg (sys w))) → length (isr_stub_table (segenv (sys w))) = 32%nat →
  0 <= vec < 32 → vec ≠ 8 → vec ≠ 21 → vec ≠ 29 → vec ≠ 30 →
  let err' := if cpu_pushes_error vec then err else 0 in
  deliver compiled vec err g x f below w =
  match HANDLER (hal (sys w)) with
  | None => Ret (g, f, compiled (mkExceptionContext g vec err' f) x) w
  | Some KERNEL_INTERRUPTS =>
      Panic ("fault " +:+ exception_name vec +:+ " err=" +:+ fmt_hex err' +:+ " addr=" +:+
             fmt_hex (if decide (vec = 14) then cr2 (hw w) else 0)) w
  end.
Proof.
  intros Hg Hl Hv H8 H1 H2 H3. destruct (lookup_lt_is_Some_2 (isr_stub_table (segenv (sys w))) (Z.to_nat vec)) as [h Hh]; [lia|].
  cbv zeta. rewrite (deliver_stub compiled w t0 vec err g x f below h); [|done|lia|done|].
  2: { unfold vector_stub. by rewrite decide_True by lia. }
  rewrite stub_run by done. rewrite (proj2 (Z.ltb_lt _ _)) by lia.
  unfold mbind, M_bind. rewrite exception_dispatch_eq. cbn [vector ctx_error_code]. unfold as_u8.
  rewrite Z.mod_small by lia. destruct (HANDLER (hal (sys w))) as [[]|]; [|done]. cbv zeta.
  rewrite fault_name_spec.
  replace (if decide (vec = 14) then cr2 (hw w) else 0)
    with (if decide (decode_fault_kind vec = FK_PageFault) then cr2 (hw w) else 0); [done|].
  unfold decode_fault_kind.
  destruct (decide (vec = 14)) as [-> |Hne]; [done|]. rewrite (proj2 (Z.eqb_neq vec 14)) by done.
  by repeat destruct (_ =? _).
Qed.

(** The double fault does not arrive: the processor misreads the stack its
    gate asks for, and for a kernel linked into the top 2 GiB, as this one
    is, what it reads is not canonical. *)
Theorem double_fault_lost compiled w w' err g x f below top :
  core_post w w' → length (isr_stub_table (segenv (sys w))) = 32%nat →
  top = df_stack_addr (segenv (sys w)) + IST_STACK_SIZE → 2 ^ 64 - 2 ^ 31 <= top < 2 ^ 64 - 2 ^ 15 →
  deliver compiled 8 err g x f below w' = Undef "#SS" w'.
Proof.
  intros (_ & _ & _ & _ & _ & Hg & _ & Hi & _) Hl Ht Hr.
  destruct (Hg 8%nat) as (gate & Hgl & Hgt); [lia|]. unfold vector_stub in Hgt.
  rewrite (decide_True (P := (8 < 32)%nat)) in Hgt by lia.
  destruct (lookup_lt_is_Some_2 (isr_stub_table (segenv (sys w))) 8) as [h Hh]; [lia|]. rewrite Hh in Hgt.
  rewrite decide_True in Hgt by done. destruct Hgt as [G1 _ _ _ _ G6 _].
  unfold deliver. change (Z.to_nat 8) with 8%nat. unfold gate_present. rewrite Hgl, G1, G6. cbn [negb Z.eqb andb].
  destruct (ist (TSS (seg (sys w')))) as [|i0 l] eqn:Ei; [done|]. injection Hi as Hi.
  destruct (tss_stacks_misread (TSS (seg (sys w'))) i0 l Ei) as [_ ->].
  rewrite bool_decide_eq_false_2; [done|]. unfold canonical. rewrite Hi, <- Ht.
  Z.to_euclidean_division_equations. lia.
Qed.
