(* ===== verification/IdleSpec.v ===== *)
(** * The idle loop

    The kernel's last step is a loop that waits for interrupts.  Its
    behaviour is a step relation: time passes, and when the counter has
    reached the deadline the local APIC's timer fires and the processor runs
    the timer's stub. *)

From S2P Require Import Prelude Fmt Layout Bootabi HalTypes Paging World Hal Cpu Apic ApicSpec X86Mmu TlbSpec Time Intr IntrSpec.

(** The counter reaches [c]. *)
Definition at_time (c : Z) (w : World) : World :=
  set_tsc (λ s, mkTscSt (TSC_HZ s) c (tsc_step s)) w.

(** The timer fires at [c]: the processor clears the deadline. *)
Definition timer_fired (c : Z) (w : World) : World :=
  set_hw (λ h, hw_msrs (<[IA32_TSC_DEADLINE := 0]> (msrs h)) h) (at_time c w).

(** A timer interrupt at [c] through its stub, which returns to the
    interrupted general registers [g] and frame [f].  Counter values near 2^64 are
    left out: at 5 GHz the counter takes more than a century to get there. *)
Section idle.
Context (compiled : ExceptionContext → SseState → SseState).

Inductive tick_step (c : Z) : World → World → Prop :=
| tick w g x f below x' w' :
    if_flag (cpu_flags (sys w)) = true →
    0 < rd_msr w IA32_TSC_DEADLINE <= c → 0 <= tsc_counter (tsc (sys w)) <= c → c + 2 ^ 40 < U64 →
    stub compiled TIMER_VEC g x (cpu_stack TIMER_VEC 0 f below) (timer_fired c w) = Ret (g, f, x') w' →
    tick_step c w w'.

Inductive idle_step : World → World → Prop :=
| idle_relax w c : tsc_counter (tsc (sys w)) <= c < U64 → idle_step w (at_time c w)
| idle_tick w c w' : tick_step c w w' → idle_step w w'.

(** The clock is running. *)
Record ticking (w : World) : Prop := mkTicking {
  tk_apic : apic_on w;
  tk_handler : HANDLER (hal (sys w)) = Some KERNEL_INTERRUPTS;
  tk_timer : TIMER (hal (sys w)) = Some TSC_TIMER;
  tk_hz : 100 <= TSC_HZ (tsc (sys w)) < 2 ^ 40;
  tk_if : if_flag (cpu_flags (sys w)) = true;
  tk_armed : 0 < rd_msr w IA32_TSC_DEADLINE
}.

(** What a tick does not touch. *)
Definition idle_view (w : World) :=
  (env w, HHDM_OFFSET w, mmu w, vm w, apic w, (mem64 (hw w), mem_entries (hw w), cr3 (hw w), tlb (hw w)),
   (segenv (sys w), seg (sys w), hal (sys w), TSC_HZ (tsc (sys w)), cpu_flags (sys w))).

Lemma rd_timer_fired c w n : n ≠ IA32_TSC_DEADLINE → rd_msr (timer_fired c w) n = rd_msr w n.
Proof. intros Hn. unfold rd_msr, timer_fired. cbn [set_hw hw msrs hw_msrs]. by rewrite lookup_insert_ne. Qed.

Lemma apic_on_fired c w : apic_on w → apic_on (timer_fired c w).
Proof.
  unfold apic_on, apic_ready, x2apic_enabled, lapic_enabled, lapic_phys. by rewrite !rd_timer_fired.
Qed.

(** The state a tick at [c] leads to. *)
Definition ticked (c : Z) (w : World) : World :=
  eoi_world (armed (TSC_HZ (tsc (sys w)) / 100) (timer_fired c w)).

Lemma timer_stub_eq c w g x f below : ticking w →
  stub compiled TIMER_VEC g x (cpu_stack TIMER_VEC 0 f below) (timer_fired c w) =
  Ret (g, f, compiled (mkExceptionContext g TIMER_VEC 0 f) x) (ticked c w).
Proof.
  intros [Ha Hh Ht Hz _ _]. rewrite irq_stub_eq; [|by apply apic_on_fired|cbn; lia|done].
  unfold irq_effect. change (TIMER_VEC =? TLB_SHOOTDOWN_VEC) with false. rewrite Z.eqb_refl.
  change (hal (sys (timer_fired c w))) with (hal (sys w)).
  change (TSC_HZ (tsc (sys (timer_fired c w)))) with (TSC_HZ (tsc (sys w))). rewrite Hh, Ht.
  rewrite !bool_decide_eq_true_2 by done. rewrite (proj2 (Z.leb_le _ _)) by lia. done.
Qed.

Lemma ticked_deadline c w : 0 <= c → c + 2 ^ 40 < U64 → 100 <= TSC_HZ (tsc (sys w)) < 2 ^ 40 →
  rd_msr (ticked c w) IA32_TSC_DEADLINE = c + TSC_HZ (tsc (sys w)) / 100.
Proof.
  intros H0 Hc Hz. unfold ticked, rd_msr, eoi_world, armed. cbn. rewrite lookup_insert_eq. cbn.
  unfold wrapping_add. apply Z.mod_small.
  assert (TSC_HZ (tsc (sys w)) / 100 <= TSC_HZ (tsc (sys w))) by (apply Z.div_le_upper_bound; lia).
  pose proof (Z.div_pos (TSC_HZ (tsc (sys w))) 100). lia.
Qed.

Lemma ticked_ticking c w : 0 <= c → c + 2 ^ 40 < U64 → ticking w → ticking (ticked c w).
Proof.
  intros H0 Hc Hk. pose proof Hk as [Ha Hh Ht Hz Hif Hd]. split; try done.
  - apply (apic_on_armed _ (timer_fired c w)), apic_on_fired, Ha.
  - rewrite ticked_deadline by done. assert (0 <= TSC_HZ (tsc (sys w)) / 100) by (apply Z.div_pos; lia).
    assert (1 <= TSC_HZ (tsc (sys w)) / 100) by (apply Z.div_le_lower_bound; lia). lia.
Qed.

Lemma tick_step_inv c w w' : ticking w → tick_step c w w' → w' = ticked c w ∧ 0 <= c ∧ c + 2 ^ 40 < U64.
Proof.
  intros Hk Hs. destruct Hs as [w g x f below x' w' Hif Hd Hct Hc E].
  rewrite timer_stub_eq in E by done. injection E as _ <-. split_and!; [done|lia|done].
Qed.

Lemma idle_step_ticking w w' : idle_step w w' → ticking w → ticking w' ∧ idle_view w' = idle_view w.
Proof.
  intros [w0 c Hc|w0 c w1 Hs] Hk.
  - split; [|done]. destruct Hk. by split.
  - destruct (tick_step_inv c w0 w1 Hk Hs) as (-> & H0 & Hc). split; [by apply ticked_ticking|done].
Qed.

(** C11: the clock never stops.  In every state the idle loop can reach from
    one where it is ticking, the clock is still ticking and the kernel's
    state (address spaces, frames, tables, handlers) is the one it started
    with; and whenever the counter passes the deadline the timer interrupt,
    whatever it interrupts, is handled, acknowledged exactly once and
    resumed with every general register as it was, and the next deadline is a
    hundredth of a second later. *)
Theorem ticks_forever w w' c : ticking w → rtc idle_step w w' →
  rd_msr w' IA32_TSC_DEADLINE <= c → 0 <= tsc_counter (tsc (sys w')) <= c → c + 2 ^ 40 < U64 →
  ticking w' ∧ idle_view w' = idle_view w ∧
  ∃ w'', idle_step w' w'' ∧
    (∀ g x f below, ∃ x', stub compiled TIMER_VEC g x (cpu_stack TIMER_VEC 0 f below) (timer_fired c w') =
       Ret (g, f, x') w'') ∧
    ticking w'' ∧ idle_view w'' = idle_view w ∧
    eois (hw w'') = S (eois (hw w')) ∧
    rd_msr w'' IA32_TSC_DEADLINE = c + TSC_HZ (tsc (sys w)) / 100.
Proof.
  intros Hk Hr Hd Hct Hc.
  assert (ticking w' ∧ idle_view w' = idle_view w) as [Hk' Hv].
  { clear -Hk Hr. induction Hr as [w|w w1 w2 Hs _ IH]; [done|].
    destruct (idle_step_ticking _ _ Hs Hk) as [Hk1 Hv1]. destruct (IH Hk1) as [? Hv2].
    split; [done|by rewrite Hv2]. }
  split_and!; [done|done|]. exists (ticked c w'). split_and!.
  - apply (idle_tick w' c), (tick c w' (mkGprs 0 0 0 0 0 0 0 0 0 0 0 0 0 0 0) (mkSseState [] 0) (mkCpuFrame 0 0 0 0 0) []
      (compiled (mkExceptionContext (mkGprs 0 0 0 0 0 0 0 0 0 0 0 0 0 0 0) TIMER_VEC 0 (mkCpuFrame 0 0 0 0 0)) (mkSseState [] 0)));
      [by destruct Hk'|destruct Hk'; lia|done|done|by apply timer_stub_eq].
  - intros g x f below. eexists. by apply timer_stub_eq.
  - apply ticked_ticking; [lia|done|done].
  - exact Hv.
  - done.
  - assert (TSC_HZ (tsc (sys w)) = TSC_HZ (tsc (sys w'))) as -> by (by injection Hv).
    apply ticked_deadline; [lia|done|by destruct Hk'].
Qed.
End idle.
