(* ===== verification/AspaceSpec.v ===== *)
(** * The life of an address space

    Creation ([address_space_new]): the new root shares the kernel half and
    has an empty user half.  Destruction ([address_space_destroy]): exactly
    the user half's tables and the root are given back, each once. *)

From S2P Require Import Prelude HalTypes Paging World Hal Cpu Apic X86Mmu MmuProofs MmuSpec.

#[local] Abbreviation m_of w := (mem64 (hw w)).

(** ** A root that shares the kernel half *)

Definition kernel_half (va : Z) : Prop := 256 <= index 3 va.

Section clone.
Context (limit : Z) (m m' : ram) (kr f : Z).
Context (Htree : tree_ok limit m kr).
Context (Hfa : f mod 4096 = 0) (Hfresh : ¬ reachable m kr f).
Context (Hold : ∀ t i, t mod 4096 = 0 → t ≠ f → table_index i → pte m' t i = pte m t i).
Context (Hlow : ∀ i, 0 <= i < 256 → pte m' f i = 0).
Context (Hhigh : ∀ i, 256 <= i < 512 → pte m' f i = pte m kr i).

Lemma clone_pte t i : reachable m kr t → table_index i → pte m' t i = pte m t i.
Proof.
  intros Ht Hi. apply Hold; [|by intros ->|done].
  eapply reachable_aligned; [apply Htree|done].
Qed.

Lemma clone_follow_kernel q : table_path q → follow m' kr q = follow m kr q.
Proof.
  intros Hq. apply follow_agree. intros k i t Hi Ht. apply clone_pte.
  - exists (take k q). eauto using table_path_take.
  - destruct Hq as [_ Hq]. by eapply Forall_lookup_1.
Qed.

Lemma clone_walk_kernel v : hw_walk m' kr v = hw_walk m kr v.
Proof.
  apply walk_agree. intros k t Hk Ht. apply clone_pte; [|apply index_range].
  exists (take k (path 3 v)). eauto using take_path_ok.
Qed.

(** Below the first level the two roots see the same tables. *)
Lemma clone_follow i q : table_path (i :: q) →
  follow m' f (i :: q) = if decide (256 <= i) then follow m kr (i :: q) else None.
Proof.
  intros Hq. pose proof Hq as [_ Hi]. apply Forall_cons in Hi as [Hi _].
  unfold table_index in Hi. case_decide.
  - rewrite <- clone_follow_kernel by done. cbn [follow].
    rewrite Hhigh, (clone_pte kr) by (lia || done || apply root_reachable). done.
  - cbn [follow]. by rewrite Hlow by lia.
Qed.

Lemma clone_walk_high v : kernel_half v → hw_walk m' f v = hw_walk m kr v.
Proof.
  unfold kernel_half. intros Hv. pose proof (index_range 3 v) as Hi. unfold table_index in Hi.
  rewrite <- clone_walk_kernel. unfold hw_walk. cbn [walk].
  by rewrite Hhigh, (clone_pte kr) by (lia || apply root_reachable || apply index_range).
Qed.

Lemma clone_walk_low v : ¬ kernel_half v → hw_walk m' f v = None.
Proof.
  unfold kernel_half. intros Hv. apply walk_absent. rewrite Hlow; [done|].
  pose proof (index_range 3 v) as Hi. unfold table_index in Hi. lia.
Qed.

Lemma clone_low_path v P : ¬ kernel_half v → path_entries P m' f v.
Proof.
  unfold kernel_half. intros Hv k t Hk Ht Hp. exfalso.
  pose proof (index_range 3 v) as Hi. unfold table_index in Hi.
  destruct k as [|k].
  - injection Ht as <-. change (3 - 0)%nat with 3%nat in Hp. by rewrite Hlow in Hp by lia.
  - cbn [path take] in Ht. rewrite clone_follow in Ht; [by case_decide|].
    apply (take_path_ok (S k) v). lia.
Qed.

Lemma clone_reachable x : reachable m' f x → x = f ∨ reachable m kr x.
Proof.
  intros ([|i q] & Hq & Hx); [injection Hx as <-; by left|right].
  rewrite clone_follow in Hx by done. case_decide; [|done]. by exists (i :: q).
Qed.

Lemma clone_tree : 0 <= f ∧ f + 4096 <= limit → tree_ok limit m' f.
Proof.
  intros Hf. split; [done| |].
  - intros p q t Hp Hq H1 H2. destruct p as [|i p], q as [|j q]; [done|..].
    + injection H1 as <-. rewrite clone_follow in H2 by done.
      case_decide; [|done]. destruct Hfresh. by exists (j :: q).
    + injection H2 as <-. rewrite clone_follow in H1 by done.
      case_decide; [|done]. destruct Hfresh. by exists (i :: p).
    + rewrite clone_follow in H1, H2 by done. repeat case_decide; try done.
      by eapply (tree_no_alias _ _ _ Htree).
  - intros t [->|Ht]%clone_reachable; [done|]. by apply Htree.
Qed.
End clone.

(** ** Slots *)

Lemma take_slot_some i slots p h slots' :
  take_slot i slots p = Some (h, slots') →
  ∃ k s, h = AsSlot (i + k) ∧ slots !! k = Some s ∧ used s = false ∧
    (∀ j s', (j < k)%nat → slots !! j = Some s' → used s' = true) ∧
    slots' = <[k := mkSlot true (mkX86AddressSpace p) (AsSlot (i + k))]> slots.
Proof.
  revert i h slots'. induction slots as [|s slots IH]; intros i h slots' H; [done|].
  cbn in H. destruct (used s) eqn:Hu; cbn in H.
  - destruct (take_slot (S i) slots p) as [[h' r]|] eqn:E; [|done]. simplify_eq.
    destruct (IH _ _ _ E) as (k & s' & -> & Hk & Hu' & Hall & ->).
    exists (S k), s'. rewrite Nat.add_succ_r. split_and!; [done..| |done].
    intros [|j] s2 Hj Hs2; simplify_eq/=; [done|]. eapply Hall; [|done]. lia.
  - simplify_eq. exists 0%nat, s. rewrite Nat.add_0_r. split_and!; [done..| |done]. lia.
Qed.

Lemma take_slot_none i slots p :
  take_slot i slots p = None ↔ Forall (λ s, used s = true) slots.
Proof.
  revert i. induction slots as [|s slots IH]; intros i; [by split|]. cbn.
  rewrite Forall_cons. destruct (used s) eqn:Hu; cbn.
  - rewrite <- (IH (S i)). destruct (take_slot (S i) slots p) as [[]|]; naive_solver.
  - naive_solver.
Qed.

(** ** [address_space_new] *)

(** The kernel's address space is known and its tables are not available. *)
Record kernel_ready A `{!FrameAllocLaws A} (kr : Z) (w : World) : Prop := mkKernelReady {
  kr_handle : KAS_HANDLE (mmu w) = Some AsKas;
  kr_root : KAS (mmu w) = Some (mkX86AddressSpace kr);
  kr_inv : space_inv A kr w
}.

(** The memory [address_space_new] leaves. *)
Definition cloned (m : ram) (kr f : Z) : ram :=
  copy_cells (zero_cells m f 512) (kr + 8 * 256) (f + 8 * 256) 256.

Section cloned.
Context (m : ram) (kr f : Z) (Hk : kr mod 4096 = 0) (Hf : f mod 4096 = 0) (Hne : kr ≠ f).

Lemma cloned_old t i : t mod 4096 = 0 → t ≠ f → table_index i → pte (cloned m kr f) t i = pte m t i.
Proof.
  intros Ht Htf Hi. unfold cloned, pte. rewrite rd_copy_out.
  - by apply pte_zero_out.
  - intros j Hj E. apply Htf. symmetry.
    apply (cell_inj f t (256 + Z.of_nat j) i); [done|done|unfold table_index; lia|done|lia].
Qed.

Lemma cloned_low i : 0 <= i < 256 → pte (cloned m kr f) f i = 0.
Proof.
  intros Hi. unfold cloned, pte. rewrite rd_copy_out by (intros; lia).
  apply pte_zero_in. unfold table_index. lia.
Qed.

Lemma cloned_high i : 256 <= i < 512 → pte (cloned m kr f) f i = pte m kr i.
Proof.
  intros Hi. unfold cloned, pte.
  replace (f + 8 * i) with (f + 8 * 256 + 8 * Z.of_nat (Z.to_nat (i - 256))) by lia.
  rewrite rd_copy_in by lia.
  replace (kr + 8 * 256 + 8 * Z.of_nat (Z.to_nat (i - 256))) with (kr + 8 * i) by lia.
  apply pte_zero_out; [done|done|unfold table_index; lia|done].
Qed.
End cloned.

(** Outside memory, the allocator and the slot table nothing changes. *)
Definition same_but_tables (w w' : World) : Prop :=
  env w' = env w ∧ HHDM_OFFSET w' = HHDM_OFFSET w ∧ NXE_ENABLED (mmu w') = NXE_ENABLED (mmu w).

Section new.
Context (A : PageTableFrameAlloc) `{!FrameAllocLaws A} (w : World) (kr : Z).
Context (Hk : kernel_ready A kr w).

Definition new_post (r : result AddressSpace MapError) (w' : World) : Prop :=
  (∀ v, hw_walk (m_of w') kr v = hw_walk (m_of w) kr v) ∧ kernel_ready A kr w' ∧
  (∀ t j, t mod 4096 = 0 → table_index j → ¬ fa_avail w t → pte (m_of w') t j = pte (m_of w) t j) ∧
  same_but_tables w w' ∧
  match r with
  | Ok h => ∃ f i, h = AsSlot i ∧ fa_avail w f ∧ ¬ fa_avail w' f ∧
  aspace_root (mmu w') h = Some f ∧ space_inv A f w' ∧
  (∀ v, kernel_half v → hw_walk (m_of w') f v = hw_walk (m_of w) kr v) ∧
  (∀ v, ¬ kernel_half v → hw_walk (m_of w') f v = None ∧ ∀ P, path_entries P (m_of w') f v) ∧
  (∀ h', h' ≠ h → aspace_root (mmu w') h' = aspace_root (mmu w) h') ∧
  (∀ g, fa_avail w' g ↔ fa_avail w g ∧ g ≠ f) ∧
  ¬ reachable (m_of w') kr f ∧
  (∀ x, reachable (m_of w') f x → x = f ∨ reachable (m_of w') kr x) ∧
  (∀ j, 0 <= j < 256 → pte (m_of w') f j = 0) ∧
  (∀ j, 256 <= j < 512 → pte (m_of w') f j = pte (m_of w) kr j) ∧
  (∃ s, AS_SLOTS (mmu w) !! i = Some s ∧ used s = false ∧
   AS_SLOTS (mmu w') = <[i := mkSlot true (mkX86AddressSpace f) (AsSlot i)]> (AS_SLOTS (mmu w)))
  | Err e => e = OutOfMemory ∧ AS_SLOTS (mmu w') = AS_SLOTS (mmu w) ∧
  ((∀ g, fa_avail w' g ↔ fa_avail w g) ∨
  (Forall (λ s, used s = true) (AS_SLOTS (mmu w)) ∧
  ∃ f, fa_avail w f ∧ ∀ g, fa_avail w' g ↔ fa_avail w g ∧ g ≠ f))
  end.

Lemma cloned_eq m f : cloned m kr f = copy_cells (zero_cells m f 512) (kr + 8 * 256) (f + 8 * 256) 256.
Proof. done. Qed.

(** The cells of whole tables are never computed. *)
#[local] Opaque zero_cells copy_cells cloned.

(** Up to [alloc_slot]. *)
Lemma new_frame_ok w1 f :
  fa_inv w1 → same_but_alloc w w1 → (∀ g, fa_avail w1 g → fa_avail w g) →
  fa_avail w f → ¬ fa_avail w1 f → frame_ok w f →
  let w2 := set_mem64 (cloned (m_of w) kr f) w1 in
  space_inv A kr w2 ∧ space_inv A f w2 ∧
  (∀ v, hw_walk (m_of w2) kr v = hw_walk (m_of w) kr v) ∧
  (∀ v, kernel_half v → hw_walk (m_of w2) f v = hw_walk (m_of w) kr v) ∧
  (∀ v, ¬ kernel_half v → hw_walk (m_of w2) f v = None ∧ ∀ P, path_entries P (m_of w2) f v) ∧
  ¬ reachable (m_of w2) kr f ∧ (∀ x, reachable (m_of w2) f x → x = f ∨ reachable (m_of w2) kr x).
Proof.
  intros Hi1 Hs1 Hav Hf Hf1 (Hfa & Hf0 & Hfl) w2.
  destruct Hk as [_ _ [Hr Htree Hi Hfr]].
  assert (¬ reachable (m_of w) kr f) as Hnr by by apply Hfr.
  assert (kr ≠ f) as Hne by (intros <-; apply Hnr, root_reachable).
  assert (kr mod 4096 = 0) as Hka by apply Htree.
  assert (hhdm_ready w2) as Hr2.
  { eapply hhdm_ready_alloc; [done|]. eapply same_but_alloc_trans; [done|].
    apply same_but_alloc_set_mem64. }
  destruct (fa_stable w1 w2 (same_kernel_set_mem64 _ _) Hi1) as [Hi2 Hav2].
  assert (env w2 = env w) as Henv by apply Hs1.
  pose proof (cloned_old (m_of w) kr f Hfa) as Hold.
  pose proof (cloned_low (m_of w) kr f) as Hlow.
  pose proof (cloned_high (m_of w) kr f Hka Hfa Hne) as Hhigh.
  pose proof (clone_follow_kernel _ _ _ _ _ Htree Hnr Hold) as Hfk.
  assert (∀ x, reachable (m_of w2) kr x → reachable (m_of w) kr x) as Hkr.
  { intros x (q & Hq & Hx). exists q. split; [done|]. by rewrite <- Hfk. }
  split_and!.
  - split; [done| |done|].
    + rewrite Henv. split; [done| |].
      * intros p q t Hp Hq. cbn. rewrite !Hfk by done. by apply Htree.
      * intros t Ht. by apply Htree, Hkr.
    + intros g Hg Hx. apply (Hfr g); [by apply Hav, Hav2|by apply Hkr].
  - split; [done| |done|].
    + rewrite Henv. by apply (clone_tree _ _ _ _ _ Htree Hfa Hnr Hold Hlow Hhigh).
    + intros g Hg Hx. apply Hav2 in Hg.
      apply (clone_reachable _ _ _ _ _ Htree Hnr Hold Hlow Hhigh) in Hx as [->|Hx]; [done|].
      apply (Hfr g); [by apply Hav|done].
  - apply (clone_walk_kernel _ _ _ _ _ Htree Hnr Hold).
  - apply (clone_walk_high _ _ _ _ _ Htree Hnr Hold Hhigh).
  - intros v Hv. split; [by apply (clone_walk_low (cloned (m_of w) kr f) f Hlow)|].
    intros P. by apply (clone_low_path _ _ _ _ _ Htree Hnr Hold Hlow Hhigh).
  - by intros ?%Hkr.
  - intros x [->|(q & Hq & Hx)]%(clone_reachable _ _ _ _ _ Htree Hnr Hold Hlow Hhigh);
     [by left|right]. exists q. split; [done|]. by rewrite Hfk.
Qed.

Lemma frames_apart a b : a mod 4096 = 0 → b mod 4096 = 0 → a ≠ b → a + 4096 <= b ∨ b + 4096 <= a.
Proof. intros. Z.to_euclidean_division_equations. lia. Qed.

(** The steps between the allocation and [alloc_slot]. *)
Lemma wp_clone_tables {B} w1 f (K : M World B) (Q : B → World → Prop) :
  hhdm_ready w1 → env w1 = env w → m_of w1 = zero_cells (m_of w) f 512 →
  frame_ok w f → frame_ok w kr → kr ≠ f →
  wp K Q (set_mem64 (cloned (m_of w) kr f) w1) →
  wp (zero_frame f;; src ← phys_to_virt kr; dst ← phys_to_virt f;
  copy_nonoverlapping64 (src + 8 * Z.of_nat KERNEL_PML4_START)
  (dst + 8 * Z.of_nat KERNEL_PML4_START) (ENTRY_COUNT - KERNEL_PML4_START);; K) Q w1.
Proof.
  intros Hr Henv Hm (Hfa & Hf0 & Hfl) (Hka & Hk0 & Hkl) Hne HQ. wp_step.
  apply wp_zero_frame; [done|by unfold frame_ok; rewrite Henv|]. rewrite Hm, zero_cells_idem.
  rewrite cloned_eq in HQ. revert HQ. generalize (zero_cells (m_of w) f 512) as m0. intros m0 HQ.
  set (w2 := set_mem64 m0 w1).
  assert (hhdm_ready w2) by by destruct Hr. assert (env w2 = env w) as E2 by done.
  wp_step. apply wp_phys_to_virt; [done|rewrite E2; lia|].
  wp_step. apply wp_phys_to_virt; [done|rewrite E2; lia|].
  change (8 * Z.of_nat KERNEL_PML4_START) with 2048.
  change (ENTRY_COUNT - KERNEL_PML4_START)%nat with 256%nat.
  replace (kr + hhdm_base (env w2) + 2048) with (kr + 8 * 256 + hhdm_base (env w2)) by lia.
  replace (f + hhdm_base (env w2) + 2048) with (f + 8 * 256 + hhdm_base (env w2)) by lia.
  wp_step. apply wp_copy64; rewrite ?E2; [lia..| |exact HQ].
  destruct (frames_apart kr f Hka Hfa Hne); lia.
Qed.

Lemma wp_address_space_new : wp (address_space_new A) new_post w.
Proof.
  pose proof Hk as [Hh Hkas Hinv]. unfold address_space_new, init_kernel. wp_steps.
  rewrite Hh. wp_steps. rewrite Hkas. cbn [pml4_phys]. wp_step.
  eapply wp_mono; [apply fa_alloc, Hinv|].
  intros [f|] w1 (Hi1 & Hs1 & Hav & Hr).
  2: { wp_step. destruct Hr as [Hm Hav']. unfold new_post, same_but_tables.
    rewrite Hm, (sba_mmu _ _ Hs1), (sba_env _ _ Hs1), (sba_hhdm _ _ Hs1).
    split_and!; [done| |done..|left; naive_solver].
    split; [by rewrite (sba_mmu _ _ Hs1)..|].
    apply (gr_inv A false kr 0 w w1). by apply grown_no_frame. }
  destruct Hr as (Hf & Hf1 & Hfok & Hm & Hkeep).
  assert (∀ w', same_kernel w1 w' → ∀ g, fa_avail w' g ↔ fa_avail w g ∧ g ≠ f) as Hiff.
  { intros w' Hk' g. rewrite (proj2 (fa_stable w1 w' Hk' Hi1) g).
    split; [intros Hg; split; [by apply Hav|by intros ->]|intros []; by apply Hkeep]. }
  destruct (new_frame_ok w1 f Hi1 Hs1 Hav Hf Hf1 Hfok) as (Hik & Hif & Hw1 & Hw2 & Hw3 & Hw4 & Hw5).
  assert (frame_ok w kr) as Hkok by (eapply space_inv_frame; [done|apply root_reachable]).
  assert (kr ≠ f) as Hne by (intros ->; by apply (si_fresh _ _ _ Hinv f), root_reachable).
  apply wp_clone_tables; [|by apply Hs1|done|done|done|done|].
  { eapply hhdm_ready_alloc; [apply Hinv|done]. }
  destruct Hfok as [Hfa _], Hkok as [Hka _].
  assert (∀ t j, t mod 4096 = 0 → table_index j → ¬ fa_avail w t →
    pte (cloned (m_of w) kr f) t j = pte (m_of w) t j) as Hold.
  { intros t j Ht Hj Hna. by apply cloned_old; [..|intros ->|]. }
  pose proof (cloned_low (m_of w) kr f) as Hlow. pose proof (cloned_high (m_of w) kr f Hka Hfa Hne) as Hhigh.
  set (w2 := set_mem64 _ w1) in *.
  assert (mmu w2 = mmu w) as Emmu by apply Hs1. assert (same_but_tables w w2) as Hst by (split_and!; apply Hs1 || by rewrite Emmu).
  unfold alloc_slot. wp_steps. rewrite Emmu.
  destruct (take_slot 0 (AS_SLOTS (mmu w)) f) as [[h slots']|] eqn:E.
  - apply take_slot_some in E as (i & s & -> & Hs & Hu & _ & ->).
    unfold set_AS_SLOTS. wp_steps. set (w3 := set_mmu _ w2).
    assert (∀ g, fa_avail w3 g ↔ fa_avail w g ∧ g ≠ f) as Hiff3 by by apply Hiff.
    assert (¬ fa_avail w3 f) as Hf3 by by intros []%Hiff3.
    split; [exact Hw1|]. split.
    { split; [by rewrite <- Hh, <- Emmu|by rewrite <- Hkas, <- Emmu|by apply space_inv_set_mmu]. }
    split; [exact Hold|]. split; [exact Hst|]. exists f, i. rewrite Nat.add_0_l.
    split_and!; [done|done|done| |by apply space_inv_set_mmu|done|done| |done|done|done|done|done|by exists s].
    + cbn. by rewrite list_lookup_insert_eq by by eapply lookup_lt_Some.
    + intros [|j|] Hnj; cbn; rewrite ?(sba_mmu _ _ Hs1); [done| |done].
      rewrite list_lookup_insert_ne; [done|congruence].
  - wp_step. split; [exact Hw1|]. split; [split; [by rewrite Emmu..|done]|].
    split; [exact Hold|]. split; [exact Hst|]. split_and!; [done|by rewrite Emmu|]. right. apply take_slot_none in E.
    split; [done|]. exists f. split; [done|]. by apply Hiff.
Qed.
End new.

(** C6: [address_space_new] returns.  A new address space translates the kernel
    half exactly as the kernel's tables do and nothing in the user half; its
    root is a frame taken from the allocator, reachable from no kernel table,
    and the slot was free; the kernel's own address space and all other
    handles are untouched.  The only failure is [OutOfMemory]: without a frame
    nothing changes, without a slot one frame is lost to the allocator. *)
Theorem address_space_new_correct A `{!FrameAllocLaws A} w kr :
  kernel_ready A kr w → wp (address_space_new A) (new_post A w kr) w.
Proof. apply wp_address_space_new. Qed.
