(* ===== verification/AspaceDestroy.v ===== *)
(** * Destroying an address space

    The three nested loops of [address_space_destroy] are refined to a pure
    list: the tables below the user half in post-order, then the root.  No
    frame is on that list twice, a frame is on it exactly when it is the root
    or a table reached through the user half, and the loops free the list
    from left to right. *)

From S2P Require Import Prelude HalTypes Paging World Hal Cpu Apic X86Mmu MmuProofs MmuSpec AspaceSpec.

#[local] Abbreviation m_of w := (mem64 (hw w)).

(** ** The tables below a table *)

Definition is_table (e : Z) : bool := pte_present e && negb (pte_large e).

(** Post-order: the tables below the one entry [e] points to, then it. *)
Definition entry_tables (sub : Z → list Z) (e : Z) : list Z :=
  if is_table e then sub (frame_of e) ++ [frame_of e] else [].

Fixpoint subtables (d : nat) (m : ram) (t : Z) : list Z :=
  match d with
  | O => []
  | S d' => seq 0 512 ≫= λ i, entry_tables (subtables d' m) (pte m t (Z.of_nat i))
  end.

(** What [address_space_destroy] gives back. *)
Definition user_tables (m : ram) (root : Z) : list Z :=
  (seq 0 256 ≫= λ i, entry_tables (subtables 2 m) (pte m root (Z.of_nat i))) ++ [root].

Definition below (d n : nat) (m : ram) (t : Z) : list Z :=
  seq 0 n ≫= λ i, entry_tables (subtables d m) (pte m t (Z.of_nat i)).

Lemma elem_of_entry_tables sub e x :
  x ∈ entry_tables sub e ↔ is_table e = true ∧ (x ∈ sub (frame_of e) ∨ x = frame_of e).
Proof. unfold entry_tables. destruct (is_table e); set_solver. Qed.

Lemma elem_of_below d n m t x : (n <= 512)%nat →
  (∀ t', x ∈ subtables d m t' ↔
    ∃ i p, (length p < d)%nat ∧ Forall table_index (i :: p) ∧ follow m t' (i :: p) = Some x) →
  x ∈ below d n m t ↔
    ∃ i p, 0 <= i < Z.of_nat n ∧ (length p <= d)%nat ∧ Forall table_index p ∧
      follow m t (i :: p) = Some x.
Proof.
  intros Hn IH. unfold below. rewrite list_elem_of_bind. split.
  - intros (i & Hx & Hi). apply elem_of_seq in Hi. apply elem_of_entry_tables in Hx as [Ht Hx].
    exists (Z.of_nat i). destruct Hx as [Hx| ->].
    + apply IH in Hx as (j & p & Hl & Hf & Hx). exists (j :: p).
      split_and!; [lia|lia|simpl; lia|done|]. cbn [follow]. unfold is_table in Ht. by rewrite Ht.
    + exists []. split_and!; [lia|lia|simpl; lia|done|]. cbn [follow]. unfold is_table in Ht.
      by rewrite Ht.
  - intros (i & p & Hi & Hl & Hf & Hx). exists (Z.to_nat i).
    rewrite elem_of_seq, elem_of_entry_tables, Z2Nat.id by lia. split; [|lia].
    cbn [follow] in Hx. unfold is_table. case_match; [|done]. split; [done|].
    destruct p as [|j p]; [right; by injection Hx|left]. apply IH. exists j, p.
    split_and!; [simpl in *; lia|done|done].
Qed.

Lemma elem_of_subtables d m t x :
  x ∈ subtables d m t ↔
  ∃ i p, (length p < d)%nat ∧ Forall table_index (i :: p) ∧ follow m t (i :: p) = Some x.
Proof.
  revert t. induction d as [|d IH]; intros t; [set_solver by lia|].
  change (subtables (S d) m t) with (below d 512 m t). rewrite elem_of_below by done.
  split; intros (i & p & H); exists i, p; revert H; rewrite Forall_cons;
    unfold table_index; intros; split_and!; naive_solver lia.
Qed.

(** No two paths of at most [d] steps from [t] meet. *)
Definition unaliased (d : nat) (m : ram) (t : Z) : Prop :=
  ∀ p q x, (length p <= d)%nat → (length q <= d)%nat →
    Forall table_index p → Forall table_index q →
    follow m t p = Some x → follow m t q = Some x → p = q.

Lemma unaliased_step d m t i : unaliased (S d) m t → table_index i →
  is_table (pte m t i) = true → unaliased d m (frame_of (pte m t i)).
Proof.
  intros H Hi Ht p q x Hp Hq Hfp Hfq Hx Hy.
  assert (i :: p = i :: q) as [=]; [|done].
  apply (H (i :: p) (i :: q) x); simpl; try lia; try (by constructor).
  - unfold is_table in Ht. by rewrite Ht.
  - unfold is_table in Ht. by rewrite Ht.
Qed.

Lemma NoDup_below d n m t : (n <= 512)%nat → unaliased (S d) m t →
  (∀ t', unaliased d m t' → NoDup (subtables d m t')) → NoDup (below d n m t).
Proof.
  intros Hn Hu IH. unfold below. apply NoDup_bind; [| |apply NoDup_seq].
  - intros i j x Hi Hj Hx Hy. apply elem_of_seq in Hi, Hj.
    assert (∀ k : nat, (k < 512)%nat → x ∈ entry_tables (subtables d m) (pte m t (Z.of_nat k)) →
      ∃ p, (length p <= d)%nat ∧ Forall table_index p ∧ follow m t (Z.of_nat k :: p) = Some x) as Hp.
    { intros k Hk [Ht Hk']%elem_of_entry_tables. unfold is_table in Ht.
      destruct Hk' as [(a & p & Hl & Hf & Hp)%elem_of_subtables| ->].
      - exists (a :: p). cbn [follow] in *. rewrite Ht. split_and!; [simpl; lia|done|done].
      - exists []. cbn [follow]. rewrite Ht. split_and!; [simpl; lia|done|done]. }
    destruct (Hp i) as (p & Hlp & Hfp & Hxp); [lia|done|].
    destruct (Hp j) as (q & Hlq & Hfq & Hxq); [lia|done|].
    assert (Z.of_nat i :: p = Z.of_nat j :: q) as [= E _]; [|lia].
    apply (Hu _ _ x); [simpl; lia|simpl; lia|..|done|done]; constructor; try done; unfold table_index; lia.
  - intros i Hi. apply elem_of_seq in Hi. unfold entry_tables.
    destruct (is_table _) eqn:Ht; [|constructor].
    assert (table_index (Z.of_nat i)) as Hti by (unfold table_index; lia).
    pose proof (unaliased_step d m t _ Hu Hti Ht) as Hu'.
    apply NoDup_app. split; [by apply IH|]. split; [|apply NoDup_singleton].
    intros x (a & p & Hl & Hf & Hp)%elem_of_subtables Hx. apply list_elem_of_singleton in Hx as ->.
    assert (a :: p = []); [|done]. eapply Hu'; [simpl; lia|simpl; lia|done|constructor|done|done].
Qed.

Lemma NoDup_subtables d m t : unaliased d m t → NoDup (subtables d m t).
Proof.
  revert t. induction d as [|d IH]; intros t Hu; [constructor|].
  by apply (NoDup_below d 512).
Qed.

Lemma no_alias_unaliased m root : no_alias m root → unaliased 3 m root.
Proof. intros H p q x ???? ? ?. by apply (H p q x). Qed.

Arguments subtables : simpl never.
Arguments user_tables : simpl never.

(** ** The list of [address_space_destroy] *)

Lemma elem_of_user_tables m root x :
  x ∈ user_tables m root ↔
  x = root ∨ ∃ i p, 0 <= i < 256 ∧ table_path (i :: p) ∧ follow m root (i :: p) = Some x.
Proof.
  unfold user_tables. rewrite elem_of_app, list_elem_of_singleton.
  change (seq 0 256 ≫= _) with (below 2 256 m root).
  rewrite elem_of_below by (lia || (intros; apply elem_of_subtables)). unfold table_path.
  setoid_rewrite Forall_cons. unfold table_index at 2 3. cbn [length].
  split; [intros [(i & p & H)|H]|intros [H|(i & p & H)]]; try (by auto); [right|left];
    exists i, p; naive_solver lia.
Qed.

Lemma NoDup_user_tables m root : no_alias m root → NoDup (user_tables m root).
Proof.
  intros Hn. apply NoDup_app. split; [|split; [|apply NoDup_singleton]].
  - apply (NoDup_below 2 256); [lia|by apply no_alias_unaliased|]. intros t. apply NoDup_subtables.
  - intros x Hx Hr. apply list_elem_of_singleton in Hr as ->.
    change (seq 0 256 ≫= _) with (below 2 256 m root) in Hx.
    apply elem_of_below in Hx as (i & p & Hi & Hl & Hf & Hp); [|lia|intros; apply elem_of_subtables].
    assert (i :: p = []); [|done]. apply (Hn _ _ root); [| |done|done].
    + split; [simpl; lia|]. constructor; [unfold table_index; lia|done].
    + split; [simpl; lia|constructor].
Qed.

(** ** The loops free the list

    [J l w]: the frames of [l] are still to be freed.  The loops may be run
    on any such [J] that every single [free_frame_4k] respects and that fixes
    the tables. *)

Section loops.
Context (A : PageTableFrameAlloc) (m : ram) (e : Env) (root : Z).
Context (J : list Z → World → Prop).
Context (Htree : tree_ok (phys_limit e) m root).
Context (Hsame : ∀ l w, J l w → hhdm_ready w ∧ m_of w = m ∧ env w = e).
Context (Hfree : ∀ f l w, J (f :: l) w → wp (free_frame_4k A f) (λ _, J l) w).

Lemma wp_for_each (l : list nat) (f : nat → list Z) body k w :
  (∀ i k w, i ∈ l → J (f i ++ k) w → wp (body i) (λ _, J k) w) →
  J ((l ≫= f) ++ k) w → wp (for_each l body) (λ _, J k) w.
Proof.
  revert w. induction l as [|i l IH]; intros w Hb HJ; [by apply wp_ret|].
  cbn [for_each]. wp_step. eapply wp_mono.
  - apply (Hb i ((l ≫= f) ++ k)); [set_solver|]. by rewrite app_assoc.
  - intros ? w' Hw'. apply IH; [|done]. intros j k' w2 Hj. apply Hb. set_solver.
Qed.

Lemma wp_destroy_entry (sub : Z → list Z) inner x k w :
  (is_table x = true → ∀ k w, J (sub (frame_of x) ++ k) w → wp (inner (frame_of x)) (λ _, J k) w) →
  J (entry_tables sub x ++ k) w → wp (destroy_entry A inner x) (λ _, J k) w.
Proof.
  intros Hin HJ. unfold destroy_entry, entry_tables, is_table in *.
  rewrite PTE_P_spec, PTE_PS_spec, ADDR_MASK_spec.
  destruct (pte_present x), (pte_large x); cbn [andb negb] in *; try (by apply wp_ret).
  cbv zeta. wp_step. eapply wp_mono; [apply Hin; [done|]|].
  - by rewrite <- app_assoc in HJ.
  - intros ? w'. apply Hfree.
Qed.

Definition table_ok (t : Z) : Prop := t mod 4096 = 0 ∧ 0 <= t ∧ t + 4096 <= phys_limit e.

Lemma wp_destroy_level d n inner t k w : (n <= 512)%nat → table_ok t →
  (∀ i, 0 <= i < Z.of_nat n → is_table (pte m t i) = true → ∀ k w,
  J (subtables d m (frame_of (pte m t i)) ++ k) w →
  wp (inner (frame_of (pte m t i))) (λ _, J k) w) →
  J (below d n m t ++ k) w →
  wp (p ← table_mut t; for_each (seq 0 n) (λ i,
  x ← table_get p (Z.of_nat i); destroy_entry A inner x)) (λ _, J k) w.
Proof.
  intros Hn Ht Hin HJ. destruct (Hsame _ _ HJ) as (Hr & _ & He). wp_step.
  apply wp_phys_to_virt; [done|rewrite He; unfold table_ok in Ht; lia|].
  eapply wp_for_each; [|exact HJ]. intros i k' w1 Hi HJ1. apply elem_of_seq in Hi.
  destruct (Hsame _ _ HJ1) as (Hr1 & Hm1 & He1). wp_step. rewrite He, <- He1.
  apply wp_table_get; [by unfold frame_ok; rewrite He1|unfold table_index; lia|].
  rewrite Hm1. eapply wp_destroy_entry; [|exact HJ1]. intros Ht'. apply Hin; [lia|done].
Qed.

Lemma path_table_ok p t : table_path p → follow m root p = Some t → table_ok t.
Proof.
  intros Hp Hx. split; [|apply Htree; by exists p]. eapply follow_aligned; [apply Htree|done].
Qed.

(** One step down. *)
Lemma child_path p t i : table_path p → (length p <= 2)%nat → follow m root p = Some t →
  0 <= i < 512 → is_table (pte m t i) = true →
  table_path (p ++ [i]) ∧ follow m root (p ++ [i]) = Some (frame_of (pte m t i)).
Proof.
  intros [_ Hp] Hl Hx Hi Ht. split.
  - split; [rewrite length_app; simpl; lia|]. apply Forall_app. split; [done|]. by apply Forall_singleton.
  - rewrite follow_app, Hx. cbn. unfold is_table in Ht. by rewrite Ht.
Qed.

Lemma wp_destroy_pd p t k w : table_path p → length p = 2%nat → follow m root p = Some t →
  J (subtables 1 m t ++ k) w → wp (destroy_pd A t) (λ _, J k) w.
Proof.
  intros Hp Hl Hx HJ. apply (wp_destroy_level 0 512); [lia|by eapply path_table_ok| |done].
  intros i Hi Ht k' w' HJ'. by apply wp_ret.
Qed.

Lemma wp_destroy_pdpt p t k w : table_path p → length p = 1%nat → follow m root p = Some t →
  J (subtables 2 m t ++ k) w → wp (destroy_pdpt A t) (λ _, J k) w.
Proof.
  intros Hp Hl Hx HJ. apply (wp_destroy_level 1 512); [lia|by eapply path_table_ok| |done].
  intros i Hi Ht k' w'. destruct (child_path p t i Hp ltac:(lia) Hx Hi Ht) as [Hp' Hx'].
  apply (wp_destroy_pd (p ++ [i])); [done|by rewrite length_app, Hl|done].
Qed.

(** The handle of the kernel is left alone; any other handle's list is freed
    and its slot released. *)
Lemma wp_destroy h w : KAS_HANDLE (mmu w) ≠ Some h → aspace_root (mmu w) h = Some root →
  J (user_tables m root) w →
  wp (address_space_destroy A h) (λ _ w', ∃ w1, J [] w1 ∧
  w' = set_mmu (λ s, mkMmuSt (KAS s) (KAS_HANDLE s) (CURRENT_PER_CPU s)
                   (release_slot h (AS_SLOTS (mmu w1))) (NXE_ENABLED s)) w1) w.
Proof.
  intros Hkh Hroot HJ. unfold address_space_destroy. wp_steps.
  rewrite bool_decide_eq_false_2 by done. wp_step.
  apply (wp_as_x86 _ _ root); [done|]. cbv zeta. cbn [pml4_phys].
  assert (table_path []) as Hnil by (split; [simpl; lia|constructor]).
  assert (wp (p ← table_mut root; for_each (seq 0 KERNEL_PML4_START) (λ i,
    x ← table_get p (Z.of_nat i); destroy_entry A (destroy_pdpt A) x))
    (λ _, J [root]) w) as Hloop.
  { apply (wp_destroy_level 2 256); [lia|by apply (path_table_ok [])| |exact HJ].
    intros i Hi Ht k' w'. destruct (child_path [] root i Hnil) as [Hp' Hx'];
      [simpl; lia|done|lia|done|]. by apply (wp_destroy_pdpt ([] ++ [i])). }
  apply wp_bind. eapply wp_mono; [apply (wp_bind_inv _ _ _ _ Hloop)|]. intros p w1 H1.
  wp_step. eapply wp_mono; [exact H1|]. intros ? w2 HJ2.
  wp_step. eapply wp_mono; [apply (Hfree _ []), HJ2|]. intros ? w3 HJ3.
  unfold free_slot, set_AS_SLOTS. wp_steps. by exists w3.
Qed.
End loops.

(** ** Destruction under the allocator contract *)

Section contract.
Context (A : PageTableFrameAlloc) `{!FrameAllocLaws A}.
Context (w : World) (h : AddressSpace) (root : Z).
Context (Hroot : aspace_root (mmu w) h = Some root) (Hkh : KAS_HANDLE (mmu w) ≠ Some h).
Context (Hinv : space_inv A root w).

#[local] Abbreviation tables := (user_tables (m_of w) root).

(** The frames of [l] are still to be freed, the others of the list are. *)
Record freeing (l : list Z) (w1 : World) : Prop := mkFreeing {
  fr_same : same_but_alloc w w1;
  fr_mem : m_of w1 = m_of w;
  fr_inv : fa_inv w1;
  fr_nodup : NoDup l;
  fr_todo : ∀ f, f ∈ l → f ∈ tables ∧ ¬ fa_avail w1 f;
  fr_avail : ∀ g, fa_avail w1 g → fa_avail w g ∨ g ∈ tables;
  fr_keep : ∀ g, fa_avail w g → fa_avail w1 g
}.

Lemma user_table_reachable f : f ∈ tables → reachable (m_of w) root f.
Proof.
  intros [->|(i & p & _ & Hp & Hx)]%elem_of_user_tables; [apply root_reachable|by exists (i :: p)].
Qed.

Lemma freeing_init : freeing tables w.
Proof.
  split; [apply same_but_alloc_refl|done|apply Hinv|apply NoDup_user_tables, Hinv| |by left|done].
  intros f Hf. split; [done|]. intros Ha. by apply (si_fresh _ _ _ Hinv f), user_table_reachable.
Qed.

Lemma freeing_step f l w1 : freeing (f :: l) w1 → wp (free_frame_4k A f) (λ _, freeing l) w1.
Proof.
  intros [Hs Hm Hi Hnd Htodo Hav Hkeep]. apply NoDup_cons in Hnd as [Hfl Hnd].
  destruct (Htodo f) as [Hf Hna]; [apply list_elem_of_here|].
  eapply wp_mono; [apply fa_free; [done| |done]|].
  - unfold frame_ok. rewrite (sba_env _ _ Hs).
    eapply space_inv_frame; [done|by apply user_table_reachable].
  - intros ? w2 (Hi2 & Hs2 & Hm2 & Hav2 & Hkeep2).
    split; [by eapply same_but_alloc_trans|congruence|done|done| | |auto].
    + intros g Hg. destruct (Htodo g) as [Hgt Hga]; [by apply list_elem_of_further|]. split; [done|].
      intros [?| ->]%Hav2; [done|done].
    + intros g [Hg| ->]%Hav2; auto.
Qed.

Lemma wp_destroy_contract :
  wp (address_space_destroy A h) (λ _ w', ∃ w1, freeing [] w1 ∧
  w' = set_mmu (λ s, mkMmuSt (KAS s) (KAS_HANDLE s) (CURRENT_PER_CPU s)
                   (release_slot h (AS_SLOTS (mmu w1))) (NXE_ENABLED s)) w1) w.
Proof.
  apply (wp_destroy A (m_of w) (env w) root freeing); [apply Hinv| |apply freeing_step|done|done|].
  - intros l w1 [Hs Hm _ _ _ _ _]. split_and!; [|done|apply Hs].
    eapply hhdm_ready_alloc; [apply Hinv|done].
  - apply freeing_init.
Qed.

(** Another address space stays intact as long as it shares none of the
    tables that are freed. *)
Lemma freed_other root2 w1 f : freeing [] w1 → space_inv A root2 w →
  (∀ x, reachable (m_of w) root2 x → x ∉ tables) → space_inv A root2 (set_mmu f w1).
Proof.
  intros [Hs Hm Hi _ _ Hav _] [Hr Ht _ Hfr] Hdis. apply space_inv_set_mmu.
  split; [by eapply hhdm_ready_alloc|by rewrite (sba_env _ _ Hs), Hm|done|].
  intros g Hg. rewrite Hm. intros Hx. destruct (Hav g Hg); [by apply (Hfr g)|by eapply Hdis].
Qed.
End contract.

(** The kernel half's tables are not on the list. *)
Lemma kernel_table_kept m root i p x : no_alias m root →
  256 <= i → table_path (i :: p) → follow m root (i :: p) = Some x → x ∉ user_tables m root.
Proof.
  intros Hn Hi Hp Hx [->|(j & q & Hj & Hq & Hy)]%elem_of_user_tables.
  - assert (i :: p = []); [|done]. apply (Hn _ _ root); [done| |done|done].
    split; [simpl; lia|constructor].
  - assert (i :: p = j :: q) as [= -> _]; [by apply (Hn _ _ x)|lia].
Qed.

(** ** Slots *)

Lemma release_slot_spec needle slots i s :
  (∀ j sj, slots !! j = Some sj → used sj = true → handle sj = AsSlot j) →
  release_slot needle slots !! i = Some s →
  ∃ s0, slots !! i = Some s0 ∧
    if used s0 && bool_decide (needle = AsSlot i)
    then s = mkSlot false (mkX86AddressSpace 0) (handle s0) else s = s0.
Proof.
  enough (∀ k, (∀ j sj, slots !! j = Some sj → used sj = true → handle sj = AsSlot (k + j)) →
    release_slot needle slots !! i = Some s →
    ∃ s0, slots !! i = Some s0 ∧
      if used s0 && bool_decide (needle = AsSlot (k + i))
      then s = mkSlot false (mkX86AddressSpace 0) (handle s0) else s = s0) as H.
  { intros Hh. apply (H 0%nat). done. }
  revert i. induction slots as [|s0 slots IH]; intros i k Hh Hi; [by destruct i|].
  cbn [release_slot] in Hi. destruct (used s0 && bool_decide (handle s0 = needle)) eqn:E.
  - apply andb_true_iff in E as [Hu Hn%bool_decide_eq_true].
    pose proof (Hh 0%nat s0 eq_refl Hu) as H0. rewrite Nat.add_0_r in H0. destruct i as [|i].
    + simplify_eq/=. exists s0. rewrite Nat.add_0_r, Hu, H0. by rewrite bool_decide_eq_true_2.
    + simplify_eq/=. exists s. split; [done|].
      rewrite bool_decide_eq_false_2; [by rewrite andb_false_r|]. rewrite H0. intros [= ?]. lia.
  - destruct i as [|i].
    + simplify_eq/=. exists s. split; [done|]. rewrite Nat.add_0_r.
      destruct (used s) eqn:Hu; [|done]. pose proof (Hh 0%nat s eq_refl Hu) as H0.
      rewrite Nat.add_0_r in H0. apply bool_decide_eq_false in E. cbn [andb].
      rewrite bool_decide_eq_false_2; [done|]. congruence.
    + cbn in Hi. destruct (IH i (S k)) as (s1 & Hs1 & Hr).
      * intros j sj Hj Hu. rewrite (Hh (S j) sj Hj Hu). f_equal. lia.
      * done.
      * exists s1. split; [done|]. by replace (k + S i)%nat with (S k + i)%nat by lia.
Qed.

Lemma length_release_slot needle slots : length (release_slot needle slots) = length slots.
Proof. induction slots as [|s slots IH]; [done|]. cbn. case_match; cbn; by rewrite ?IH. Qed.

(** The handles in the slot table point at their own slots. *)
Definition slots_ok (slots : list AddressSpaceSlot) : Prop :=
  ∀ i s, slots !! i = Some s → used s = true → handle s = AsSlot i.

(** C25: the slot table: [alloc_slot] fails exactly when every slot is in use;
    otherwise it takes an unused slot, whose handle it returns and whose root
    it records, and leaves the others alone; [free_slot] of that handle makes
    the slot unused again and touches no other; both keep the table
    well-formed. *)
Theorem slot_table_correct slots p : slots_ok slots →
  match take_slot 0 slots p with
  | None => ∀ i s, slots !! i = Some s → used s = true
  | Some (h, slots') => ∃ i s, h = AsSlot i ∧ slots !! i = Some s ∧ used s = false ∧
      slots_ok slots' ∧ slots' !! i = Some (mkSlot true (mkX86AddressSpace p) h) ∧
      (∀ j, j ≠ i → slots' !! j = slots !! j) ∧
      slots_ok (release_slot h slots') ∧
      (∀ j sj, release_slot h slots' !! j = Some sj →
         ∃ s0, slots !! j = Some s0 ∧ used sj = used s0 ∧ (j ≠ i → sj = s0))
  end.
Proof.
  intros Hok. destruct (take_slot 0 slots p) as [[h slots']|] eqn:E.
  2: { apply take_slot_none in E. intros i s Hi. by eapply Forall_lookup_1 in E. }
  apply take_slot_some in E as (i & s & -> & Hs & Hu & _ & ->). rewrite Nat.add_0_l.
  assert (i < length slots)%nat as Hlt by by eapply lookup_lt_Some.
  set (slots' := <[i:=_]> slots).
  assert (slots_ok slots') as Hok'.
  { intros j sj. unfold slots'. destruct (decide (j = i)) as [->|Hne].
    - rewrite list_lookup_insert_eq by done. by intros [= <-].
    - rewrite list_lookup_insert_ne by done. apply Hok. }
  assert (∀ j sj, release_slot (AsSlot i) slots' !! j = Some sj →
    ∃ s0, slots !! j = Some s0 ∧ used sj = used s0 ∧ (j ≠ i → sj = s0)) as Hrel.
  { intros j sj Hj. destruct (release_slot_spec _ _ _ _ Hok' Hj) as (s1 & H1 & H2).
    unfold slots' in H1. destruct (decide (j = i)) as [->|Hne].
    - rewrite list_lookup_insert_eq in H1 by done. injection H1 as <-. exists s.
      rewrite bool_decide_eq_true_2 in H2 by done. simpl in H2. by subst sj.
    - rewrite list_lookup_insert_ne in H1 by done. exists s1.
      rewrite bool_decide_eq_false_2, andb_false_r in H2 by congruence. by subst sj. }
  exists i, s. split_and!; try done.
  - unfold slots'. by apply list_lookup_insert_eq.
  - intros j Hne. by apply list_lookup_insert_ne.
  - intros j sj Hj Huj. destruct (decide (j = i)) as [->|Hne].
    + destruct (Hrel i sj Hj) as (s0 & H0 & H1 & _). simplify_eq. congruence.
    + destruct (Hrel j sj Hj) as (s0 & H0 & _ & Heq). rewrite (Heq Hne) in *. by eapply Hok.
Qed.

(** C16: under any allocator that meets the contract, [address_space_destroy]
    leaves memory as it is, makes no frame available except the root and the
    tables of the user half, loses none that was, never frees a table twice
    (the contract forbids it), and leaves every address space that shares none
    of those tables ready for use.  The kernel's own address space is never
    destroyed. *)
Theorem address_space_destroy_correct A `{!FrameAllocLaws A} w h root :
  aspace_root (mmu w) h = Some root → space_inv A root w →
  if decide (KAS_HANDLE (mmu w) = Some h) then address_space_destroy A h w = Ret () w else
  wp (address_space_destroy A h) (λ _ w',
    m_of w' = m_of w ∧
    (∀ g, fa_avail w' g → fa_avail w g ∨ g ∈ user_tables (m_of w) root) ∧
    (∀ g, fa_avail w g → fa_avail w' g) ∧
    AS_SLOTS (mmu w') = release_slot h (AS_SLOTS (mmu w)) ∧
    ∀ root2, space_inv A root2 w →
      (∀ x, reachable (m_of w) root2 x → x ∉ user_tables (m_of w) root) → space_inv A root2 w') w.
Proof.
  intros Hroot Hinv. case_decide as Hkh.
  - unfold address_space_destroy, mbind, M_bind, gets. by rewrite bool_decide_eq_true_2.
  - eapply wp_mono; [by apply (wp_destroy_contract A w h root)|].
    intros ? w' (w1 & Hf & ->). pose proof Hf as [Hs Hm Hi _ _ Hav Hkeep].
    destruct (fa_stable w1 _ (same_kernel_set_mmu (λ s, mkMmuSt (KAS s) (KAS_HANDLE s)
      (CURRENT_PER_CPU s) (release_slot h (AS_SLOTS (mmu w1))) (NXE_ENABLED s)) w1) Hi) as [_ Hst].
    split_and!.
    + done.
    + intros g Hg. by apply Hav, Hst.
    + intros g Hg. by apply Hst, Hkeep.
    + cbn. by rewrite (sba_mmu _ _ Hs).
    + intros root2 H2 Hdis. by eapply freed_other.
Qed.
