(* ===== verification/BootSpec.v ===== *)
(** * Bringing the MMU up

    [init_kernel] adopts the bootloader's tables, [enable_nx] keeps the
    kernel's flag and EFER.NXE in step, [activate] and [current] agree about
    the running address space, and activation keeps the translation cache
    right. *)

From S2P Require Import Prelude HalTypes Paging World Hal Cpu Apic ApicSpec X86Mmu MmuProofs MmuSpec TlbSpec AspaceSpec.

#[local] Abbreviation m_of w := (mem64 (hw w)).

(** ** The per-CPU slot *)

(** The statics have their declared sizes and the CPU's id can be read. *)
Record cpu_ready (w : World) : Prop := mkCpuReady {
  cr_apic : apic_ready w;
  cr_regs : regs_u32 w;
  cr_slots : length (CURRENT_PER_CPU (mmu w)) = MAX_CPUS
}.

(** The index a processor uses: its APIC id, or 0 for ids beyond the array. *)
Definition cpu_slot (w : World) : nat :=
  let id := if decide (APIC_MODE (apic w) = APIC_MODE_NONE) then 0
            else if decide (APIC_MODE (apic w) = APIC_MODE_X2APIC) then lapic_id (env w)
            else lapic_id (env w) mod 256 in
  if id <? 256 then Z.to_nat id else 0%nat.

Lemma cpu_index_eq w : apic_ready w → regs_u32 w → cpu_index w = Ret (cpu_slot w) w.
Proof.
  intros Hr Hu. unfold cpu_index, mbind, M_bind. by rewrite cpu_id_eq.
Qed.

Lemma cpu_slot_bound w : regs_u32 w → (cpu_slot w < MAX_CPUS)%nat.
Proof.
  intros [Hid _]. unfold cpu_slot. cbv zeta. change MAX_CPUS with 256%nat.
  destruct (Z.ltb_spec (if decide (APIC_MODE (apic w) = APIC_MODE_NONE) then 0
     else if decide (APIC_MODE (apic w) = APIC_MODE_X2APIC) then lapic_id (env w)
     else lapic_id (env w) mod 256) 256); [|lia].
  pose proof (Z.mod_pos_bound (lapic_id (env w)) 256). repeat case_decide; lia.
Qed.

(** [w] with the slot of the running processor set. *)
Definition with_current (v : option AddressSpace) (w : World) : World :=
  set_mmu (λ s, mkMmuSt (KAS s) (KAS_HANDLE s) (<[cpu_slot w := v]> (CURRENT_PER_CPU (mmu w)))
                  (AS_SLOTS s) (NXE_ENABLED s)) w.

Lemma store_current_eq v w : cpu_ready w → store_current_slot v w = Ret () (with_current v w).
Proof.
  intros [Ha Hu Hl]. unfold store_current_slot, mbind, M_bind. rewrite cpu_index_eq by done.
  unfold gets. rewrite Hl. by rewrite (proj2 (Nat.ltb_lt _ _) (cpu_slot_bound w Hu)).
Qed.

Lemma current_eq w h : cpu_ready w → CURRENT_PER_CPU (mmu w) !! cpu_slot w = Some (Some h) →
  current w = Ret h w.
Proof.
  intros [Ha Hu Hl] Hc. unfold current, current_slot, mbind, M_bind. rewrite cpu_index_eq by done.
  unfold gets. by rewrite Hc.
Qed.

Lemma with_current_get v w : cpu_ready w →
  CURRENT_PER_CPU (mmu (with_current v w)) !! cpu_slot w = Some v.
Proof.
  intros [_ Hu Hl]. cbn. apply list_lookup_insert_eq. rewrite Hl. by apply cpu_slot_bound.
Qed.

Lemma cpu_ready_current v w : cpu_ready w → cpu_ready (with_current v w).
Proof. intros [Ha Hu Hl]. split; [done|done|]. cbn. by rewrite length_insert. Qed.

(** ** Activation *)

(** [w] running on the tables under [root]. *)
Definition on_root (root : Z) (w : World) : World := set_hw (λ h, hw_cr3 root (tlb_after_cr3 h) h) w.

Lemma activate_eq h root w : aspace_root (mmu w) h = Some root → cpu_ready w →
  activate h w = Ret () (with_current (Some h) (on_root (Z.land root ADDR_MASK) w)).
Proof.
  intros Hroot Hr. unfold activate, mbind, M_bind.
  destruct (wp_elim _ _ _ (wp_as_x86 w h root (λ x w', x = mkX86AddressSpace root ∧ w' = w) Hroot
    (conj eq_refl eq_refl))) as (x & w' & -> & -> & ->).
  unfold mov_cr3, modify. cbn [pml4_phys]. rewrite store_current_eq; [done|by destruct Hr].
Qed.

(** C26: after [activate], CR3 holds the address space's root, [current]
    returns the address space, no translation that is not global is left in
    the cache, and the tables are untouched. *)
Theorem activate_then_current h root w :
  aspace_root (mmu w) h = Some root → root mod 4096 = 0 → 0 <= root < 2 ^ 52 → cpu_ready w →
  wp (activate h;; current) (λ r w',
    r = h ∧ cr3 (hw w') = root ∧ m_of w' = m_of w ∧ aspace_root (mmu w') h = Some root ∧
    ∀ p mp, tlb (hw w') !! p = Some mp → m_g mp = true ∧ tlb (hw w) !! p = Some mp) w.
Proof.
  intros Hroot Ha Hb Hr. wp_step. eapply wp_intro; [by apply activate_eq|].
  eapply wp_intro.
  - apply current_eq; [apply cpu_ready_current; by destruct Hr|].
    apply (with_current_get (Some h) (on_root (Z.land root ADDR_MASK) w)). by destruct Hr.
  - rewrite ADDR_MASK_spec, frame_of_id by done. split_and!; [done|done|done|by destruct h|].
    intros p mp. cbn. unfold tlb_after_cr3. destruct (Z.testbit _ _); [|by rewrite lookup_empty].
    rewrite map_lookup_filter_Some. naive_solver.
Qed.

(** C27: switching address spaces keeps the cache right: when the old cache
    agreed with the old tables, its global translations belong to the kernel
    half, and the new tables share the kernel half, the cache agrees with the
    new tables after [activate]. *)
Theorem activate_tlb_coherent h root old w :
  aspace_root (mmu w) h = Some root → root mod 4096 = 0 → 0 <= root < 2 ^ 52 → cpu_ready w →
  tlb_coherent old w →
  (∀ v mp, canonical v → tlb (hw w) !! page_of v = Some mp → m_g mp = true → kernel_half v) →
  (∀ v, kernel_half v → hw_walk (m_of w) root v = hw_walk (m_of w) old v) →
  wp (activate h) (λ _ w', tlb_coherent root w') w.
Proof.
  intros Hroot Ha Hb Hr Hcoh Hglob Hshare. eapply wp_intro; [by apply activate_eq|].
  intros v mp Hv Hal Hl. change (tlb_after_cr3 (hw w) !! page_of v = Some mp) in Hl.
  change (hw_walk (m_of w) root v = Some mp). unfold tlb_after_cr3 in Hl.
  destruct (Z.testbit _ _); [|by rewrite lookup_empty in Hl].
  apply map_lookup_filter_Some in Hl as [Hl Hg]. rewrite Hshare by by eapply Hglob.
  by apply Hcoh.
Qed.

(** ** Adopting the bootloader's tables *)

Definition adopted (root : Z) (w : World) : World :=
  set_mmu (λ s, mkMmuSt (Some (mkX86AddressSpace root)) (Some AsKas) (CURRENT_PER_CPU s)
                  (AS_SLOTS s) (NXE_ENABLED s)) w.

Lemma init_kernel_again w h : KAS_HANDLE (mmu w) = Some h → init_kernel w = Ret (Ok h) w.
Proof. intros Hh. unfold init_kernel, mbind, M_bind, gets. by rewrite Hh. Qed.

Lemma init_kernel_first w : KAS_HANDLE (mmu w) = None → frame_of (cr3 (hw w)) ≠ 0 → cpu_ready w →
  init_kernel w = Ret (Ok AsKas) (with_current (Some AsKas) (adopted (frame_of (cr3 (hw w))) w)).
Proof.
  intros Hh Hz Hr. unfold init_kernel, mbind, M_bind, gets, read_cr3, gets. rewrite Hh.
  cbv zeta. rewrite ADDR_MASK_spec, (proj2 (Z.eqb_neq _ _) Hz).
  unfold set_KAS, set_KAS_HANDLE, modify.
  match goal with |- context [store_current_slot _ ?x] =>
    change x with (adopted (frame_of (cr3 (hw w))) w) end.
  rewrite store_current_eq; [done|by destruct Hr].
Qed.

(** C28: the first [init_kernel] adopts the tables CR3 points to as the
    kernel's address space and makes it current; it refuses a null CR3
    without touching anything; a second call returns the same handle and
    changes nothing. *)
Theorem init_kernel_adopts w : KAS_HANDLE (mmu w) = None → cpu_ready w →
  if decide (frame_of (cr3 (hw w)) = 0) then init_kernel w = Ret (Err InvalidArgs) w
  else wp (r1 ← init_kernel; w1 ← gets id; r2 ← init_kernel; c ← current; mret (r1, w1, r2, c))
    (λ '(r1, w1, r2, c) w2,
      r1 = Ok AsKas ∧ r2 = Ok AsKas ∧ c = AsKas ∧ w2 = w1 ∧ hw w1 = hw w ∧
      aspace_root (mmu w1) AsKas = Some (frame_of (cr3 (hw w))) ∧
      AS_SLOTS (mmu w1) = AS_SLOTS (mmu w)) w.
Proof.
  intros Hh Hr. case_decide as Hz.
  - unfold init_kernel, mbind, M_bind, gets, read_cr3, gets. rewrite Hh. cbv zeta.
    by rewrite ADDR_MASK_spec, Hz.
  - wp_step. eapply wp_intro; [by apply init_kernel_first|]. wp_steps.
    eapply wp_intro; [by apply init_kernel_again|]. wp_step.
    eapply wp_intro; [apply current_eq|by wp_steps].
    + apply cpu_ready_current. by destruct Hr.
    + apply (with_current_get _ (adopted (frame_of (cr3 (hw w))) w)). by destruct Hr.
Qed.

(** ** No-execute *)

Definition cpu_has_nx (e : Env) : bool :=
  let '(max_ext, _, _, _) := cpuid_leaf e 0x80000000 0 in
  let '(_, _, _, edx) := cpuid_leaf e 0x80000001 0 in
  (0x80000001 <=? max_ext) && Z.testbit edx 20.

Lemma has_nx_eq w : has_nx w = Ret (cpu_has_nx (env w)) w.
Proof.
  unfold has_nx, cpu_has_nx, cpuid, mbind, M_bind, gets.
  destruct (cpuid_leaf (env w) 0x80000000 0) as [[[mx ?] ?] ?].
  destruct (cpuid_leaf (env w) 0x80000001 0) as [[[? ?] ?] edx] eqn:E.
  destruct (Z.ltb_spec mx 0x80000001) as [Hlt|Hge].
  - by rewrite (proj2 (Z.leb_gt _ _)) by lia.
  - rewrite (proj2 (Z.leb_le _ _)) by lia. rewrite E. unfold mret, M_ret.
    by rewrite has_bits_bit.
Qed.

Lemma EFER_NXE_spec e : has_bits e EFER_NXE = Z.testbit e 11.
Proof. by apply has_bits_bit. Qed.

(** The value [init_features] writes, and what the processor keeps of it:
    LMA is read-only, so the write sets NXE and nothing else. *)
Lemma efer_nxe_write e : is_u64 e →
  efer_write e (Z.land (Z.lor e EFER_NXE) (not64 EFER_LMA)) = Z.lor e (bit 11).
Proof.
  intros He. unfold efer_write, EFER_LMA, EFER_NXE.
  assert (is_u64 (Z.lor e (bit 11))) as H1 by by apply lor_bit_u64.
  assert (is_u64 (bit 10)) as H2 by done.
  rewrite (land_not64 _ _ H1 H2), land_not64 by (done || by apply ldiff_u64).
  apply Z.bits_inj'. intros n Hn. rewrite !Z.lor_spec, Z.land_spec, !Z.ldiff_spec, Z.lor_spec.
  rewrite !bit_pow2, !Z.pow2_bits_eqb by lia.
  destruct (Z.eqb_spec 10 n), (Z.eqb_spec 11 n); try lia; by destruct (Z.testbit e n).
Qed.

(** [init_features] clears LMA in the value it writes, so on a processor that
    does not ignore that the write is a fault, unless NXE is on already and
    nothing is written. *)
Definition lma_traps (w : World) : bool :=
  negb (lma_ignored (env w)) && Z.testbit (rd_msr w EFER_msr) 10 && negb (Z.testbit (rd_msr w EFER_msr) 11).

Lemma nxe_write_u64 e : is_u64 e → is_u64 (Z.land (Z.lor e EFER_NXE) (not64 EFER_LMA)).
Proof. intros He. rewrite land_not64; [apply ldiff_u64| |done]; by apply lor_bit_u64. Qed.

Lemma nxe_write_faults w : Z.testbit (rd_msr w EFER_msr) 11 = false →
  efer_write_faults w (Z.land (Z.lor (rd_msr w EFER_msr) EFER_NXE) (not64 EFER_LMA)) = lma_traps w.
Proof.
  intros H. unfold efer_write_faults, lma_traps. rewrite H, andb_true_r. f_equal.
  rewrite Z.land_spec. change (Z.testbit (not64 EFER_LMA) 10) with false. rewrite andb_false_r.
  by destruct (Z.testbit _ 10).
Qed.

(** The kernel believes in NX only when the processor does. *)
Definition nx_in_step (w : World) : Prop :=
  NXE_ENABLED (mmu w) = true → Z.testbit (rd_msr w EFER_msr) 11 = true.

(** The state [init_features(true)] leaves on a processor with NX. *)
Definition features_on (w : World) : World :=
  set_mmu (λ s, mkMmuSt (KAS s) (KAS_HANDLE s) (CURRENT_PER_CPU s) (AS_SLOTS s) true)
    (set_hw (λ h, hw_msrs (if Z.testbit (rd_msr w EFER_msr) 11 then msrs h
                           else <[EFER_msr := Z.lor (rd_msr w EFER_msr) (bit 11)]> (msrs h)) h)
       (set_hw (λ h, let c := Z.lor (cr4 h) CR4_PGE in hw_cr4 c (tlb_after_cr4 h c) h)
          (set_hw (λ h, hw_cr0 (Z.lor (cr0 h) CR0_WP) h) w))).

Lemma init_features_eq w : cpu_has_nx (env w) = true → is_u64 (rd_msr w EFER_msr) →
  if lma_traps w then ∃ w', init_features true w = Undef "wrmsr: #GP" w'
  else init_features true w = Ret () (features_on w).
Proof.
  intros Hnx He. unfold init_features, init_features_efer, mbind, M_bind, read_cr0, read_cr4, gets,
    mov_cr0, mov_cr4, modify.
  set (w1 := set_hw _ (set_hw _ w)). assert (rd_msr w1 EFER_msr = rd_msr w EFER_msr) as Hm by done.
  assert (env w1 = env w) as Hen by done.
  rewrite has_nx_eq, Hen, Hnx, rdmsr_eq by done. change IA32_EFER with EFER_msr. rewrite Hm.
  rewrite EFER_NXE_spec. unfold features_on. destruct (Z.testbit (rd_msr w EFER_msr) 11) eqn:E; cbn [negb].
  - unfold lma_traps. rewrite E, andb_false_r. unfold mret, M_ret. rewrite EFER_NXE_spec, E. unfold set_NXE_ENABLED, modify. by destruct w as [? h]; destruct h.
  - pose proof (nxe_write_faults w1 E) as Hf. change (lma_traps w1) with (lma_traps w) in Hf. rewrite Hm in Hf.
    pose proof (nxe_write_u64 _ He) as Hu. destruct (lma_traps w).
    + rewrite wrmsr_efer_fault by done. by eexists.
    + rewrite wrmsr_efer, Hm, efer_nxe_write by done.
      unfold mret, M_ret. rewrite EFER_NXE_spec. rewrite Z.land_spec, Z.lor_spec.
      rewrite orb_true_r. by destruct w as [? h]; destruct h.
Qed.

(** What a call of [enable_nx] in [w] leaves behind. *)
Definition nx_post (w : World) (r : result unit MapError) (w' : World) : Prop :=
  r = Ok () ∧ nx_in_step w' ∧
  NXE_ENABLED (mmu w') = NXE_ENABLED (mmu w) || cpu_has_nx (env w) ∧
  Z.testbit (rd_msr w' EFER_msr) 10 = Z.testbit (rd_msr w EFER_msr) 10 ∧
  (NXE_ENABLED (mmu w) = false → cpu_has_nx (env w) = true →
     Z.testbit (cr0 (hw w')) 16 = true ∧ Z.testbit (cr4 (hw w')) 7 = true ∧ tlb (hw w') = ∅) ∧
  m_of w' = m_of w ∧ cr3 (hw w') = cr3 (hw w) ∧
  (∀ h, aspace_root (mmu w') h = aspace_root (mmu w) h) ∧
  (same_kernel w w' ∧ HHDM_OFFSET w' = HHDM_OFFSET w ∧ KAS_HANDLE (mmu w') = KAS_HANDLE (mmu w) ∧
   KAS (mmu w') = KAS (mmu w)).

(** [enable_nx] has work to do and the processor faults on it. *)
Definition nx_faults (w : World) : bool := negb (NXE_ENABLED (mmu w)) && cpu_has_nx (env w) && lma_traps w.

Lemma wp_enable_nx w : is_u64 (rd_msr w EFER_msr) → nx_in_step w → nx_faults w = false →
  wp enable_nx (nx_post w) w.
Proof.
  unfold nx_faults. intros He Hs Hnf. unfold enable_nx, nxe_enabled. wp_step. apply wp_gets.
  destruct (NXE_ENABLED (mmu w)) eqn:Hn.
  { wp_step. unfold nx_post. rewrite Hn. split_and!; by (intros; split_and?). }
  wp_step. eapply wp_intro; [apply has_nx_eq|]. destruct (cpu_has_nx (env w)) eqn:Hnx; cbn [negb].
  2: { wp_step. unfold nx_post. rewrite Hn, Hnx. split_and!; by intros. }
  cbn in Hnf. pose proof (init_features_eq w Hnx He) as Hif. rewrite Hnf in Hif.
  wp_step. eapply wp_intro; [exact Hif|].
  wp_step. eapply wp_intro; [apply flush_tlb_all_global_eq|]. wp_step.
  assert (rd_msr (features_on w) EFER_msr = Z.lor (rd_msr w EFER_msr) (bit 11)) as Hr.
  { unfold features_on, rd_msr at 1. cbn [hw msrs set_mmu set_hw hw_msrs].
    destruct (Z.testbit (rd_msr w EFER_msr) 11) eqn:E; [|by rewrite lookup_insert_eq].
    change (default 0 _) with (rd_msr w EFER_msr). apply Z.bits_inj'. intros k Hk.
    rewrite Z.lor_spec, bit_pow2, Z.pow2_bits_eqb by lia.
    destruct (Z.eqb_spec 11 k) as [<-|]; [by rewrite E|by rewrite orb_false_r]. }
  unfold nx_post. rewrite Hn, Hnx.
  change (rd_msr (set_hw (hw_tlb ∅) (features_on w)) EFER_msr) with (rd_msr (features_on w) EFER_msr).
  split_and!; [done| |done| |..].
  - intros _. change (Z.testbit (rd_msr (features_on w) EFER_msr) 11 = true).
    rewrite Hr, Z.lor_spec. apply orb_true_r.
  - rewrite Hr, Z.lor_spec. apply orb_false_r.
  - intros _ _. cbn [features_on hw cr0 cr4 tlb set_mmu set_hw hw_tlb hw_msrs hw_cr4 hw_cr0].
    rewrite !Z.lor_spec. by rewrite !orb_true_r.
  - done.
  - done.
  - by intros [|i|].
  - by split_and!.
  - done.
  - done.
  - done.
Qed.

(** C29: [enable_nx] succeeds and keeps the kernel's flag and the processor in
    step: afterwards the flag is on exactly when it was on or the processor
    has NX, EFER.NXE is set whenever it is on, long mode stays active, and when
    the call turned it on write protection and global pages are enabled and
    the translation cache is empty.  Tables and address spaces are untouched.
    The one exception is a processor that has NX off and faults on a write
    that changes LMA: there the call ends in the fault. *)
Theorem enable_nx_in_step w : is_u64 (rd_msr w EFER_msr) → nx_in_step w →
  if nx_faults w then ∃ w', enable_nx w = Undef "wrmsr: #GP" w' else wp enable_nx (nx_post w) w.
Proof.
  intros He Hs. destruct (nx_faults w) eqn:Hf; [|by apply wp_enable_nx].
  unfold nx_faults in Hf. apply andb_true_iff in Hf as [[Hn Hnx]%andb_true_iff Ht].
  apply negb_true_iff in Hn. pose proof (init_features_eq w Hnx He) as Hi. rewrite Ht in Hi.
  destruct Hi as [w' Hi]. exists w'. unfold enable_nx, nxe_enabled, mbind, M_bind, gets.
  rewrite Hn, has_nx_eq, Hnx. cbn [negb]. by rewrite Hi.
Qed.
