(* ===== verification/Vm.v ===== *)
(** * The kernel's VM service (kernel/src/svc/vm.rs)

    The boot-time page-table frame allocator [BootPtAlloc] — a cursor over
    the boot memory map plus a bounded free list — and the service calls
    that lend it to the MMU under the [PT_ALLOC] lock. *)

From S2P Require Import Prelude Bootabi HalTypes Paging World Hal Cpu Apic X86Mmu.

Definition PAGE_SIZE : Z := 4096.
Definition MAX_FREE_FRAMES : nat := 128.
Definition EMPTY_PADDR : PhysAddr := 0.

(** ** [BootPtAlloc] *)

Definition is_usable (t : MemType) : bool :=
  match t with MT_Usable | MT_BootloaderReclaimable => true | _ => false end.

(** [(value + align - 1) & !(align - 1)], with the overflow checks of the dev
    profile; the [debug_assert!] holds for the only alignment used. *)
Definition align_up (value align : Z) : M World Z :=
  s ← add64 value align;
  s' ← sub64 s 1;
  mret (Z.land s' (not64 (align - 1))).

Definition BootPtAlloc_new (boot : BootInfo) : option BootPtAlloc :=
  if hhdm_offset boot =? 0 then None else
  if (entries_ptr (mem boot) =? 0) || (entry_count (mem boot) =? 0) then None else
  if negb (entry_size (mem boot) =? sizeof_MemMapEntry) then None else
  Some (mkBootPtAlloc (entries_ptr (mem boot)) (entry_count (mem boot)) 0 0
          (hhdm_offset boot) (replicate MAX_FREE_FRAMES EMPTY_PADDR) 0).

(** Updates of the fields a call changes. *)
Definition set_cursor (e addr : Z) (a : BootPtAlloc) : BootPtAlloc :=
  mkBootPtAlloc (pa_entries_ptr a) (pa_entry_count a) e addr
    (pa_hhdm_offset a) (pa_free_list a) (pa_free_count a).
Definition set_free (l : list PhysAddr) (n : Z) (a : BootPtAlloc) : BootPtAlloc :=
  mkBootPtAlloc (pa_entries_ptr a) (pa_entry_count a) (pa_cur_entry a) (pa_cur_addr a)
    (pa_hhdm_offset a) l n.

Definition entry_at (a : BootPtAlloc) (idx : Z) : M World (option MemMapEntry) :=
  if pa_entry_count a <=? idx then mret None else
  e ← load_entry (pa_entries_ptr a + sizeof_MemMapEntry * idx);
  mret (Some e).

(** The [while] loop of [next_from_map]; each iteration that continues moves
    to the next entry, so [fuel] above the number of entries left is never
    used up. *)
Fixpoint next_loop (fuel : nat) (a : BootPtAlloc) : M World (option PhysAddr * BootPtAlloc) :=
  match fuel with
  | O => λ w, Spin w
  | S n =>
      if negb (pa_cur_entry a <? pa_entry_count a) then mret (None, a) else
      o ← entry_at a (pa_cur_entry a);
      match o with
      | None => mret (None, a)
      | Some entry =>
          let next := set_cursor (pa_cur_entry a + 1) 0 a in
          if negb (is_usable (mem_type entry)) then next_loop n next else
          match checked_add (base entry) (len entry) with
          | None => mret (None, a)
          | Some end_ =>
              let addr := if pa_cur_addr a <? base entry then base entry else pa_cur_addr a in
              addr ← align_up addr PAGE_SIZE;
              match checked_add addr PAGE_SIZE with
              | None => mret (None, a)
              | Some top =>
                  if end_ <? top then next_loop n next else
                  cur ← add64 addr PAGE_SIZE;
                  mret (Some addr, set_cursor (pa_cur_entry a) cur a)
              end
          end
      end
  end.

Definition next_from_map (a : BootPtAlloc) : M World (option PhysAddr * BootPtAlloc) :=
  next_loop (S (Z.to_nat (pa_entry_count a - pa_cur_entry a))) a.

Definition pa_zero_frame (a : BootPtAlloc) (paddr : PhysAddr) : M World unit :=
  let virt := wrapping_add paddr (pa_hhdm_offset a) in
  write_zero64 virt (Z.to_nat (PAGE_SIZE / 8)).

(** The object behind the lock guard. *)
Definition get_alloc : M World BootPtAlloc :=
  o ← gets (λ w, PT_ALLOC (vm w));
  match o with Some a => mret a | None => undef "no allocator behind the guard" end.
Definition put_alloc (a : BootPtAlloc) : M World unit :=
  modify (set_vm (λ s, mkVmSt (Some a) (PT_ALLOC_LOCKED s))).

(** [impl PageTableFrameAlloc for BootPtAlloc] *)

Definition pa_alloc_frame_4k : M World (option PhysAddr) :=
  a ← get_alloc;
  o ← (if 0 <? pa_free_count a then
         let n := pa_free_count a - 1 in
         put_alloc (set_free (pa_free_list a) n a);;
         match pa_free_list a !! Z.to_nat n with
         | Some p => mret (Some p)
         | None => panic "index out of bounds"
         end
       else
         '(o, a') ← next_from_map a;
         put_alloc a';;
         mret o);
  match o with
  | None => mret None
  | Some paddr => pa_zero_frame a paddr;; mret (Some paddr)
  end.

Definition pa_free_frame_4k (paddr : PhysAddr) : M World unit :=
  a ← get_alloc;
  if pa_free_count a <? Z.of_nat MAX_FREE_FRAMES then
    if (Z.to_nat (pa_free_count a) <? length (pa_free_list a))%nat then
      put_alloc (set_free (<[Z.to_nat (pa_free_count a) := paddr]> (pa_free_list a))
                   (pa_free_count a + 1) a)
    else panic "index out of bounds"
  else mret ().

Definition boot_pt_alloc : PageTableFrameAlloc := mkFrameAlloc pa_alloc_frame_4k pa_free_frame_4k.

(** ** The service *)

(** [PT_ALLOC.lock()]: a spin lock; taking it while it is held never returns. *)
Definition lock : M World unit := λ w,
  if PT_ALLOC_LOCKED (vm w) then Spin w
  else Ret () (set_vm (λ s, mkVmSt (PT_ALLOC s) true) w).
(** The guard's drop. *)
Definition unlock : M World unit := modify (set_vm (λ s, mkVmSt (PT_ALLOC s) false)).

(** [let mut guard = PT_ALLOC.lock(); let alloc = guard.as_mut().expect(..); body] *)
Definition with_alloc {B} (body : PageTableFrameAlloc → M World B) : M World B :=
  lock;;
  o ← gets (λ w, PT_ALLOC (vm w));
  _ ← expect o "vm: not initialized";
  r ← body boot_pt_alloc;
  unlock;;
  mret r.

Definition init (boot : BootInfo) : M World unit :=
  alloc ← expect (BootPtAlloc_new boot) "vm: missing HHDM or memmap";
  lock;;
  modify (set_vm (λ s, mkVmSt (Some alloc) (PT_ALLOC_LOCKED s)));;
  unlock;;
  r ← init_kernel;
  match r with
  | Err _ => panic "vm: mmu kernel init failed"
  | Ok _ =>
      r' ← enable_nx;
      match r' with
      | Err _ => panic "vm: enable NX failed"
      | Ok _ => mret ()
      end
  end.

Definition new_address_space : M World (result AddressSpace MapError) :=
  with_alloc address_space_new.

Definition destroy_address_space (aspace : AddressSpace) : M World unit :=
  with_alloc (λ alloc, address_space_destroy alloc aspace).

Definition map_4k (aspace : AddressSpace) (vaddr : VirtAddr) (paddr : PhysAddr) (flags : MapFlags)
  : M World (result unit MapError) :=
  with_alloc (λ alloc, X86Mmu.map_4k alloc aspace vaddr paddr flags).

Definition unmap_4k (aspace : AddressSpace) (vaddr : VirtAddr) : M World (result unit MapError) :=
  X86Mmu.unmap_4k aspace vaddr.

Definition protect_4k (aspace : AddressSpace) (vaddr : VirtAddr) (flags : MapFlags)
  : M World (result unit MapError) :=
  X86Mmu.protect_4k aspace vaddr flags.

Definition translate (aspace : AddressSpace) (vaddr : VirtAddr)
  : M World (result PhysAddr TranslateError) :=
  X86Mmu.translate aspace vaddr.
