(* ===== verification/SpaceFrames.v ===== *)
(** * Address spaces side by side

    What an edit of one tree of tables leaves of another, and the leaf
    entries of the user half as the contents of an address space. *)

From S2P Require Import Prelude HalTypes Paging World Hal Cpu Apic X86Mmu MmuProofs MmuSpec AspaceSpec AspaceDestroy.

#[local] Abbreviation m_of w := (mem64 (hw w)).

(** ** User addresses *)

(** The canonical lower half. *)
Definition user_va (v : Z) : Prop := 0 <= v < 2 ^ 47.

Lemma user_va_index v : user_va v → 0 <= index 3 v < 256.
Proof.
  unfold user_va, index. intros Hv. change (2 ^ level_shift 3) with 549755813888.
  Z.to_euclidean_division_equations. lia.
Qed.

Lemma user_va_canonical v : user_va v → canonical v ∧ is_u64 v ∧ is_canonical v = true.
Proof.
  unfold user_va. intros Hv. assert (canonical v) by (by left).
  assert (is_u64 v) by (unfold is_u64, U64; lia). split_and!; [done|done|]. by apply is_canonical_spec.
Qed.

Lemma user_page_arg va : user_va va → va mod 4096 = 0 → page_arg va.
Proof.
  intros (_ & Hu & Hc)%user_va_canonical Ha. split_and!; [done|by apply aligned_4k_spec|done].
Qed.

(** ** Trees whose tables are the same *)

Definition same_tables (m m' : ram) (root : Z) : Prop :=
  ∀ x j, reachable m root x → table_index j → pte m' x j = pte m x j.

Section same.
Context (m m' : ram) (root : Z) (Hs : same_tables m m' root).

Lemma same_follow q : table_path q → follow m' root q = follow m root q.
Proof.
  intros Hq. apply follow_agree. intros k i t Hi Ht. apply Hs.
  - exists (take k q). eauto using table_path_take.
  - destruct Hq as [_ Hq]. by eapply Forall_lookup_1.
Qed.

Lemma same_reachable x : reachable m' root x ↔ reachable m root x.
Proof. split; intros (q & Hq & Hx); exists q; (split; [done|]); [rewrite <- same_follow|rewrite same_follow]; done. Qed.

Lemma same_walk v : hw_walk m' root v = hw_walk m root v.
Proof.
  apply walk_agree. intros k t Hk Ht. apply Hs; [|apply index_range].
  exists (take k (path 3 v)). eauto using take_path_ok.
Qed.

Lemma same_path_entries P v : path_entries P m root v → path_entries P m' root v.
Proof.
  intros HP k t Hk Ht Hp. rewrite same_follow in Ht by (apply take_path_ok; lia).
  rewrite Hs in Hp |- *; try apply index_range; [by eapply HP| |];
    (exists (take k (path 3 v)); split; [apply take_path_ok; lia|done]).
Qed.

Lemma same_tree limit : tree_ok limit m root → tree_ok limit m' root.
Proof.
  intros [Ha Hn Hr]. split; [done| |].
  - intros p q t Hp Hq. rewrite !same_follow by done. by apply Hn.
  - intros t Ht%same_reachable. by apply Hr.
Qed.

Lemma same_user_tables x : x ∈ user_tables m' root ↔ x ∈ user_tables m root.
Proof.
  rewrite !elem_of_user_tables. f_equiv. f_equiv; intros i. f_equiv; intros q.
  split; intros (Hi & Hq & Hx); (split_and!; [lia|lia|done|]); [rewrite <- same_follow|rewrite same_follow]; done.
Qed.
End same.

(** ** The leaf entries *)

(** The present leaf entry of [v]. *)
Definition live_leaf (m : ram) (root v : Z) : option Z :=
  match leaf_entry m root v with
  | Some e => if pte_present e then Some e else None
  | None => None
  end.

Lemma same_live_leaf m m' root v : same_tables m m' root → live_leaf m' root v = live_leaf m root v.
Proof.
  intros Hs. unfold live_leaf, leaf_entry. rewrite (same_follow m m' root Hs) by (apply take_path_ok; lia).
  destruct (follow m root (take 3 (path 3 v))) as [t|] eqn:Ht; [|done]. cbn [mbind option_bind].
  rewrite (Hs t (index 0 v)); [done| |apply index_range]. exists (take 3 (path 3 v)). split; [by apply take_path_ok|done].
Qed.

Lemma live_leaf_some m root v e : live_leaf m root v = Some e ↔
  ∃ t, follow m root (take 3 (path 3 v)) = Some t ∧ pte m t (index 0 v) = e ∧ pte_present e = true.
Proof.
  unfold live_leaf, leaf_entry. destruct (follow m root (take 3 (path 3 v))) as [t|]; cbn [mbind option_bind].
  - destruct (pte_present (pte m t (index 0 v))) eqn:Hp; split.
    + intros [= <-]. by exists t.
    + by intros (? & [= <-] & -> & _).
    + done.
    + intros (? & [= <-] & <- & ?). congruence.
  - split; [done|by intros (? & ? & _)].
Qed.

Lemma live_leaf_none m root v : no_large m root v → live_leaf m root v = None ↔ hw_walk m root v = None.
Proof.
  intros Hnl. unfold live_leaf, leaf_entry. destruct (follow m root (take 3 (path 3 v))) as [t|] eqn:Ht; cbn [mbind option_bind].
  - rewrite (walk_leaf _ _ _ _ Ht). by destruct (pte_present _).
  - by rewrite walk_no_table.
Qed.

Lemma live_leaf_page m root v v' : page_of v = page_of v' → live_leaf m root v = live_leaf m root v'.
Proof.
  intros E. unfold live_leaf, leaf_entry. by rewrite (path_page _ _ E), !(index_page 0), E.
Qed.

(** An entry above the page tables of the user half: a table, open for
    writing and execution and, with [ub], to user code. *)
Definition table_entry_ok (ub : bool) (e : Z) : Prop := pte_large e = false ∧ open_entry ub e.

Lemma new_table_entry_ok ub user f : (ub = true → user = true) → frame_ok_range f →
  table_entry_ok ub (Z.lor (frame_of f) (table_flags user)).
Proof.
  intros Hu Hf. split; [by apply new_table_not_large|]. destruct (new_table_open user f Hf) as (H1 & H2 & H3).
  split_and!; auto.
Qed.

Lemma path_entries_mono (P Q : Z → Prop) m root v : (∀ e, P e → Q e) →
  path_entries P m root v → path_entries Q m root v.
Proof. intros H HP k t Hk Ht Hp. by apply H, HP. Qed.

Lemma entry_ok_no_large ub m root v : path_entries (table_entry_ok ub) m root v → no_large m root v.
Proof. apply path_entries_mono. by intros e []. Qed.

(** What the processor makes of a leaf below open tables. *)
Lemma live_leaf_walk ub m root v e : path_entries (table_entry_ok ub) m root v → live_leaf m root v = Some e →
  ∃ mp, hw_walk m root v = Some mp ∧ m_pa mp = frame_of e + v mod 4096 ∧ m_level mp = 0%nat ∧
    m_w mp = pte_write e ∧ m_nx mp = pte_nx e ∧ m_g mp = pte_global e ∧ (m_u mp = true → pte_user e = true) ∧ (ub = true → m_u mp = pte_user e).
Proof.
  intros Hp (t & Ht & He & Hpr)%live_leaf_some.
  destruct (collect_open ub m root v t Ht) as (Hw & Hub & Hn).
  { revert Hp. apply path_entries_mono. by intros ? []. }
  rewrite (walk_leaf _ _ _ _ Ht), He, Hpr. eexists. split; [done|]. unfold leaf_mapping, restrict.
  cbn [m_pa m_w m_u m_nx m_g m_level r_w r_u r_nx]. rewrite Hw, Hn. split_and!; try done.
  - by intros [_ ?]%andb_true_iff.
  - intros E. by rewrite Hub.
Qed.

(** ** Edits of the user half *)

Section edits.
Context (ub : bool) (A : PageTableFrameAlloc) `{!FrameAllocLaws A} (root : Z).

(** What an operation on a user page of [root] may change. *)
Record edited (w w' : World) : Prop := mkEdited {
  ed_env : env w' = env w;
  ed_hhdm : HHDM_OFFSET w' = HHDM_OFFSET w;
  ed_mmu : mmu w' = mmu w;
  ed_inv : space_inv A root w';
  ed_avail : ∀ f, fa_avail w' f → fa_avail w f;
  ed_entries : ∀ x j, x mod 4096 = 0 → table_index j →
    x ∉ user_tables (m_of w) root → ¬ fa_avail w x → pte (m_of w') x j = pte (m_of w) x j;
  ed_kernel : ∀ j, 256 <= j < 512 → pte (m_of w') root j = pte (m_of w) root j;
  ed_tables : ∀ x, x ∈ user_tables (m_of w') root → x ∈ user_tables (m_of w) root ∨ fa_avail w x;
  ed_path : ∀ v, path_entries (table_entry_ok ub) (m_of w) root v →
    path_entries (table_entry_ok ub) (m_of w') root v
}.

Lemma edited_refl w : space_inv A root w → edited w w.
Proof. split; auto. Qed.

Lemma edited_trans w1 w2 w3 : edited w1 w2 → edited w2 w3 → edited w1 w3.
Proof.
  intros [] []. split; try congruence; eauto.
  - intros x j Hx Hj Hu Ha. rewrite ed_entries1, ed_entries0; try done; [|naive_solver].
    intros [?|?]%ed_tables0; done.
  - intros j Hj. by rewrite ed_kernel1, ed_kernel0.
  - intros x [[?|?]%ed_tables0|?]%ed_tables1; eauto.
Qed.

(** The tables on the path of a user address belong to the user half. *)
Lemma user_path_table m va k x : user_va va → (k <= 3)%nat →
  follow m root (take k (path 3 va)) = Some x → x ∈ user_tables m root.
Proof.
  intros Hva Hk Hx. apply elem_of_user_tables. destruct k as [|k]; [by injection Hx as <-; left|right].
  exists (index 3 va), (take k (path 2 va)). split_and!; [by apply user_va_index|by apply user_va_index| |exact Hx].
  apply (take_path_ok (S k) va). lia.
Qed.

Lemma edited_grown user va w w1 : (ub = true → user = true) → user_va va → space_inv A root w → grown A user root va w w1 → edited w w1.
Proof.
  intros Hub Hva Hinv Hg. pose proof (gr_same _ _ _ _ _ _ Hg) as Hs. split; try apply Hs; try apply Hg.
  - intros x j Hx Hj Hu Ha. apply (gr_other _ _ _ _ _ _ Hg); [done|done| |done].
    intros (k & Hk & Hf & _). apply Hu. eapply user_path_table; [done| |done]. lia.
  - intros j Hj. apply (gr_other _ _ _ _ _ _ Hg); [apply Hinv|unfold table_index; lia| |].
    + intros (k & Hk & Hf & ->).
      assert (take k (path 3 va) = []) as E.
      { apply (tree_no_alias _ _ _ (si_tree _ _ _ Hinv) _ _ root); [apply take_path_ok; lia| |done|done].
        split; [cbn; lia|constructor]. }
      destruct k; [|done]. pose proof (user_va_index va Hva). change (3 - 0)%nat with 3%nat in Hj. lia.
    + intros Hav. by apply (si_fresh _ _ _ Hinv root), root_reachable.
  - intros x [->|(i & p & Hi & Hp & Hx)]%elem_of_user_tables; [left; apply elem_of_user_tables; by left|].
    destruct (gr_back _ _ _ _ _ _ Hg _ x Hp Hx); [left|by right]. apply elem_of_user_tables. right. by exists i, p.
  - intros v Hv. apply (gr_entries _ _ _ _ _ _ Hg); [done|]. intros f. by apply new_table_entry_ok.
Qed.

Lemma edited_leaf va t e w : user_va va → va mod 4096 = 0 → space_inv A root w →
  follow (m_of w) root (take 3 (path 3 va)) = Some t → edited w (set_leaf t va e w).
Proof.
  intros Hva Hal Hinv Ht. destruct (user_va_canonical va Hva) as (Hc & _).
  pose proof (si_tree _ _ _ Hinv) as Htree.
  assert (∀ q, table_path q → follow (m_of (set_leaf t va e w)) root q = follow (m_of w) root q) as Hfl.
  { intros q Hq. rewrite set_leaf_mem. by erewrite leaf_follow. }
  assert (t mod 4096 = 0) as Hta by (eapply follow_aligned; [apply Htree|done]).
  split; try done.
  - apply set_leaf_inv; [by apply user_page_arg|done|done].
  - intros f Hf. by apply (fa_stable w _ (same_kernel_set_leaf t va e w) (si_alloc _ _ _ Hinv)).
  - intros x j Hx Hj Hu _. rewrite set_leaf_mem. apply pte_insert_ne; [done|done|apply index_range|done|].
    intros [= -> _]. apply Hu. by eapply user_path_table.
  - intros j Hj. rewrite set_leaf_mem. apply pte_insert_ne; [done|apply Htree|apply index_range|unfold table_index; lia|].
    intros [= -> _]. assert (take 3 (path 3 va) = []); [|done].
    apply (tree_no_alias _ _ _ Htree _ _ root); [by apply take_path_ok| |done|done]. split; [cbn; lia|constructor].
  - intros x. rewrite !elem_of_user_tables. intros [->|(i & p & Hi & Hp & Hx)]; left; [by left|right].
    exists i, p. rewrite Hfl in Hx by done. done.
  - intros v. rewrite set_leaf_mem. by eapply leaf_path_entries.
Qed.

(** Growing the tables changes no leaf. *)
Lemma grown_live user va w w1 v : grown A user root va w w1 → no_large (m_of w) root v →
  live_leaf (m_of w1) root v = live_leaf (m_of w) root v.
Proof.
  intros Hg Hnl. destruct (live_leaf (m_of w) root v) as [e|] eqn:E.
  - apply live_leaf_some in E as (t & Ht & He & Hp). apply live_leaf_some. exists t.
    split_and!; [by apply (gr_follow _ _ _ _ _ _ Hg); [apply take_path_ok|]| |done].
    rewrite (gr_keep _ _ _ _ _ _ Hg); [done|by exists (take 3 (path 3 v)); split; [apply take_path_ok|]|apply index_range|by rewrite He].
  - apply live_leaf_none; [|rewrite (gr_walk _ _ _ _ _ _ Hg); by apply live_leaf_none].
    apply (gr_entries _ _ _ _ _ _ Hg); [done|]. apply new_table_not_large.
Qed.

Lemma leaf_live va t e w v : user_va va → user_va v → tree_ok (phys_limit (env w)) (m_of w) root →
  follow (m_of w) root (take 3 (path 3 va)) = Some t →
  live_leaf (m_of (set_leaf t va e w)) root v =
  if decide (page_of v = page_of va) then (if pte_present e then Some e else None)
  else live_leaf (m_of w) root v.
Proof.
  intros Hva Hv Htree Ht. destruct (user_va_canonical va Hva) as (Hc & _), (user_va_canonical v Hv) as (Hcv & _).
  rewrite set_leaf_mem. case_decide as Hpg.
  - rewrite (live_leaf_page _ _ _ _ Hpg). unfold live_leaf. by erewrite leaf_entry_new.
  - unfold live_leaf. erewrite leaf_entry_other; eauto.
Qed.
End edits.
