(* ===== verification/VmProofs.v ===== *)
(** * Correctness of the boot-time frame allocator

    Which frames [BootPtAlloc] may still hand out, that a call hands out one
    of them at most once and zeroed, that it fails only when none is left,
    and that it discharges the MMU's allocator contract. *)

From S2P Require Import Prelude Layout Bootabi HalTypes Paging World Hal Cpu Apic X86Mmu MmuProofs MmuSpec Vm.

(** ** Alignment *)

Lemma align_up_eq v w : 0 <= v → v + 4096 < U64 → align_up v 4096 w = Ret (round_up v 4096) w.
Proof.
  intros H0 H1. unfold align_up, add64, sub64, mbind, M_bind, mret, M_ret.
  rewrite (proj2 (Z.ltb_lt _ _) H1), (proj2 (Z.leb_le _ _)) by lia. f_equal.
  change (not64 (4096 - 1)) with (Z.shiftl (Z.ones 52) 12).
  rewrite land_shifted_ones by lia. unfold round_up. change (2 ^ 12) with 4096. f_equal.
  unfold U64 in H1. apply Z.mod_small. Z.to_euclidean_division_equations. lia.
Qed.

Lemma round_up_least v g : v <= g → g mod 4096 = 0 → round_up v 4096 <= g.
Proof. intros Hv Hg. unfold round_up. Z.to_euclidean_division_equations. lia. Qed.

(** ** The frames of the memory map *)

Definition map_entry (w : World) (a : BootPtAlloc) (i : Z) : option MemMapEntry :=
  mem_entries (hw w) !! (pa_entries_ptr a + sizeof_MemMapEntry * i).

(** [f] is a whole frame inside the usable entry [e]. *)
Definition in_entry (e : MemMapEntry) (f : Z) : Prop :=
  is_usable (mem_type e) = true ∧ f mod 4096 = 0 ∧ base e <= f ∧ f + 4096 <= base e + len e.

(** The frames the cursor has not passed yet. *)
Definition remaining (w : World) (a : BootPtAlloc) (f : Z) : Prop :=
  ∃ i e, pa_cur_entry a <= i < pa_entry_count a ∧ map_entry w a i = Some e ∧
    in_entry e f ∧ (i = pa_cur_entry a → pa_cur_addr a <= f).

Definition free_frames (a : BootPtAlloc) : list PhysAddr :=
  take (Z.to_nat (pa_free_count a)) (pa_free_list a).

(** A memory map the allocator can be run on: its usable entries lie in the
    memory the direct map covers and share no frame. *)
Record map_ok (w : World) (a : BootPtAlloc) : Prop := mkMapOk {
  mo_hhdm : pa_hhdm_offset a = hhdm_base (env w);
  mo_base : 0 <= hhdm_base (env w);
  mo_fits : hhdm_base (env w) + phys_limit (env w) <= U64;
  mo_limit : phys_limit (env w) <= 2 ^ 52;
  mo_entries : ∀ i, 0 <= i < pa_entry_count a → ∃ e, map_entry w a i = Some e ∧
    (is_usable (mem_type e) = true →
     0 <= base e ∧ 0 <= len e ∧ base e + len e <= phys_limit (env w));
  mo_disjoint : ∀ i j ei ej f, 0 <= i < pa_entry_count a → 0 <= j < pa_entry_count a →
    map_entry w a i = Some ei → map_entry w a j = Some ej →
    in_entry ei f → in_entry ej f → i = j
}.

Record cursor_ok (w : World) (a : BootPtAlloc) : Prop := mkCursorOk {
  co_entry : 0 <= pa_cur_entry a <= pa_entry_count a;
  co_addr : 0 <= pa_cur_addr a <= phys_limit (env w)
}.

(** A frame is given to the free list at most once and never while the cursor
    can still reach it. *)
Record free_ok (w : World) (a : BootPtAlloc) : Prop := mkFreeOk {
  fo_len : length (pa_free_list a) = MAX_FREE_FRAMES;
  fo_count : 0 <= pa_free_count a <= Z.of_nat MAX_FREE_FRAMES;
  fo_nodup : NoDup (free_frames a);
  fo_frames : ∀ f, f ∈ free_frames a → frame_ok w f ∧ ¬ remaining w a f
}.

Definition alloc_inv (w : World) : Prop :=
  ∃ a, PT_ALLOC (vm w) = Some a ∧ map_ok w a ∧ cursor_ok w a ∧ free_ok w a.

Definition available (w : World) (f : Z) : Prop :=
  ∃ a, PT_ALLOC (vm w) = Some a ∧ (f ∈ free_frames a ∨ remaining w a f).

(** ** The cursor *)

Lemma remaining_frame w a f : map_ok w a → cursor_ok w a → remaining w a f → frame_ok w f.
Proof.
  intros Hm [Hc _] (i & e & Hi & He & (Hu & Hf & Hb & Ht) & _).
  destruct (mo_entries _ _ Hm i) as (e' & He' & Hr); [lia|]. simplify_eq.
  destruct (Hr Hu) as (? & ? & ?). split; [done|]. lia.
Qed.

(** Moving past an entry that has no frame left loses nothing. *)
Lemma remaining_skip w a f : map_ok w a → cursor_ok w a →
  (∀ e, map_entry w a (pa_cur_entry a) = Some e → in_entry e f → pa_cur_addr a <= f → False) →
  remaining w (set_cursor (pa_cur_entry a + 1) 0 a) f ↔ remaining w a f.
Proof.
  intros Hm [Hce _] Hskip. split; intros (i & e & Hi & He & Hin & Hc); simpl in *.
  - exists i, e. split_and!; [lia|lia|done|done|lia].
  - destruct (decide (i = pa_cur_entry a)) as [->|Hne].
    + exfalso. eapply Hskip; eauto.
    + exists i, e. cbn. split_and!; [lia|lia|done|done|].
      intros _. destruct (mo_entries _ _ Hm i) as (e' & He' & Hr); [lia|].
      change (map_entry w a i = Some e) in He. simplify_eq.
      destruct Hin as (Hu & _ & Hb & _). destruct (Hr Hu). lia.
Qed.

(** Taking the least frame [f] of the current entry at or above the cursor. *)
Lemma remaining_take w a e f : map_ok w a → cursor_ok w a →
  pa_cur_entry a < pa_entry_count a → map_entry w a (pa_cur_entry a) = Some e → in_entry e f →
  pa_cur_addr a <= f →
  (∀ g, in_entry e g → pa_cur_addr a <= g → f <= g) →
  remaining w a f ∧
  ∀ g, remaining w (set_cursor (pa_cur_entry a) (f + 4096) a) g ↔ remaining w a g ∧ g ≠ f.
Proof.
  intros Hm [Hce _] Hlt He Hin Hcf Hleast. split.
  { exists (pa_cur_entry a), e. split_and!; [lia|done|done|done|done]. }
  intros g. split.
  - intros (i & e' & Hi & He' & Hin' & Hc). simpl in *.
    change (map_entry w a i = Some e') in He'. split.
    + exists i, e'. split_and!; [lia|lia|done|done|]. intros ->. specialize (Hc eq_refl). lia.
    + intros ->. assert (i = pa_cur_entry a) as ->.
      { eapply (mo_disjoint _ _ Hm); eauto; lia. }
      specialize (Hc eq_refl). lia.
  - intros [(i & e' & Hi & He' & Hin' & Hc) Hne]. exists i, e'. cbn.
    split_and!; [lia|lia|done|done|]. intros ->. simplify_eq. specialize (Hc eq_refl).
    pose proof (Hleast g Hin' Hc). destruct Hin as (_ & Hfa & _), Hin' as (_ & Hga & _).
    Z.to_euclidean_division_equations. lia.
Qed.

Lemma map_ok_cursor w a c d : map_ok w a → map_ok w (set_cursor c d a).
Proof. by intros []. Qed.

(** What [next_from_map] promises: the next frame with the cursor moved past
    exactly that frame, or the news that no frame is left. *)
Definition next_post (w : World) (a : BootPtAlloc) (r : option PhysAddr * BootPtAlloc)
  (w' : World) : Prop :=
  w' = w ∧ (∃ c d, r.2 = set_cursor c d a) ∧ cursor_ok w r.2 ∧
  match r.1 with
  | Some f => remaining w a f ∧ ∀ g, remaining w r.2 g ↔ remaining w a g ∧ g ≠ f
  | None => ∀ g, ¬ remaining w a g ∧ ¬ remaining w r.2 g
  end.

Lemma wp_next_skip w fuel a e :
  (∀ a, map_ok w a → cursor_ok w a → pa_entry_count a - pa_cur_entry a < Z.of_nat fuel →
    wp (next_loop fuel a) (next_post w a) w) →
  map_ok w a → cursor_ok w a → pa_cur_entry a < pa_entry_count a →
  pa_entry_count a - pa_cur_entry a < Z.of_nat (S fuel) →
  map_entry w a (pa_cur_entry a) = Some e →
  (∀ g, in_entry e g → pa_cur_addr a <= g → False) →
  wp (next_loop fuel (set_cursor (pa_cur_entry a + 1) 0 a)) (next_post w a) w.
Proof.
  intros IH Hm [Hce Hca] Hlt Hfuel He Hnone.
  assert (∀ g, remaining w (set_cursor (pa_cur_entry a + 1) 0 a) g ↔ remaining w a g) as Hrem.
  { intros g. apply remaining_skip; [done|done|]. intros e' He'. simplify_eq. apply Hnone. }
  eapply wp_mono; [apply IH|].
  - by apply map_ok_cursor.
  - split; cbn; lia.
  - cbn. lia.
  - intros [o a'] w' (-> & (c & d & E) & Hc' & Hr). split_and!; [done|by exists c, d|done|].
    cbn in *. destruct o; setoid_rewrite Hrem in Hr; done.
Qed.

(** The loop, with more fuel than entries left, never runs out of it. *)
Lemma wp_next_loop w fuel a :
  map_ok w a → cursor_ok w a → pa_entry_count a - pa_cur_entry a < Z.of_nat fuel →
  wp (next_loop fuel a) (next_post w a) w.
Proof.
  revert a. induction fuel as [|fuel IH]; intros a Hm Hc Hfuel; [destruct Hc; lia|].
  pose proof Hc as [Hce Hca]. pose proof (mo_limit _ _ Hm) as Hlim.
  cbn [next_loop]. destruct (Z.ltb_spec (pa_cur_entry a) (pa_entry_count a)) as [Hlt|Hge]; cbn [negb].
  2: { wp_step. unfold next_post. cbn [fst snd]. split_and!; [done| |done|].
       - exists (pa_cur_entry a), (pa_cur_addr a). by destruct a.
       - intros g. assert (¬ remaining w a g); [|done]. intros (i & e & Hi & _). lia. }
  destruct (mo_entries _ _ Hm (pa_cur_entry a)) as (e & He & Hu); [lia|].
  unfold entry_at. rewrite (proj2 (Z.leb_gt _ _)) by lia. wp_steps.
  eapply wp_intro; [unfold load_entry; unfold map_entry in He; by rewrite He|]. wp_steps.
  destruct (is_usable (mem_type e)) eqn:Eu; cbn [negb].
  2: { eapply wp_next_skip; eauto. intros g (Hg & _). congruence. }
  destruct (Hu eq_refl) as (Hb0 & Hl0 & Hend).
  unfold checked_add. rewrite (proj2 (Z.ltb_lt (base e + len e) U64)) by (unfold U64; lia).
  set (v := if pa_cur_addr a <? base e then base e else pa_cur_addr a).
  assert (v = Z.max (base e) (pa_cur_addr a)) as Hv.
  { unfold v. destruct (Z.ltb_spec (pa_cur_addr a) (base e)); lia. }
  assert (0 <= v <= 2 ^ 52) as Hvr by lia.
  wp_step. eapply wp_intro; [apply align_up_eq; unfold U64; lia|].
  pose proof (round_up_le v 4096 ltac:(lia)). pose proof (round_up_lt v 4096 ltac:(lia)).
  rewrite (proj2 (Z.ltb_lt _ U64)) by (unfold U64, PAGE_SIZE; lia).
  assert (∀ g, in_entry e g → pa_cur_addr a <= g → round_up v 4096 <= g) as Hleast.
  { intros g (_ & Hg & Hbg & _) Hcg. apply round_up_least; [lia|done]. }
  destruct (Z.ltb_spec (base e + len e) (round_up v 4096 + PAGE_SIZE)) as [Hno|Hfit].
  - eapply wp_next_skip; eauto. intros g Hg Hcg. pose proof (Hleast g Hg Hcg).
    destruct Hg as (_ & _ & _ & Hg). unfold PAGE_SIZE in *. lia.
  - wp_step. apply wp_add64; [unfold U64, PAGE_SIZE; lia|]. wp_step. unfold PAGE_SIZE in *.
    destruct (remaining_take w a e (round_up v 4096)) as [Hr1 Hr2]; try done.
    + split_and!; [done|by apply round_up_aligned|lia|lia].
    + lia.
    + unfold next_post. cbn [fst snd]. split_and!; [done|by eauto|split; cbn; lia|done|done].
Qed.

(** ** Allocation and release *)

Definition with_pt_alloc (a : BootPtAlloc) (w : World) : World :=
  set_vm (λ s, mkVmSt (Some a) (PT_ALLOC_LOCKED s)) w.

Lemma wp_get_alloc w a (Q : BootPtAlloc → World → Prop) :
  PT_ALLOC (vm w) = Some a → Q a w → wp get_alloc Q w.
Proof. intros Ha HQ. unfold get_alloc. wp_steps. by rewrite Ha. Qed.

Lemma wp_pa_zero_frame w a f (Q : unit → World → Prop) :
  map_ok w a → frame_ok w f →
  Q () (set_mem64 (zero_cells (mem64 (hw w)) f 512) w) → wp (pa_zero_frame a f) Q w.
Proof.
  intros Hm (Ha & H0 & H1) HQ. unfold pa_zero_frame, wrapping_add.
  pose proof (mo_fits _ _ Hm). pose proof (mo_base _ _ Hm).
  rewrite (mo_hhdm _ _ Hm), Z.mod_small by lia. by apply wp_write_zero64.
Qed.

(** The last frame of the free list. *)
Lemma free_frames_pop w a : free_ok w a → 0 < pa_free_count a →
  ∃ f, pa_free_list a !! Z.to_nat (pa_free_count a - 1) = Some f ∧
    free_frames a = free_frames (set_free (pa_free_list a) (pa_free_count a - 1) a) ++ [f].
Proof.
  intros [Hl Hc _ _] Hpos. unfold MAX_FREE_FRAMES in *.
  destruct (lookup_lt_is_Some_2 (pa_free_list a) (Z.to_nat (pa_free_count a - 1))) as [f Hf]; [lia|].
  exists f. split; [done|]. unfold free_frames. cbn.
  replace (Z.to_nat (pa_free_count a)) with (S (Z.to_nat (pa_free_count a - 1))) by lia.
  by apply take_S_r.
Qed.

Definition alloc_post (w : World) (r : option PhysAddr) (w' : World) : Prop :=
  alloc_inv w' ∧ same_but_alloc w w' ∧ mem_entries (hw w') = mem_entries (hw w) ∧
  match r with
  | Some f => available w f ∧ frame_ok w f ∧ (∀ g, available w' g ↔ available w g ∧ g ≠ f) ∧
              mem64 (hw w') = zero_cells (mem64 (hw w)) f 512
  | None => (∀ g, ¬ available w g ∧ ¬ available w' g) ∧ mem64 (hw w') = mem64 (hw w)
  end.

(** A frame leaves the allocator whose object becomes [a']. *)
Lemma alloc_post_some w a a' f :
  PT_ALLOC (vm w) = Some a → map_ok w a' → cursor_ok w a' → free_ok w a' → frame_ok w f →
  (f ∈ free_frames a ∨ remaining w a f) →
  (∀ g, g ∈ free_frames a' ∨ remaining w a' g ↔ (g ∈ free_frames a ∨ remaining w a g) ∧ g ≠ f) →
  alloc_post w (Some f) (set_mem64 (zero_cells (mem64 (hw w)) f 512) (with_pt_alloc a' w)).
Proof.
  intros Ha Hm Hc Hfo Hf Hin Hiff.
  split; [by exists a'; split; [done|destruct Hm, Hc, Hfo]|].
  split; [done|]. split; [done|]. split; [by exists a|]. split; [done|]. split; [|done].
  intros g. split.
  - intros (a2 & [= <-] & Hg). apply Hiff in Hg as [Hg Hne]. split; [|done]. by exists a.
  - intros [(a2 & Ha2 & Hg) Hne]. simplify_eq. exists a'. split; [done|]. by apply Hiff.
Qed.

Lemma alloc_from_free_list w a : PT_ALLOC (vm w) = Some a →
  map_ok w a → cursor_ok w a → free_ok w a → 0 < pa_free_count a →
  wp pa_alloc_frame_4k (alloc_post w) w.
Proof.
  intros Ha Hm Hc Hfo Hpos. unfold pa_alloc_frame_4k. wp_step. apply (wp_get_alloc _ a); [done|].
  rewrite (proj2 (Z.ltb_lt _ _) Hpos). cbv zeta. unfold put_alloc. wp_steps.
  destruct (free_frames_pop w a Hfo Hpos) as (f & Hf & Hsplit). rewrite Hf. wp_steps.
  pose proof (fo_nodup _ _ Hfo) as Hnd. pose proof (fo_frames _ _ Hfo) as Hff.
  rewrite Hsplit in Hnd, Hff. apply NoDup_app in Hnd as (Hnd & Hdis & _).
  destruct (Hff f) as [Hok Hnr]; [set_solver|].
  apply wp_pa_zero_frame; [by destruct Hm|done|]. wp_step.
  apply (alloc_post_some w a (set_free (pa_free_list a) (pa_free_count a - 1) a));
    [done|by destruct Hm|by destruct Hc| |done| |].
  - destruct Hfo as [Hl Hcnt _ _]. split; [done|cbn; lia|done|]. intros g Hg. apply Hff. set_solver.
  - left. rewrite Hsplit. set_solver.
  - intros g. rewrite Hsplit. change (remaining w (set_free _ _ a) g) with (remaining w a g).
    split; [|set_solver]. intros [Hg|Hg]; (split; [set_solver|]); intros ->; [|done].
    apply (Hdis _ Hg). set_solver.
Qed.

Lemma alloc_from_map w a : PT_ALLOC (vm w) = Some a →
  map_ok w a → cursor_ok w a → free_ok w a → pa_free_count a <= 0 →
  wp pa_alloc_frame_4k (alloc_post w) w.
Proof.
  intros Ha Hm Hc Hfo Hz. unfold pa_alloc_frame_4k. wp_step. apply (wp_get_alloc _ a); [done|].
  rewrite (proj2 (Z.ltb_ge _ _) Hz). wp_steps. unfold next_from_map.
  eapply wp_mono; [apply wp_next_loop; [done|done|]|].
  { destruct Hc. lia. }
  assert (free_frames a = []) as Hnil.
  { unfold free_frames. by replace (Z.to_nat (pa_free_count a)) with 0%nat by lia. }
  intros [o a'] w' (-> & (c & d & E) & Hc' & Hr). cbn [fst snd] in *. subst a'.
  unfold put_alloc. wp_steps.
  assert (free_ok w (set_cursor c d a)) as Hfo'.
  { destruct Hfo as [Hl Hcnt _ _]. split; [done|done| |].
    - change (free_frames (set_cursor c d a)) with (free_frames a). rewrite Hnil. constructor.
    - change (free_frames (set_cursor c d a)) with (free_frames a). rewrite Hnil. set_solver. }
  destruct o as [f|]; wp_steps.
  - destruct Hr as [Hr1 Hr2]. assert (frame_ok w f) by by eapply remaining_frame.
    apply wp_pa_zero_frame; [by destruct Hm|done|]. wp_step.
    apply (alloc_post_some w a (set_cursor c d a));
      [done|by apply map_ok_cursor|done|done|done|by right|].
    intros g. change (free_frames (set_cursor c d a)) with (free_frames a). rewrite Hnil.
    specialize (Hr2 g). set_solver.
  - split; [by exists (set_cursor c d a); split; [done|destruct Hm, Hc', Hfo']|].
    split; [done|]. split; [done|]. split; [|done].
    intros g. destruct (Hr g) as [Hr1 Hr2]. split.
    + intros (a2 & Ha2 & [Hg|Hg]); simplify_eq; [|done]. rewrite Hnil in Hg. set_solver.
    + intros (a2 & [= <-] & [Hg|Hg]); [|done].
      change (free_frames (set_cursor c d a)) with (free_frames a) in Hg. rewrite Hnil in Hg. set_solver.
Qed.

Lemma wp_pa_alloc w : alloc_inv w → wp pa_alloc_frame_4k (alloc_post w) w.
Proof.
  intros (a & Ha & Hm & Hc & Hfo).
  destruct (Z.lt_ge_cases 0 (pa_free_count a)).
  - by eapply alloc_from_free_list.
  - by eapply alloc_from_map.
Qed.

Lemma wp_pa_free w f : alloc_inv w → frame_ok w f → ¬ available w f →
  wp (pa_free_frame_4k f) (λ _ w',
    alloc_inv w' ∧ same_but_alloc w w' ∧ mem64 (hw w') = mem64 (hw w) ∧
    mem_entries (hw w') = mem_entries (hw w) ∧
    (∀ g, available w' g → available w g ∨ g = f) ∧ (∀ g, available w g → available w' g)) w.
Proof.
  intros (a & Ha & Hm & Hc & Hfo) Hf Hna. pose proof Hfo as [Hl Hcnt Hnd Hff].
  unfold pa_free_frame_4k. wp_step. apply (wp_get_alloc _ a); [done|].
  destruct (Z.ltb_spec (pa_free_count a) (Z.of_nat MAX_FREE_FRAMES)) as [Hlt|Hge].
  2: { wp_step. split; [by exists a|]. split; [done|]. eauto. }
  set (n := Z.to_nat (pa_free_count a)).
  assert (n < length (pa_free_list a))%nat as Hn.
  { rewrite Hl. unfold n, MAX_FREE_FRAMES in *. lia. }
  rewrite (proj2 (Nat.ltb_lt _ _) Hn). set (a' := set_free _ _ a).
  assert (free_frames a' = free_frames a ++ [f]) as Hff'.
  { unfold free_frames, a'. cbn. replace (Z.to_nat (pa_free_count a + 1)) with (S n) by lia.
    rewrite (take_S_r _ n f).
    - by rewrite take_insert_ge by done.
    - by apply list_lookup_insert_eq. }
  assert (f ∉ free_frames a ∧ ¬ remaining w a f) as [Hnf Hnr].
  { split; intros ?; apply Hna; exists a; auto. }
  unfold put_alloc. wp_step. split.
  - exists a'. split; [done|]. split; [by destruct Hm|]. split; [by destruct Hc|]. split.
    + cbn. by rewrite length_insert.
    + cbn. lia.
    + rewrite Hff'. apply NoDup_app. split; [done|]. split; [set_solver|apply NoDup_singleton].
    + rewrite Hff'. intros g [Hg|Hg]%elem_of_app; [by apply Hff|].
      apply list_elem_of_singleton in Hg as ->. done.
  - split; [done|]. split; [done|]. split; [done|]. split.
    2: { intros g (a2 & Ha2 & Hg). simplify_eq. exists a'. split; [done|].
         destruct Hg as [Hg|Hg]; [|by right]. left. rewrite Hff'. set_solver. }
    intros g (a2 & [= <-] & [Hg|Hg]).
    + rewrite Hff' in Hg. apply elem_of_app in Hg as [Hg|Hg]; [left; exists a; auto|].
      right. by apply list_elem_of_singleton in Hg.
    + left. exists a. auto.
Qed.

(** The invariant and the available frames depend on the allocator object and
    the memory map only. *)
Lemma alloc_inv_stable w w' : env w' = env w → vm w' = vm w →
  mem_entries (hw w') = mem_entries (hw w) → alloc_inv w → alloc_inv w'.
Proof.
  intros He Hv Hm (a & Ha & [] & [] & [Hl Hc Hnd Hff]). exists a. rewrite Hv.
  unfold map_entry in *. split; [done|]. split; [|split].
  - split; unfold map_entry; rewrite ?He, ?Hm; done.
  - split; rewrite ?He; done.
  - split; [done..|]. intros f Hf. destruct (Hff f Hf) as [Hok Hnr].
    unfold frame_ok, remaining, map_entry in *. by rewrite He, Hm.
Qed.

Lemma available_stable w w' f : vm w' = vm w → mem_entries (hw w') = mem_entries (hw w) →
  available w' f → available w f.
Proof. unfold available, remaining, map_entry. by intros -> ->. Qed.

(** The boot-time allocator meets the MMU's contract. *)
#[export] Instance boot_alloc_laws : FrameAllocLaws boot_pt_alloc.
Proof.
  refine {| fa_inv := alloc_inv; fa_avail := available |}.
  - intros w w' (He & Hv & Hm) H. split; [by apply (alloc_inv_stable w)|].
    intros f. split; by apply available_stable.
  - intros w H. eapply wp_mono; [by apply wp_pa_alloc|].
    intros [f|] w' (Hi & Hs & _ & Hr); (split; [done|]); (split; [done|]).
    + destruct Hr as (Hav & Hok & Hiff & Hmem). split; [by intros g []%Hiff|].
      split_and!; [done| |done|done|].
      * by intros []%Hiff.
      * intros g Hg Hne. by apply Hiff.
    + destruct Hr as [Hr Hmem]. split; [|split; [done|]].
      * intros g Hg. by destruct (Hr g) as [_ ?].
      * intros g Hg. by destruct (Hr g) as [? _].
  - intros w f Hi Hf Hna. eapply wp_mono; [by apply wp_pa_free|]. naive_solver.
Defined.
