(* ===== verification/VmSpec.v ===== *)
(** * What the VM service promises

    The boot-time frame allocator as a set of available frames, the state
    [init] sets up, and the service calls end to end: under the [PT_ALLOC]
    lock, with the real allocator plugged into the MMU. *)

From S2P Require Import Prelude Layout Bootabi HalTypes Paging World Hal Cpu Apic ApicSpec X86Mmu MmuProofs MmuSpec TlbSpec AspaceSpec AspaceDestroy BootSpec Vm VmProofs.

#[local] Abbreviation m_of w := (mem64 (hw w)).

(** ** The allocator *)

(** C20: [alloc_frame_4k] returns; it hands out one of the available frames,
    zeroed, and exactly that frame stops being available; it fails only when
    no frame is available. *)
Theorem boot_alloc_frame w : alloc_inv w →
  wp pa_alloc_frame_4k (λ r w', alloc_inv w' ∧
    match r with
    | Some f => available w f ∧ frame_ok w f ∧
        (∀ i, table_index i → pte (m_of w') f i = 0) ∧
        (∀ t i, t mod 4096 = 0 → table_index i → t ≠ f → pte (m_of w') t i = pte (m_of w) t i) ∧
        (∀ g, available w' g ↔ available w g ∧ g ≠ f)
    | None => m_of w' = m_of w ∧ ∀ g, ¬ available w g
    end) w.
Proof.
  intros Hi. eapply wp_mono; [by apply wp_pa_alloc|]. intros [f|] w' (Hi' & _ & _ & Hr).
  - destruct Hr as (Hav & Hok & Hiff & ->). split_and!; [done|done|done| | |done].
    + intros i. apply pte_zero_in.
    + intros t i Ht Hti Hne. destruct Hok. by apply pte_zero_out.
  - destruct Hr as [Hr Hm]. split_and!; [done|done|]. intros g. apply Hr.
Qed.

(** [n] allocations in a row; the frames obtained, newest first. *)
Fixpoint alloc_frames (n : nat) : M World (list PhysAddr) :=
  match n with
  | O => mret []
  | S n' =>
      fs ← alloc_frames n';
      o ← pa_alloc_frame_4k;
      mret (match o with Some f => f :: fs | None => fs end)
  end.

Lemma wp_alloc_frames n w : alloc_inv w →
  wp (alloc_frames n) (λ fs w', (alloc_inv w' ∧ NoDup fs ∧
    (∀ f, f ∈ fs → available w f) ∧ (∀ g, available w' g ↔ available w g ∧ g ∉ fs)) ∧
    (length fs = n ∨ ∀ g, ¬ available w' g)) w.
Proof.
  intros Hi. induction n as [|n IH]; cbn [alloc_frames].
  { wp_step. split; [|by left]. split_and!; [done|constructor|set_solver|set_solver]. }
  wp_step. eapply wp_mono; [exact IH|]. intros fs w1 ((Hi1 & Hnd & Hin & Hiff) & Hlen).
  wp_step. eapply wp_mono; [by apply wp_pa_alloc|]. intros o w2 (Hi2 & _ & _ & Hr). wp_step.
  destruct o as [f|].
  - destruct Hr as (Hav & _ & Hiff2 & _). pose proof Hav as [Hav' Hnin]%Hiff. split.
    + split_and!; [done|by constructor|by intros f' [->|?]%elem_of_cons; auto|].
      intros g. rewrite Hiff2, Hiff, not_elem_of_cons. tauto.
    + left. destruct Hlen as [<-|Hlen]; [done|]. by destruct (Hlen f).
  - destruct Hr as [Hr _]. split.
    + split_and!; [done|done|done|]. intros g. rewrite <- Hiff. destruct (Hr g) as [H1 H2]. tauto.
    + right. intros g. apply Hr.
Qed.

(** C21: no frame is handed out twice: in any number of allocations the frames
    obtained are pairwise distinct, were available at the start and are not
    available any more. *)
Theorem boot_alloc_distinct n w : alloc_inv w →
  wp (alloc_frames n) (λ fs w', alloc_inv w' ∧ NoDup fs ∧
    (∀ f, f ∈ fs → available w f) ∧ (∀ g, available w' g ↔ available w g ∧ g ∉ fs)) w.
Proof. intros Hi. eapply wp_mono; [by apply wp_alloc_frames|]. by intros fs w' [? _]. Qed.

Lemma available_frame w f : alloc_inv w → available w f → frame_ok w f.
Proof.
  intros (a & Ha & Hm & Hc & Hfo) (a' & Ha' & Hf). simplify_eq. destruct Hf as [Hf|Hf].
  - by apply (fo_frames _ _ Hfo).
  - by eapply remaining_frame.
Qed.

(** Distinct frames below [limit] are at most [limit / 4096] many. *)
Lemma frames_bound (fs : list Z) limit : NoDup fs →
  (∀ f, f ∈ fs → f mod 4096 = 0 ∧ 0 <= f ∧ f + 4096 <= limit) → (length fs <= Z.to_nat (limit / 4096))%nat.
Proof.
  intros Hnd Hfs.
  assert (fs ⊆+ ((λ i, 4096 * i) <$> seqZ 0 (limit / 4096))) as Hs.
  { apply NoDup_submseteq; [done|]. intros f Hf. destruct (Hfs f Hf) as (Hm & H0 & Hl).
    apply list_elem_of_fmap. exists (f / 4096). rewrite elem_of_seqZ. Z.to_euclidean_division_equations. lia. }
  apply submseteq_length in Hs. by rewrite length_fmap, length_seqZ in Hs.
Qed.

(** C13: no frame is lost: once as many allocations were made as memory has
    frames, exactly the frames that were available at the start have been
    handed out, and none is left.  So every frame of the memory map comes up,
    the reclaimable ones included. *)
Theorem boot_alloc_exhausts n w : alloc_inv w → (Z.to_nat (phys_limit (env w) / 4096) < n)%nat →
  wp (alloc_frames n) (λ fs w', NoDup fs ∧ (∀ f, f ∈ fs ↔ available w f) ∧ ∀ g, ¬ available w' g) w.
Proof.
  intros Hi Hn. eapply wp_mono; [by apply wp_alloc_frames|]. intros fs w' ((_ & Hnd & Hin & Hiff) & Hlen).
  assert (∀ g, ¬ available w' g) as Hnone.
  { destruct Hlen as [Hlen|]; [|done]. exfalso.
    assert (length fs <= Z.to_nat (phys_limit (env w) / 4096))%nat; [|lia].
    apply frames_bound; [done|]. intros f Hf. by apply available_frame, Hin. }
  split_and!; [done| |done]. intros f. split; [apply Hin|]. intros Hf.
  destruct (decide (f ∈ fs)) as [|Hnf]; [done|]. destruct (Hnone f). by apply Hiff.
Qed.

(** A call of [free_frame_4k] in full: below the capacity of the free list
    the frame is pushed, at capacity nothing happens. *)
Lemma pa_free_eq w a f : PT_ALLOC (vm w) = Some a → free_ok w a →
  pa_free_frame_4k f w = Ret ()
    (if pa_free_count a <? Z.of_nat MAX_FREE_FRAMES
     then set_vm (λ s, mkVmSt (Some (set_free (<[Z.to_nat (pa_free_count a) := f]> (pa_free_list a))
                                       (pa_free_count a + 1) a)) (PT_ALLOC_LOCKED s)) w
     else w).
Proof.
  intros Ha [Hl Hc _ _]. unfold pa_free_frame_4k, get_alloc, mbind, M_bind, gets. rewrite Ha.
  unfold mret, M_ret. cbv beta iota.
  destruct (Z.ltb_spec (pa_free_count a) (Z.of_nat MAX_FREE_FRAMES)) as [Hlt|]; [|done].
  rewrite (proj2 (Nat.ltb_lt _ _)); [done|]. rewrite Hl. unfold MAX_FREE_FRAMES in *. lia.
Qed.

(** Entries the free list can still take. *)
Definition free_room (w : World) : nat :=
  match PT_ALLOC (vm w) with
  | Some a => Z.to_nat (Z.of_nat MAX_FREE_FRAMES - pa_free_count a)
  | None => 0
  end.

Lemma wp_pa_free_room w (f : PhysAddr) : alloc_inv w → frame_ok w f → ¬ available w f → (0 < free_room w)%nat →
  wp (pa_free_frame_4k f) (λ _ w',
    alloc_inv w' ∧ same_but_alloc w w' ∧ m_of w' = m_of w ∧
    free_room w' = pred (free_room w) ∧ (∀ g, available w' g ↔ available w g ∨ g = f)) w.
Proof.
  intros Hi Hf Hna Hroom. pose proof Hi as (a & Ha & Hm & Hc & Hfo).
  destruct (wp_elim _ _ _ (wp_pa_free w f Hi Hf Hna)) as ([] & w' & E & Hi' & Hs & Hm' & _ & H1 & H2).
  eapply wp_intro; [exact E|]. rewrite (pa_free_eq w a f Ha Hfo) in E.
  unfold free_room in Hroom |- *. rewrite Ha in Hroom |- *. pose proof (fo_count _ _ Hfo) as Hcnt.
  unfold MAX_FREE_FRAMES in *. rewrite (proj2 (Z.ltb_lt _ _)) in E by lia. injection E as <-.
  split_and!; [done|done|done| |].
  { cbn [vm set_vm PT_ALLOC set_free pa_free_count]. lia. }
  intros g. split; [apply H1|]. intros [Hg| ->]; [by apply H2|].
  eexists. split; [reflexivity|]. left. unfold free_frames. cbn.
  replace (Z.to_nat (pa_free_count a + 1)) with (S (Z.to_nat (pa_free_count a))) by lia.
  pose proof (fo_len _ _ Hfo) as Hl. unfold MAX_FREE_FRAMES in Hl.
  rewrite (take_S_r _ _ f); [set_solver|]. apply list_lookup_insert_eq. lia.
Qed.

Lemma wp_pa_alloc_pop w a (f : PhysAddr) : PT_ALLOC (vm w) = Some a → map_ok w a → frame_ok w f →
  0 < pa_free_count a → pa_free_list a !! Z.to_nat (pa_free_count a - 1) = Some f →
  wp pa_alloc_frame_4k (λ r w', r = Some f ∧
    PT_ALLOC (vm w') = Some (set_free (pa_free_list a) (pa_free_count a - 1) a)) w.
Proof.
  intros Ha Hm Hf Hpos Hl. unfold pa_alloc_frame_4k. wp_step. apply (wp_get_alloc _ a); [done|].
  rewrite (proj2 (Z.ltb_lt _ _) Hpos). cbv zeta. unfold put_alloc. wp_steps. rewrite Hl. wp_steps.
  apply wp_pa_zero_frame; [by destruct Hm|done|]. by wp_step.
Qed.

(** C22: giving a frame back makes exactly that frame available again while the
    free list has room, and the next allocation returns it. *)
Theorem boot_free_then_alloc w (f : PhysAddr) :
  alloc_inv w → frame_ok w f → ¬ available w f → (0 < free_room w)%nat →
  wp (pa_free_frame_4k f;; w1 ← gets id; r ← pa_alloc_frame_4k; mret (w1, r)) (λ '(w1, r) w',
    r = Some f ∧ (∀ g, available w1 g ↔ available w g ∨ g = f) ∧
    (∀ g, available w' g ↔ available w g) ∧ free_room w' = free_room w) w.
Proof.
  intros Hi Hf Hna Hroom. pose proof Hi as (a & Ha & Hm & Hc & Hfo).
  destruct (wp_elim _ _ _ (wp_pa_free_room w f Hi Hf Hna Hroom))
    as ([] & w1 & E1 & Hi1 & _ & _ & Hr1 & Hav1).
  wp_step. eapply wp_intro; [exact E1|]. wp_steps. rewrite (pa_free_eq w a f Ha Hfo) in E1.
  pose proof (fo_count _ _ Hfo) as Hcnt. pose proof (fo_len _ _ Hfo) as Hl.
  assert (free_room w = Z.to_nat (128 - pa_free_count a)) as Hfr by (unfold free_room; by rewrite Ha).
  rewrite (proj2 (Z.ltb_lt _ _)) in E1 by (unfold MAX_FREE_FRAMES; lia). injection E1 as <-.
  unfold MAX_FREE_FRAMES in *. eapply wp_mono; [apply wp_and; [by apply wp_pa_alloc|]|].
  { eapply wp_pa_alloc_pop; [reflexivity|by destruct Hm|done|cbn; lia|].
    cbn. replace (Z.to_nat (pa_free_count a + 1 - 1)) with (Z.to_nat (pa_free_count a)) by lia.
    apply list_lookup_insert_eq. lia. }
  intros r w' [(_ & _ & _ & Hr) [-> Ha']]. destruct Hr as (_ & _ & Hiff & _). wp_step.
  split_and!; [done|done| |].
  - intros g. rewrite Hiff, Hav1. naive_solver.
  - rewrite Hfr. unfold free_room. rewrite Ha'. cbn. unfold MAX_FREE_FRAMES. lia.
Qed.

(** ** [init] *)

(** A whole frame of a usable entry of the boot memory map. *)
Definition usable_frame (w : World) (a : BootPtAlloc) (f : Z) : Prop :=
  ∃ i e, 0 <= i < pa_entry_count a ∧ map_entry w a i = Some e ∧ in_entry e f.

Lemma BootPtAlloc_new_fields boot a : BootPtAlloc_new boot = Some a →
  pa_entries_ptr a = entries_ptr (Bootabi.mem boot) ∧ pa_entry_count a = entry_count (Bootabi.mem boot) ∧
  pa_cur_entry a = 0 ∧ pa_cur_addr a = 0 ∧ pa_hhdm_offset a = hhdm_offset boot ∧
  pa_free_list a = replicate MAX_FREE_FRAMES EMPTY_PADDR ∧ pa_free_count a = 0 ∧
  pa_entry_count a ≠ 0 ∧ pa_hhdm_offset a ≠ 0.
Proof.
  unfold BootPtAlloc_new. intros H.
  destruct (Z.eqb_spec (hhdm_offset boot) 0); [done|].
  destruct (Z.eqb_spec (entries_ptr (Bootabi.mem boot)) 0); [done|].
  destruct (Z.eqb_spec (entry_count (Bootabi.mem boot)) 0); [done|].
  destruct (entry_size (Bootabi.mem boot) =? sizeof_MemMapEntry); [|done]. cbn in H. by simplify_eq.
Qed.

(** Nothing was handed out or given back yet. *)
Definition fresh_alloc (a : BootPtAlloc) : Prop :=
  pa_cur_entry a = 0 ∧ pa_cur_addr a = 0 ∧ pa_free_list a = replicate MAX_FREE_FRAMES EMPTY_PADDR ∧
  pa_free_count a = 0 ∧ 0 <= pa_entry_count a.

Lemma fresh_alloc_inv w a : fresh_alloc a → map_ok w a → PT_ALLOC (vm w) = Some a → 0 <= phys_limit (env w) →
  alloc_inv w ∧ ∀ g, available w g ↔ usable_frame w a g.
Proof.
  intros (Hce & Hca & Hl & Hn & Hcnt) Hm Ha Hlim.
  assert (free_frames a = []) as Hnil by (unfold free_frames; by rewrite Hn).
  split.
  - exists a. split_and!; [done|done| |].
    + split; lia.
    + split; [by rewrite Hl|rewrite Hn; done|rewrite Hnil; constructor|].
      intros f Hf. rewrite Hnil in Hf. by apply elem_of_nil in Hf.
  - intros g. split.
    + intros (a' & Ha' & Hg). simplify_eq. rewrite Hnil in Hg.
      destruct Hg as [Hg%elem_of_nil|(i & e & Hi & He & Hin & _)]; [done|].
      exists i, e. split_and!; [lia|lia|done|done].
    + intros (i & e & Hi & He & Hin). exists a. split; [done|]. right. exists i, e.
      split_and!; [lia|lia|done|done|]. rewrite Hca. intros _.
      destruct (mo_entries _ _ Hm i Hi) as (e' & He' & Hr). simplify_eq.
      destruct Hin as (Hu & _ & Hb & _). destruct (Hr Hu). lia.
Qed.

Lemma BootPtAlloc_new_fresh boot a : BootPtAlloc_new boot = Some a → 0 <= pa_entry_count a → fresh_alloc a.
Proof. intros (_ & _ & ? & ? & _ & ? & ? & _ & _)%BootPtAlloc_new_fields ?. by split_and!. Qed.

(** The allocator with the first [n] entries of its memory map only. *)
Definition set_count (n : Z) (a : BootPtAlloc) : BootPtAlloc :=
  mkBootPtAlloc (pa_entries_ptr a) n (pa_cur_entry a) (pa_cur_addr a) (pa_hhdm_offset a)
    (pa_free_list a) (pa_free_count a).

Definition confine (n : Z) (w : World) : World :=
  set_vm (λ s, mkVmSt (set_count n <$> PT_ALLOC s) (PT_ALLOC_LOCKED s)) w.

Lemma map_ok_count w a n : 0 <= n <= pa_entry_count a → map_ok w a → map_ok w (set_count n a).
Proof.
  intros Hn [H1 H2 H3 H4 H5 H6]. split; try done; cbn [set_count pa_entry_count].
  - intros i Hi. apply (H5 i). lia.
  - intros i j ei ej f Hi Hj. apply (H6 i j ei ej f); lia.
Qed.

(** The machine as the bootloader hands it over. *)
Record boot_ready (w : World) (boot : BootInfo) (a : BootPtAlloc) : Prop := mkBootReady {
  br_alloc : BootPtAlloc_new boot = Some a;
  br_map : map_ok w a;
  br_count : 0 <= pa_entry_count a;
  br_unlocked : PT_ALLOC_LOCKED (vm w) = false;
  br_first : KAS_HANDLE (mmu w) = None;
  br_cr3 : frame_of (cr3 (hw w)) ≠ 0;
  br_cpu : cpu_ready w;
  br_efer : is_u64 (rd_msr w EFER_msr);
  br_nx : nx_in_step w;
  br_hhdm : hhdm_ready w;
  (** the processor lets the kernel turn NX on, when it has to *)
  br_nxe : nx_faults w = false;
  br_tree : tree_ok (phys_limit (env w)) (m_of w) (frame_of (cr3 (hw w)))
}.

Definition installed (a : BootPtAlloc) (w : World) : World := set_vm (λ _, mkVmSt (Some a) false) w.

(** The tree under [kr] is the kernel's address space and the allocator is in
    order; whether the allocator keeps clear of that tree is not said. *)
Record kernel_adopted (kr : Z) (w : World) : Prop := mkKernelAdopted {
  ka_handle : KAS_HANDLE (mmu w) = Some AsKas;
  ka_root : KAS (mmu w) = Some (mkX86AddressSpace kr);
  ka_hhdm : hhdm_ready w;
  ka_tree : tree_ok (phys_limit (env w)) (m_of w) kr;
  ka_alloc : alloc_inv w
}.

(** The frames of the first [n] entries hold none of the tables under [kr]. *)
Definition clear_below (w : World) (a : BootPtAlloc) (n kr : Z) : Prop :=
  ∀ f, usable_frame w (set_count n a) f → ¬ reachable (m_of w) kr f.

(** What [init] leaves. *)
Definition vm_init_post (w : World) (a : BootPtAlloc) (w' : World) : Prop :=
  kernel_adopted (frame_of (cr3 (hw w))) w' ∧
  (∀ g, available w' g ↔ usable_frame w a g) ∧
  (∀ n, 0 <= n <= pa_entry_count a → clear_below w a n (frame_of (cr3 (hw w))) →
     kernel_ready boot_pt_alloc (frame_of (cr3 (hw w))) (confine n w')) ∧
  PT_ALLOC (vm w') = Some a ∧ PT_ALLOC_LOCKED (vm w') = false ∧ nx_in_step w' ∧
  NXE_ENABLED (mmu w') = NXE_ENABLED (mmu w) || cpu_has_nx (env w) ∧
  m_of w' = m_of w ∧ cr3 (hw w') = cr3 (hw w).

Lemma wp_vm_init w boot a : boot_ready w boot a → wp (Vm.init boot) (λ _ w', vm_init_post w a w') w.
Proof.
  intros [Hnew Hmap Hcnt Hul Hfirst Hcr3 Hcpu Hefer Hnx Hhd Hnxe Htree]. unfold Vm.init.
  wp_step. apply (wp_expect _ a); [done|]. wp_step. eapply wp_intro; [unfold lock; rewrite Hul; done|].
  unfold unlock. wp_steps. match goal with |- wp _ _ ?x => change x with (installed a w) end.
  eapply wp_intro; [apply init_kernel_first; [done|done|by destruct Hcpu]|].
  set (w2 := with_current _ _). cbv beta iota. wp_step.
  eapply wp_mono; [by apply (wp_enable_nx w2)|].
  intros r w' (-> & Hs & Hn & _ & _ & Hm & Hc & Hr & Hk & Ho & Hkh & Hkas). wp_step.
  assert (0 <= phys_limit (env w)) as Hl.
  { destruct (tree_range _ _ _ Htree _ (root_reachable _ _)). lia. }
  pose proof (BootPtAlloc_new_fresh boot a Hnew Hcnt) as Hfr.
  destruct Hk as (E1 & E2 & E3). cbn in E1, E2, E3.
  assert (hhdm_ready w') as Hh' by (destruct Hhd; split; rewrite ?E1, ?Ho; done).
  assert (tree_ok (phys_limit (env w')) (m_of w') (frame_of (cr3 (hw w)))) as Ht' by by rewrite E1, Hm.
  assert (∀ n, 0 <= n <= pa_entry_count a → alloc_inv (confine n w') ∧
    ∀ g, available (confine n w') g ↔ usable_frame w (set_count n a) g) as Hcon.
  { intros n Hnr. destruct (fresh_alloc_inv (installed (set_count n a) w) (set_count n a)) as [Hi Hav];
      [by destruct Hfr as (?&?&?&?&?); split_and!; try done; cbn; lia|by destruct (map_ok_count w a n Hnr Hmap)|done|done|].
    destruct (@fa_stable boot_pt_alloc boot_alloc_laws (installed (set_count n a) w) (confine n w')) as [Hi' Hav'];
      [split_and!; cbn; [done|by rewrite E2|done]|done|].
    split; [done|]. intros g. etransitivity; [apply Hav'|apply Hav]. }
  assert (confine (pa_entry_count a) w' = w') as Hid.
  { unfold confine, set_vm. destruct w' as [? ? ? ? ? v' ?]. cbn in E2. subst v'. by destruct a. }
  destruct (Hcon (pa_entry_count a)) as [Hi Hav]; [lia|]. rewrite Hid in Hi, Hav.
  unfold vm_init_post. split_and!; try done.
  - intros n Hnr Hcl. destruct (Hcon n Hnr) as [Hin Havn]. split; [by cbn; rewrite Hkh|by cbn; rewrite Hkas|].
    split; [by destruct Hh'|done|done|]. intros f Hf. cbn. rewrite Hm. by apply Hcl, Havn.
  - by rewrite E2.
  - by rewrite E2.
Qed.

(** C23: [init] succeeds on the machine the bootloader hands over, wherever
    the bootloader keeps its page tables: the frame allocator owns exactly the
    whole frames of the usable and reclaimable memory-map entries, the tables
    under CR3 are the kernel's address space and current, NX is on whenever
    the processor has it, and the lock is free.  As long as the allocator
    stays within the first [n] entries, and these hold none of the tables
    under CR3, the service is ready for its calls. *)
Theorem vm_init_ready w boot a : boot_ready w boot a →
  wp (Vm.init boot) (λ _ w',
    kernel_adopted (frame_of (cr3 (hw w))) w' ∧
    (∀ g, available w' g ↔ usable_frame w a g) ∧
    (∀ n, 0 <= n <= pa_entry_count a → clear_below w a n (frame_of (cr3 (hw w))) →
       kernel_ready boot_pt_alloc (frame_of (cr3 (hw w))) (confine n w')) ∧
    PT_ALLOC (vm w') = Some a ∧ PT_ALLOC_LOCKED (vm w') = false ∧ nx_in_step w' ∧
    NXE_ENABLED (mmu w') = NXE_ENABLED (mmu w) || cpu_has_nx (env w) ∧
    m_of w' = m_of w ∧ cr3 (hw w') = cr3 (hw w)) w.
Proof. apply wp_vm_init. Qed.

(** ** Service calls *)

Definition set_lock (b : bool) (w : World) : World := set_vm (λ s, mkVmSt (PT_ALLOC s) b) w.

Lemma wp_with_alloc {B} (body : PageTableFrameAlloc → M World B) (Q : B → World → Prop) w :
  PT_ALLOC_LOCKED (vm w) = false → is_Some (PT_ALLOC (vm w)) →
  wp (body boot_pt_alloc) (λ r w1, Q r (set_lock false w1)) (set_lock true w) →
  wp (with_alloc body) Q w.
Proof.
  intros Hl [a Ha] Hb. unfold with_alloc. wp_step.
  eapply wp_intro; [unfold lock; by rewrite Hl|]. wp_steps. apply (wp_expect _ a); [done|].
  wp_step. eapply wp_mono; [exact Hb|]. intros r w1 HQ. unfold unlock. by wp_steps.
Qed.

(** The lock bit is invisible to the MMU and the allocator. *)
Lemma space_inv_lock root b w :
  space_inv boot_pt_alloc root w → space_inv boot_pt_alloc root (set_lock b w).
Proof.
  intros [Hr Ht (a & Ha & [] & [] & []) Hfr]. split; [by destruct Hr|done| |done].
  exists a. split; [done|]. by split_and!.
Qed.

Lemma kernel_ready_lock kr b w :
  kernel_ready boot_pt_alloc kr w → kernel_ready boot_pt_alloc kr (set_lock b w).
Proof. intros [Hh Hk Hi]. split; [done|done|]. by apply space_inv_lock. Qed.

Lemma space_inv_pt_alloc root w : space_inv boot_pt_alloc root w → is_Some (PT_ALLOC (vm w)).
Proof. intros [_ _ (a & Ha & _) _]. by exists a. Qed.

(** The service's [new_address_space] keeps the kernel's address space, the
    lock and the allocator in order on every path. *)
Lemma wp_vm_new kr w : PT_ALLOC_LOCKED (vm w) = false → kernel_ready boot_pt_alloc kr w →
  wp new_address_space (λ r w', PT_ALLOC_LOCKED (vm w') = false ∧
    new_post boot_pt_alloc w kr r w') w.
Proof.
  intros Hl Hk. apply wp_with_alloc; [done|by eapply space_inv_pt_alloc, Hk|].
  eapply wp_mono; [apply (wp_address_space_new boot_pt_alloc (set_lock true w) kr); by apply kernel_ready_lock|].
  intros r w1 (Hw & Hk1 & Hold & Hst & Hr). split; [done|]. split; [done|].
  split; [by apply kernel_ready_lock|]. split; [exact Hold|]. split; [exact Hst|].
  destruct r as [h|e]; [|done]. destruct Hr as (f & i & -> & Hf & Hf' & Hroot & Hinv & Hrest).
  exists f, i. split_and!; try done; try apply Hrest. by apply space_inv_lock.
Qed.

Section end_to_end.
Context (w : World) (kr : Z) (Hul : PT_ALLOC_LOCKED (vm w) = false).
Context (Hk : kernel_ready boot_pt_alloc kr w).
Context (va pa v : Z) (flags : MapFlags).
Context (Hva : page_arg va) (Huser : ¬ kernel_half va).
Context (Hpa : aligned_4k pa = true) (Hpar : 0 <= pa < 2 ^ 52).
Context (Hv : is_u64 v) (Hpg : page_of v = page_of va).

(** The path of a user page of a new address space leads through none of
    the kernel's tables. *)
Lemma new_off_path w1 root : kernel_ready boot_pt_alloc kr w1 →
  ¬ reachable (m_of w1) kr root → (∀ P, path_entries P (m_of w1) root va) →
  off_path w1 root kr va.
Proof.
  intros [_ _ Hi] Hne Hpe. split; [apply (si_tree _ _ _ Hi)|].
  intros x k Hx Hk3 Hf. destruct k as [|k].
  - injection Hf as <-. done.
  - rewrite path_step in Hf by lia. rewrite follow_app in Hf.
    destruct (follow (m_of w1) root (take k (path 3 va))) as [t|] eqn:Ht; [|done]. cbn in Hf.
    destruct (pte_present (pte (m_of w1) t (index (3 - k) va))) eqn:Hp; [|done].
    by apply (Hpe (λ _, False) k t).
Qed.

(** One call of [map_4k] in a new address space. *)
Lemma wp_vm_map w1 h root : PT_ALLOC_LOCKED (vm w1) = false →
  aspace_root (mmu w1) h = Some root → space_inv boot_pt_alloc root w1 →
  kernel_ready boot_pt_alloc kr w1 → ¬ reachable (m_of w1) kr root →
  (∀ P, path_entries P (m_of w1) root va) → hw_walk (m_of w1) root va = None →
  wp (Vm.map_4k h va pa flags) (λ r w', PT_ALLOC_LOCKED (vm w') = false ∧
  mmu w' = mmu w1 ∧ space_ready root w' ∧ no_large (m_of w') root va ∧
  (∀ x, hw_walk (m_of w') kr x = hw_walk (m_of w1) kr x) ∧
  match r with
  | Ok _ => ∃ mp, hw_walk (m_of w') root va = Some mp ∧ m_pa mp = pa ∧ rights_are w1 flags mp ∧
  ∃ t, follow (m_of w') root (take 3 (path 3 va)) = Some t ∧
       pte (m_of w') t (index 0 va) = new_entry w1 pa flags
  | Err e => e = OutOfMemory
  end) w1.
Proof.
  intros Hl Hroot Hinv Hk1 Hne Hpe Hnone.
  apply wp_with_alloc; [done|by eapply space_inv_pt_alloc|]. set (w2 := set_lock true w1).
  assert (space_inv boot_pt_alloc root w2) as Hinv2 by by apply space_inv_lock.
  assert (no_large (m_of w2) root va) as Hnl by apply Hpe.
  pose proof Hk1 as [_ _ Hik].
  eapply wp_mono; [apply wp_and; [apply wp_and|]|].
  - by apply (wp_map_4k boot_pt_alloc w2 h root va).
  - by apply (map_4k_keeps boot_pt_alloc w2 h root va).
  - eapply (map_4k_isolated_lem w2 root kr va h) with (A := boot_pt_alloc); try done.
    + by apply (new_off_path w1).
    + intros x Hx Hav. by apply (si_fresh _ _ _ Hik x).
  - intros r w3 [[(Hi3 & _ & Hr) (Hm & Hnl3 & _ & Hok)] Hiso].
    split_and!; [done|done| |done|done|].
    { by eapply (space_inv_ready boot_pt_alloc), space_inv_lock. }
    destruct r as [[]|e].
    + destruct Hr as (_ & mp & Hmp & Hpa' & _ & Hri). exists mp. split_and!; [done| | |].
      * rewrite Hpa'. apply frame_of_id; [by apply aligned_4k_spec|done].
      * apply Hri, Hpe.
      * by apply Hok.
    + change (m_of w2) with (m_of w1) in Hr. destruct e; naive_solver congruence.
Qed.

(** C15: end to end: a page mapped into a new address space translates, for
    every address in the page, to the frame it was mapped to, with exactly
    the requested rights, and the kernel's own address space translates as
    before.  The only failure is a lack of memory or of address-space
    slots. *)
Theorem vm_new_map_translate :
  wp (r ← new_address_space;
  match r with
  | Err e => mret (inl e)
  | Ok h => m ← Vm.map_4k h va pa flags; t ← Vm.translate h v; mret (inr (h, m, t))
  end)
  (λ o w', PT_ALLOC_LOCKED (vm w') = false ∧
  (∀ x, hw_walk (m_of w') kr x = hw_walk (m_of w) kr x) ∧
  match o with
  | inl e => e = OutOfMemory
  | inr (h, Ok _, t) => t = Ok (pa + v mod 4096) ∧
    ∃ root mp, aspace_root (mmu w') h = Some root ∧ root ≠ kr ∧
      hw_walk (m_of w') root va = Some mp ∧ m_pa mp = pa ∧
      m_w mp = contains flags WRITE ∧ m_u mp = contains flags USER ∧
      m_nx mp = negb (contains flags EXEC) && NXE_ENABLED (mmu w) ∧
      m_g mp = contains flags GLOBAL
  | inr (_, Err e, _) => e = OutOfMemory
  end) w.
Proof.
  wp_step. eapply wp_mono; [by apply (wp_vm_new kr)|]. intros [h|e] w1 (Hl & Hw & Hk1 & _ & (_ & _ & Hnx) & Hr).
  2: { wp_step. split_and!; [done|done|apply Hr]. }
  destruct Hr as (f & i & -> & Hf & Hf1 & Hroot & Hinv & _ & Hlow & _ & _ & Hne & _).
  destruct (Hlow va Huser) as [Hnone Hpe].
  wp_step. eapply wp_mono; [by apply (wp_vm_map w1 (AsSlot i) f)|].
  intros m w2 (Hl2 & Hm2 & Hsr & Hnl & Hiso & Hr). wp_step.
  eapply wp_mono; [apply (wp_translate w2 (AsSlot i) f v)|].
  - by rewrite Hm2.
  - done.
  - by eapply path_entries_page.
  - done.
  - apply is_canonical_spec; [done|]. destruct (page_arg_canonical va Hva). by eapply canonical_page.
  - intros t w3 [-> ->]. wp_step.
    assert (∀ x, hw_walk (m_of w2) kr x = hw_walk (m_of w) kr x) as Hkw.
    { intros x. by rewrite Hiso, Hw. }
    split_and!; [done|done|]. destruct m as [[]|e]; [|done].
    destruct Hr as (mp & Hmp & Hpam & (R1 & R2 & R3 & R4) & t & Ht & Hpte).
    split.
    + destruct (new_entry_fields w1 pa flags) as (Hp & Hfr & _).
      assert (index 0 v = index 0 va) as Hix by by rewrite !index_page, Hpg.
      destruct (mapped_walk f v w2 t) as (mp' & -> & _ & ->).
      * by rewrite (path_page _ _ Hpg).
      * by rewrite Hix, Hpte.
      * rewrite Hix, Hpte, Hfr, frame_of_id; [done|by apply aligned_4k_spec|done].
    + exists f, mp. rewrite Hm2, <- Hnx.
      split_and!; try done. intros ->. by apply Hne, root_reachable.
Qed.
End end_to_end.

(** ** Destruction with the boot-time allocator *)

Section destroy.
Context (w : World) (h : AddressSpace) (root : Z).
Context (Hroot : aspace_root (mmu w) h = Some root) (Hkh : KAS_HANDLE (mmu w) ≠ Some h).
Context (Hinv : space_inv boot_pt_alloc root w).

#[local] Abbreviation tables := (user_tables (m_of w) root).

Context (Hroom : (length tables <= free_room w)%nat).

(** The frames before [l] on the list are available again, those of [l] are
    still to be freed and fit into the free list. *)
Record returning (l : list Z) (w1 : World) : Prop := mkReturning {
  rt_same : same_but_alloc w w1;
  rt_mem : m_of w1 = m_of w;
  rt_inv : alloc_inv w1;
  rt_room : (length l <= free_room w1)%nat;
  rt_avail : ∃ freed, tables = freed ++ l ∧ ∀ g, available w1 g ↔ available w g ∨ g ∈ freed
}.

Lemma returning_step f l w1 : returning (f :: l) w1 →
  wp (pa_free_frame_4k f) (λ _, returning l) w1.
Proof.
  intros [Hs Hm Hi Hr (freed & Ht & Hav)].
  assert (f ∈ tables) as Hf by (rewrite Ht, elem_of_app, elem_of_cons; auto).
  apply (user_table_reachable w root) in Hf as Hre.
  pose proof (NoDup_user_tables _ _ (tree_no_alias _ _ _ (si_tree _ _ _ Hinv))) as Hnd.
  rewrite Ht in Hnd. apply NoDup_app in Hnd as (_ & Hdis & _).
  eapply wp_mono; [apply wp_pa_free_room; [done| | |simpl in Hr; lia]|].
  - unfold frame_ok. rewrite (sba_env _ _ Hs). eapply space_inv_frame; [apply Hinv|done].
  - intros [Ha|Ha]%Hav; [by apply (si_fresh _ _ _ Hinv f)|].
    apply (Hdis f Ha). apply list_elem_of_here.
  - intros ? w2 (Hi2 & Hs2 & Hm2 & Hr2 & Hav2). split; [by eapply same_but_alloc_trans|congruence|done| |].
    + rewrite Hr2. simpl in Hr. lia.
    + exists (freed ++ [f]). split; [by rewrite Ht, <- app_assoc|]. intros g.
      rewrite Hav2, Hav, elem_of_app, list_elem_of_singleton. tauto.
Qed.

Lemma wp_destroy_exact :
  wp (address_space_destroy boot_pt_alloc h) (λ _ w',
  m_of w' = m_of w ∧ alloc_inv w' ∧ (∀ g, available w' g ↔ available w g ∨ g ∈ tables) ∧
  AS_SLOTS (mmu w') = release_slot h (AS_SLOTS (mmu w))) w.
Proof.
  eapply wp_mono.
  - apply (wp_destroy boot_pt_alloc (m_of w) (env w) root returning);
     [apply Hinv| |apply returning_step|done|done|].
    + intros l w1 [Hs Hm _ _ _]. split_and!; [|done|apply Hs].
      eapply hhdm_ready_alloc; [apply Hinv|done].
    + split; [apply same_but_alloc_refl|done|apply Hinv|done|].
      exists []. split; [done|]. intros g. rewrite elem_of_nil. tauto.
  - intros ? w' (w1 & [Hs Hm Hi _ (freed & Ht & Hav)] & ->). rewrite app_nil_r in Ht. subst freed.
    split_and!; [done| |done|cbn; by rewrite (sba_mmu _ _ Hs)].
    by apply (alloc_inv_stable w1).
Qed.
End destroy.

(** C7: destroying an address space gives back exactly its own tables: while
    the free list has room for them, the frames that become available are the
    root and the tables below its user half, each freed once; the shared
    kernel half, memory and the other address spaces' translations are
    untouched and the slot is released. *)
Theorem vm_destroy_gives_back w h root :
  PT_ALLOC_LOCKED (vm w) = false → aspace_root (mmu w) h = Some root →
  KAS_HANDLE (mmu w) ≠ Some h → space_inv boot_pt_alloc root w →
  (length (user_tables (m_of w) root) <= free_room w)%nat →
  NoDup (user_tables (m_of w) root) ∧
  wp (destroy_address_space h) (λ _ w',
    PT_ALLOC_LOCKED (vm w') = false ∧ m_of w' = m_of w ∧
    (∀ g, available w' g ↔ available w g ∨ g = root ∨
       ∃ i p, 0 <= i < 256 ∧ table_path (i :: p) ∧ follow (m_of w) root (i :: p) = Some g) ∧
    AS_SLOTS (mmu w') = release_slot h (AS_SLOTS (mmu w))) w.
Proof.
  intros Hl Hroot Hkh Hinv Hroom. split; [apply NoDup_user_tables, Hinv|].
  apply wp_with_alloc; [done|by eapply space_inv_pt_alloc|].
  eapply wp_mono; [apply (wp_destroy_exact (set_lock true w) h root)|].
  - done.
  - done.
  - by apply space_inv_lock.
  - done.
  - intros ? w1 (Hm & Hi & Hav & Hsl). split_and!; [done|done| |done].
    intros g. rewrite <- elem_of_user_tables. apply Hav.
Qed.
