(* ===== verification/VmRefine.v ===== *)
(** * The VM service as a table of address spaces

    The abstract service: a finite map from handles to address spaces, each a
    finite map from user pages to the frame and the flags they were mapped
    with.  Every call of the service on the real page tables, the slot table
    and the frame allocator is a step of the abstract service; the address
    spaces do not interfere, and the kernel's own translations never
    change. *)

From S2P Require Import Prelude HalTypes Paging World Hal Cpu Apic X86Mmu MmuProofs MmuSpec AspaceSpec AspaceDestroy SpaceFrames Vm VmProofs VmSpec.

#[local] Abbreviation m_of w := (mem64 (hw w)).

(** ** The abstract service *)

Abbreviation pages := (gmap Z (PhysAddr * MapFlags)).

Abbreviation avm := (gmap nat (gmap Z (PhysAddr * MapFlags))).

Inductive vm_call :=
| CNew
| CDestroy (i : nat)
| CMap (i : nat) (va : VirtAddr) (pa : PhysAddr) (flags : MapFlags)
| CUnmap (i : nat) (va : VirtAddr)
| CProtect (i : nat) (va : VirtAddr) (flags : MapFlags)
| CTranslate (i : nat) (v : VirtAddr).

Inductive vm_ret :=
| RNew (r : result AddressSpace MapError)
| RDestroy
| RMap (r : result unit MapError)
| RTranslate (r : result PhysAddr TranslateError).

Inductive avm_step (A : avm) : vm_call → vm_ret → avm → Prop :=
| a_new i : A !! i = None → avm_step A CNew (RNew (Ok (AsSlot i))) (<[i := ∅]> A)
| a_new_full : avm_step A CNew (RNew (Err OutOfMemory)) A
| a_destroy i : avm_step A (CDestroy i) RDestroy (delete i A)
| a_map i ps va pa flags : A !! i = Some ps → ps !! page_of va = None →
    avm_step A (CMap i va pa flags) (RMap (Ok ())) (<[i := <[page_of va := (pa, flags)]> ps]> A)
| a_map_full i ps va pa flags : A !! i = Some ps → ps !! page_of va = None →
    avm_step A (CMap i va pa flags) (RMap (Err OutOfMemory)) A
| a_map_mapped i ps va pa flags : A !! i = Some ps → is_Some (ps !! page_of va) →
    avm_step A (CMap i va pa flags) (RMap (Err AlreadyMapped)) A
| a_unmap i ps va : A !! i = Some ps → is_Some (ps !! page_of va) →
    avm_step A (CUnmap i va) (RMap (Ok ())) (<[i := delete (page_of va) ps]> A)
| a_unmap_none i ps va : A !! i = Some ps → ps !! page_of va = None →
    avm_step A (CUnmap i va) (RMap (Err NotMapped)) A
| a_protect i ps va pa old flags : A !! i = Some ps → ps !! page_of va = Some (pa, old) →
    avm_step A (CProtect i va flags) (RMap (Ok ())) (<[i := <[page_of va := (pa, flags)]> ps]> A)
| a_protect_none i ps va flags : A !! i = Some ps → ps !! page_of va = None →
    avm_step A (CProtect i va flags) (RMap (Err NotMapped)) A
| a_translate i ps v pa flags : A !! i = Some ps → ps !! page_of v = Some (pa, flags) →
    avm_step A (CTranslate i v) (RTranslate (Ok (pa + v mod 4096))) A
| a_translate_none i ps v : A !! i = Some ps → ps !! page_of v = None →
    avm_step A (CTranslate i v) (RTranslate (Err TE_NotMapped)) A.

(** The calls a client may make: on live handles and user pages.  With [ub]
    the client maps pages for user code only. *)
Definition user_page (va : Z) : Prop := user_va va ∧ va mod 4096 = 0.
Definition frame_arg (pa : Z) : Prop := pa mod 4096 = 0 ∧ 0 <= pa < 2 ^ 52.

Definition valid_call (ub : bool) (A : avm) (c : vm_call) : Prop :=
  match c with
  | CNew => True
  | CDestroy i => is_Some (A !! i)
  | CMap i va pa flags =>
      is_Some (A !! i) ∧ user_page va ∧ frame_arg pa ∧ (ub = true → contains flags USER = true)
  | CUnmap i va | CProtect i va _ => is_Some (A !! i) ∧ user_page va
  | CTranslate i v => is_Some (A !! i) ∧ user_va v
  end.

(** ** The calls on the machine *)

Definition exec (c : vm_call) : M World vm_ret :=
  match c with
  | CNew => r ← new_address_space; mret (RNew r)
  | CDestroy i => destroy_address_space (AsSlot i);; mret RDestroy
  | CMap i va pa flags => r ← Vm.map_4k (AsSlot i) va pa flags; mret (RMap r)
  | CUnmap i va => r ← Vm.unmap_4k (AsSlot i) va; mret (RMap r)
  | CProtect i va flags => r ← Vm.protect_4k (AsSlot i) va flags; mret (RMap r)
  | CTranslate i v => r ← Vm.translate (AsSlot i) v; mret (RTranslate r)
  end.

(** ** The relation *)

(** The leaf entry of a page that was mapped to [pa] with [flags]. *)
Definition page_entry (nxe : bool) (p : PhysAddr * MapFlags) : Z :=
  Z.lor (frame_of p.1) (flags_to_pte_nxe nxe p.2).

(** The root of a slot in use. *)
Definition live_root (w : World) (i : nat) : option Z :=
  match AS_SLOTS (mmu w) !! i with
  | Some s => if used s then Some (pml4_phys (space s)) else None
  | None => None
  end.

Section rel.
Context (ub : bool) (kr : Z) (K : Z → option mapping).

(** The tree of [r] implements the address space [ps]; with [ub] every table
    of its user half is open to user code. *)
Record space_rel (w : World) (r : Z) (ps : pages) : Prop := mkSpaceRel {
  sp_inv : space_inv boot_pt_alloc r w;
  sp_path : ∀ v, user_va v → path_entries (table_entry_ok ub) (m_of w) r v;
  sp_kernel : ∀ j, 256 <= j < 512 → pte (m_of w) r j = pte (m_of w) kr j;
  sp_apart : ∀ x, x ∈ user_tables (m_of w) r → ¬ reachable (m_of w) kr x;
  sp_pages : ∀ v, user_va v →
    live_leaf (m_of w) r v = page_entry (NXE_ENABLED (mmu w)) <$> ps !! page_of v;
  sp_frames : ∀ n pa flags, ps !! n = Some (pa, flags) → frame_arg pa
}.

Record vm_rel (A : avm) (w : World) : Prop := mkVmRel {
  vr_unlocked : PT_ALLOC_LOCKED (vm w) = false;
  vr_kernel : kernel_ready boot_pt_alloc kr w;
  vr_walk : ∀ v, hw_walk (m_of w) kr v = K v;
  vr_slots : slots_ok (AS_SLOTS (mmu w));
  vr_live : ∀ i ps, A !! i = Some ps → ∃ r, live_root w i = Some r ∧ space_rel w r ps;
  vr_dead : ∀ i, A !! i = None → live_root w i = None;
  vr_disjoint : ∀ i j r r' x, i ≠ j → live_root w i = Some r → live_root w j = Some r' →
    x ∈ user_tables (m_of w) r → x ∉ user_tables (m_of w) r'
}.

(** ** Frames *)

(** [w'] differs from [w] in nothing a tree with root [root] depends on. *)
Record undisturbed (root : Z) (w w' : World) : Prop := mkUndisturbed {
  ud_tables : same_tables (m_of w) (m_of w') root;
  ud_avail : ∀ f, available w' f → available w f ∨ ¬ reachable (m_of w) root f
}.

(** What every call keeps. *)
Record kept_setup (w w' : World) : Prop := mkKeptSetup {
  ks_env : env w' = env w;
  ks_hhdm : HHDM_OFFSET w' = HHDM_OFFSET w;
  ks_nxe : NXE_ENABLED (mmu w') = NXE_ENABLED (mmu w);
  ks_alloc : alloc_inv w'
}.

Lemma space_inv_undisturbed root w w' : kept_setup w w' → undisturbed root w w' →
  space_inv boot_pt_alloc root w → space_inv boot_pt_alloc root w'.
Proof.
  intros [He Ho _ Ha] [Hs Hav] [[H1 H2 H3 H4] Ht _ Hf]. split; [|rewrite He; by eapply same_tree|done|].
  - split; rewrite ?He, ?Ho; done.
  - intros f Hfa Hr. apply (same_reachable _ _ _ Hs) in Hr. destruct (Hav f Hfa); [by eapply Hf|done].
Qed.

Lemma space_rel_undisturbed w w' r ps : kept_setup w w' → undisturbed kr w w' → undisturbed r w w' →
  space_rel w r ps → space_rel w' r ps.
Proof.
  intros Hk Hkr Hr [Hi Hp Hke Hap Hpg Hfr]. pose proof (ud_tables _ _ _ Hr) as Hs. pose proof (ud_tables _ _ _ Hkr) as Hsk.
  split; [by eapply space_inv_undisturbed| | | | |done].
  - intros v Hv. by eapply same_path_entries, Hp.
  - intros j Hj. assert (table_index j) by (unfold table_index; lia).
    rewrite Hs, Hsk by (done || apply root_reachable). by apply Hke.
  - intros x Hx. rewrite (same_reachable _ _ _ Hsk). by apply Hap, (same_user_tables _ _ _ Hs).
  - intros v Hv. rewrite (same_live_leaf _ _ _ _ Hs), (ks_nxe _ _ Hk). by apply Hpg.
Qed.

(** A table of [r] is one of its user half or one of the kernel's. *)
Lemma reachable_split w r ps x : space_rel w r ps → reachable (m_of w) r x →
  x ∈ user_tables (m_of w) r ∨ reachable (m_of w) kr x.
Proof.
  intros Hsp (q & Hq & Hx). destruct q as [|i q].
  - injection Hx as <-. left. apply elem_of_user_tables. by left.
  - pose proof Hq as [_ Hi]. apply Forall_cons in Hi as [Hi _]. unfold table_index in Hi.
    destruct (decide (i < 256)).
    + left. apply elem_of_user_tables. right. exists i, q. split_and!; [lia|done|done|done].
    + right. exists (i :: q). split; [done|]. cbn [follow] in *. by rewrite <- (sp_kernel _ _ _ Hsp) by lia.
Qed.

(** ** One step *)

(** The lock is not part of what an edit sees. *)
Lemma edited_lock r b b' w w3 : edited ub boot_pt_alloc r (set_lock b w) w3 →
  edited ub boot_pt_alloc r w (set_lock b' w3).
Proof. intros []. split; try done. by apply space_inv_lock. Qed.

Lemma live_root_aspace w i r : live_root w i = Some r → aspace_root (mmu w) (AsSlot i) = Some r.
Proof. unfold live_root, aspace_root. intros H. destruct (AS_SLOTS (mmu w) !! i) as [s|]; [|done]. cbn. by destruct (used s). Qed.

Section step.
Context (A : avm) (w : World) (Hrel : vm_rel A w).

Lemma kr_not_avail x : reachable (m_of w) kr x → ¬ available w x.
Proof. intros Hx Hav. by apply (si_fresh _ _ _ (kr_inv _ _ _ (vr_kernel _ _ Hrel)) x). Qed.

Lemma kr_aligned x : reachable (m_of w) kr x → x mod 4096 = 0.
Proof. apply reachable_aligned, (si_tree _ _ _ (kr_inv _ _ _ (vr_kernel _ _ Hrel))). Qed.

Lemma live_space i r : live_root w i = Some r → ∃ ps, A !! i = Some ps ∧ space_rel w r ps.
Proof.
  intros Hr. destruct (A !! i) as [ps|] eqn:E.
  - destruct (vr_live _ _ Hrel i ps E) as (r' & Hr' & Hsp). exists ps. by simplify_eq.
  - by rewrite (vr_dead _ _ Hrel i E) in Hr.
Qed.

(** No table of the user half of slot [i] is reachable from another slot. *)
Lemma live_apart i j r r' x : i ≠ j → live_root w i = Some r → live_root w j = Some r' →
  x ∈ user_tables (m_of w) r → ¬ reachable (m_of w) r' x.
Proof.
  intros Hij Hr Hr' Hx Hre. destruct (live_space i r Hr) as (ps & _ & Hsp), (live_space j r' Hr') as (ps' & _ & Hsp').
  destruct (reachable_split _ _ _ _ Hsp' Hre) as [Hu|Hk].
  - by apply (vr_disjoint _ _ Hrel i j r r' x).
  - by apply (sp_apart _ _ _ Hsp x).
Qed.

Lemma kernel_ready_undisturbed w' : kept_setup w w' → undisturbed kr w w' →
  KAS_HANDLE (mmu w') = KAS_HANDLE (mmu w) → KAS (mmu w') = KAS (mmu w) → kernel_ready boot_pt_alloc kr w'.
Proof.
  intros Hk Hu E1 E2. destruct (vr_kernel _ _ Hrel) as [H1 H2 H3].
  split; [by rewrite E1|by rewrite E2|by eapply space_inv_undisturbed].
Qed.

(** An edit of the user half of slot [i]. *)
Section edit.
Context (i : nat) (r : Z) (ps ps' : pages) (w' : World).
Context (Hi : A !! i = Some ps) (Hr : live_root w i = Some r) (Hed : edited ub boot_pt_alloc r w w').
Context (Hul : PT_ALLOC_LOCKED (vm w') = false).
Context (Hpg : ∀ v, user_va v →
  live_leaf (m_of w') r v = page_entry (NXE_ENABLED (mmu w)) <$> ps' !! page_of v).
Context (Hfr : ∀ n pa flags, ps' !! n = Some (pa, flags) → frame_arg pa).

Lemma edit_space : space_rel w r ps.
Proof. destruct (live_space i r Hr) as (ps0 & H0 & Hsp). by simplify_eq. Qed.

Lemma edit_setup : kept_setup w w'.
Proof. destruct Hed as [He Ho Hm Hinv _ _ _ _ _]. split; [done|done|by rewrite Hm|apply Hinv]. Qed.

Lemma edit_kernel : undisturbed kr w w'.
Proof.
  split; [|intros f Hf; left; by apply (ed_avail _ _ _ _ _ Hed)].
  intros x j Hx Hj. apply (ed_entries _ _ _ _ _ Hed); [by apply kr_aligned|done| |by apply kr_not_avail].
  intros Hu. by apply (sp_apart _ _ _ edit_space x).
Qed.

Lemma edit_other j r' : i ≠ j → live_root w j = Some r' → undisturbed r' w w'.
Proof.
  intros Hij Hr'. destruct (live_space j r' Hr') as (ps2 & _ & Hsp2). pose proof (sp_inv _ _ _ Hsp2) as Hinv.
  split; [|intros f Hf; left; by apply (ed_avail _ _ _ _ _ Hed)].
  intros x k Hx Hk. apply (ed_entries _ _ _ _ _ Hed); [|done| |].
  - eapply reachable_aligned; [apply (si_tree _ _ _ Hinv)|done].
  - intros Hu. by apply (live_apart i j r r' x).
  - intros Hav. by apply (si_fresh _ _ _ Hinv x).
Qed.

Lemma edit_same : space_rel w' r ps'.
Proof.
  pose proof edit_space as Hsp. destruct Hed as [_ _ Hm Hinv _ _ Hke Hta Hpa]. pose proof (ud_tables _ _ _ edit_kernel) as Hsk.
  split; [done|intros v Hv; by apply Hpa, Hsp| | |by rewrite Hm|done].
  - intros j Hj. rewrite Hke, (Hsk kr j) by (done || apply root_reachable || (unfold table_index; lia)).
    by apply (sp_kernel _ _ _ Hsp).
  - intros x Hx. rewrite (same_reachable _ _ _ Hsk). intros Hk. destruct (Hta x Hx).
    + by apply (sp_apart _ _ _ Hsp x).
    + by apply (kr_not_avail x).
Qed.

Lemma vm_rel_edit : vm_rel (<[i := ps']> A) w'.
Proof.
  pose proof (ed_mmu _ _ _ _ _ Hed) as Hm.
  assert (∀ j, live_root w' j = live_root w j) as Hlr by (intros j; unfold live_root; by rewrite Hm).
  assert (∀ j r' x, j ≠ i → live_root w j = Some r' → x ∈ user_tables (m_of w') r' ↔ x ∈ user_tables (m_of w) r') as Hut.
  { intros j r' x Hij Hj. apply same_user_tables, (edit_other j r'); done. }
  assert (∀ j r' x, i ≠ j → live_root w j = Some r' → x ∈ user_tables (m_of w') r → x ∉ user_tables (m_of w') r') as Hdis.
  { intros j r' x Hij Hj Hx Hy. apply (Hut j) in Hy; [|done|done]. destruct (ed_tables _ _ _ _ _ Hed x Hx).
    - by apply (vr_disjoint _ _ Hrel i j r r' x).
    - destruct (live_space j r' Hj) as (ps2 & _ & Hsp2). apply (si_fresh _ _ _ (sp_inv _ _ _ Hsp2) x); [done|].
      by apply user_table_reachable. }
  split; [done| |..].
  - apply kernel_ready_undisturbed; [apply edit_setup|apply edit_kernel|by rewrite Hm|by rewrite Hm].
  - intros v. rewrite (same_walk _ _ _ (ud_tables _ _ _ edit_kernel)). apply Hrel.
  - rewrite Hm. apply Hrel.
  - intros j ps2. destruct (decide (i = j)) as [<-|Hne].
    + rewrite lookup_insert_eq. intros [= <-]. exists r. rewrite Hlr. split; [done|]. apply edit_same.
    + rewrite lookup_insert_ne by done. intros Hj. destruct (vr_live _ _ Hrel j ps2 Hj) as (r' & Hr' & Hsp').
      exists r'. rewrite Hlr. split; [done|].
      eapply space_rel_undisturbed; [apply edit_setup|apply edit_kernel|by eapply edit_other|done].
  - intros j [Hne Hj]%lookup_insert_None. rewrite Hlr. by apply (vr_dead _ _ Hrel).
  - intros a b ra rb x Hab. rewrite !Hlr. intros Ha Hb Hx.
    destruct (decide (a = i)) as [->|Hai]; [simplify_eq; by eapply Hdis|].
    destruct (decide (b = i)) as [->|Hbi].
    + simplify_eq. intros Hy. by apply (Hdis a ra x).
    + rewrite (Hut b) by done. apply (Hut a) in Hx; [|done|done]. by apply (vr_disjoint _ _ Hrel a b ra rb).
Qed.
End edit.

(** ** Calls on a page *)

#[local] Abbreviation nxe := (NXE_ENABLED (mmu w)).

Lemma page_entry_present n p : pte_present (page_entry n p) = true.
Proof.
  unfold page_entry, pte_present. rewrite entry_flag by done. unfold flags_to_pte_nxe. cbv zeta.
  by repeat case_match.
Qed.

Lemma page_entry_frame n pa flags : frame_arg pa → frame_of (page_entry n (pa, flags)) = pa.
Proof. intros [Ha Hr]. unfold page_entry. cbn. rewrite frame_of_lor by apply flags_to_pte_mask. by apply frame_of_id. Qed.

Section page.
Context (i : nat) (ps : pages) (r : Z) (Hi : A !! i = Some ps) (Hr : live_root w i = Some r).
Context (Hsp : space_rel w r ps).

(** The contents after one page was set or cleared. *)
Lemma pages_update m' va (o : option (PhysAddr * MapFlags)) : user_va va →
  (∀ v, user_va v → live_leaf m' r v =
  if decide (page_of v = page_of va) then page_entry nxe <$> o else live_leaf (m_of w) r v) →
  ∀ v, user_va v → live_leaf m' r v =
  page_entry nxe <$> partial_alter (λ _, o) (page_of va) ps !! page_of v.
Proof.
  intros Hva H v Hv. rewrite H by done. case_decide as E.
  - by rewrite E, lookup_partial_alter_eq.
  - rewrite lookup_partial_alter_ne by done. by apply (sp_pages _ _ _ Hsp).
Qed.

Lemma frames_update va o : (∀ p, o = Some p → frame_arg p.1) →
  ∀ n pa flags, partial_alter (λ _, o) (page_of va) ps !! n = Some (pa, flags) → frame_arg pa.
Proof.
  intros Ho n pa flags. destruct (decide (page_of va = n)) as [<-|Hne].
  - rewrite lookup_partial_alter_eq. intros E. by apply (Ho (pa, flags)).
  - rewrite lookup_partial_alter_ne by done. apply (sp_frames _ _ _ Hsp).
Qed.

Lemma live_none va : user_va va → ps !! page_of va = None ↔ hw_walk (m_of w) r va = None.
Proof.
  intros Hva. rewrite <- live_leaf_none by by eapply entry_ok_no_large, (sp_path _ _ _ Hsp).
  rewrite (sp_pages _ _ _ Hsp) by done. by destruct (ps !! page_of va).
Qed.

Lemma live_some va t : user_va va → follow (m_of w) r (take 3 (path 3 va)) = Some t →
  pte_present (pte (m_of w) t (index 0 va)) = true →
  ∃ p, ps !! page_of va = Some p ∧ pte (m_of w) t (index 0 va) = page_entry nxe p.
Proof.
  intros Hva Ht Hp. assert (live_leaf (m_of w) r va = Some (pte (m_of w) t (index 0 va))) as E.
  { apply live_leaf_some. by exists t. }
  rewrite (sp_pages _ _ _ Hsp) in E by done. destruct (ps !! page_of va) as [p|]; [|done]. injection E as <-. by exists p.
Qed.

(** [unmap_4k] and [protect_4k]: the leaf of a mapped page is replaced. *)
Lemma leaf_set_step va e (o : PhysAddr * MapFlags → option (PhysAddr * MapFlags)) res w' : user_page va →
  leaf_set w r va e res w' →
  (∀ p, ps !! page_of va = Some p →
  (if pte_present (e (page_entry nxe p)) then Some (e (page_entry nxe p)) else None) = page_entry nxe <$> o p ∧
  ∀ p', o p = Some p' → frame_arg p'.1) →
  match res with
  | Ok _ => ∃ p, ps !! page_of va = Some p ∧
  vm_rel (<[i := partial_alter (λ _, o p) (page_of va) ps]> A) w'
  | Err err => err = NotMapped ∧ ps !! page_of va = None ∧ w' = w
  end.
Proof.
  intros [Hva Hal] Hls He. destruct res as [[]|err]; cbn [leaf_set] in Hls.
  - destruct Hls as (t & Ht & Hp & ->). destruct (live_some va t Hva Ht Hp) as (p & Hps & Hent).
    destruct (He p Hps) as [Hl Hfr]. exists p. split; [done|].
    eapply (vm_rel_edit i r ps); [done|done|apply edited_leaf; [done|done|apply Hsp|done]|apply Hrel| |by apply frames_update].
    apply pages_update; [done|]. intros v Hv. rewrite Hent.
    rewrite leaf_live; [|done|done|apply (sp_inv _ _ _ Hsp)|done]. by rewrite Hl.
  - destruct Hls as (-> & Hn & ->). split_and!; [done| |done]. by apply live_none.
Qed.

Lemma step_unmap va : user_page va →
  wp (exec (CUnmap i va)) (λ ret w', ∃ A', avm_step A (CUnmap i va) ret A' ∧ vm_rel A' w') w.
Proof.
  intros [Hva Hal]. cbn [exec]. wp_step. eapply wp_mono.
  - apply (unmap_4k_ends w (AsSlot i) r va); [by apply live_root_aspace|eapply (space_inv_ready boot_pt_alloc), Hsp| |].
    + by eapply entry_ok_no_large, Hsp.
    + by apply user_page_arg.
  - intros res w' Hls. apply (leaf_set_step va _ (λ _, None)) in Hls; [|done|done]. wp_step. destruct res as [[]|err].
    + destruct Hls as (p & Hps & Hv). eexists. split; [|exact Hv]. by eapply a_unmap; [|exists p].
    + destruct Hls as (-> & Hps & ->). exists A. split; [|done]. by eapply a_unmap_none.
Qed.

Lemma step_protect va flags : user_page va →
  wp (exec (CProtect i va flags)) (λ ret w', ∃ A', avm_step A (CProtect i va flags) ret A' ∧ vm_rel A' w') w.
Proof.
  intros [Hva Hal]. cbn [exec]. wp_step. eapply wp_mono.
  - apply (protect_4k_ends w (AsSlot i) r va); [by apply live_root_aspace|eapply (space_inv_ready boot_pt_alloc), Hsp| |].
    + by eapply entry_ok_no_large, Hsp.
    + by apply user_page_arg.
  - intros res w' Hls. apply (leaf_set_step va _ (λ p, Some (p.1, flags))) in Hls; [|done|].
    + wp_step. destruct res as [[]|err].
      * destruct Hls as ([pa old] & Hps & Hv). eexists. split; [|exact Hv]. by eapply a_protect.
      * destruct Hls as (-> & Hps & ->). exists A. split; [|done]. by eapply a_protect_none.
    + intros [pa old] Hps. pose proof (sp_frames _ _ _ Hsp _ _ _ Hps) as Hfa. split.
      * change (new_entry w (page_entry nxe (pa, old)) flags) with
         (page_entry nxe (page_entry nxe (pa, old), flags)). rewrite page_entry_present. cbn [fmap option_fmap option_map fst].
        unfold page_entry at 1 3. cbn [fst snd]. rewrite page_entry_frame by done.
        destruct Hfa. by rewrite frame_of_id.
      * by intros ? [= <-].
Qed.

Lemma step_translate v : user_va v →
  wp (exec (CTranslate i v)) (λ ret w', ∃ A', avm_step A (CTranslate i v) ret A' ∧ vm_rel A' w') w.
Proof.
  intros Hv. destruct (user_va_canonical v Hv) as (_ & Hu & Hc). pose proof (sp_path _ _ _ Hsp v Hv) as Hp.
  cbn [exec]. wp_step. eapply wp_mono.
  - apply (wp_translate w (AsSlot i) r v); [by apply live_root_aspace|eapply (space_inv_ready boot_pt_alloc), Hsp|
     by eapply entry_ok_no_large|done|done].
  - intros res w' [-> ->]. wp_step. exists A. split; [|done]. destruct (ps !! page_of v) as [[pa flags]|] eqn:E.
    + destruct (live_leaf_walk ub (m_of w) r v (page_entry nxe (pa, flags)) Hp) as (mp & -> & -> & _).
      { by rewrite (sp_pages _ _ _ Hsp), E by done. }
      rewrite page_entry_frame by by eapply (sp_frames _ _ _ Hsp). by eapply a_translate.
    + rewrite (proj1 (live_none v Hv) E). by eapply a_translate_none.
Qed.

(** A [map_4k] that failed left the contents as they are. *)
Lemma grown_step user va w3 : (ub = true → user = true) → user_va va → grown boot_pt_alloc user r va (set_lock true w) w3 →
  vm_rel A (set_lock false w3).
Proof.
  intros Hub Hva Hg. rewrite <- (insert_id A i ps) by done. apply (vm_rel_edit i r ps ps); try done.
  - apply (edited_lock r true). eapply edited_grown; [done|done|apply space_inv_lock, Hsp|done].
  - intros v Hv. change (m_of (set_lock false w3)) with (m_of w3).
    rewrite (grown_live _ _ _ _ _ _ v Hg) by by eapply entry_ok_no_large, (sp_path _ _ _ Hsp).
    by apply (sp_pages _ _ _ Hsp).
  - apply (sp_frames _ _ _ Hsp).
Qed.

Lemma step_map va pa flags : user_page va → frame_arg pa → (ub = true → contains flags USER = true) →
  wp (exec (CMap i va pa flags)) (λ ret w', ∃ A', avm_step A (CMap i va pa flags) ret A' ∧ vm_rel A' w') w.
Proof.
  intros [Hva Hal] Hpa Hub. pose proof (sp_inv _ _ _ Hsp) as Hinv. pose proof (user_page_arg va Hva Hal) as Harg.
  assert (no_large (m_of w) r va) as Hnl by by eapply entry_ok_no_large, (sp_path _ _ _ Hsp).
  cbn [exec]. wp_step. apply wp_with_alloc; [apply Hrel|by eapply space_inv_pt_alloc|]. eapply wp_mono.
  - apply (map_4k_ends boot_pt_alloc (set_lock true w) (AsSlot i) r va);
     [by apply live_root_aspace|by apply space_inv_lock|done|done|by apply aligned_4k_spec, Hpa].
  - intros res w3 (w1 & Hg & Hres). wp_step.
    assert (live_leaf (m_of w1) r va = page_entry nxe <$> ps !! page_of va) as Hl1.
    { rewrite (grown_live _ _ _ _ _ _ va Hg) by done. by apply (sp_pages _ _ _ Hsp). }
    destruct res as [[]|[]]; try (by destruct Hres as [[=] _]).
    + destruct Hres as (t & Ht & Hp & ->). exists (<[i := <[page_of va := (pa, flags)]> ps]> A). split.
      { eapply a_map; [done|]. destruct (ps !! page_of va) as [p|]; [|done].
        apply live_leaf_some in Hl1 as (t' & Ht' & He & Hpr). simplify_eq. by rewrite He, page_entry_present in Hp. }
      pose proof (gr_inv _ _ _ _ _ _ Hg) as Hinv1.
      apply (vm_rel_edit i r ps); [done|done| |done| |].
      * apply (edited_lock r true), (edited_trans _ _ _ _ w1).
        -- eapply edited_grown; [done|done|by apply space_inv_lock|done].
        -- by apply edited_leaf.
      * apply (pages_update _ va (Some (pa, flags))); [done|]. intros v Hv.
        change (m_of (set_lock false (set_leaf t va (new_entry (set_lock true w) pa flags) w1))) with
          (m_of (set_leaf t va (page_entry nxe (pa, flags)) w1)).
        rewrite leaf_live by (done || apply Hinv1). rewrite page_entry_present.
        by rewrite (grown_live _ _ _ _ _ _ v Hg) by by eapply entry_ok_no_large, (sp_path _ _ _ Hsp).
      * apply (frames_update va (Some (pa, flags))). by intros ? [= <-].
    + destruct Hres as (-> & t & Ht & Hp). exists A. split; [|by eapply grown_step].
      eapply a_map_mapped; [done|]. destruct (ps !! page_of va); [done|]. exfalso.
      assert (live_leaf (m_of w1) r va = Some (pte (m_of w1) t (index 0 va))) as E
        by (apply live_leaf_some; by exists t). by rewrite Hl1 in E.
    + destruct Hres as (_ & -> & Hn). exists A. split; [|by eapply grown_step].
      eapply a_map_full; [done|]. apply live_none; [done|]. by apply walk_no_table.
Qed.
End page.

(** ** Creation *)

(** Entries outside available frames are kept. *)
Lemma undisturbed_kept root ps0 w' : (root = kr ∨ space_rel w root ps0) →
  (∀ t j, t mod 4096 = 0 → table_index j → ¬ available w t → pte (m_of w') t j = pte (m_of w) t j) →
  (∀ f, available w' f → available w f) → undisturbed root w w'.
Proof.
  intros Hroot Hold Hav. assert (space_inv boot_pt_alloc root w) as [_ Ht _ Hfr].
  { destruct Hroot as [->|Hsp]; [apply Hrel|apply Hsp]. }
  split; [|by left; auto]. intros x j Hx Hj. apply Hold; [|done|].
  - eapply reachable_aligned; [apply Ht|done].
  - intros Ha. by apply (Hfr x).
Qed.

(** A world in which every existing address space is as before. *)
Lemma vm_rel_kept w' : kept_setup w w' → PT_ALLOC_LOCKED (vm w') = false → kernel_ready boot_pt_alloc kr w' →
  AS_SLOTS (mmu w') = AS_SLOTS (mmu w) → undisturbed kr w w' →
  (∀ i r, live_root w i = Some r → undisturbed r w w') → vm_rel A w'.
Proof.
  intros Hk Hul Hkr Hsl Huk Hu.
  assert (∀ j, live_root w' j = live_root w j) as Hlr by (intros j; unfold live_root; by rewrite Hsl).
  split; [done|done| |by rewrite Hsl; apply Hrel| | |].
  - intros v. rewrite (same_walk _ _ _ (ud_tables _ _ _ Huk)). apply Hrel.
  - intros i ps Hi. destruct (vr_live _ _ Hrel i ps Hi) as (r & Hr & Hsp). exists r. rewrite Hlr.
    split; [done|]. eapply space_rel_undisturbed; eauto.
  - intros i Hi. rewrite Hlr. by apply Hrel.
  - intros i j r r' x Hij. rewrite !Hlr. intros Hr Hr'.
    rewrite (same_user_tables _ _ _ (ud_tables _ _ _ (Hu i r Hr))), (same_user_tables _ _ _ (ud_tables _ _ _ (Hu j r' Hr'))).
    by apply (vr_disjoint _ _ Hrel i j).
Qed.

(** A new root has no tables below its user half. *)
Lemma fresh_user_tables m f x : (∀ j, 0 <= j < 256 → pte m f j = 0) → x ∈ user_tables m f → x = f.
Proof.
  intros Hlow [->|(j & p & Hj & _ & Hx)]%elem_of_user_tables; [done|]. cbn [follow] in Hx. by rewrite Hlow in Hx.
Qed.

Lemma fresh_space f w' : undisturbed kr w w' → space_inv boot_pt_alloc f w' → ¬ reachable (m_of w') kr f →
  (∀ v, ¬ kernel_half v → hw_walk (m_of w') f v = None ∧ ∀ P, path_entries P (m_of w') f v) →
  (∀ j, 0 <= j < 256 → pte (m_of w') f j = 0) →
  (∀ j, 256 <= j < 512 → pte (m_of w') f j = pte (m_of w) kr j) → space_rel w' f ∅.
Proof.
  intros Hu Hinv Hne Hlow Hz Hh. assert (∀ v, user_va v → ¬ kernel_half v) as Huv.
  { intros v Hv%user_va_index. unfold kernel_half. lia. }
  split; [done| | | | |intros n pa flags Hn; by rewrite lookup_empty in Hn].
  - intros v Hv. by apply Hlow, Huv.
  - intros j Hj. rewrite Hh by done. symmetry. apply Hu; [apply root_reachable|unfold table_index; lia].
  - intros x ->%fresh_user_tables; done.
  - intros v Hv. rewrite lookup_empty. destruct (Hlow v (Huv v Hv)) as [Hw Hp]. apply live_leaf_none; [apply Hp|done].
Qed.

Section new.
Context (w' : World) (f : Z) (i : nat) (s : AddressSpaceSlot) (Hks : kept_setup w w').
Context (Hold : ∀ t j, t mod 4096 = 0 → table_index j → ¬ available w t → pte (m_of w') t j = pte (m_of w) t j).
Context (Hav : ∀ g, available w' g → available w g).

Lemma new_kernel : undisturbed kr w w'.
Proof. by apply (undisturbed_kept kr ∅); [left|..]. Qed.

Lemma new_other j r : live_root w j = Some r → undisturbed r w w'.
Proof. intros Hj. destruct (live_space j r Hj) as (ps & _ & Hsp). apply (undisturbed_kept r ps); auto. Qed.

Lemma new_user_tables j r x : live_root w j = Some r →
  x ∈ user_tables (m_of w') r ↔ x ∈ user_tables (m_of w) r.
Proof. intros Hj. by apply same_user_tables, (new_other j). Qed.

Context (Hf : available w f) (Hsp : space_rel w' f ∅) (Hz : ∀ j, 0 <= j < 256 → pte (m_of w') f j = 0).
Context (Hs : AS_SLOTS (mmu w) !! i = Some s) (Hus : used s = false).
Context (Hsl : AS_SLOTS (mmu w') = <[i := mkSlot true (mkX86AddressSpace f) (AsSlot i)]> (AS_SLOTS (mmu w))).

Lemma new_slot : A !! i = None.
Proof.
  destruct (A !! i) as [ps|] eqn:E; [|done]. destruct (vr_live _ _ Hrel i ps E) as (r & Hlr & _).
  unfold live_root in Hlr. by rewrite Hs, Hus in Hlr.
Qed.

Lemma new_live j : live_root w' j = if decide (j = i) then Some f else live_root w j.
Proof.
  unfold live_root. rewrite Hsl. case_decide as E.
  - subst j. by rewrite list_lookup_insert_eq by by eapply lookup_lt_Some.
  - by rewrite list_lookup_insert_ne.
Qed.

Lemma new_apart j r x : live_root w j = Some r → x ∈ user_tables (m_of w') f → x ∉ user_tables (m_of w') r.
Proof.
  intros Hj ->%fresh_user_tables Hu; [|done]. destruct (live_space j r Hj) as (ps & _ & Hr).
  apply (si_fresh _ _ _ (sp_inv _ _ _ Hr) f); [done|]. apply user_table_reachable. by apply (new_user_tables j).
Qed.

Lemma vm_rel_new : PT_ALLOC_LOCKED (vm w') = false → kernel_ready boot_pt_alloc kr w' → vm_rel (<[i := ∅]> A) w'.
Proof.
  intros Hul Hk. split; [done|done| | | | |].
  - intros v. rewrite (same_walk _ _ _ (ud_tables _ _ _ new_kernel)). apply Hrel.
  - rewrite Hsl. intros j sj. destruct (decide (j = i)) as [->|Hji].
    + rewrite list_lookup_insert_eq by by eapply lookup_lt_Some. by intros [= <-].
    + rewrite list_lookup_insert_ne by done. apply Hrel.
  - intros j ps. rewrite new_live. destruct (decide (j = i)) as [->|Hji].
    + rewrite lookup_insert_eq. intros [= <-]. by exists f.
    + rewrite lookup_insert_ne by done. intros Hj. destruct (vr_live _ _ Hrel j ps Hj) as (r & Hrj & Hr).
      exists r. split; [done|]. eapply space_rel_undisturbed; eauto using new_kernel, new_other.
  - intros j [Hji Hj]%lookup_insert_None. rewrite new_live. case_decide; [done|]. by apply Hrel.
  - intros a b ra rb x Hab. rewrite !new_live. repeat case_decide; subst; try done.
    + intros [= <-] Hb Hx. by eapply new_apart.
    + intros Ha [= <-] Hx Hy. by apply (new_apart a ra x).
    + intros Ha Hb. rewrite (new_user_tables a ra x Ha), (new_user_tables b rb x Hb). by apply (vr_disjoint _ _ Hrel a b).
Qed.
End new.

Lemma step_new : wp (exec CNew) (λ ret w', ∃ A', avm_step A CNew ret A' ∧ vm_rel A' w') w.
Proof.
  cbn [exec]. wp_step. eapply wp_mono; [apply (wp_vm_new kr); apply Hrel|].
  intros res w' (Hul & Hwalk & Hk & Hold & (He & Ho & Hn) & Hr). wp_step.
  assert (kept_setup w w') as Hks by (split; [done|done|done|apply Hk]).
  destruct res as [h|e].
  - destruct Hr as (f & i & -> & Hf & Hf' & Hroot & Hinv & _ & Hlow & _ & Hav & Hne & _ & Hz & Hhi & s & Hs & Hus & Hsl).
    assert (∀ g, available w' g → available w g) as Hav' by (by intros g []%Hav).
    exists (<[i := ∅]> A). split; [apply a_new; by eapply new_slot|]. eapply (vm_rel_new w' f i s); try done.
    apply fresh_space; try done. by apply new_kernel.
  - destruct Hr as (-> & Hsl & Hav). exists A. split; [by apply a_new_full|].
    assert (∀ g, available w' g → available w g) as Hav'.
    { intros g Hg. destruct Hav as [Hav|(_ & f & _ & Hav)]; apply Hav in Hg; naive_solver. }
    apply vm_rel_kept; try done; [by apply new_kernel|intros j r Hj; by eapply new_other].
Qed.

(** ** Destruction *)

Lemma release_live i j : match release_slot (AsSlot i) (AS_SLOTS (mmu w)) !! j with
             | Some s => if used s then Some (pml4_phys (space s)) else None
             | None => None
             end = if decide (j = i) then None else live_root w j.
Proof.
  pose proof (vr_slots _ _ Hrel) as Hok. unfold live_root.
  destruct (release_slot (AsSlot i) (AS_SLOTS (mmu w)) !! j) as [s|] eqn:E.
  - destruct (release_slot_spec _ _ _ _ Hok E) as (s0 & -> & Hs). destruct (decide (j = i)) as [->|Hji].
    + rewrite bool_decide_eq_true_2, andb_true_r in Hs by done.
      destruct (used s0) eqn:Hu; subst s; [done|by rewrite Hu].
    + rewrite bool_decide_eq_false_2, andb_false_r in Hs by congruence. by subst s.
  - apply lookup_ge_None in E. rewrite length_release_slot in E. apply lookup_ge_None in E. rewrite E. by case_decide.
Qed.

Lemma release_ok i : slots_ok (release_slot (AsSlot i) (AS_SLOTS (mmu w))).
Proof.
  pose proof (vr_slots _ _ Hrel) as Hok. intros j s Hj Hu. destruct (release_slot_spec _ _ _ _ Hok Hj) as (s0 & Hs0 & Hs).
  destruct (used s0 && _); subst s; [done|]. by apply Hok.
Qed.

Lemma vm_rel_destroy i r w' : live_root w i = Some r → kept_setup w w' →
  PT_ALLOC_LOCKED (vm w') = false → m_of w' = m_of w →
  (∀ g, available w' g → available w g ∨ g ∈ user_tables (m_of w) r) →
  KAS_HANDLE (mmu w') = KAS_HANDLE (mmu w) → KAS (mmu w') = KAS (mmu w) →
  AS_SLOTS (mmu w') = release_slot (AsSlot i) (AS_SLOTS (mmu w)) → vm_rel (delete i A) w'.
Proof.
  intros Hr Hks Hul Hm Hav E1 E2 Hsl. destruct (live_space i r Hr) as (ps & _ & Hsp).
  assert (∀ j, live_root w' j = if decide (j = i) then None else live_root w j) as Hlr.
  { intros j. unfold live_root at 1. rewrite Hsl. apply release_live. }
  assert (undisturbed kr w w') as Huk.
  { split; [by intros x j; rewrite Hm|]. intros g [?|Hu]%Hav; [by left|right]. by apply (sp_apart _ _ _ Hsp). }
  assert (∀ j r', j ≠ i → live_root w j = Some r' → undisturbed r' w w') as Huj.
  { intros j r' Hji Hj. split; [by intros x k; rewrite Hm|]. intros g [?|Hu]%Hav; [by left|right].
    by apply (live_apart i j r r'). }
  split; [done|by apply kernel_ready_undisturbed| |by rewrite Hsl; apply release_ok| | |].
  - intros v. rewrite Hm. apply Hrel.
  - intros j ps' [Hji Hj]%lookup_delete_Some. destruct (vr_live _ _ Hrel j ps' Hj) as (r' & Hr' & Hsp').
    exists r'. rewrite Hlr, decide_False by done. split; [done|]. eapply space_rel_undisturbed; eauto.
  - intros j Hj. rewrite Hlr. case_decide as Hji; [done|]. rewrite lookup_delete_ne in Hj by done. by apply Hrel.
  - intros a b ra rb x Hab. rewrite !Hlr, Hm. repeat case_decide; try done. by apply (vr_disjoint _ _ Hrel a b).
Qed.

Lemma step_destroy i : is_Some (A !! i) →
  wp (exec (CDestroy i)) (λ ret w', ∃ A', avm_step A (CDestroy i) ret A' ∧ vm_rel A' w') w.
Proof.
  intros [ps Hi]. destruct (vr_live _ _ Hrel i ps Hi) as (r & Hr & Hsp). pose proof (sp_inv _ _ _ Hsp) as Hinv.
  cbn [exec]. wp_step. apply wp_with_alloc; [apply Hrel|by eapply space_inv_pt_alloc|]. eapply wp_mono.
  - apply (wp_destroy_contract boot_pt_alloc (set_lock true w) (AsSlot i) r);
     [by apply live_root_aspace|cbn; by rewrite (kr_handle _ _ _ (vr_kernel _ _ Hrel))|by apply space_inv_lock].
  - intros ? w' (w1 & [Hs Hm Hia _ _ Hav _] & ->). wp_step. exists (delete i A). split; [apply a_destroy|].
    pose proof (sba_mmu _ _ Hs) as Hmm. cbn in Hmm.
    apply (vm_rel_destroy i r); cbn; rewrite ?Hmm; try done. split; cbn; rewrite ?Hmm; try apply Hs; [done|].
    destruct Hia as (al & Ha & [] & [] & []). exists al. split; [done|]. by split_and!.
Qed.

Lemma step_valid c : valid_call ub A c →
  wp (exec c) (λ ret w', ∃ A', avm_step A c ret A' ∧ vm_rel A' w') w.
Proof.
  destruct c as [|i|i va pa flags|i va|i va flags|i v]; cbn [valid_call];
    [intros _; apply step_new|apply step_destroy|..]; intros ([ps Hi] & Hc);
    destruct (vr_live _ _ Hrel i ps Hi) as (r & Hr & Hsp).
  - destruct Hc as (? & ? & ?). by eapply step_map.
  - by eapply step_unmap.
  - by eapply step_protect.
  - by eapply step_translate.
Qed.
End step.
End rel.

(** ** Clients *)

(** A client chooses its next call from what it has seen, newest first; it
    may stop. *)
Definition strategy : Type := list (vm_call * vm_ret) → option vm_call.

Fixpoint drive (strat : strategy) (n : nat) (h : list (vm_call * vm_ret)) : M World (list (vm_call * vm_ret)) :=
  match n with
  | O => mret h
  | S n' =>
      match strat h with
      | None => mret h
      | Some c => r ← exec c; drive strat n' ((c, r) :: h)
      end
  end.

(** The runs of the abstract service. *)
Inductive avm_run (ub : bool) (A0 : avm) : list (vm_call * vm_ret) → avm → Prop :=
| run_nil : avm_run ub A0 [] A0
| run_call h A c r A' : avm_run ub A0 h A → valid_call ub A c → avm_step A c r A' →
    avm_run ub A0 ((c, r) :: h) A'.

(** The client keeps to live handles and user pages, and with [ub] to
    mappings for user code, as far as the abstract service tells it. *)
Definition well_behaved (ub : bool) (A0 : avm) (strat : strategy) : Prop :=
  ∀ h A c, avm_run ub A0 h A → strat h = Some c → valid_call ub A c.

Lemma wp_drive ub kr K A0 strat n h A w : well_behaved ub A0 strat → avm_run ub A0 h A → vm_rel ub kr K A w →
  wp (drive strat n h) (λ h' w', ∃ A', avm_run ub A0 h' A' ∧ vm_rel ub kr K A' w') w.
Proof.
  intros Hwb. revert h A w. induction n as [|n IH]; intros h A w Hrun Hrel; cbn [drive]; [wp_step; eauto|].
  destruct (strat h) as [c|] eqn:Hc; [|wp_step; eauto]. pose proof (Hwb h A c Hrun Hc) as Hv.
  wp_step. eapply wp_mono; [by apply step_valid|]. intros r w' (A' & Hs & Hrel').
  apply (IH _ A'); [|done]. by eapply run_call.
Qed.

(** A service without address spaces. *)
Lemma vm_rel_empty ub kr w : PT_ALLOC_LOCKED (vm w) = false → kernel_ready boot_pt_alloc kr w →
  (∀ i s, AS_SLOTS (mmu w) !! i = Some s → used s = false) → vm_rel ub kr (hw_walk (m_of w) kr) ∅ w.
Proof.
  intros Hul Hk Hs. assert (∀ i, live_root w i = None) as Hl.
  { intros i. unfold live_root. destruct (AS_SLOTS (mmu w) !! i) as [s|] eqn:E; [|done]. by rewrite (Hs i s E). }
  split; [done|done|done| |..].
  - intros i s Hi Hu. by rewrite (Hs i s Hi) in Hu.
  - intros i ps Hi. by rewrite lookup_empty in Hi.
  - done.
  - intros i j r r' x _ Hi. by rewrite Hl in Hi.
Qed.

(** C1: the VM service refines the table of address spaces.  A call on a live
    handle and a user page returns, without panic, deadlock or undefined
    behaviour, its result and its effect are those of the abstract service,
    and the page tables, the slot table and the frame allocator again
    implement the table the abstract service is left with: no call disturbs
    an address space it is not about.  For a client that maps pages for user
    code only ([ub]) the tables above them stay open to user code. *)
Theorem vm_refines ub kr K A w c : vm_rel ub kr K A w → valid_call ub A c →
  ∃ ret w' A', exec c w = Ret ret w' ∧ avm_step A c ret A' ∧ vm_rel ub kr K A' w'.
Proof.
  intros Hrel Hv. destruct (wp_elim _ _ _ (step_valid ub kr K A w Hrel c Hv)) as (ret & w' & E & A' & Hs & Hr).
  by exists ret, w', A'.
Qed.

(** C5: what the table means to the processor.  With the root of a live
    address space in CR3, a user address of a mapped page translates to the
    frame it was mapped to, writable, executable and global exactly as the
    flags say; user code reaches it only if the flags say so and, for a
    client that maps pages for user code only, exactly if they say so, also
    after their protection was changed; a user address of any other page
    faults; and a kernel address translates as in the kernel's own tables. *)
Theorem vm_contents ub kr K A w i ps : vm_rel ub kr K A w → A !! i = Some ps →
  ∃ r, aspace_root (mmu w) (AsSlot i) = Some r ∧
    (∀ v, kernel_half v → hw_walk (m_of w) r v = K v) ∧
    ∀ v, user_va v →
      match ps !! page_of v with
      | None => hw_walk (m_of w) r v = None
      | Some (pa, flags) => ∃ mp, hw_walk (m_of w) r v = Some mp ∧
          m_pa mp = pa + v mod 4096 ∧ m_w mp = contains flags WRITE ∧
          m_nx mp = negb (contains flags EXEC) && NXE_ENABLED (mmu w) ∧
          m_g mp = contains flags GLOBAL ∧
          (if ub then m_u mp = contains flags USER else m_u mp = true → contains flags USER = true)
      end.
Proof.
  intros Hrel Hi. destruct (vr_live _ _ _ _ _ Hrel i ps Hi) as (r & Hr & Hsp).
  exists r. split_and!; [by apply live_root_aspace| |].
  - intros v Hv. unfold kernel_half in Hv. pose proof (index_range 3 v) as Hx. unfold table_index in Hx.
    rewrite <- (vr_walk _ _ _ _ _ Hrel). unfold hw_walk. cbn [walk].
    by rewrite (sp_kernel _ _ _ _ _ Hsp) by lia.
  - intros v Hv. pose proof (sp_path _ _ _ _ _ Hsp v Hv) as Hp. pose proof (sp_pages _ _ _ _ _ Hsp v Hv) as Hl.
    destruct (ps !! page_of v) as [[pa flags]|] eqn:E; cbn [fmap option_fmap option_map] in Hl.
    + destruct (live_leaf_walk _ _ _ _ _ Hp Hl) as (mp & Hmp & Hpa & _ & Hw & Hn & Hg & Hu & Hub).
      destruct (new_entry_fields w pa flags) as (_ & _ & F1 & F2 & F3 & F4 & _).
      exists mp. rewrite Hpa, page_entry_frame by by eapply (sp_frames _ _ _ _ _ Hsp).
      rewrite Hw, Hn, Hg. split_and!; try done.
      destruct ub; [by rewrite <- F2, Hub|]. intros Hm. rewrite <- F2. by apply Hu.
    + apply live_leaf_none; [by eapply entry_ok_no_large|done].
Qed.
