(* ===== verification/VmFrame.v ===== *)
(** * What the service calls see of the allocator

    Two views of the same code.  The calls that take the [PT_ALLOC] lock hold
    it to their end, and the others never look at what it protects; and a call
    whose allocations stay within the first entries of the memory map cannot
    tell whether the map goes on behind them, which is how the theorems on the
    service apply to a machine whose page tables lie in later entries. *)

From S2P Require Import Prelude Layout Bootabi HalTypes Paging World Hal Cpu Apic X86Mmu MmuProofs MmuSpec AspaceSpec AspaceDestroy SpaceFrames Vm VmProofs VmSpec VmRefine.

(** ** Outcomes *)

(** The state an outcome ends in. *)
Definition final {A} (o : outcome World A) : World :=
  match o with Ret _ w | Panic _ w | Undef _ w | Spin w => w end.

Definition omap {A} (f : World → World) (o : outcome World A) : outcome World A :=
  match o with
  | Ret a w => Ret a (f w) | Panic s w => Panic s (f w) | Undef s w => Undef s (f w) | Spin w => Spin (f w)
  end.

(** ** Code that does not know the VM service *)

(** [m] neither reads nor writes the service's statics, and leaves the memory
    map alone. *)
Definition mmu_only {A} (m : M World A) : Prop := ∀ w,
  (∀ f, m (set_vm f w) = omap (set_vm f) (m w)) ∧
  env (final (m w)) = env w ∧ mem_entries (hw (final (m w))) = mem_entries (hw w).

Lemma mo_ret {A} (a : A) : mmu_only (mret a).
Proof. by intros w. Qed.

Lemma mo_gets {A} (π : World → A) : (∀ f w, π (set_vm f w) = π w) → mmu_only (gets π).
Proof. intros H w. split; [|done]. intros f. unfold gets. cbn. by rewrite H. Qed.

Lemma mo_modify g : (∀ f w, g (set_vm f w) = set_vm f (g w)) →
  (∀ w, env (g w) = env w ∧ mem_entries (hw (g w)) = mem_entries (hw w)) → mmu_only (modify g).
Proof. intros H1 H2 w. split; [|apply H2]. intros f. unfold modify. cbn. by rewrite H1. Qed.

Lemma mo_panic {A} why : mmu_only (panic (A := A) why).
Proof. by intros w. Qed.

Lemma mo_undef {A} why : mmu_only (undef (A := A) why).
Proof. by intros w. Qed.

Lemma mo_bind {A B} (m : M World A) (k : A → M World B) :
  mmu_only m → (∀ a, mmu_only (k a)) → mmu_only (m ≫= k).
Proof.
  intros Hm Hk w. destruct (Hm w) as (Hf & He & Hme). unfold mbind, M_bind. split.
  - intros f. rewrite Hf. destruct (m w) as [a w1| | |]; cbn [omap]; [|done..]. apply Hk.
  - destruct (m w) as [a w1| | |]; cbn [final] in *; [|done..].
    destruct (Hk a w1) as (_ & -> & ->). done.
Qed.

Lemma mo_rbind {A B X} (m : M World (result A X)) (k : A → M World (result B X)) :
  mmu_only m → (∀ a, mmu_only (k a)) → mmu_only (rbind m k).
Proof. intros Hm Hk. apply mo_bind; [done|]. intros [a|e]; [apply Hk|apply mo_ret]. Qed.

Lemma mo_for_each {A} (l : list A) f : (∀ x, mmu_only (f x)) → mmu_only (for_each l f).
Proof. intros H. induction l as [|x l IH]; [apply mo_ret|]. cbn. by apply mo_bind. Qed.

Lemma mo_add64 a b : mmu_only (add64 a b).
Proof. unfold add64. by case_match; [apply mo_ret|apply mo_panic]. Qed.

Lemma mo_sub64 a b : mmu_only (sub64 a b).
Proof. unfold sub64. by case_match; [apply mo_ret|apply mo_panic]. Qed.

Lemma mo_expect {A} (o : option A) why : mmu_only (expect o why).
Proof. by destruct o; [apply mo_ret|apply mo_panic]. Qed.

Lemma mo_load va : mmu_only (load64 va).
Proof. intros w. unfold load64. destruct (hhdm_phys w va 8) eqn:E; (split; [intros f|done]); unfold hhdm_phys in *; cbn in *; by rewrite E. Qed.

Lemma mo_store va v : mmu_only (store64 va v).
Proof. intros w. unfold store64. destruct (hhdm_phys w va 8) eqn:E; (split; [intros f|done]); unfold hhdm_phys in *; cbn in *; by rewrite E. Qed.

Lemma mo_zero va n : mmu_only (write_zero64 va n).
Proof. intros w. unfold write_zero64. destruct (hhdm_phys w va _) eqn:E; (split; [intros f|done]); unfold hhdm_phys in *; cbn in *; by rewrite E. Qed.

Lemma mo_copy s d n : mmu_only (copy_nonoverlapping64 s d n).
Proof.
  intros w. unfold copy_nonoverlapping64. split; [intros f|].
  - change (hhdm_phys (set_vm f w)) with (hhdm_phys w). destruct (hhdm_phys w s _); [|done].
    destruct (hhdm_phys w d (8 * Z.of_nat n)); [|done]. by destruct (_ || _).
  - destruct (hhdm_phys w s _); [|done]. destruct (hhdm_phys w d (8 * Z.of_nat n)); [|done]. by destruct (_ || _).
Qed.

Lemma mo_lapic_read off : mmu_only (lapic_read off).
Proof.
  intros w. unfold lapic_read. cbv zeta. destruct (off =? 0x20), (off =? 0x300), (icr_busy (hw w)) eqn:E; try done;
    (split; [intros f; cbn; by rewrite E|done]).
Qed.

Lemma mo_rdmsr n : mmu_only (rdmsr n).
Proof.
  unfold rdmsr. apply mo_bind; [|intros []; apply mo_ret]. unfold hw_rdmsr. apply mo_bind; [|intros; apply mo_ret].
  destruct (is_x2apic_msr n); [|by apply mo_gets]. intros w. destruct (mo_lapic_read (Z.shiftl (n - 0x800) 4) w) as (H1 & H2).
  destruct (x2apic_enabled w) eqn:E; (split; [intros f; cbn|done]);
    change (x2apic_enabled (set_vm f w)) with (x2apic_enabled w); rewrite E; [apply H1|done].
Qed.

Lemma mo_mmio va : mmu_only (mmio_read32 va).
Proof.
  intros w. unfold mmio_read32. destruct (lapic_offset w va) as [off|] eqn:E; (split; [intros f|]);
    try (change (lapic_offset (set_vm f w) va) with (lapic_offset w va); rewrite E); try apply mo_lapic_read; done.
Qed.

Lemma mo_entry va : mmu_only (load_entry va).
Proof. intros w. unfold load_entry. destruct (mem_entries (hw w) !! va) eqn:E; (split; [intros f; cbn; by rewrite E|done]). Qed.

Create HintDb mmu_only.
#[export] Hint Resolve mo_ret mo_panic mo_undef mo_add64 mo_sub64 mo_expect mo_load mo_store mo_zero mo_copy
  mo_rdmsr mo_mmio mo_entry : mmu_only.

Ltac mo_step :=
  first
    [ solve [eauto 2 with mmu_only nocore]
    | apply mo_rbind; [|intros]
    | apply mo_bind; [|intros]
    | apply mo_for_each; intros
    | apply mo_gets; intros; reflexivity
    | apply mo_modify; intros; [reflexivity|split; reflexivity]
    | match goal with
      | |- mmu_only (match ?x with _ => _ end) => destruct x
      | |- mmu_only (let _ := _ in _) => cbv zeta
      end ].
Ltac solve_mo := repeat mo_step.

Lemma mo_table_get t i : mmu_only (table_get t i).
Proof. unfold table_get. solve_mo. Qed.

Lemma mo_table_set t i v : mmu_only (table_set t i v).
Proof. unfold table_set. solve_mo. Qed.

Lemma mo_phys_to_virt p : mmu_only (phys_to_virt p).
Proof. unfold phys_to_virt. solve_mo. Qed.

Lemma mo_as_x86 h : mmu_only (as_x86 h).
Proof. unfold as_x86. solve_mo. Qed.

#[export] Hint Resolve mo_table_get mo_table_set mo_phys_to_virt mo_as_x86 : mmu_only.

Lemma mo_walk {E} root va (e : E) : mmu_only (walk_to_pt root va e).
Proof. unfold walk_to_pt, table_mut. solve_mo. Qed.

Lemma mo_init_kernel : mmu_only init_kernel.
Proof.
  unfold init_kernel, read_cr3, set_KAS, set_KAS_HANDLE, store_current_slot, cpu_index, cpu_id, read, set_CURRENT.
  solve_mo.
Qed.

Lemma mo_flags flags : mmu_only (flags_to_pte flags).
Proof. unfold flags_to_pte, nxe_enabled. solve_mo. Qed.

#[export] Hint Resolve mo_walk mo_init_kernel mo_flags : mmu_only.

Lemma mo_unmap h va : mmu_only (X86Mmu.unmap_4k h va).
Proof. unfold X86Mmu.unmap_4k, flush_tlb_page, invlpg. solve_mo. Qed.

Lemma mo_protect h va flags : mmu_only (X86Mmu.protect_4k h va flags).
Proof. unfold X86Mmu.protect_4k, flush_tlb_page, invlpg. solve_mo. Qed.

Lemma mo_translate h va : mmu_only (X86Mmu.translate h va).
Proof. unfold X86Mmu.translate. solve_mo. Qed.

Lemma mo_next_loop fuel a : mmu_only (next_loop fuel a).
Proof.
  revert a. induction fuel as [|n IH]; intros a; cbn [next_loop]; [by intros w|].
  unfold entry_at, align_up. solve_mo; apply IH.
Qed.

(** Such code keeps the service's statics, however it ends. *)
Lemma mo_vm {A} (m : M World A) w : mmu_only m → vm (final (m w)) = vm w.
Proof.
  intros Hm. destruct (Hm w) as (H & _). specialize (H (λ _, vm w)).
  assert (set_vm (λ _, vm w) w = w) as E by by destruct w. rewrite E in H.
  apply (f_equal (λ o, vm (final o))) in H. by destruct (m w).
Qed.

(** ** Code with an allocator *)

(** A property of computations that holds of code that does not know the
    service and of the allocator's operations, and is kept by composition;
    the number bounds the frames a run may take. *)
Class Tracked (P : ∀ A, nat → M World A → Prop) := {
  tr_mono A k k' (m : M World A) : (k <= k')%nat → P A k m → P A k' m;
  tr_bind A B k k' (m : M World A) (c : A → M World B) :
    P A k m → (∀ a, P B k' (c a)) → P B (k + k')%nat (m ≫= c);
  tr_other A (m : M World A) : mmu_only m → P A 0%nat m;
  tr_alloc : P _ 1%nat pa_alloc_frame_4k;
  tr_free f : P _ 0%nat (pa_free_frame_4k f)
}.

Section tracked.
Context (P : ∀ A, nat → M World A → Prop) `{!Tracked P}.

Lemma tr_any {A} k (m : M World A) : mmu_only m → P A k m.
Proof. intros H. apply (tr_mono _ 0); [lia|by apply tr_other]. Qed.

Lemma tr_then {A B} k (m : M World A) (c : A → M World B) :
  mmu_only m → (∀ a, P B k (c a)) → P B k (m ≫= c).
Proof. intros Hm Hc. apply (tr_bind _ _ 0 k); [by apply tr_other|done]. Qed.

Lemma tr_rbind {A B X} k k' (m : M World (result A X)) (c : A → M World (result B X)) :
  P _ k m → (∀ a, P _ k' (c a)) → P _ (k + k')%nat (rbind m c).
Proof. intros Hm Hc. apply tr_bind; [done|]. intros [a|e]; [apply Hc|apply tr_any, mo_ret]. Qed.

Lemma tr_for_each {A} (l : list A) f : (∀ x, P _ 0%nat (f x)) → P _ 0%nat (for_each l f).
Proof.
  intros H. induction l as [|x l IH]; [apply tr_any, mo_ret|]. cbn. by apply (tr_bind _ _ 0 0).
Qed.

Lemma tr_ensure p i u : P _ 1%nat (ensure_table boot_pt_alloc p i u).
Proof.
  unfold ensure_table. apply tr_then; [solve_mo|]. intros e. case_match; [apply tr_any; solve_mo|].
  apply (tr_bind _ _ 1 0); [apply tr_alloc|]. intros [f|]; apply tr_any; unfold zero_frame; solve_mo.
Qed.

Lemma tr_map h va pa flags : P _ 3%nat (X86Mmu.map_4k boot_pt_alloc h va pa flags).
Proof.
  unfold X86Mmu.map_4k. case_match; [apply tr_any; solve_mo|]. case_match; [apply tr_any; solve_mo|]. cbv zeta.
  do 2 (apply tr_then; [unfold table_mut; solve_mo|intros ?]).
  do 3 (apply (tr_rbind 1); [apply tr_ensure|intros ?]; apply tr_then; [unfold table_mut; solve_mo|intros ?]).
  apply tr_any. unfold flush_tlb_page, invlpg. solve_mo.
Qed.

Lemma tr_new : P _ 1%nat (address_space_new boot_pt_alloc).
Proof.
  unfold address_space_new. apply (tr_rbind 0 1); [apply tr_any; solve_mo|intros _].
  apply tr_then; [solve_mo|]. intros [k|]; [|apply tr_any; solve_mo]. cbv zeta.
  apply (tr_bind _ _ 1 0); [apply tr_alloc|]. intros [f|]; apply tr_any; [|solve_mo].
  unfold zero_frame, alloc_slot, set_AS_SLOTS. solve_mo.
Qed.

Lemma tr_destroy_entry inner e : (∀ p, P _ 0%nat (inner p)) → P _ 0%nat (destroy_entry boot_pt_alloc inner e).
Proof.
  intros Hi. unfold destroy_entry. case_match; [apply tr_any; solve_mo|]. case_match; [apply tr_any; solve_mo|].
  cbv zeta. apply (tr_bind _ _ 0 0); [apply Hi|]. intros _. apply tr_free.
Qed.

(** A loop over a table that frees what its entries point at. *)
Lemma tr_destroy_table n p inner : (∀ q, P _ 0%nat (inner q)) →
  P _ 0%nat (t ← table_mut p;
             for_each (seq 0 n) (λ i, e ← table_get t (Z.of_nat i); destroy_entry boot_pt_alloc inner e)).
Proof.
  intros Hi. apply tr_then; [unfold table_mut; solve_mo|]. intros t. apply tr_for_each. intros i.
  apply tr_then; [solve_mo|]. intros e. by apply tr_destroy_entry.
Qed.

Lemma tr_destroy h : P _ 0%nat (address_space_destroy boot_pt_alloc h).
Proof.
  unfold address_space_destroy. apply tr_then; [solve_mo|]. intros kh. case_match; [apply tr_any; solve_mo|].
  apply tr_then; [solve_mo|]. intros x. cbv zeta. apply tr_then; [unfold table_mut; solve_mo|]. intros t.
  apply (tr_bind _ _ 0 0).
  - apply tr_for_each. intros i. apply tr_then; [solve_mo|]. intros e. apply tr_destroy_entry. intros p.
    apply (tr_destroy_table ENTRY_COUNT). intros q. apply (tr_destroy_table ENTRY_COUNT). intros ?. apply tr_any, mo_ret.
  - intros _. apply (tr_bind _ _ 0 0); [apply tr_free|]. intros _. apply tr_any. unfold free_slot, set_AS_SLOTS. solve_mo.
Qed.
End tracked.

(** ** The lock *)

Abbreviation locked w := (PT_ALLOC_LOCKED (vm w)).

(** However [m] ends, the lock is as it was. *)
Definition lock_kept A (_ : nat) (m : M World A) : Prop := ∀ w, locked (final (m w)) = locked w.

Lemma lock_kept_bind {A B} k k' (m : M World A) (c : A → M World B) :
  lock_kept A k m → (∀ a, lock_kept B k' (c a)) → lock_kept B (k + k') (m ≫= c).
Proof.
  intros Hm Hc w. unfold mbind, M_bind. specialize (Hm w). destruct (m w) as [a w1| | |]; [|done..].
  rewrite (Hc a w1). exact Hm.
Qed.

Lemma lock_kept_other {A} k (m : M World A) : mmu_only m → lock_kept A k m.
Proof. intros Hm w. by rewrite (mo_vm m w Hm). Qed.

Lemma lock_kept_get : lock_kept _ 0 get_alloc.
Proof. intros w. unfold get_alloc, mbind, M_bind, gets. by destruct (PT_ALLOC (vm w)). Qed.

Lemma lock_kept_put a : lock_kept _ 0 (put_alloc a).
Proof. by intros w. Qed.

#[export] Instance lock_tracked : Tracked lock_kept.
Proof.
  split.
  - done.
  - intros A B k k' m c. apply lock_kept_bind.
  - intros A m. apply lock_kept_other.
  - unfold pa_alloc_frame_4k. apply (lock_kept_bind 0 1); [apply lock_kept_get|]. intros a.
    apply (lock_kept_bind 0 1).
    + case_match.
      * cbv zeta. apply (lock_kept_bind 0 0); [apply lock_kept_put|]. intros _. apply lock_kept_other. solve_mo.
      * apply (lock_kept_bind 0 0); [apply lock_kept_other, mo_next_loop|]. intros [o a'].
        apply (lock_kept_bind 0 0); [apply lock_kept_put|]. intros _. apply lock_kept_other. solve_mo.
    + intros o. apply lock_kept_other. unfold pa_zero_frame. solve_mo.
  - intros f. unfold pa_free_frame_4k. apply (lock_kept_bind 0 0); [apply lock_kept_get|]. intros a.
    repeat case_match; try apply lock_kept_put; apply lock_kept_other; solve_mo.
Qed.

Definition takes_lock (c : vm_call) : bool :=
  match c with CNew | CDestroy _ | CMap _ _ _ _ => true | _ => false end.

Lemma with_alloc_eq {B} (body : PageTableFrameAlloc → M World B) w :
  with_alloc body w =
    if locked w then Spin w
    else match PT_ALLOC (vm w) with
         | None => Panic "vm: not initialized" (set_lock true w)
         | Some _ => match body boot_pt_alloc (set_lock true w) with
                     | Ret r w1 => Ret r (set_lock false w1)
                     | o => o
                     end
         end.
Proof.
  unfold with_alloc, lock, mbind, M_bind. destruct (locked w) eqn:E; [done|].
  unfold gets, expect. cbn. destruct (PT_ALLOC (vm w)) as [a|] eqn:Ea; [|done]. cbn.
  by destruct (body boot_pt_alloc _).
Qed.

Lemma with_alloc_lock {B R} k (body : PageTableFrameAlloc → M World B) (ret : B → R) w :
  lock_kept B k (body boot_pt_alloc) → locked w = false →
  match (x ← with_alloc body; mret (ret x) : M World R) w with
  | Ret _ w' => locked w' = false
  | o => locked (final o) = true
  end.
Proof.
  intros Hb Hl. unfold mbind, M_bind. rewrite with_alloc_eq, Hl. destruct (PT_ALLOC (vm w)); [|done].
  specialize (Hb (set_lock true w)). by destruct (body boot_pt_alloc _).
Qed.

Lemma mo_exec c : takes_lock c = false → mmu_only (exec c).
Proof.
  destruct c; try discriminate 1; intros _; cbn [exec]; (apply mo_bind; [|intros; apply mo_ret]);
    [apply mo_unmap|apply mo_protect|apply mo_translate].
Qed.

Lemma exec_locked c w : takes_lock c = true → locked w = true → exec c w = Spin w.
Proof.
  intros Ht Hl. destruct c; try discriminate Ht; cbn [exec]; unfold mbind, M_bind;
    unfold new_address_space, destroy_address_space, Vm.map_4k; by rewrite with_alloc_eq, Hl.
Qed.

Lemma exec_lock_released c w : takes_lock c = true → locked w = false →
  match exec c w with Ret _ w' => locked w' = false | o => locked (final o) = true end.
Proof.
  intros Ht Hl. destruct c; try discriminate Ht; cbn [exec].
  - exact (with_alloc_lock 1 _ RNew w (tr_new lock_kept) Hl).
  - exact (with_alloc_lock 0 _ (λ _, RDestroy) w (tr_destroy lock_kept (AsSlot i)) Hl).
  - exact (with_alloc_lock 3 _ RMap w (tr_map lock_kept (AsSlot i) va pa flags) Hl).
Qed.

(** C24: the lock discipline of the service's calls, for any arguments and
    in any state.  Creating, destroying and mapping take the allocator's
    lock: they wait forever when it is held, panic when the service is not
    initialised, release it when they return, and when they end otherwise
    leave it held, so that each later such call waits forever.  Unmapping,
    protecting and translating take no lock: they behave the same whatever
    the lock and the allocator are, and change neither. *)
Theorem vm_lock_discipline c w :
  if takes_lock c then
    (locked w = true → exec c w = Spin w) ∧
    (locked w = false → PT_ALLOC (vm w) = None → ∃ w', exec c w = Panic "vm: not initialized" w') ∧
    (locked w = false →
      match exec c w with
      | Ret _ w' => locked w' = false
      | o => locked (final o) = true ∧ ∀ c', takes_lock c' = true → exec c' (final o) = Spin (final o)
      end)
  else ∀ f, exec c (set_vm f w) = omap (set_vm f) (exec c w) ∧ vm (final (exec c w)) = vm w.
Proof.
  destruct (takes_lock c) eqn:Ht.
  - split_and!.
    + by apply exec_locked.
    + intros Hl Ha. exists (set_lock true w). destruct c; try discriminate Ht; cbn [exec]; unfold mbind, M_bind;
        unfold new_address_space, destroy_address_space, Vm.map_4k; by rewrite with_alloc_eq, Hl, Ha.
    + intros Hl. pose proof (exec_lock_released c w Ht Hl) as H.
      destruct (exec c w); [done|..]; (split; [done|]); intros c' Ht'; by apply exec_locked.
  - intros f. pose proof (mo_exec c Ht) as Hm. split; [apply Hm|by apply mo_vm].
Qed.

(** ** Staying within the first entries of the memory map *)

(** The cursor has at least [j] frames ahead. *)
Definition room (j : nat) (w : World) : Prop :=
  ∃ a, PT_ALLOC (vm w) = Some a ∧ map_ok w a ∧ cursor_ok w a ∧
    ∃ l, NoDup l ∧ (j <= length l)%nat ∧ ∀ f, f ∈ l → remaining w a f.

Lemma room_mono i j w : (i <= j)%nat → room j w → room i w.
Proof. intros Hij (a & Ha & Hm & Hc & l & Hn & Hl & Hr). exists a. split_and!; try done. exists l. split_and!; [done|lia|done]. Qed.

Lemma room_stable j w w' : env w' = env w → mem_entries (hw w') = mem_entries (hw w) → vm w' = vm w →
  room j w → room j w'.
Proof.
  intros He Hm Hv (a & Ha & [] & [] & l & Hn & Hl & Hr). exists a. rewrite Hv. split; [done|].
  unfold map_entry in *. split_and!.
  - split; unfold map_entry; rewrite ?He, ?Hm; done.
  - split; rewrite ?He; done.
  - exists l. split_and!; [done|done|]. intros f Hf. specialize (Hr f Hf). unfold remaining, map_entry in *. by rewrite Hm.
Qed.

(** A list without repetitions, with one element taken out. *)
Lemma NoDup_without (l : list Z) f : NoDup l →
  ∃ l', NoDup l' ∧ (length l <= S (length l'))%nat ∧ ∀ g, g ∈ l' → g ∈ l ∧ g ≠ f.
Proof.
  intros Hnd. destruct (decide (f ∈ l)) as [Hin|Hout].
  - apply list_elem_of_split in Hin as (l1 & l2 & ->). rewrite <- Permutation_middle in Hnd.
    apply NoDup_cons in Hnd as [Hf Hnd]. exists (l1 ++ l2). split_and!; [done|rewrite !length_app; cbn; lia|].
    intros g Hg. split; [set_solver|by intros ->].
  - exists l. split_and!; [done|lia|]. intros g Hg. split; [done|by intros ->].
Qed.

Section within.
Context (n : Z).

(** The map has the [n] entries. *)
Definition has_entries (w : World) : Prop :=
  ∃ a, PT_ALLOC (vm w) = Some a ∧ 0 <= n <= pa_entry_count a.

(** A run of [m] that finds [k] frames in the first [n] entries is the same
    whether or not the map goes on behind them. *)
Definition within A (k : nat) (m : M World A) : Prop := ∀ j w,
  has_entries w → room (k + j) (confine n w) →
  match m (confine n w) with
  | Ret r wc => ∃ w', m w = Ret r w' ∧ wc = confine n w' ∧ has_entries w' ∧ room j wc
  | _ => True
  end.

Lemma within_mono A k k' (m : M World A) : (k <= k')%nat → within A k m → within A k' m.
Proof.
  intros Hk Hm j w He Hr. specialize (Hm (k' - k + j)%nat w He).
  replace (k + (k' - k + j))%nat with (k' + j)%nat in Hm by lia. specialize (Hm Hr).
  destruct (m (confine n w)) as [r wc| | |]; [|done..]. destruct Hm as (w' & E & Ew & He' & Hr').
  exists w'. split_and!; [done|done|done|]. eapply room_mono; [|done]. lia.
Qed.

Lemma within_bind A B k k' (m : M World A) (c : A → M World B) :
  within A k m → (∀ a, within B k' (c a)) → within B (k + k') (m ≫= c).
Proof.
  intros Hm Hc j w He Hr. rewrite <- Nat.add_assoc in Hr. specialize (Hm (k' + j)%nat w He Hr).
  unfold mbind, M_bind. destruct (m (confine n w)) as [a wc| | |]; [|done..].
  destruct Hm as (w' & -> & -> & He' & Hr'). exact (Hc a j w' He' Hr').
Qed.

Lemma within_other A (m : M World A) : mmu_only m → within A 0 m.
Proof.
  intros Hm j w He Hr. pose proof (mo_vm m w Hm) as Hv. destruct (Hm w) as (Hf & Hen & Hme).
  unfold confine at 1. rewrite Hf. destruct (m w) as [r w1| | |]; cbn [omap final] in *; [|done..].
  exists w1. split_and!; [done|done| |].
  - destruct He as (a & Ha & Hn). exists a. by rewrite Hv.
  - eapply (room_stable j (confine n w)); [exact Hen|exact Hme| |exact Hr]. cbn. by rewrite Hv.
Qed.

(** The search finds the same frame in the longer map. *)
Lemma next_loop_longer fuel fuel' a w f a' w' : (fuel <= fuel')%nat → n <= pa_entry_count a →
  next_loop fuel (set_count n a) w = Ret (Some f, a') w' →
  next_loop fuel' a w = Ret (Some f, set_count (pa_entry_count a) a') w'.
Proof.
  revert fuel' a w. induction fuel as [|fu IH]; intros fuel' a w Hf Hn; [done|].
  destruct fuel' as [|fu']; [lia|]. cbn [next_loop set_count pa_cur_entry pa_entry_count].
  destruct (Z.ltb_spec (pa_cur_entry a) n) as [Hlt|]; [|done]. cbn [negb].
  rewrite (proj2 (Z.ltb_lt (pa_cur_entry a) (pa_entry_count a))) by lia. cbn [negb].
  unfold entry_at. cbn [pa_cur_entry pa_entry_count pa_entries_ptr set_count].
  rewrite !(proj2 (Z.leb_gt _ _)) by lia. unfold mbind, M_bind.
  destruct (load_entry _ w) as [e w1| | |]; [|done..]. unfold mret, M_ret. cbn [pa_cur_addr].
  assert (∀ w2, next_loop fu (set_cursor (pa_cur_entry a + 1) 0 (set_count n a)) w2 = Ret (Some f, a') w' →
    next_loop fu' (set_cursor (pa_cur_entry a + 1) 0 a) w2 = Ret (Some f, set_count (pa_entry_count a) a') w') as Hskip.
  { intros w2. apply (IH fu' (set_cursor (pa_cur_entry a + 1) 0 a) w2); [lia|done]. }
  destruct (is_usable (mem_type e)); cbn [negb]; [|apply Hskip].
  destruct (checked_add (base e) (len e)) as [end_|]; [|done].
  destruct (align_up _ _ w1) as [addr w2| | |]; [|done..].
  destruct (checked_add addr PAGE_SIZE) as [top|]; [|done].
  destruct (end_ <? top); [apply Hskip|].
  destruct (add64 addr PAGE_SIZE w2) as [cur w3| | |]; [|done..]. by intros [= <- <- <-].
Qed.

(** Allocating takes a frame of the first entries while there is one. *)
Lemma within_alloc_map j w a : PT_ALLOC (vm w) = Some a → 0 <= n <= pa_entry_count a →
  room (S j) (confine n w) → ∃ f a', next_from_map (set_count n a) (confine n w) = Ret (Some f, a') (confine n w) ∧
    next_from_map a w = Ret (Some f, set_count (pa_entry_count a) a') w ∧
    (∃ c d, a' = set_cursor c d (set_count n a)) ∧ map_ok (confine n w) a' ∧ cursor_ok (confine n w) a' ∧
    ∃ l, NoDup l ∧ (j <= length l)%nat ∧ ∀ f, f ∈ l → remaining (confine n w) a' f.
Proof.
  intros Ha Hn (ac & Hac & Hm & Hc & l & Hnd & Hl & Hrem). cbn in Hac. rewrite Ha in Hac. injection Hac as <-.
  destruct (wp_elim _ _ _ (wp_next_loop (confine n w) (S (Z.to_nat (n - pa_cur_entry a))) (set_count n a) Hm Hc
    ltac:(destruct Hc; cbn in *; lia))) as ([o a'] & w' & E & -> & (c & d & Hcd) & Hc' & Hr). cbn [fst snd] in *.
  destruct o as [f|]; [|destruct l as [|f l]; [simpl in Hl; lia|]; destruct (Hr f) as [[] _]; apply Hrem, list_elem_of_here].
  destruct Hr as [_ Hr]. exists f, a'. split_and!.
  - exact E.
  - unfold next_from_map. destruct (mo_next_loop (S (Z.to_nat (n - pa_cur_entry a))) (set_count n a) w) as [Hb _].
    unfold confine at 1 in E. rewrite Hb in E.
    destruct (next_loop _ (set_count n a) w) as [[o2 a2] w2| | |] eqn:E2; try done.
    destruct (wp_elim _ _ _ (wp_next_loop w (S (Z.to_nat (n - pa_cur_entry a))) (set_count n a)
      ltac:(by destruct Hm) ltac:(by destruct Hc) ltac:(destruct Hc; cbn in *; lia))) as (r3 & w3 & E3 & -> & _).
    rewrite E2 in E3. injection E3 as <- ->. injection E as -> ->.
    eapply next_loop_longer; [|apply Hn|exact E2]. lia.
  - by exists c, d.
  - subst a'. by apply map_ok_cursor.
  - done.
  - destruct (NoDup_without l f Hnd) as (l' & Hnd' & Hl' & Hin'). exists l'. split_and!; [done|lia|].
    intros g [Hg Hgf]%Hin'. apply Hr. split; [by apply Hrem|done].
Qed.
(** The allocator object is replaced by one that differs from [a] in its
    cursor and free list. *)
Lemma room_put j w a a' : PT_ALLOC (vm w) = Some a → 0 <= n <= pa_entry_count a →
  pa_entry_count a' = pa_entry_count a → map_ok (confine n w) (set_count n a') →
  cursor_ok (confine n w) (set_count n a') →
  (∃ l, NoDup l ∧ (j <= length l)%nat ∧ ∀ f, f ∈ l → remaining (confine n w) (set_count n a') f) →
  has_entries (with_pt_alloc a' w) ∧ room j (confine n (with_pt_alloc a' w)).
Proof.
  intros Ha Hn Hc Hm Hcu (l & Hl). split; [exists a'; split; [done|by rewrite Hc]|].
  exists (set_count n a'). split; [done|]. split; [by destruct Hm|]. split; [by destruct Hcu|]. by exists l.
Qed.

Lemma get_alloc_bind {B} w a (k : BootPtAlloc → M World B) : PT_ALLOC (vm w) = Some a →
  (get_alloc ≫= k) w = k a w.
Proof. intros Ha. unfold get_alloc, mbind, M_bind, gets. by rewrite Ha. Qed.

Lemma within_alloc : within _ 1 pa_alloc_frame_4k.
Proof.
  intros j w (a & Ha & Hn) Hr.
  assert (∀ o w1, has_entries w1 → room j (confine n w1) →
    match (match o with None => mret None | Some p => pa_zero_frame a p;; mret (Some p) end) (confine n w1) with
    | Ret r wc => ∃ w', (match o with None => mret None | Some p => pa_zero_frame a p;; mret (Some p) end) w1 = Ret r w'
        ∧ wc = confine n w' ∧ has_entries w' ∧ room j wc
    | _ => True
    end) as Htail.
  { intros o w1. apply within_other. unfold pa_zero_frame. solve_mo. }
  unfold pa_alloc_frame_4k. rewrite (get_alloc_bind (confine n w) (set_count n a)) by (cbn; by rewrite Ha).
  rewrite (get_alloc_bind w a) by done. unfold mbind, M_bind. cbn [set_count pa_free_count pa_free_list].
  destruct (0 <? pa_free_count a).
  - destruct (pa_free_list a !! Z.to_nat (pa_free_count a - 1)) as [p|]; [|done].
    set (a' := set_free (pa_free_list a) (pa_free_count a - 1) a).
    destruct (room_put j w a a') as [He' Hr']; [done|done|done|..].
    1-3: destruct Hr as (ac & Hac & Hm & Hc & l & Hl1 & Hl2 & Hl3); cbn in Hac; rewrite Ha in Hac; injection Hac as <-.
    + by destruct Hm.
    + by destruct Hc.
    + exists l. split_and!; [done|lia|done].
    + exact (Htail (Some p) _ He' Hr').
  - destruct (within_alloc_map j w a Ha Hn Hr) as (f & a' & E1 & E2 & (c & d & ->) & Hm & Hc & Hl).
    change (mkBootPtAlloc _ n _ _ _ _ _) with (set_count n a). rewrite E1, E2.
    destruct (room_put j w a (set_cursor c d a)) as [He' Hr']; [done|done|done|done|done|done|].
    exact (Htail (Some f) _ He' Hr').
Qed.

Lemma within_free f : within _ 0 (pa_free_frame_4k f).
Proof.
  intros j w (a & Ha & Hn) Hr. unfold pa_free_frame_4k.
  rewrite (get_alloc_bind (confine n w) (set_count n a)) by (cbn; by rewrite Ha).
  rewrite (get_alloc_bind w a) by done. cbn [set_count pa_free_count pa_free_list].
  destruct (pa_free_count a <? _); [|exists w; split_and!; [done|done|by exists a|exact Hr]].
  destruct (_ <? _)%nat; [|done].
  set (a' := set_free (<[Z.to_nat (pa_free_count a) := f]> (pa_free_list a)) (pa_free_count a + 1) a).
  exists (with_pt_alloc a' w). split; [done|]. split; [done|]. apply (room_put j w a a'); [done|done|done|..];
    destruct Hr as (ac & Hac & Hm & Hc & l & Hl1 & Hl2 & Hl3); cbn in Hac; rewrite Ha in Hac; injection Hac as <-.
  - by destruct Hm.
  - by destruct Hc.
  - exists l. split_and!; [done|lia|done].
Qed.

#[export] Instance within_tracked : Tracked within.
Proof. split; [apply within_mono|apply within_bind|apply within_other|apply within_alloc|apply within_free]. Qed.

Lemma within_with_alloc {B} k (body : PageTableFrameAlloc → M World B) :
  within B k (body boot_pt_alloc) → within B k (with_alloc body).
Proof.
  intros Hb j w (a & Ha & Hn) Hr. rewrite !with_alloc_eq. change (locked (confine n w)) with (locked w).
  assert (PT_ALLOC (vm (confine n w)) = Some (set_count n a)) as Hac by (cbn; by rewrite Ha).
  destruct (locked w); [done|]. rewrite Hac, Ha.
  change (set_lock true (confine n w)) with (confine n (set_lock true w)).
  assert (room (k + j) (confine n (set_lock true w))) as Hr1.
  { destruct Hr as (ac & ? & [] & [] & l & ?). exists ac. split; [done|]. split; [done|]. split; [done|]. by exists l. }
  specialize (Hb j (set_lock true w) (ex_intro _ a (conj Ha Hn)) Hr1).
  destruct (body boot_pt_alloc (confine n (set_lock true w))) as [r wc| | |]; [|done..].
  destruct Hb as (w' & -> & -> & (a' & Ha' & Hn') & Hr'). exists (set_lock false w').
  split_and!; [done|done|by exists a'|].
  destruct Hr' as (ac & ? & [] & [] & l & ?). exists ac. split; [done|]. split; [done|]. split; [done|]. by exists l.
Qed.

Lemma within_exec c : within _ 3 (exec c).
Proof.
  destruct (takes_lock c) eqn:Ht; [|apply (tr_any within), mo_exec, Ht].
  destruct c; try discriminate Ht; cbn [exec]; apply (tr_bind (P := within) _ _ 3 0);
    try (intros; apply (tr_any within), mo_ret); apply within_with_alloc.
  - apply (within_mono _ 1); [lia|apply (tr_new within)].
  - apply (within_mono _ 0); [lia|apply (tr_destroy within)].
  - apply (tr_map within).
Qed.

(** A client's run of [m] calls takes at most [3 * m] frames. *)
Lemma within_drive strat m h : within _ (3 * m) (drive strat m h).
Proof.
  revert h. induction m as [|m IH]; intros h; cbn [drive]; [apply (tr_any within), mo_ret|].
  destruct (strat h) as [c|]; [|apply (tr_any within), mo_ret].
  replace (3 * S m)%nat with (3 + 3 * m)%nat by lia. apply within_bind; [apply within_exec|]. intros r. apply IH.
Qed.
End within.
