(* ===== verification/LimineSpec.v ===== *)
(** * Correctness of the bootloader glue

    What [gather_bootinfo] makes of Limine's responses: the memory map in
    [MEMBUF] is Limine's, entry by entry; the strings in [STRBUF] are the C
    strings Limine points at; and the result is what the kernel's frame
    allocator wants. *)

From S2P Require Import Prelude Layout Bootabi HalTypes Paging World Cpu Apic X86Mmu Vm VmProofs VmSpec Limine.

(** ** The string buffer *)

(** The bytes a span points at. *)
Definition span_bytes (l : LimineSt) (s : ByteSpan) : list Z :=
  if ByteSpan_is_empty s then []
  else take (Z.to_nat (span_len s)) (drop (Z.to_nat (span_ptr s - strbuf_addr l)) (STRBUF l)).

Definition strbuf_ok (l : LimineSt) : Prop :=
  length (STRBUF l) = Z.to_nat STRBUF_SIZE ∧ 0 <= STRBUF_USED l <= STRBUF_SIZE ∧ 0 < strbuf_addr l.

(** The span is empty or lies in the part of the buffer that is in use. *)
Definition span_in (l : LimineSt) (s : ByteSpan) : Prop :=
  ByteSpan_is_empty s = true ∨
  strbuf_addr l <= span_ptr s ∧ span_ptr s + span_len s <= strbuf_addr l + STRBUF_USED l ∧ 0 <= span_len s.

(** [l'] is [l] with [bytes] added as the span [s]. *)
Record strbuf_added (bytes : list Z) (l l' : LimineSt) (s : ByteSpan) : Prop := mkStrbufAdded {
  sa_ok : strbuf_ok l';
  sa_addr : strbuf_addr l' = strbuf_addr l;
  sa_membuf : membuf_addr l' = membuf_addr l;
  sa_used : STRBUF_USED l <= STRBUF_USED l' <= STRBUF_USED l + 7 + Z.of_nat (length bytes);
  sa_keep : take (Z.to_nat (STRBUF_USED l)) (STRBUF l') = take (Z.to_nat (STRBUF_USED l)) (STRBUF l);
  sa_in : span_in l' s;
  sa_bytes : span_bytes l' s = bytes
}.

(** The joined string: a space between two strings that are not empty. *)
Definition joined (a b : list Z) : list Z :=
  match a, b with [], _ => b | _, [] => a | _, _ => a ++ [32] ++ b end.

Lemma strbuf_off_eq w : 0 <= STRBUF_USED (lim (sys w)) <= STRBUF_SIZE →
  ∃ off, strbuf_off w = Ret off w ∧
    STRBUF_USED (lim (sys w)) <= off <= STRBUF_USED (lim (sys w)) + 7.
Proof.
  intros Hu. unfold strbuf_off, gets, mbind, M_bind, add64. unfold STRBUF_SIZE in Hu.
  rewrite (proj2 (Z.ltb_lt _ _)) by (unfold U64; lia).
  eexists. split; [done|].
  set (x := STRBUF_USED (lim (sys w)) + 7). rewrite land_not64 by (unfold is_u64, U64, x; lia).
  change (Z.ldiff x 7) with (Z.ldiff x (Z.ones 3)).
  rewrite Z.ldiff_ones_r, Z.shiftr_div_pow2, Z.shiftl_mul_pow2 by lia. change (2 ^ 3) with 8.
  pose proof (Z.div_mod x 8 ltac:(lia)). pose proof (Z.mod_pos_bound x 8 ltac:(lia)). unfold x in *. lia.
Qed.

(** [w] with another string buffer. *)
Definition with_strbuf (buf : list Z) (used : Z) (w : World) : World :=
  set_lim (λ l, mkLimineSt buf used (strbuf_addr l) (membuf_addr l)) w.

Lemma copy_to_strbuf_eq off bytes w :
  0 <= off → off + Z.of_nat (length bytes) <= Z.of_nat (length (STRBUF (lim (sys w)))) →
  copy_to_strbuf off bytes w =
  Ret () (with_strbuf (list_inserts (Z.to_nat off) bytes (STRBUF (lim (sys w))))
            (STRBUF_USED (lim (sys w))) w).
Proof.
  intros H0 H. unfold copy_to_strbuf, gets, mbind, M_bind. by rewrite (proj2 (Z.leb_le _ _) H).
Qed.

(** The bytes of a span that was just copied. *)
Lemma span_of_inserts off bytes (buf : list Z) :
  (off + length bytes <= length buf)%nat →
  take (length bytes) (drop off (list_inserts off bytes buf)) = bytes.
Proof.
  intros H. apply list_eq_same_length with (n := length bytes); [done| |].
  { rewrite length_take, length_drop, length_inserts. lia. }
  intros i x y Hi. rewrite lookup_take_lt, lookup_drop by done.
  rewrite list_lookup_inserts by lia. replace (off + i - off)%nat with i by lia. congruence.
Qed.

Lemma strbuf_copied off bytes l : strbuf_ok l → bytes ≠ [] →
  STRBUF_USED l <= off <= STRBUF_USED l + 7 → off + Z.of_nat (length bytes) <= STRBUF_SIZE →
  strbuf_added bytes l
    (mkLimineSt (list_inserts (Z.to_nat off) bytes (STRBUF l)) (off + Z.of_nat (length bytes))
       (strbuf_addr l) (membuf_addr l))
    (mkByteSpan (strbuf_addr l + off) (as_u32 (Z.of_nat (length bytes)))).
Proof.
  intros (Hl & Hu & Ha) Hne Ho He. unfold STRBUF_SIZE in *.
  assert (as_u32 (Z.of_nat (length bytes)) = Z.of_nat (length bytes)) as El.
  { unfold as_u32. rewrite Z.mod_small; lia. }
  assert (0 < length bytes)%nat by (destruct bytes; [done|cbn; lia]).
  split; cbn [STRBUF STRBUF_USED strbuf_addr membuf_addr span_ptr span_len]; rewrite ?El; try done.
  - repeat split; cbn; [by rewrite length_inserts|lia|unfold STRBUF_SIZE; lia|lia].
  - lia.
  - apply list_eq. intros i. destruct (decide (i < Z.to_nat (STRBUF_USED l))%nat).
    + rewrite !lookup_take_lt by done. apply list_lookup_inserts_lt. lia.
    + by rewrite !lookup_take_ge by lia.
  - right. cbn [STRBUF_USED strbuf_addr span_ptr span_len]. lia.
  - unfold span_bytes, ByteSpan_is_empty. cbn [STRBUF strbuf_addr span_ptr span_len].
    rewrite (proj2 (Z.eqb_neq _ _)), (proj2 (Z.eqb_neq _ _)) by lia. cbn [orb].
    replace (strbuf_addr l + off - strbuf_addr l) with off by lia.
    rewrite Nat2Z.id. apply span_of_inserts. lia.
Qed.

Lemma nothing_added l : strbuf_ok l → strbuf_added [] l l ByteSpan_empty.
Proof. intros H. split; try done; [cbn; lia|by left]. Qed.

Lemma set_lim_id w : set_lim (λ _, lim (sys w)) w = w.
Proof. destruct w as [? ? ? ? ? ? sy]; by destruct sy. Qed.

(** A copy goes into the buffer or, when it does not fit, does nothing. *)
Lemma strbuf_alloc_copy_total bytes w : let l := lim (sys w) in
  strbuf_ok l → Z.of_nat (length bytes) < 2 ^ 62 →
  ∃ s l', strbuf_alloc_copy bytes w = Ret s (set_lim (λ _, l') w) ∧
    (strbuf_added bytes l l' s ∨
     s = ByteSpan_empty ∧ l' = l ∧ STRBUF_SIZE < STRBUF_USED l + 7 + Z.of_nat (length bytes)).
Proof.
  intros l Hok Hlen. destruct bytes as [|b bs].
  { exists ByteSpan_empty, l. split; [|left; exact (nothing_added l Hok)].
    unfold l. by rewrite set_lim_id. }
  destruct (strbuf_off_eq w) as (off & Eo & Ho); [apply Hok|]. fold l in Ho.
  set (bytes := b :: bs) in *. unfold strbuf_alloc_copy. fold bytes.
  change (match bytes with [] => _ | _ => ?k end) with k.
  unfold mbind, M_bind. rewrite Eo. cbv zeta. unfold add64.
  pose proof Hok as (Hl & Hu & Ha). unfold STRBUF_SIZE in Hl, Hu.
  rewrite (proj2 (Z.ltb_lt _ _)) by (unfold U64; lia). unfold mret, M_ret at 1.
  destruct (Z.ltb_spec STRBUF_SIZE (off + Z.of_nat (length bytes))) as [Hbig|Hfit].
  { exists ByteSpan_empty, l. split; [unfold l; by rewrite set_lim_id|right]. split_and!; [done|done|lia]. }
  unfold STRBUF_SIZE in Hfit. rewrite copy_to_strbuf_eq by (fold l; lia).
  eexists _, _. split.
  - unfold set_STRBUF_USED, modify, strbuf_span, gets, mbind, M_bind, mret, M_ret.
    destruct w as [? ? ? ? ? ? sy]; destruct sy as [? ? ? ? li]; destruct li. reflexivity.
  - left. apply (strbuf_copied off bytes l); [exact Hok|done|done|unfold STRBUF_SIZE; lia].
Qed.

Lemma strbuf_alloc_copy_eq bytes w : let l := lim (sys w) in
  strbuf_ok l → STRBUF_USED l + 7 + Z.of_nat (length bytes) <= STRBUF_SIZE →
  ∃ s l', strbuf_alloc_copy bytes w = Ret s (set_lim (λ _, l') w) ∧ strbuf_added bytes l l' s.
Proof.
  intros l Hok Hfit. pose proof Hok as (_ & Hu & _). unfold STRBUF_SIZE in Hfit.
  destruct (strbuf_alloc_copy_total bytes w Hok) as (s & l' & E & [Ha|(_ & _ & Hbig)]); [lia|by eauto|].
  fold l in Hbig. unfold STRBUF_SIZE in Hbig. lia.
Qed.

(** Joining is copying the joined string. *)
Lemma strbuf_alloc_join_eq a b w : strbuf_ok (lim (sys w)) →
  strbuf_alloc_join a b w = strbuf_alloc_copy (joined a b) w.
Proof.
  intros Hok. destruct a as [|x a]; [done|]. destruct b as [|y b]; [done|].
  unfold strbuf_alloc_join, joined. set (a' := x :: a). set (b' := y :: b).
  destruct (strbuf_off_eq w) as (off & Eo & Ho); [apply Hok|].
  unfold strbuf_alloc_copy. destruct (a' ++ [32] ++ b') as [|c l] eqn:Ec; [done|]. rewrite <- Ec.
  unfold mbind, M_bind. rewrite Eo. cbv zeta.
  assert (Z.of_nat (length a') + Z.of_nat (length [32]) + Z.of_nat (length b') =
          Z.of_nat (length (a' ++ [32] ++ b'))) as -> by (rewrite !length_app; lia).
  set (n := Z.of_nat (length (a' ++ [32] ++ b'))). unfold add64.
  destruct (off + n <? U64); [|done]. unfold mret, M_ret.
  destruct (Z.ltb_spec STRBUF_SIZE (off + n)) as [|Hn]; [done|].
  destruct Hok as (Hl & Hu & Ha). assert (length (STRBUF (lim (sys w))) = 4096%nat) as Hl' by exact Hl.
  unfold STRBUF_SIZE in Hn. unfold n in Hn. rewrite !length_app in Hn. cbn [length] in Hn.
  rewrite !copy_to_strbuf_eq; cbn [with_strbuf set_lim set_sys sys lim STRBUF STRBUF_USED length];
    rewrite ?length_inserts, ?length_app; cbn [length]; [|lia..].
  replace (off + Z.of_nat (length a') + Z.of_nat 1 + Z.of_nat (length b')) with (off + n)
    by (unfold n; rewrite !length_app; cbn [length]; lia).
  replace (Z.to_nat (off + Z.of_nat (length a') + Z.of_nat 1))
    with (length (a' ++ [32%Z]) + Z.to_nat off)%nat by (rewrite length_app; cbn [length]; lia).
  replace (Z.to_nat (off + Z.of_nat (length a'))) with (length a' + Z.to_nat off)%nat by lia.
  rewrite <- !list_inserts_app_l. by rewrite <- app_assoc.
Qed.

(** C14: no string overruns the buffer.  Whatever the lengths of the two
    strings (short of half the address space), joining them returns, writes
    within the 4096 bytes of the buffer, and leaves the strings already there
    as they are; the span it returns lies in the used part and holds exactly
    the joined string, or is empty because the string does not fit. *)
Theorem strbuf_never_overrun a b w : strbuf_ok (lim (sys w)) →
  Z.of_nat (length a) + Z.of_nat (length b) + 1 < 2 ^ 62 →
  ∃ s l', strbuf_alloc_join a b w = Ret s (set_lim (λ _, l') w) ∧ strbuf_ok l' ∧ span_in l' s ∧
    take (Z.to_nat (STRBUF_USED (lim (sys w)))) (STRBUF l') =
      take (Z.to_nat (STRBUF_USED (lim (sys w)))) (STRBUF (lim (sys w))) ∧
    (span_bytes l' s = joined a b ∨
     s = ByteSpan_empty ∧ l' = lim (sys w) ∧
     STRBUF_SIZE < STRBUF_USED (lim (sys w)) + 7 + Z.of_nat (length (joined a b))).
Proof.
  intros Hok Hlen. rewrite strbuf_alloc_join_eq by done.
  destruct (strbuf_alloc_copy_total (joined a b) w Hok) as (s & l' & E & Hs).
  { destruct a as [|x a], b as [|y b]; cbn [joined app length] in *; rewrite ?length_app; cbn [length] in *; lia. }
  exists s, l'. split; [exact E|]. destruct Hs as [[? ? ? ? ? ? ?]|(-> & -> & Hbig)].
  - split_and!; [done|done|done|by left].
  - split_and!; [done|by left|done|by right].
Qed.

(** ** C strings *)

(** Memory holds the bytes [s] from physical address [p]. *)
Definition mem_bytes (m : ram) (p : Z) (s : list Z) : Prop :=
  ∀ i b, s !! i = Some b → byte_at m (p + Z.of_nat i) = b.

(** Limine's pointers are physical or into the direct map. *)
Definition phys_of (hhdm ptr : Z) : Z := if ptr <? hhdm then ptr else ptr - hhdm.

(** [e] is the first of [es] that contains [p]; no entry up to it overflows. *)
Definition first_entry (es : list MemMapEntry) (p : Z) (e : MemMapEntry) : Prop :=
  ∃ k, es !! k = Some e ∧ base e <= p < base e + len e ∧ base e + len e < U64 ∧
    ∀ j e', (j < k)%nat → es !! j = Some e' →
      base e' + len e' < U64 ∧ ¬ (base e' <= p < base e' + len e').

(** [ptr] points at the C string [s], which lies in one entry of the map. *)
Record c_string (w : World) (es : list MemMapEntry) (ptr : Z) (s : list Z) : Prop := mkCString {
  cs_ptr : 0 < ptr;
  cs_bytes : mem_bytes (mem64 (hw w)) (phys_of (hhdm_base (env w)) ptr) (s ++ [0]);
  cs_nonzero : 0 ∉ s;
  cs_short : Z.of_nat (length s) < MAX_STR_BYTES;
  cs_mapped : phys_of (hhdm_base (env w)) ptr + Z.of_nat (length s) + 1 <= phys_limit (env w);
  cs_entry : ∃ e, first_entry es (phys_of (hhdm_base (env w)) ptr) e ∧
    phys_of (hhdm_base (env w)) ptr + Z.of_nat (length s) < base e + len e
}.

(** What the kernel finds behind an optional pointer. *)
Definition string_at (w : World) (es : list MemMapEntry) (o : option Z) (s : list Z) : Prop :=
  match o with None => s = [] | Some p => p = 0 ∧ s = [] ∨ c_string w es p s end.

(** The direct map does not cover the kernel's string buffer. *)
Definition strbuf_apart (w : World) : Prop :=
  strbuf_addr (lim (sys w)) + STRBUF_SIZE <= hhdm_base (env w) ∨
  hhdm_base (env w) + phys_limit (env w) <= strbuf_addr (lim (sys w)).

(** The view describes the entries [es] in memory. *)
Record view_of (w : World) (es : list MemMapEntry) (v : MemMapView) : Prop := mkViewOf {
  vo_ptr : entries_ptr v ≠ 0;
  vo_count : entry_count v = Z.of_nat (length es);
  vo_some : es ≠ [];
  vo_size : entry_size v = sizeof_MemMapEntry;
  vo_entries : ∀ i e, es !! i = Some e →
    mem_entries (hw w) !! (entries_ptr v + sizeof_MemMapEntry * Z.of_nat i) = Some e
}.

Lemma load8_direct w p : strbuf_apart w → 0 <= p → p + 1 <= phys_limit (env w) →
  load8 (p + hhdm_base (env w)) w = Ret (byte_at (mem64 (hw w)) p) w.
Proof.
  intros Ha H0 H1. unfold load8. cbv zeta. destruct (_ && _) eqn:E.
  - apply andb_true_iff in E as [E1%Z.leb_le E2%Z.ltb_lt]. destruct Ha; lia.
  - by rewrite hhdm_phys_some.
Qed.

Lemma mem_bytes_cons m p b s : mem_bytes m p (b :: s) → byte_at m p = b ∧ mem_bytes m (p + 1) s.
Proof.
  intros H. split.
  - specialize (H 0%nat b eq_refl). by rewrite Z.add_0_r in H.
  - intros i c Hi. specialize (H (S i) c Hi). by rewrite <- Z.add_assoc, Z.add_1_l, <- Nat2Z.inj_succ.
Qed.

Lemma load_bytes_direct w p s : strbuf_apart w → 0 <= p → p + Z.of_nat (length s) <= phys_limit (env w) →
  mem_bytes (mem64 (hw w)) p s → load_bytes (p + hhdm_base (env w)) (length s) w = Ret s w.
Proof.
  intros Ha. revert p. induction s as [|b s IH]; intros p H0 H1 Hm; [done|].
  apply mem_bytes_cons in Hm as [Hb Hm]. cbn [length] in *. cbn [load_bytes]. unfold mbind, M_bind.
  rewrite load8_direct by (done || lia). replace (p + _ + 1) with (p + 1 + hhdm_base (env w)) by lia.
  rewrite IH by (done || lia). by rewrite Hb.
Qed.

Lemma position_zero_direct w p i n s : strbuf_apart w → 0 <= p →
  p + Z.of_nat (length s) + 1 <= phys_limit (env w) → (length s < n)%nat → 0 ∉ s →
  mem_bytes (mem64 (hw w)) p (s ++ [0]) →
  position_zero (p + hhdm_base (env w)) i n w = Ret (Some (i + Z.of_nat (length s))) w.
Proof.
  intros Ha. revert p i n. induction s as [|b s IH]; intros p i n H0 H1 Hn Hz Hm;
    (destruct n as [|n]; [lia|]); apply mem_bytes_cons in Hm as [Hb Hm];
    cbn [length] in *; cbn [position_zero]; unfold mbind, M_bind;
    rewrite load8_direct by (done || lia); rewrite Hb.
  - by rewrite Z.add_0_r.
  - apply not_elem_of_cons in Hz as [Hb0 Hz]. rewrite (proj2 (Z.eqb_neq _ _)) by done.
    replace (p + _ + 1) with (p + 1 + hhdm_base (env w)) by lia.
    rewrite IH by (done || lia). do 2 f_equal. lia.
Qed.

Lemma phys_available_eq w ptr es p e :
  (∀ i e, es !! i = Some e → mem_entries (hw w) !! (ptr + sizeof_MemMapEntry * Z.of_nat i) = Some e) →
  first_entry es p e →
  phys_available p ptr (length es) w = Ret (Some (base e + len e - p)) w.
Proof.
  revert ptr. induction es as [|e0 es IH]; intros ptr Hm (k & Hk & Hin & Hov & Hb); [done|].
  cbn [length phys_available]. unfold mbind, M_bind, load_entry.
  pose proof (Hm 0%nat e0 eq_refl) as H0. rewrite Z.mul_0_r, Z.add_0_r in H0. rewrite H0.
  unfold checked_add. destruct k as [|k].
  - injection Hk as ->. rewrite (proj2 (Z.ltb_lt _ _)) by done.
    by rewrite (proj2 (Z.leb_le _ _)), (proj2 (Z.ltb_lt _ _)) by lia.
  - destruct (Hb 0%nat e0 ltac:(lia) eq_refl) as [Ho Hn]. rewrite (proj2 (Z.ltb_lt _ _)) by done.
    replace ((_ <=? p) && _) with false; [|symmetry; apply andb_false_iff; rewrite Z.leb_gt, Z.ltb_ge; lia].
    apply IH.
    + intros i e' Hi. rewrite <- (Hm (S i) e' Hi). f_equal. lia.
    + exists k. split_and!; [done|lia|lia|done|]. intros j e' Hj. apply (Hb (S j)). lia.
Qed.

(** The direct map is where the protocol says and ends below 2^64. *)
Definition direct_ok (w : World) : Prop :=
  0 < hhdm_base (env w) ∧ hhdm_base (env w) + phys_limit (env w) <= U64.

Lemma resolve_limine_ptr_eq w es v ptr s : direct_ok w → view_of w es v → c_string w es ptr s →
  ∃ e, first_entry es (phys_of (hhdm_base (env w)) ptr) e ∧
    phys_of (hhdm_base (env w)) ptr + Z.of_nat (length s) < base e + len e ∧
    resolve_limine_ptr ptr (hhdm_base (env w)) (entries_ptr v) (length es) w =
    Ret (Some (phys_of (hhdm_base (env w)) ptr + hhdm_base (env w),
               base e + len e - phys_of (hhdm_base (env w)) ptr)) w.
Proof.
  intros [H0 H1] Hv [Hp _ _ _ Hm (e & He & Hl)]. exists e. split_and!; [done|done|].
  unfold resolve_limine_ptr. rewrite (proj2 (Z.eqb_neq _ _)) by lia. cbn [negb andb].
  unfold phys_of in *. destruct (Z.ltb_spec ptr (hhdm_base (env w))); unfold mbind, M_bind.
  - rewrite (phys_available_eq _ _ _ _ e (vo_entries _ _ _ Hv)) by done.
    cbn. unfold wrapping_add. rewrite Z.mod_small by lia. done.
  - cbv zeta. unfold wrapping_sub. rewrite Z.mod_small by lia.
    rewrite (phys_available_eq _ _ _ _ e (vo_entries _ _ _ Hv)) by done.
    cbn. do 3 f_equal. lia.
Qed.

(** The empty string is no string. *)
Definition some_string (s : list Z) : option (list Z) := match s with [] => None | _ => Some s end.

Lemma cstr_bytes_eq w es v ptr s : direct_ok w → strbuf_apart w → view_of w es v → c_string w es ptr s →
  cstr_bytes ptr (hhdm_base (env w)) v w = Ret (some_string s) w.
Proof.
  intros Hd Ha Hv Hs. destruct (resolve_limine_ptr_eq w es v ptr s Hd Hv Hs) as (e & He & Hl & Hr).
  pose proof Hs as [Hp Hb Hz Hsh Hm _]. pose proof Hv as [Hv1 Hv2 Hv3 Hv4 _].
  unfold cstr_bytes, cstr_view, mbind, M_bind.
  rewrite (proj2 (Z.eqb_neq ptr 0)), (proj2 (Z.eqb_neq _ 0)) by (done || lia).
  rewrite Hv4, Z.eqb_refl, Hv2.
  rewrite (proj2 (Z.eqb_neq (Z.of_nat _) 0)) by (destruct es; [done|cbn; lia]). cbn [negb orb].
  rewrite Nat2Z.id, Hr. cbv zeta.
  set (p := phys_of _ _) in *. destruct Hd as [Hd0 Hd1].
  assert (0 <= p) as Hp0 by (unfold p, phys_of; case_match eqn:E; rewrite ?Z.ltb_ge in E; lia).
  unfold MAX_STR_BYTES in *. rewrite (proj2 (Z.eqb_neq (Z.min _ _) 0)) by lia.
  rewrite (position_zero_direct w p 0 _ s) by (done || lia). rewrite Z.add_0_l.
  destruct s as [|b s']; [done|]. rewrite (proj2 (Z.eqb_neq (Z.of_nat _) 0)) by (cbn; lia).
  unfold mret, M_ret. rewrite Nat2Z.id.
  rewrite load_bytes_direct; [done|done|lia|lia|].
  intros i c Hi. apply Hb. rewrite lookup_app_l by (by eapply lookup_lt_Some). done.
Qed.

Lemma cstr_bytes_null w v : cstr_bytes 0 (hhdm_base (env w)) v w = Ret None w.
Proof. done. Qed.

Lemma string_at_bytes w es v ptr s : direct_ok w → strbuf_apart w → view_of w es v →
  string_at w es (Some ptr) s → cstr_bytes ptr (hhdm_base (env w)) v w = Ret (some_string s) w.
Proof. intros ??? [[-> ->]|Hs]; [apply cstr_bytes_null|by eapply cstr_bytes_eq]. Qed.

(** ** The memory map *)

Section map.
Context {L : LimineCrate}.

(** The buffer after the entries [es] were stored from index [k]. *)
Fixpoint store_from (buf : Z) (k : nat) (es : list (Entry L)) (m : gmap Z MemMapEntry) : gmap Z MemMapEntry :=
  match es with
  | [] => m
  | e :: es' => store_from buf (S k) es' (<[buf + sizeof_MemMapEntry * Z.of_nat k := convert_entry e]> m)
  end.

Lemma store_loop buf es k w :
  for_each (zip (seq k (length es)) es)
  (λ '(i, e), store_entry (buf + sizeof_MemMapEntry * Z.of_nat i) (convert_entry e)) w =
  Ret () (set_hw (hw_mem_entries (store_from buf k es)) w).
Proof.
  revert k w. induction es as [|e es IH]; intros k w.
  { destruct w as [? h]; by destruct h. }
  cbn [length seq zip zip_with for_each]. unfold mbind, M_bind. cbn [store_entry modify]. by rewrite IH.
Qed.

Lemma store_from_other buf es k m a :
  (∀ i, (k <= i)%nat → a ≠ buf + sizeof_MemMapEntry * Z.of_nat i) → store_from buf k es m !! a = m !! a.
Proof.
  revert k m. induction es as [|e es IH]; intros k m Ha; [done|]. cbn [store_from].
  rewrite IH by (intros i Hi; apply Ha; lia). apply lookup_insert_ne. specialize (Ha k ltac:(lia)). done.
Qed.

Lemma store_from_lookup buf es k m i e : es !! i = Some e →
  store_from buf k es m !! (buf + sizeof_MemMapEntry * Z.of_nat (k + i)) = Some (convert_entry e).
Proof.
  revert k m i. induction es as [|e0 es IH]; intros k m i Hi; [done|]. cbn [store_from].
  destruct i as [|i].
  - injection Hi as ->. rewrite store_from_other; [by rewrite Nat.add_0_r, lookup_insert_eq|].
    intros j Hj. rewrite sizeof_MemMapEntry_eq. lia.
  - replace (k + S i)%nat with (S k + i)%nat by lia. by apply IH.
Qed.

(** The entries that fit. *)
Definition kept (es : list (Entry L)) : list (Entry L) := take MAX_MEMMAP es.

Definition truncated (es : list (Entry L)) : Z :=
  if (MAX_MEMMAP <? length es)%nat then MemMapFlags_TRUNCATED else 0.

Lemma convert_memmap_eq es w : es ≠ [] →
  convert_memmap_entries es w =
  Ret (mkMemMapView (membuf_addr (lim (sys w))) (Z.of_nat (length (kept es))) sizeof_MemMapEntry (truncated es),
   truncated es)
  (set_hw (hw_mem_entries (store_from (membuf_addr (lim (sys w))) 0 (kept es))) w).
Proof.
  intros Hne. destruct es as [|e0 es0]; [done|]. set (es := e0 :: es0).
  unfold convert_memmap_entries. fold es. change (match es with [] => _ | _ => ?k end) with k.
  cbv zeta. unfold mbind, M_bind, gets.
  assert (Nat.min (length es) MAX_MEMMAP = length (kept es)) as E
    by (unfold kept; rewrite length_take; lia).
  rewrite E. assert (take (length (kept es)) es = kept es) as ->.
  { unfold kept. rewrite length_take. destruct (decide (MAX_MEMMAP <= length es)%nat).
    - by rewrite Nat.min_l.
    - rewrite !take_ge; [done|lia|lia]. }
  rewrite store_loop. unfold truncated, mret, M_ret.
  assert (length (kept es) <= 1024)%nat by (unfold kept, MAX_MEMMAP; rewrite length_take; lia).
  assert ((length (kept es) <? length es)%nat = (MAX_MEMMAP <? length es)%nat) as ->.
  { apply eq_bool_prop_intro. rewrite !Is_true_true, !Nat.ltb_lt. unfold kept. rewrite length_take. lia. }
  unfold as_u32. rewrite Z.mod_small by lia. done.
Qed.
End map.

(** ** The whole of [gather_bootinfo] *)

(** Older spans survive an addition. *)
Lemma span_kept bytes l l' s s0 : strbuf_ok l → strbuf_added bytes l l' s → span_in l s0 →
  span_in l' s0 ∧ span_bytes l' s0 = span_bytes l s0.
Proof.
  intros Hok Ha Hs. split.
  { destruct Hs as [|(H1 & H2 & H3)]; [by left|right]. rewrite (sa_addr _ _ _ _ Ha).
    destruct (sa_used _ _ _ _ Ha). lia. }
  unfold span_bytes. destruct Hs as [->|(H1 & H2 & H3)]; [done|].
  destruct (ByteSpan_is_empty s0); [done|]. rewrite (sa_addr _ _ _ _ Ha).
  rewrite !take_drop_commute.
  set (n := (Z.to_nat (span_ptr s0 - strbuf_addr l) + Z.to_nat (span_len s0))%nat).
  assert (∀ buf : list Z, take n buf = take n (take (Z.to_nat (STRBUF_USED l)) buf)) as E.
  { intros buf. rewrite take_take, Nat.min_l; [done|]. unfold n. lia. }
  by rewrite (E (STRBUF l')), (E (STRBUF l)), (sa_keep _ _ _ _ Ha).
Qed.

Section gather.
Context {L : LimineCrate} (R : Responses L).
Implicit Types (es : list (Entry L)) (w : World).

(** The entries as the kernel sees them. *)
Definition boot_entries es : list MemMapEntry := convert_entry <$> kept es.

(** What Limine and the linker provide. *)
Record limine_ok (w : World) (es : list (Entry L)) : Prop := mkLimineOk {
  lo_base : base_is_valid R = true ∧ base_is_supported R = true;
  lo_hhdm : hhdm_response R = Some (hhdm_base (env w));
  lo_direct : direct_ok w;
  lo_map : memmap_response R = Some es;
  lo_some : es ≠ [];
  lo_strbuf : length (STRBUF (lim (sys w))) = Z.to_nat STRBUF_SIZE ∧ 0 < strbuf_addr (lim (sys w));
  lo_apart : strbuf_apart w;
  lo_membuf : membuf_addr (lim (sys w)) ≠ 0
}.

(** The strings behind the pointers of the responses. *)
Record strings_ok (w : World) (es : list (Entry L)) (cmd name ver : list Z) : Prop := mkStringsOk {
  so_cmdline : string_at w (boot_entries es) (cmdline_response R) cmd;
  so_name : string_at w (boot_entries es) (fst <$> bootloader_info_response R) name;
  so_version : string_at w (boot_entries es) (snd <$> bootloader_info_response R) ver
}.

Lemma string_short w ces o s : string_at w ces o s → Z.of_nat (length s) < MAX_STR_BYTES.
Proof. destruct o as [p|]; [intros [[_ ->]|[]]; done|by intros ->]. Qed.

(** One string: its bytes, copied when there are any. *)
Lemma copy_some w s : strbuf_ok (lim (sys w)) →
  STRBUF_USED (lim (sys w)) + 7 + Z.of_nat (length s) <= STRBUF_SIZE →
  ∃ sp l', match some_string s with Some l => strbuf_alloc_copy l | None => mret ByteSpan_empty end w =
         Ret sp (set_lim (λ _, l') w) ∧ strbuf_added s (lim (sys w)) l' sp.
Proof.
  intros Hok Hf. destruct s as [|b s]; [|exact (strbuf_alloc_copy_eq (b :: s) w Hok Hf)].
  exists ByteSpan_empty, (lim (sys w)). split; [|by apply nothing_added]. cbn. by rewrite set_lim_id.
Qed.

Lemma cmdline_string_eq w ces v cmd : direct_ok w → strbuf_apart w → view_of w ces v →
  string_at w ces (cmdline_response R) cmd → strbuf_ok (lim (sys w)) →
  STRBUF_USED (lim (sys w)) + 7 + Z.of_nat (length cmd) <= STRBUF_SIZE →
  ∃ sp l', cmdline_string R (hhdm_base (env w)) v w = Ret sp (set_lim (λ _, l') w) ∧
  strbuf_added cmd (lim (sys w)) l' sp.
Proof.
  intros Hd Ha Hv Hs Hok Hf. unfold cmdline_string. destruct (cmdline_response R) as [p|] eqn:E.
  - unfold mbind, M_bind. rewrite (string_at_bytes w ces v p cmd) by done. by apply copy_some.
  - cbn in Hs. subst cmd. by apply (copy_some w []).
Qed.

Lemma bootloader_string_eq w ces v name ver : direct_ok w → strbuf_apart w → view_of w ces v →
  string_at w ces (fst <$> bootloader_info_response R) name →
  string_at w ces (snd <$> bootloader_info_response R) ver → strbuf_ok (lim (sys w)) →
  STRBUF_USED (lim (sys w)) + 7 + Z.of_nat (length (joined name ver)) <= STRBUF_SIZE →
  ∃ sp l', bootloader_string R (hhdm_base (env w)) v w = Ret sp (set_lim (λ _, l') w) ∧
  strbuf_added (joined name ver) (lim (sys w)) l' sp.
Proof.
  intros Hd Ha Hv Hn Hr Hok Hf. unfold bootloader_string.
  destruct (bootloader_info_response R) as [[pn pv]|] eqn:E.
  - unfold mbind, M_bind. rewrite (string_at_bytes w ces v pn name) by done.
    rewrite (string_at_bytes w ces v pv ver) by done.
    destruct name as [|x name]; [exact (copy_some w ver Hok Hf)|].
    destruct ver as [|y ver]; [by apply (copy_some w (x :: name))|].
    cbn [some_string]. rewrite strbuf_alloc_join_eq by done. by apply (strbuf_alloc_copy_eq (joined _ _) w).
  - cbn in Hn, Hr. subst name ver. by apply (copy_some w []).
Qed.

Lemma joined_length name ver : (length (joined name ver) <= length name + 1 + length ver)%nat.
Proof. destruct name, ver; cbn [joined length]; rewrite ?length_app; cbn [length app]; lia. Qed.

Lemma kept_some es : es ≠ [] → kept es ≠ [].
Proof. by destruct es. Qed.

(** The memory-map buffer after [gather_bootinfo]. *)
Definition map_stored es w : World :=
  set_hw (hw_mem_entries (store_from (membuf_addr (lim (sys w))) 0 (kept es))) w.

Definition boot_view es w : MemMapView :=
  mkMemMapView (membuf_addr (lim (sys w))) (Z.of_nat (length (kept es))) sizeof_MemMapEntry (truncated es).

Lemma boot_view_of es w : es ≠ [] → membuf_addr (lim (sys w)) ≠ 0 →
  view_of (map_stored es w) (boot_entries es) (boot_view es w).
Proof.
  intros Hes Hm. split; [done|by unfold boot_entries; rewrite length_fmap| |done|].
  - intros E%fmap_nil_inv. by apply kept_some in Hes.
  - intros i e Hi. unfold boot_entries in Hi. rewrite list_lookup_fmap in Hi.
    destruct (kept es !! i) as [e0|] eqn:E; [|done]. injection Hi as <-.
    apply (store_from_lookup _ _ 0 _ i e0 E).
Qed.

(** The information block, given the spans of the strings. *)
Definition boot_info es w cpu (cmdline bootloader : ByteSpan) : BootInfo :=
  mkBootInfo (mkBootHeader BOOTABI_MAGIC BOOTABI_VERSION 120) X86_64
  (BootMode_as_raw (boot_mode_of (firmware_type_response R))) cpu 52 48 (hhdm_base (env w))
  (boot_view es w) (default 0 (rsdp_response R)) no_framebuffer cmdline bootloader (truncated es).

Lemma gather_bootinfo_eq w es cmd name ver cpu : limine_ok w es → strings_ok w es cmd name ver →
  ∃ c b l, gather_bootinfo R cpu w =
  Ret (boot_info es w cpu c b) (set_lim (λ _, l) (map_stored es w)) ∧
  strbuf_ok l ∧ strbuf_addr l = strbuf_addr (lim (sys w)) ∧ membuf_addr l = membuf_addr (lim (sys w)) ∧
  span_in l c ∧ span_in l b ∧ span_bytes l c = cmd ∧ span_bytes l b = joined name ver.
Proof.
  intros [[Hb1 Hb2] Hh Hd Hm Hs [Hl Hsa] Ha Hmb] [Hc Hn Hv].
  pose proof (string_short _ _ _ _ Hc) as Lc. pose proof (string_short _ _ _ _ Hn) as Ln.
  pose proof (string_short _ _ _ _ Hv) as Lv. pose proof (joined_length name ver) as Lj.
  unfold MAX_STR_BYTES in *.
  unfold gather_bootinfo, set_STRBUF_USED, modify. cbv zeta. unfold mbind, M_bind.
  rewrite Hb1, Hb2, Hm, Hh. cbn [negb orb]. change (default 0 (Some ?x)) with x.
  set (w1 := set_lim _ w). rewrite convert_memmap_eq by done.
  change (set_hw _ w1) with (map_stored es w1). change (mkMemMapView _ _ _ _) with (boot_view es w1).
  pose proof (boot_view_of es w1 Hs Hmb) as Hvw.
  assert (strbuf_ok (lim (sys (map_stored es w1)))) as Hok by (split_and!; [done|done|done|done]).
  destruct (cmdline_string_eq (map_stored es w1) (boot_entries es) (boot_view es w1) cmd)
    as (c & l1 & Ec & Hl1); [done|done|done| |done|cbn; unfold STRBUF_SIZE; lia|].
  { destruct (cmdline_response R); [destruct Hc as [Hc|Hc]; [by left|right; by destruct Hc]|done]. }
  change (hhdm_base (env w)) with (hhdm_base (env (map_stored es w1))). rewrite Ec.
  set (w2 := set_lim (λ _, l1) (map_stored es w1)).
  pose proof (sa_used _ _ _ _ Hl1) as Hu. cbn [lim sys map_stored set_hw w1 set_lim set_sys STRBUF_USED] in Hu.
  destruct (bootloader_string_eq w2 (boot_entries es) (boot_view es w1) name ver)
    as (b & l2 & Eb & Hl2); [done| |by destruct Hvw| | |by destruct Hl1|cbn; unfold STRBUF_SIZE; lia|].
  { unfold strbuf_apart. cbn [lim sys w2 set_lim set_sys env]. by rewrite (sa_addr _ _ _ _ Hl1). }
  { destruct (bootloader_info_response R); [destruct Hn as [Hn|Hn]; [by left|right; by destruct Hn]|done]. }
  { destruct (bootloader_info_response R); [destruct Hv as [Hv|Hv]; [by left|right; by destruct Hv]|done]. }
  change (hhdm_base (env (map_stored es w1))) with (hhdm_base (env w2)). rewrite Eb.
  exists c, b, l2. split.
  - unfold mret, M_ret. unfold boot_info. rewrite Z.lor_0_l. reflexivity.
  - destruct (span_kept _ _ _ _ c (sa_ok _ _ _ _ Hl1) Hl2) as [Hi Hsb]; [by destruct Hl1|].
    split_and!; [by destruct Hl2| | |exact Hi|by destruct Hl2| |by destruct Hl2].
    + rewrite (sa_addr _ _ _ _ Hl2). apply (sa_addr _ _ _ _ Hl1).
    + rewrite (sa_membuf _ _ _ _ Hl2). apply (sa_membuf _ _ _ _ Hl1).
    + rewrite Hsb. by destruct Hl1.
Qed.

(** The constants of the protocol are different numbers. *)
Record limine_constants : Prop := mkLimineConstants {
  lc_firmware : NoDup [X86_BIOS L; UEFI_64 L; UEFI_32 L];
  lc_types : NoDup [USABLE L; RESERVED L; ACPI_RECLAIMABLE L; ACPI_NVS L; BAD_MEMORY L;
                    BOOTLOADER_RECLAIMABLE L; EXECUTABLE_AND_MODULES L]
}.

(** The ABI's memory type [m] says what Limine's type [t] says; the types
    Limine has and the ABI does not are reserved. *)
Record same_type (t : EntryType L) (m : MemType) : Prop := mkSameType {
  st_usable : m = MT_Usable ↔ t = USABLE L;
  st_acpi_reclaimable : m = MT_AcpiReclaimable ↔ t = ACPI_RECLAIMABLE L;
  st_acpi_nvs : m = MT_AcpiNvs ↔ t = ACPI_NVS L;
  st_bad : m = MT_BadMemory ↔ t = BAD_MEMORY L;
  st_reclaimable : m = MT_BootloaderReclaimable ↔ t = BOOTLOADER_RECLAIMABLE L;
  st_kernel : m = MT_KernelAndModules ↔ t = EXECUTABLE_AND_MODULES L;
  st_reserved : m = MT_Reserved ↔ t ∉ [USABLE L; ACPI_RECLAIMABLE L; ACPI_NVS L; BAD_MEMORY L;
                                       BOOTLOADER_RECLAIMABLE L; EXECUTABLE_AND_MODULES L]
}.

(** The boot mode [m] is the firmware Limine reports. *)
Definition same_firmware (f : option (FirmwareType L)) (m : BootMode) : Prop :=
  (m = BM_Bios ↔ f = Some (X86_BIOS L)) ∧ (m = BM_Uefi ↔ f = Some (UEFI_64 L) ∨ f = Some (UEFI_32 L)).

Lemma map_memtype_same t : limine_constants → same_type t (map_memtype t).
Proof.
  intros [_ Hnd]. unfold map_memtype.
  repeat (apply NoDup_cons in Hnd as [?Hn Hnd]; rewrite ?not_elem_of_cons in Hn; destruct_and? Hn).
  repeat case_decide; subst; split;
    first [ split; intros ?; first [done|congruence]
          | rewrite !not_elem_of_cons; split; [intros ?; first [done|split_and!; first [congruence|apply not_elem_of_nil]]
                                              |intros ?; destruct_and?; first [done|congruence]] ].
Qed.

Lemma boot_mode_same f : limine_constants → same_firmware f (boot_mode_of f).
Proof.
  intros [Hnd _]. unfold boot_mode_of, same_firmware.
  repeat (apply NoDup_cons in Hnd as [?Hn Hnd]; rewrite ?not_elem_of_cons in Hn; destruct_and? Hn).
  destruct f as [t|]; repeat case_decide; naive_solver.
Qed.

(** C9: [gather_bootinfo] hands the kernel what Limine said: a header of this
    ABI, the firmware's mode, the direct map's offset, the ACPI root pointer,
    the first 1024 entries of the memory map in order, with the base, length
    and type Limine gave them (the flags tell whether that is all of them),
    and spans that hold exactly the command line and the bootloader's name
    and version.  It always returns, and changes nothing but its two
    buffers. *)
Theorem gather_bootinfo_correct w es cmd name ver cpu :
  limine_constants → limine_ok w es → strings_ok w es cmd name ver →
  wp (gather_bootinfo R cpu) (λ b w',
  hdr b = mkBootHeader 0x424f4f54 1 120 ∧ cpu_count b = cpu ∧
  same_firmware (firmware_type_response R) (BootMode_from_raw (boot_mode b)) ∧
  hhdm_offset b = hhdm_base (env w) ∧ acpi_rsdp b = default 0 (rsdp_response R) ∧
  entry_count (mem b) = Z.of_nat (Nat.min (length es) 1024) ∧ entry_size (mem b) = 24 ∧
  (∀ i e, (i < 1024)%nat → es !! i = Some e →
    ∃ m, mem_entries (hw w') !! (entries_ptr (mem b) + 24 * Z.of_nat i) = Some m ∧
      base m = e_base e ∧ len m = e_length e ∧ same_type (e_type e) (mem_type m)) ∧
  (view_flags (mem b) = MemMapFlags_TRUNCATED ↔ (1024 < length es)%nat) ∧
  boot_flags b = view_flags (mem b) ∧
  span_bytes (lim (sys w')) (cmdline b) = cmd ∧
  span_bytes (lim (sys w')) (bootloader b) = joined name ver ∧
  ∃ l m, w' = set_lim (λ _, l) (set_hw (hw_mem_entries m) w)) w.
Proof.
  intros Hlc Hl Hs. destruct (gather_bootinfo_eq w es cmd name ver cpu Hl Hs)
    as (c & b & l & E & Hok & Ha & Hm & _ & _ & Hc & Hb).
  eapply wp_intro; [exact E|]. destruct Hl as [_ _ _ _ Hne _ _ Hmb].
  pose proof (boot_view_of es w Hne Hmb) as Hv.
  split_and!; try done.
  - cbn [boot_info boot_mode]. rewrite BootMode_raw_roundtrip. by apply boot_mode_same.
  - cbn. unfold kept, MAX_MEMMAP. rewrite length_take. lia.
  - intros i e Hi He. exists (convert_entry e). split_and!; [|done|done|by apply map_memtype_same].
    change 24 with sizeof_MemMapEntry. apply (vo_entries _ _ _ Hv i). unfold boot_entries, kept, MAX_MEMMAP.
    by rewrite list_lookup_fmap, lookup_take_lt, He.
  - cbn [boot_info mem boot_view view_flags]. unfold truncated.
    destruct (Nat.ltb_spec MAX_MEMMAP (length es)); split; (done || unfold MAX_MEMMAP in *; lia).
  - by eexists _, _.
Qed.

(** ** What the frame allocator gets *)

(** The protocol's promises on the memory map: usable and reclaimable entries
    overlap no other such entry and lie in the direct map. *)
Definition limine_usable (t : EntryType L) : Prop := t = USABLE L ∨ t = BOOTLOADER_RECLAIMABLE L.

Record limine_map (w : World) (es : list (Entry L)) : Prop := mkLimineMap {
  lm_constants : NoDup [USABLE L; RESERVED L; ACPI_RECLAIMABLE L; ACPI_NVS L; BAD_MEMORY L;
                    BOOTLOADER_RECLAIMABLE L; EXECUTABLE_AND_MODULES L];
  lm_limit : phys_limit (env w) <= 2 ^ 52;
  lm_covered : ∀ e, e ∈ es → limine_usable (e_type e) →
    0 <= e_base e ∧ 0 <= e_length e ∧ e_base e + e_length e <= phys_limit (env w);
  lm_disjoint : ∀ i j ei ej, i ≠ j → es !! i = Some ei → es !! j = Some ej →
    limine_usable (e_type ei) → limine_usable (e_type ej) →
    e_base ei + e_length ei <= e_base ej ∨ e_base ej + e_length ej <= e_base ei
}.

Lemma map_memtype_usable t :
  NoDup [USABLE L; RESERVED L; ACPI_RECLAIMABLE L; ACPI_NVS L; BAD_MEMORY L;
     BOOTLOADER_RECLAIMABLE L; EXECUTABLE_AND_MODULES L] →
  is_usable (map_memtype t) = true ↔ limine_usable t.
Proof.
  intros Hnd. unfold map_memtype, limine_usable. split.
  - intros H. repeat (case_decide; [first [done|by left|by right]|]). done.
  - repeat (apply NoDup_cons in Hnd as [?Hn Hnd]; rewrite ?not_elem_of_cons in Hn; destruct_and? Hn).
    intros [->| ->]; repeat (case_decide; [first [done|congruence]|]); congruence.
Qed.

Lemma boot_entries_lookup es i e : boot_entries es !! i = Some e →
  ∃ e0, kept es !! i = Some e0 ∧ es !! i = Some e0 ∧ e = convert_entry e0.
Proof.
  unfold boot_entries, kept. rewrite list_lookup_fmap.
  destruct (take MAX_MEMMAP es !! i) as [e0|] eqn:E; [|done]. intros [= <-].
  exists e0. split_and!; [done| |done]. by apply lookup_take_Some in E as [? _].
Qed.

(** The allocator [gather_bootinfo]'s result gives. *)
Definition boot_alloc es w : BootPtAlloc :=
  mkBootPtAlloc (membuf_addr (lim (sys w))) (Z.of_nat (length (kept es))) 0 0 (hhdm_base (env w))
  (replicate MAX_FREE_FRAMES EMPTY_PADDR) 0.

Lemma boot_alloc_new es w cpu c b : direct_ok w → es ≠ [] → membuf_addr (lim (sys w)) ≠ 0 →
  BootPtAlloc_new (boot_info es w cpu c b) = Some (boot_alloc es w).
Proof.
  intros [Hd _] Hne Hm. unfold BootPtAlloc_new, boot_info. cbn [hhdm_offset mem boot_view entries_ptr entry_count entry_size].
  apply kept_some in Hne.
  rewrite (proj2 (Z.eqb_neq _ _)) by lia. rewrite (proj2 (Z.eqb_neq (membuf_addr _) _)) by done.
  rewrite (proj2 (Z.eqb_neq (Z.of_nat _) _)) by (destruct (kept es); [done|cbn; lia]). done.
Qed.

(** [w'] holds the stored map of [w]. *)
Lemma boot_alloc_map es w w' : direct_ok w → limine_map w es → es ≠ [] → membuf_addr (lim (sys w)) ≠ 0 →
  env w' = env w → mem_entries (hw w') = mem_entries (hw (map_stored es w)) →
  map_ok w' (boot_alloc es w) ∧
  ∀ i e, 0 <= i < Z.of_nat (length (kept es)) → map_entry w' (boot_alloc es w) i = Some e →
  ∃ e0, kept es !! Z.to_nat i = Some e0 ∧ es !! Z.to_nat i = Some e0 ∧ e = convert_entry e0.
Proof.
  intros [Hd0 Hd1] [Hk Hl Hc Hj] Hne Hmb He Hm. pose proof (boot_view_of es w Hne Hmb) as Hv.
  assert (∀ i e, 0 <= i < Z.of_nat (length (kept es)) → map_entry w' (boot_alloc es w) i = Some e →
    ∃ e0, kept es !! Z.to_nat i = Some e0 ∧ es !! Z.to_nat i = Some e0 ∧ e = convert_entry e0) as Hent.
  { intros i e Hi. unfold map_entry. rewrite Hm. intros Hlk.
    destruct (lookup_lt_is_Some_2 (boot_entries es) (Z.to_nat i)) as [e' He'].
    { unfold boot_entries. rewrite length_fmap. lia. }
    pose proof (vo_entries _ _ _ Hv _ _ He') as Hlk'. rewrite Z2Nat.id in Hlk' by lia.
    cbn [boot_view entries_ptr pa_entries_ptr boot_alloc] in *. rewrite Hlk in Hlk'. injection Hlk' as ->.
    by apply boot_entries_lookup. }
  split; [|exact Hent]. split; rewrite ?He; [done|lia|done|done| |].
  - intros i Hi. cbn [boot_alloc pa_entry_count] in Hi.
    destruct (lookup_lt_is_Some_2 (boot_entries es) (Z.to_nat i)) as [e He'].
    { unfold boot_entries. rewrite length_fmap. lia. }
    exists e. split.
    + unfold map_entry. rewrite Hm. pose proof (vo_entries _ _ _ Hv _ _ He') as Hlk.
      by rewrite Z2Nat.id in Hlk by lia.
    + destruct (boot_entries_lookup _ _ _ He') as (e0 & _ & H0 & ->). intros Hu.
      apply map_memtype_usable in Hu; [|done]. apply (Hc e0); [by eapply list_elem_of_lookup_2|done].
  - intros i j ei ej f Hi Hj' Hei Hej (U1 & _ & B1 & T1) (U2 & _ & B2 & T2).
    destruct (Hent i ei Hi Hei) as (ei0 & _ & Hi0 & ->). destruct (Hent j ej Hj' Hej) as (ej0 & _ & Hj0 & ->).
    destruct (decide (i = j)) as [|Hne']; [done|]. cbn [convert_entry mem_type base len] in *.
    cbn [boot_alloc pa_entry_count] in Hi, Hj'.
    destruct (Hj (Z.to_nat i) (Z.to_nat j) ei0 ej0) as [?|?]; try done; try lia; by apply map_memtype_usable.
Qed.

(** A whole frame of an entry Limine declares usable or reclaimable. *)
Definition limine_frame es (f : Z) : Prop :=
  f mod 4096 = 0 ∧ ∃ e, e ∈ kept es ∧ limine_usable (e_type e) ∧
  e_base e <= f ∧ f + 4096 <= e_base e + e_length e.

Lemma boot_alloc_usable es w w' : direct_ok w → limine_map w es → es ≠ [] → membuf_addr (lim (sys w)) ≠ 0 →
  env w' = env w → mem_entries (hw w') = mem_entries (hw (map_stored es w)) →
  ∀ f, usable_frame w' (boot_alloc es w) f ↔ limine_frame es f.
Proof.
  intros Hd Hm Hne Hmb He Hme. destruct (boot_alloc_map es w w' Hd Hm Hne Hmb He Hme) as [_ Hent].
  intros f. split.
  - intros (i & e & Hi & Hlk & Hu & Hf & Hb & Ht).
    destruct (Hent i e Hi Hlk) as (e0 & Hk & _ & ->). split; [exact Hf|]. exists e0.
    split_and!; [by eapply list_elem_of_lookup_2| |exact Hb|exact Ht].
    apply map_memtype_usable; [apply Hm|exact Hu].
  - intros [Hf (e0 & [i Hi]%list_elem_of_lookup & Hu & Hb & Ht)].
    exists (Z.of_nat i), (convert_entry e0). split_and!.
    + lia.
    + cbn [boot_alloc pa_entry_count]. apply lookup_lt_Some in Hi. lia.
    + unfold map_entry. rewrite Hme. apply (store_from_lookup _ _ 0 _ i e0 Hi).
    + split_and!; [|exact Hf|exact Hb|exact Ht]. apply map_memtype_usable; [apply Hm|exact Hu].
Qed.

(** The entries before the first reclaimable one. *)
Fixpoint leading (l : list (Entry L)) : nat :=
  match l with
  | [] => 0
  | e :: l' => if decide (e_type e = BOOTLOADER_RECLAIMABLE L) then 0 else S (leading l')
  end.

Lemma leading_le l : (leading l <= length l)%nat.
Proof. induction l as [|e l IH]; cbn; [lia|]. case_decide; lia. Qed.

Lemma leading_lookup l i e : (i < leading l)%nat → l !! i = Some e → e_type e ≠ BOOTLOADER_RECLAIMABLE L.
Proof.
  revert i. induction l as [|e0 l IH]; intros i Hi He; [done|]. cbn in Hi. case_decide; [lia|].
  destruct i as [|i]; [by injection He as <-|]. apply (IH i); [lia|done].
Qed.

(** A whole frame of an entry Limine declares usable (and not reclaimable);
    an early one comes before every reclaimable entry. *)
Definition free_frame es (f : Z) : Prop :=
  f mod 4096 = 0 ∧ ∃ e, e ∈ kept es ∧ e_type e = USABLE L ∧ e_base e <= f ∧ f + 4096 <= e_base e + e_length e.

Definition early_frame es (f : Z) : Prop :=
  f mod 4096 = 0 ∧ ∃ i e, (i < leading (kept es))%nat ∧ kept es !! i = Some e ∧ e_type e = USABLE L ∧
    e_base e <= f ∧ f + 4096 <= e_base e + e_length e.

(** As far as the allocator is confined to the entries before the first
    reclaimable one, its frames are free. *)
Lemma boot_alloc_clear es w w' f : direct_ok w → limine_map w es → es ≠ [] → membuf_addr (lim (sys w)) ≠ 0 →
  env w' = env w → mem_entries (hw w') = mem_entries (hw (map_stored es w)) →
  usable_frame w' (set_count (Z.of_nat (leading (kept es))) (boot_alloc es w)) f → free_frame es f.
Proof.
  intros Hd Hm Hne Hmb He Hme (i & e & Hi & Hlk & Hu & Hf & Hb & Ht).
  destruct (boot_alloc_map es w w' Hd Hm Hne Hmb He Hme) as [_ Hent]. cbn [set_count pa_entry_count] in Hi.
  pose proof (leading_le (kept es)). destruct (Hent i e ltac:(lia) Hlk) as (e0 & Hk & _ & ->).
  split; [done|]. exists e0. split_and!; [by eapply list_elem_of_lookup_2| |done|done].
  apply map_memtype_usable in Hu as [?|Hr]; [done| |apply Hm].
  exfalso. apply (leading_lookup (kept es) (Z.to_nat i) e0); [lia|done|done].
Qed.

(** Each early frame is one the confined allocator reaches. *)
Lemma early_remaining es w w' f : limine_map w es →
  mem_entries (hw w') = mem_entries (hw (map_stored es w)) → early_frame es f →
  remaining w' (set_count (Z.of_nat (leading (kept es))) (boot_alloc es w)) f.
Proof.
  intros Hm Hme (Hf & i & e & Hi & Hk & Ht & Hb & Hl). exists (Z.of_nat i), (convert_entry e). split_and!.
  - cbn. lia.
  - cbn [set_count pa_entry_count]. lia.
  - unfold map_entry. rewrite Hme. apply (store_from_lookup _ _ 0 _ i e Hk).
  - split_and!; [|done|done|done]. apply map_memtype_usable; [apply Hm|by left].
  - intros _. cbn. assert (e ∈ es) as Hin.
    { apply (list_elem_of_lookup_2 _ i). unfold kept in Hk. by apply lookup_take_Some in Hk as [? _]. }
    destruct (lm_covered _ _ Hm e Hin (or_introl Ht)). lia.
Qed.

(** C10: the information block makes the frame allocator: [BootPtAlloc::new]
    accepts it, the memory map in [MEMBUF] is well formed for the allocator,
    and the frames it can hand out are exactly the whole frames of the
    entries Limine declares usable or reclaimable. *)
Theorem gather_feeds_vm w es cmd name ver cpu :
  limine_ok w es → strings_ok w es cmd name ver → limine_map w es →
  wp (gather_bootinfo R cpu) (λ b w', ∃ a, BootPtAlloc_new b = Some a ∧ map_ok w' a ∧
  ∀ f, usable_frame w' a f ↔ limine_frame es f) w.
Proof.
  intros Hl Hs Hm. destruct (gather_bootinfo_eq w es cmd name ver cpu Hl Hs) as (c & b & l & E & _).
  eapply wp_intro; [exact E|]. destruct Hl as [_ _ Hd _ Hne _ _ Hmb].
  exists (boot_alloc es w). split; [by apply boot_alloc_new|].
  split; [by apply boot_alloc_map|by apply boot_alloc_usable].
Qed.

(** Without the requested protocol revision. *)
Lemma gather_minimal w cpu : base_is_valid R && base_is_supported R = false →
  ∃ l, gather_bootinfo R cpu w = Ret (minimal_bootinfo X86_64 cpu) (set_lim (λ _, l) w).
Proof.
  intros H. unfold gather_bootinfo, set_STRBUF_USED, modify, mbind, M_bind. rewrite <- negb_andb, H. cbn [negb].
  eexists. unfold mret, M_ret. reflexivity.
Qed.
End gather.
