(* ===== verification/BootPrintSpec.v ===== *)
(** * Correctness of the boot information's printing

    The text on the wire is a function of the information block, the entries
    of its memory map and the strings of its spans; printing changes nothing
    but the UART. *)

From S2P Require Import Prelude Fmt Layout Bootabi HalTypes Paging World Cpu Log Limine LimineSpec BootPrint.

(** ** Computations that only print *)

(** [m] prints [text] in [w], whatever was printed before. *)
Definition prints (w : World) (m : M World unit) (text : list Z) : Prop :=
  ∀ bs, m (sent bs w) = Ret () (if log_up w then sent (bs ++ on_wire text) w else sent bs w).

Lemma prints_run w m text : prints w m text →
  m w = Ret () (if log_up w then sent (on_wire text) w else w).
Proof. intros H. exact (H []). Qed.

Lemma prints_nothing w : prints w (mret ()) [].
Proof. intros bs. rewrite app_nil_r. by destruct (log_up w). Qed.

Lemma prints_seq w m1 m2 t1 t2 : prints w m1 t1 → prints w m2 t2 → prints w (m1;; m2) (t1 ++ t2).
Proof.
  intros H1 H2 bs. unfold mbind, M_bind. rewrite H1. specialize (H2 (if log_up w then bs ++ on_wire t1 else bs)).
  destruct (log_up w); rewrite H2; [|done]. by rewrite on_wire_app, app_assoc.
Qed.

Lemma prints_klog w pieces : uart_ok w → prints w (klog pieces) (mjoin pieces).
Proof.
  intros Hu bs. unfold klog. rewrite print_eq by by apply sent_uart_ok.
  rewrite log_up_sent, sent_app. done.
Qed.

Lemma prints_klogln w pieces : uart_ok w → prints w (klogln pieces) (mjoin pieces ++ nl).
Proof.
  intros Hu. unfold klogln. replace (mjoin pieces ++ nl) with (mjoin (pieces ++ [nl])).
  - by apply prints_klog.
  - by rewrite join_app.
Qed.

(** One line of the log. *)
Definition line (pieces : list string) : list Z := mjoin (bytes_of <$> pieces) ++ nl.

Lemma prints_logln w pieces : uart_ok w → prints w (logln pieces) (line pieces).
Proof. apply prints_klogln. Qed.

Lemma prints_for_each {A} w (l : list A) f g : (∀ x, prints w (f x) (g x)) →
  prints w (for_each l f) (l ≫= g).
Proof.
  intros H. induction l as [|x l IH]; [apply prints_nothing|]. exact (prints_seq _ _ _ _ _ (H x) IH).
Qed.

(** A computation that reads [a] and then prints. *)
Lemma prints_read {A} w (m : M World A) a k text :
  (∀ bs, m (sent bs w) = Ret a (sent bs w)) → prints w (k a) text → prints w (m ≫= k) text.
Proof. intros Hm Hk bs. unfold mbind, M_bind. rewrite Hm. apply Hk. Qed.

(** ** Spans *)

Lemma load8_strbuf w i b : 0 <= i < STRBUF_SIZE → STRBUF (lim (sys w)) !! Z.to_nat i = Some b →
  load8 (strbuf_addr (lim (sys w)) + i) w = Ret b w.
Proof.
  intros Hi Hb. unfold load8. cbv zeta.
  rewrite (proj2 (Z.leb_le _ _)), (proj2 (Z.ltb_lt _ _)) by lia. cbn [andb].
  replace (_ + i - _) with i by lia. by rewrite Hb.
Qed.

Lemma load_bytes_strbuf w i n : strbuf_ok (lim (sys w)) → 0 <= i → i + Z.of_nat n <= STRBUF_SIZE →
  load_bytes (strbuf_addr (lim (sys w)) + i) n w = Ret (take n (drop (Z.to_nat i) (STRBUF (lim (sys w))))) w.
Proof.
  intros Hok. revert i. induction n as [|n IH]; intros i H0 H1; [done|].
  destruct Hok as (Hl & _). unfold STRBUF_SIZE in *.
  destruct (lookup_lt_is_Some_2 (STRBUF (lim (sys w))) (Z.to_nat i)) as [b Hb]; [lia|].
  cbn [load_bytes]. unfold mbind, M_bind. rewrite (load8_strbuf w i b) by (done || unfold STRBUF_SIZE; lia).
  rewrite <- Z.add_assoc, IH by lia. rewrite (drop_S _ b (Z.to_nat i)) by done.
  by replace (Z.to_nat (i + 1)) with (S (Z.to_nat i)) by lia.
Qed.

Lemma load_span w s : strbuf_ok (lim (sys w)) → span_in (lim (sys w)) s → ByteSpan_is_empty s = false →
  load_bytes (span_ptr s) (Z.to_nat (span_len s)) w = Ret (span_bytes (lim (sys w)) s) w.
Proof.
  intros Hok [He|(H1 & H2 & H3)] Hne; [congruence|]. unfold span_bytes. rewrite Hne.
  pose proof Hok as (_ & Hu & _). set (a := strbuf_addr (lim (sys w))) in *.
  replace (span_ptr s) with (a + (span_ptr s - a)) at 1 by lia.
  apply load_bytes_strbuf; [done|lia|lia].
Qed.

(** An empty span reads as the empty string, and only that. *)
Lemma span_bytes_empty l s : strbuf_ok l → span_in l s →
  ByteSpan_is_empty s = match span_bytes l s with [] => true | _ => false end.
Proof.
  intros (Hl & Hu & Ha) [He|(H1 & H2 & H3)]; unfold span_bytes; [by rewrite He|].
  destruct (ByteSpan_is_empty s) eqn:E; [done|].
  unfold ByteSpan_is_empty in E. apply orb_false_iff in E as [_ E%Z.eqb_neq]. unfold STRBUF_SIZE in *.
  set (x := take _ _). assert (0 < length x)%nat; [|by destruct x; cbn in *; [lia|]].
  unfold x. rewrite length_take, length_drop. lia.
Qed.

(** The log line of a span that holds [bytes]. *)
Definition span_text (label : string) (bytes : list Z) : list Z :=
  match bytes with
  | [] => line ["[boot] "; label; "=<none>"]
  | _ =>
      if utf8_valid bytes then bytes_of "[boot] " ++ bytes_of label ++ bytes_of "=" ++ bytes ++ nl
      else bytes_of "[boot] " ++ bytes_of label ++ bytes_of "=0x" ++ (bytes ≫= λ b, bytes_of (fmt_hex2 b)) ++ nl
  end.

Lemma prints_bytespan w label s : uart_ok w → strbuf_ok (lim (sys w)) → span_in (lim (sys w)) s →
  prints w (print_bytespan label s) (span_text label (span_bytes (lim (sys w)) s)).
Proof.
  intros Hu Hok Hs. unfold print_bytespan. rewrite (span_bytes_empty (lim (sys w)) s Hok Hs).
  destruct (span_bytes (lim (sys w)) s) as [|b0 l0] eqn:Eb; [by apply prints_logln|].
  eapply (prints_read w _ (b0 :: l0)).
  { intros bs. rewrite load_span; rewrite ?sent_sys; [by rewrite Eb|done|done|].
    by rewrite (span_bytes_empty (lim (sys w)) s Hok Hs), Eb. }
  cbn [span_text]. set (bytes := b0 :: l0). destruct (utf8_valid bytes).
  - replace (_ ++ _) with (mjoin [bytes_of "[boot] "; bytes_of label; bytes_of "="; bytes] ++ nl).
    + by apply prints_klogln.
    + cbn [mjoin list_join]. by rewrite app_nil_r, <- !app_assoc.
  - replace (_ ++ _) with (mjoin [bytes_of "[boot] "; bytes_of label; bytes_of "=0x"] ++
                           (bytes ≫= λ b, bytes_of (fmt_hex2 b)) ++ mjoin [nl]).
    + apply prints_seq; [by apply prints_klog|]. apply prints_seq; [|by apply prints_klog].
      apply prints_for_each. intros b.
      pose proof (prints_klog w [bytes_of (fmt_hex2 b)] Hu) as H. cbn in H. by rewrite app_nil_r in H.
    + cbn [mjoin list_join]. by rewrite !app_nil_r, <- !app_assoc.
Qed.

(** ** The memory map *)

(** The lines of the entries from index [i]. *)
Fixpoint entries_text (i : Z) (es : list MemMapEntry) : list Z :=
  match es with
  | [] => []
  | e :: es' =>
      line ["[mem] "; fmt_dec2 i; " base="; fmt_hex (base e); " len="; fmt_hex (len e);
            " type="; mem_type_name (mem_type e)] ++ entries_text (i + 1) es'
  end.

Lemma prints_entries w i ptr es : uart_ok w →
  (∀ k e, es !! k = Some e → mem_entries (hw w) !! (ptr + sizeof_MemMapEntry * Z.of_nat k) = Some e) →
  prints w (print_entries i ptr (length es)) (entries_text i es).
Proof.
  intros Hu. revert i ptr. induction es as [|e es IH]; intros i ptr Hm; [apply prints_nothing|].
  cbn [length print_entries entries_text]. eapply (prints_read w _ e).
  - intros bs. unfold load_entry. pose proof (Hm 0%nat e eq_refl) as H0.
    rewrite Z.mul_0_r, Z.add_0_r in H0.
    replace (mem_entries (hw (sent bs w))) with (mem_entries (hw w)) by by destruct bs. by rewrite H0.
  - apply prints_seq; [by apply prints_logln|]. apply IH. intros k e' Hk.
    rewrite <- (Hm (S k) e' Hk). f_equal. lia.
Qed.

(** The whole text: a function of the block, its entries and its strings. *)
Definition boot_text (boot : BootInfo) (es : list MemMapEntry) (cmd bl : list Z) : list Z :=
  line ["[boot] hdr magic="; fmt_hex (magic (hdr boot)); " version="; fmt_dec (version (hdr boot));
        " size="; fmt_dec (header_size (hdr boot))] ++
  line ["[boot] mode="; boot_mode_name (BootMode_from_raw (boot_mode boot))] ++
  line ["[boot] arch="; Arch_debug (arch boot); " cpu_count="; fmt_dec (cpu_count boot);
        " phys_bits="; fmt_dec (phys_addr_bits boot); " virt_bits="; fmt_dec (virt_addr_bits boot)] ++
  line ["[boot] hhdm="; fmt_hex (hhdm_offset boot); " acpi_rsdp="; fmt_hex (acpi_rsdp boot)] ++
  line ["[boot] boot_flags="; fmt_hex (boot_flags boot)] ++
  span_text "cmdline" cmd ++
  span_text "bootloader" bl ++
  (if fb_addr (fb boot) =? 0 then line ["[boot] fb=<none>"]
   else line ["[boot] fb addr="; fmt_hex (fb_addr (fb boot)); " "; fmt_dec (fb_width (fb boot)); "x";
              fmt_dec (fb_height (fb boot)); " pitch="; fmt_dec (fb_pitch (fb boot)); " bpp=";
              fmt_dec (fb_bpp (fb boot)); " format="; FbFormat_debug (fb_format (fb boot))]) ++
  line ["[mem] entries="; fmt_dec (entry_count (mem boot)); " entry_size="; fmt_dec (entry_size (mem boot));
        " flags="; fmt_hex (view_flags (mem boot)); mem_flags_suffix (view_flags (mem boot))] ++
  entries_text 0 es.

Lemma print_boot_info_eq w boot es : uart_ok w → strbuf_ok (lim (sys w)) →
  span_in (lim (sys w)) (cmdline boot) → span_in (lim (sys w)) (bootloader boot) →
  view_of w es (mem boot) →
  prints w (print_boot_info boot)
    (boot_text boot es (span_bytes (lim (sys w)) (cmdline boot)) (span_bytes (lim (sys w)) (bootloader boot))).
Proof.
  intros Hu Hok Hc Hb [V1 V2 V3 V4 V5]. unfold print_boot_info, boot_text.
  repeat first [ by apply prints_logln | by apply prints_bytespan | apply prints_seq ].
  - destruct (fb_addr (fb boot) =? 0); by apply prints_logln.
  - rewrite V4, V2, Z.eqb_refl, (proj2 (Z.eqb_neq (entries_ptr _) _)) by done.
    rewrite (proj2 (Z.eqb_neq _ _)) by (destruct es; [done|cbn; lia]). cbn [orb negb].
    rewrite Nat2Z.id. by apply prints_entries.
Qed.

(** C39: [print_boot_info] returns and changes nothing but the UART, which gets
    exactly the text of the information block: its fields, the bytes of its
    strings (in hexadecimal when they are not UTF-8) and one line for each
    entry of the memory map, in order. *)
Theorem boot_info_printed w boot es : uart_ok w → strbuf_ok (lim (sys w)) →
  span_in (lim (sys w)) (cmdline boot) → span_in (lim (sys w)) (bootloader boot) →
  view_of w es (mem boot) →
  print_boot_info boot w = Ret () (if log_up w then sent (on_wire
    (boot_text boot es (span_bytes (lim (sys w)) (cmdline boot))
                       (span_bytes (lim (sys w)) (bootloader boot)))) w else w).
Proof. intros. by apply prints_run, print_boot_info_eq. Qed.
