(* ===== verification/Kmain.v ===== *)
(** * Kernel entry (arch/x86_64/src/lib.rs, kernel/src/main.rs, kmain.rs)

    The boot sequence over all components, from the bootloader's jump to the
    idle loop. *)

From S2P Require Import Prelude Fmt Layout Bootabi HalTypes Paging World Hal Cpu Apic X86Mmu Seg Time Intr Log Limine BootPrint Vm.

(** ** arch/x86_64/src/lib.rs *)

Definition disable_interrupts : M World unit := modify (set_cpu_flags (λ f, mkFlagsSt false (df_flag f))).
Definition enable_interrupts : M World unit := modify (set_cpu_flags (λ f, mkFlagsSt true (df_flag f))).

(** PAUSE *)
Definition cpu_relax : M World unit := mret ().

Definition enable_sse : M World unit :=
  cr0 ← read_cr0;
  let cr0 := Z.land cr0 (not64 (bit 2)) in
  let cr0 := Z.land cr0 (not64 (bit 3)) in
  let cr0 := Z.lor cr0 (bit 1) in
  let cr0 := Z.lor cr0 (bit 5) in
  mov_cr0 cr0;;
  cr4 ← read_cr4;
  let cr4 := Z.lor cr4 (bit 9) in
  let cr4 := Z.lor cr4 (bit 10) in
  mov_cr4 cr4.

Definition early_init : M World unit :=
  disable_interrupts;;
  modify (set_cpu_flags (λ f, mkFlagsSt (if_flag f) false));;
  enable_sse;;
  register_serial_writer COM1_WRITER.

Definition init_mmu (boot : BootInfo) : M World unit :=
  modify (set_HHDM_OFFSET (hhdm_offset boot));;
  init_features false.

Definition init_time_source : M World bool := tsc_init.

Definition init_irqs (boot : BootInfo) (has_time : bool) : M World bool :=
  apic_ok ← Apic.init (hhdm_offset boot);
  (if has_time then register_timer else mret ());;
  mret apic_ok.

(** [init], which the kernel does not call. *)
Definition arch_init (boot : BootInfo) : M World unit :=
  init_mmu boot;;
  init_core;;
  has_time ← init_time_source;
  _ ← init_irqs boot has_time;
  mret ().

(** ** kmain.rs *)

(** Up to the idle loop. *)
Definition kmain_init (boot : BootInfo) : M World unit :=
  early_write_str (bytes_of "ENTER kmain" ++ nl);;
  logln ["[init] arch core"];;
  init_core;;
  logln ["[init] arch mmu"];;
  init_mmu boot;;
  logln ["[init] interrupts"];;
  interrupts_init;;
  print_boot_info boot;;
  logln ["[init] vm"];;
  Vm.init boot;;
  logln ["[init] arch time"];;
  has_time ← init_time_source;
  logln ["[init] arch irqs"];;
  apic_ok ← init_irqs boot has_time;
  (if negb apic_ok then panic "arch irqs apic unavailable" else mret ());;
  logln ["[init] time"];;
  time_init;;
  enable_interrupts;;
  logln ["[ok] idle"].

(** [loop { cpu_relax() }] never returns. *)
Definition idle : M World unit := λ w, Spin w.

Definition kmain (boot : BootInfo) : M World unit :=
  kmain_init boot;;
  idle.

(** ** main.rs *)

(** What [kentry] does before it enters [kmain]. *)
Definition kentry_init {L : LimineCrate} (R : Responses L) : M World BootInfo :=
  early_init;;
  early_write_str (bytes_of "ENTER kentry" ++ nl);;
  boot ← gather_bootinfo R 1;
  early_write_str (bytes_of "AFTER bootinfo" ++ nl);;
  console_init boot;;
  logln ["logger up"];;
  mret boot.

Definition kentry {L : LimineCrate} (R : Responses L) : M World unit :=
  boot ← kentry_init R;
  kmain boot.
