(* ===== verification/KmainFrames.v ===== *)
(** * Frames of the boot steps

    Which parts of the machine and of the kernel each step of the boot
    sequence leaves alone. *)

From S2P Require Import Prelude Fmt Layout Bootabi HalTypes Paging World Hal Cpu Apic ApicSpec X86Mmu MmuProofs TlbSpec AspaceSpec BootSpec Seg SegSpec Time Intr Log Limine BootPrint BootPrintSpec Vm VmProofs VmSpec Kmain.

(** ** Views of the state *)

(** Everything but the local APIC, its driver and the model-specific
    registers. *)
Definition no_apic (w : World) :=
  (env w, HHDM_OFFSET w, mmu w, vm w, sys w,
   (mem64 (hw w), mem_entries (hw w), cr3 (hw w), uart_busy (hw w))).

(** Everything but the descriptor tables and what was written to ports. *)
Definition no_seg (w : World) :=
  (env w, HHDM_OFFSET w, mmu w, vm w, apic w,
   (mem64 (hw w), mem_entries (hw w), cr3 (hw w), uart_busy (hw w), msrs (hw w), lapic (hw w)),
   (segenv (sys w), hal (sys w), tsc (sys w), lim (sys w), cpu_flags (sys w))).

(** Everything but the MMU's other statics and the VM service's, the control
    registers, EFER and the translation cache. *)
Definition no_mmu (w : World) :=
  (env w, apic w, sys w, (HHDM_OFFSET w, AS_SLOTS (mmu w)),
   (mem64 (hw w), mem_entries (hw w), cr3 (hw w), uart_busy (hw w), lapic (hw w), rd_msr w APIC_BASE_msr)).

(** ** The local APIC driver *)

Lemma keeps_lapic_read off : keeps no_apic (lapic_read off).
Proof.
  intros w. unfold lapic_read. cbv zeta.
  destruct (off =? 0x20), (off =? 0x300), (icr_busy (hw w)); done.
Qed.

Lemma keeps_lapic_write off v : keeps no_apic (lapic_write off v).
Proof. intros w. unfold lapic_write. cbv zeta. by destruct (off =? 0x300), (off =? 0xb0). Qed.

Lemma keeps_rdmsr_apic n : keeps no_apic (rdmsr n).
Proof.
  unfold rdmsr, hw_rdmsr. solve_keeps. intros w.
  destruct (x2apic_enabled w); [apply keeps_lapic_read|done].
Qed.

Lemma keeps_wrmsr_apic n v : keeps no_apic (wrmsr n v).
Proof.
  intros w. unfold wrmsr, hw_wrmsr. cbv zeta. destruct (is_x2apic_msr n); [|by destruct (_ && _)].
  destruct (x2apic_enabled w); [|done]. apply keeps_lapic_write.
Qed.

Lemma keeps_mmio_read va : keeps no_apic (mmio_read32 va).
Proof. intros w. unfold mmio_read32. destruct (lapic_offset w va); [apply keeps_lapic_read|done]. Qed.

Lemma keeps_mmio_write va v : keeps no_apic (mmio_write32 va v).
Proof. intros w. unfold mmio_write32. destruct (lapic_offset w va); [apply keeps_lapic_write|done]. Qed.

#[export] Hint Resolve keeps_rdmsr_apic keeps_wrmsr_apic keeps_mmio_read keeps_mmio_write : keeps.

Lemma keeps_apic_read off : keeps no_apic (read off).
Proof. unfold read. solve_keeps. Qed.

Lemma keeps_apic_write off v : keeps no_apic (write off v).
Proof. unfold write. solve_keeps. Qed.

#[export] Hint Resolve keeps_apic_read keeps_apic_write : keeps.

Lemma keeps_apic_init o : keeps no_apic (Apic.init o).
Proof. unfold Apic.init, has_x2apic, cpuid, set_mode, set_lapic_base, init_regs. solve_keeps. Qed.

(** ** The descriptor tables *)

Lemma keeps_set_gate vec h i : keeps no_seg (set_gate vec h i).
Proof. unfold set_gate, get_seg. solve_keeps. Qed.

Lemma keeps_gdt_read off : keeps no_seg (gdt_read off).
Proof. unfold gdt_read, get_seg, get_segenv. solve_keeps. Qed.

Lemma keeps_out port v : (port =? uart_base) = false → keeps no_seg (outb port v).
Proof. intros Hp w. unfold outb, hw_out. by rewrite Hp. Qed.

#[export] Hint Resolve keeps_set_gate keeps_gdt_read : keeps.

Lemma keeps_init_core : keeps no_seg init_core.
Proof.
  unfold init_core, init_gdt_and_segments, init_idt, mask_legacy_pic, load_tss, init_tss_only, init_tss,
    build_gdt_entries_only, build_full_table, load_gdt, reload_segments, build_tss_desc, gdt_load_tss,
    stack_top, set_TSS, lgdt, lidt, load_cs, load_ds, load_es, load_ss, load_fs, load_gs,
    check_data, set_data, ltr, get_seg, get_segenv, make_tss_desc.
  solve_keeps; by apply keeps_out.
Qed.

Lemma init_core_frame w : seg_boot w → wp init_core (λ _ w', core_post w w' ∧ no_seg w' = no_seg w) w.
Proof. intros Hs. apply keeps_wp; [apply keeps_init_core|by apply wp_init_core]. Qed.

(** ** The MMU and the VM service *)

Lemma keeps_rdmsr_mmu n : is_x2apic_msr n = false → keeps no_mmu (rdmsr n).
Proof. intros Hn. unfold rdmsr, hw_rdmsr. rewrite Hn. solve_keeps. Qed.

Lemma keeps_wrmsr_efer v : keeps no_mmu (wrmsr IA32_EFER v).
Proof.
  intros w. unfold wrmsr, hw_wrmsr. cbv zeta. change (is_x2apic_msr IA32_EFER) with false. cbn iota.
  destruct (_ && _); [done|]. unfold no_mmu, rd_msr. cbn [set_hw env apic sys HHDM_OFFSET mmu hw mem64 mem_entries cr3 uart_busy lapic msrs hw_msrs].
  by rewrite lookup_insert_ne.
Qed.

Lemma keeps_efer : keeps no_mmu (rdmsr IA32_EFER).
Proof. by apply keeps_rdmsr_mmu. Qed.

Lemma keeps_flush_global : keeps no_mmu flush_tlb_all_global.
Proof. intros w. by rewrite flush_tlb_all_global_eq. Qed.

#[export] Hint Resolve keeps_wrmsr_efer keeps_efer keeps_flush_global : keeps.

Lemma keeps_has_nx : keeps no_mmu has_nx.
Proof. unfold has_nx, cpuid. solve_keeps. Qed.
#[export] Hint Resolve keeps_has_nx : keeps.

Lemma keeps_init_features b : keeps no_mmu (init_features b).
Proof.
  unfold init_features, init_features_efer, read_cr0, read_cr4, mov_cr0, mov_cr4, set_NXE_ENABLED. solve_keeps.
Qed.
#[export] Hint Resolve keeps_init_features : keeps.

Lemma keeps_enable_nx : keeps no_mmu enable_nx.
Proof. unfold enable_nx, nxe_enabled. solve_keeps. Qed.

Lemma vm_init_frame w boot a : boot_ready w boot a →
  wp (Vm.init boot) (λ _ w', vm_init_post w a w' ∧ no_mmu w' = no_mmu w) w.
Proof.
  intros Hb. apply wp_and; [by apply wp_vm_init|].
  destruct Hb as [Hnew _ _ Hul Hfirst Hcr3 Hcpu Hefer Hnx _ Hnxe _]. unfold Vm.init.
  wp_step. apply (wp_expect _ a); [done|]. wp_step. eapply wp_intro; [unfold lock; rewrite Hul; done|].
  unfold unlock. wp_steps. match goal with |- wp _ _ ?x => change x with (installed a w) end.
  eapply wp_intro; [apply init_kernel_first; [done|done|by destruct Hcpu]|].
  set (w2 := with_current _ _). cbv beta iota. wp_step.
  eapply wp_mono; [apply (keeps_wp no_mmu _ (nx_post w2) _ keeps_enable_nx); by apply wp_enable_nx|].
  intros r w' [(-> & _) Hk]. wp_step. by rewrite Hk.
Qed.

(** The local APIC driver does not touch EFER. *)
Definition efer_of (w : World) : Z := rd_msr w EFER_msr.

Lemma keeps_lapic_efer off v : keeps efer_of (lapic_write off v) ∧ keeps efer_of (lapic_read off).
Proof.
  split; intros w; [unfold lapic_write|unfold lapic_read]; cbv zeta.
  - by destruct (off =? 0x300), (off =? 0xb0).
  - destruct (off =? 0x20), (off =? 0x300), (icr_busy (hw w)); done.
Qed.

Lemma keeps_rdmsr_efer n : keeps efer_of (rdmsr n).
Proof.
  unfold rdmsr, hw_rdmsr. solve_keeps. intros w.
  destruct (x2apic_enabled w); [apply (keeps_lapic_efer _ 0)|done].
Qed.

Lemma keeps_wrmsr_other n v : n ≠ EFER_msr → keeps efer_of (wrmsr n v).
Proof.
  intros Hn w. unfold wrmsr, hw_wrmsr. cbv zeta. destruct (is_x2apic_msr n).
  - destruct (x2apic_enabled w); [apply keeps_lapic_efer|done].
  - destruct (_ && _); [done|]. unfold efer_of, rd_msr. cbn [set_hw hw msrs hw_msrs]. by rewrite lookup_insert_ne.
Qed.

Lemma keeps_mmio_efer va v : keeps efer_of (mmio_read32 va) ∧ keeps efer_of (mmio_write32 va v).
Proof.
  split; intros w; [unfold mmio_read32|unfold mmio_write32]; (destruct (lapic_offset w va); [|done]).
  - apply (keeps_lapic_efer _ 0).
  - apply keeps_lapic_efer.
Qed.

Lemma keeps_apic_init_efer o : keeps efer_of (Apic.init o).
Proof.
  unfold Apic.init, has_x2apic, cpuid, set_mode, set_lapic_base, init_regs, read, write.
  repeat first [ apply keeps_rdmsr_efer | apply keeps_wrmsr_other; done
               | apply (keeps_mmio_efer _ 0) | apply keeps_mmio_efer | keeps_step ].
Qed.

Lemma apic_init_frame w : apic_boot w →
  wp (Apic.init (hhdm_base (env w))) (λ r w',
    (init_post w r w' ∧ no_apic w' = no_apic w) ∧ efer_of w' = efer_of w) w.
Proof.
  intros Hb. apply keeps_wp; [apply keeps_apic_init_efer|].
  apply keeps_wp; [apply keeps_apic_init|by apply wp_apic_init].
Qed.

(** ** Printing *)

(** [w] after more output. *)
Definition more_out (u : nat) (ps : list (Z * Z)) (w : World) : World := set_hw (hw_ports u ps) w.

Lemma sent_more_out bs w : uart_ok w → ∃ u ps, sent bs w = more_out u ps w ∧ uart_ok (more_out u ps w).
Proof.
  intros [H1 H2]. destruct bs as [|b bs].
  - exists (uart_busy (hw w)), (ports (hw w)). split; [by destruct w as [? h]; destruct h|by split].
  - eexists _, _. split; [reflexivity|by split].
Qed.

(** The rule for code that prints: go on after any output. *)
Lemma wp_prints m text w Q : uart_ok w → prints w m text →
  (∀ u ps, uart_ok (more_out u ps w) → Q () (more_out u ps w)) → wp m Q w.
Proof.
  intros Hu Hp HQ. eapply wp_intro; [by apply prints_run|].
  destruct (log_up w).
  - destruct (sent_more_out (on_wire text) w Hu) as (u & ps & -> & Hu'). by apply HQ.
  - destruct (sent_more_out [] w Hu) as (u & ps & E & Hu'). cbn in E. rewrite E. by apply HQ.
Qed.

Lemma wp_logln pieces w Q : uart_ok w →
  (∀ u ps, uart_ok (more_out u ps w) → Q () (more_out u ps w)) → wp (logln pieces) Q w.
Proof. intros Hu. apply (wp_prints _ _ _ _ Hu (prints_logln w pieces Hu)). Qed.

Lemma wp_early_write s w Q : uart_ok w →
  (∀ u ps, uart_ok (more_out u ps w) → Q () (more_out u ps w)) → wp (early_write_str s) Q w.
Proof.
  intros Hu HQ. eapply wp_intro; [by apply early_write_str_eq|].
  destruct (SERIAL (hal (sys w))).
  - destruct (sent_more_out (on_wire s) w Hu) as (u & ps & -> & Hu'). by apply HQ.
  - destruct (sent_more_out [] w Hu) as (u & ps & E & Hu'). cbn in E. rewrite E. by apply HQ.
Qed.

Lemma wp_write_raw b w Q : uart_ok w →
  (∀ u ps, uart_ok (more_out u ps w) → Q () (more_out u ps w)) → wp (Serial_write_raw b) Q w.
Proof.
  intros Hu HQ. eapply wp_intro; [by apply write_byte_eq|].
  destruct (SERIAL (hal (sys w))).
  - destruct (sent_more_out [b] w Hu) as (u & ps & -> & Hu'). by apply HQ.
  - destruct (sent_more_out [] w Hu) as (u & ps & E & Hu'). cbn in E. rewrite E. by apply HQ.
Qed.

(** ** The clock *)

Definition cpu_invariant_tsc (e : Env) : bool :=
  let '(max_ext, _, _, _) := cpuid_leaf e 0x80000000 0 in
  let '(_, _, _, edx) := cpuid_leaf e 0x80000007 0 in
  (0x80000007 <=? max_ext) && Z.testbit edx 8.

(** The frequency the CPUID leaves give: the crystal's ratio when it is
    complete, else the base frequency, else nothing. *)
Definition cpu_tsc_hz (e : Env) : option Z :=
  let '(max, _, _, _) := cpuid_leaf e 0 0 in
  let '(denom, numer, crystal, _) := cpuid_leaf e 0x15 0 in
  let '(mhz, _, _, _) := cpuid_leaf e 0x16 0 in
  if (0x15 <=? max) && (negb (denom =? 0) && negb (numer =? 0) && negb (crystal =? 0))
  then Some (saturating_mul crystal numer / denom)
  else if (0x16 <=? max) && negb (mhz =? 0) then Some (mhz * 1000000) else None.

Definition base_mhz_u32 (e : Env) : Prop := let '(mhz, _, _, _) := cpuid_leaf e 0x16 0 in mhz < 2 ^ 32.

Lemma tsc_hz_eq w : base_mhz_u32 (env w) → tsc_hz w = Ret (cpu_tsc_hz (env w)) w.
Proof.
  unfold base_mhz_u32, tsc_hz, cpu_tsc_hz, tsc_hz_leaf16, has_leaf, cpuid, mbind, M_bind, gets, mret, M_ret.
  destruct (cpuid_leaf (env w) 0 0) as [[[mx ?] ?] ?] eqn:E0.
  destruct (cpuid_leaf (env w) 0x15 0) as [[[dn nm] cr] ?] eqn:E15.
  destruct (cpuid_leaf (env w) 0x16 0) as [[[mhz ?] ?] ?] eqn:E16. intros Hm.
  assert (mul64 mhz 1000000 w = Ret (mhz * 1000000) w) as Hmul.
  { unfold mul64. by rewrite (proj2 (Z.ltb_lt _ _)) by (unfold U64; lia). }
  destruct (0x15 <=? mx); cbn [negb andb]; rewrite ?E15.
  1: destruct (negb (dn =? 0) && negb (nm =? 0) && negb (cr =? 0)); [done|].
  all: rewrite E0; destruct (0x16 <=? mx); cbn [negb andb]; [|done]; rewrite E16;
    destruct (negb (mhz =? 0)); [|done]; by rewrite Hmul.
Qed.

(** [w] with the frequency set. *)
Definition with_hz (h : Z) (w : World) : World :=
  set_tsc (λ s, mkTscSt h (tsc_counter s) (tsc_step s)) w.

Lemma tsc_init_eq w : base_mhz_u32 (env w) →
  tsc_init w = Ret (cpu_invariant_tsc (env w))
    (with_hz (if cpu_invariant_tsc (env w) then default 0 (cpu_tsc_hz (env w)) else 0) w).
Proof.
  intros Hm. unfold tsc_init, mbind, M_bind.
  assert (has_invariant_tsc w = Ret (cpu_invariant_tsc (env w)) w) as ->.
  { unfold has_invariant_tsc, cpu_invariant_tsc, cpuid, mbind, M_bind, gets.
    destruct (cpuid_leaf (env w) 0x80000000 0) as [[[mx ?] ?] ?].
    destruct (cpuid_leaf (env w) 0x80000007 0) as [[[? ?] ?] edx] eqn:E.
    destruct (Z.ltb_spec mx 0x80000007) as [Hlt|Hge].
    - by rewrite (proj2 (Z.leb_gt _ _)) by lia.
    - rewrite (proj2 (Z.leb_le _ _)) by lia. rewrite E. unfold mret, M_ret. by rewrite has_bits_bit. }
  destruct (cpu_invariant_tsc (env w)); cbn [negb]; [|done]. by rewrite tsc_hz_eq.
Qed.
