(* ===== verification/KmainSpec.v ===== *)
(** * The boot sequence, end to end

    From the machine Limine hands over to the idle loop: every step of
    [kentry] and [kmain] returns, and the state they leave has the invariants
    the components' theorems start from. *)

From S2P Require Import Prelude Fmt Layout Bootabi HalTypes Paging World Hal Cpu Apic ApicSpec X86Mmu MmuProofs TlbSpec AspaceSpec BootSpec Seg SegSpec Time Intr Log Limine BootPrint BootPrintSpec Vm VmProofs VmSpec VmRefine VmFrame LimineSpec IdleSpec Kmain KmainFrames.

Section boot.
Context {L : LimineCrate} (R : Responses L).
Implicit Types (w : World) (es : list (Entry L)).

(** The machine and the image as Limine hands them over.  Limine keeps its
    page tables out of the memory it declares usable; they are in memory it
    declares reclaimable, which the kernel's allocator hands out too. *)
Record handed_over w es (cmd name ver : list Z) : Prop := mkHandedOver {
  ho_limine : limine_ok R w es;
  ho_strings : strings_ok R w es cmd name ver;
  ho_map : limine_map w es;
  ho_seg : seg_boot w;
  ho_uart : uart_ok w;
  ho_unlocked : PT_ALLOC_LOCKED (vm w) = false;
  ho_first : KAS_HANDLE (mmu w) = None;
  ho_cpus : length (CURRENT_PER_CPU (mmu w)) = MAX_CPUS;
  ho_slots : ∀ i s, AS_SLOTS (mmu w) !! i = Some s → used s = false;
  ho_mode : APIC_MODE (apic w) = APIC_MODE_NONE;
  ho_apic : apic_boot w;
  ho_cr3 : frame_of (cr3 (hw w)) ≠ 0;
  ho_efer : is_u64 (rd_msr w EFER_msr);
  ho_tree : tree_ok (phys_limit (env w)) (mem64 (hw w)) (frame_of (cr3 (hw w)));
  ho_apart : ∀ f, free_frame es f → ¬ reachable (mem64 (hw w)) (frame_of (cr3 (hw w))) f;
  (** Limine turns NX on when the processor has it *)
  ho_nx : cpu_has_nx (env w) = true → Z.testbit (rd_msr w EFER_msr) 11 = true;
  ho_mhz : base_mhz_u32 (env w);
  ho_hz : 0 <= default 0 (cpu_tsc_hz (env w)) < 2 ^ 40
}.

(** ** [kentry] up to [kmain] *)

(** What [kentry] leaves alone before [kmain]. *)
Definition entry_view w :=
  (env w, HHDM_OFFSET w, mmu w, vm w, apic w,
  (mem64 (hw w), cr3 (hw w), msrs (hw w), lapic (hw w)),
  (segenv (sys w), seg (sys w), tsc (sys w))).

Record entered w es (boot : BootInfo) (w' : World) : Prop := mkEntered {
  en_boot : ∃ c b, boot = boot_info R es w 1 c b ∧
    span_in (lim (sys w')) c ∧ span_in (lim (sys w')) b;
  en_strbuf : strbuf_ok (lim (sys w'));
  en_view : entry_view w' = entry_view w;
  en_map : mem_entries (hw w') = mem_entries (hw (map_stored es w));
  en_serial : SERIAL (hal (sys w')) = Some COM1_WRITER;
  en_logger : LOGGER (hal (sys w')) = Some CONSOLE_SERIAL;
  en_timer : TIMER (hal (sys w')) = TIMER (hal (sys w));
  en_uart : uart_ok w'
}.

Lemma limine_ok_early w w' es : env w' = env w → lim (sys w') = lim (sys w) →
  limine_ok R w es → limine_ok R w' es.
Proof.
  intros He Hl [? ? ? ? ? ? ? ?]. split; unfold direct_ok, strbuf_apart in *; rewrite ?He, ?Hl; done.
Qed.

Lemma string_at_early w w' ces o s : env w' = env w → mem64 (hw w') = mem64 (hw w) →
  string_at w ces o s → string_at w' ces o s.
Proof.
  intros He Hm. destruct o as [p|]; [|done]. intros [?|[? ? ? ? ? ?]]; [by left|right].
  split; rewrite ?He, ?Hm; done.
Qed.

Lemma strings_ok_early w w' es cmd name ver : env w' = env w → mem64 (hw w') = mem64 (hw w) →
  strings_ok R w es cmd name ver → strings_ok R w' es cmd name ver.
Proof. intros He Hm [? ? ?]. by split; eapply string_at_early. Qed.

Lemma wp_kentry_init w es cmd name ver : handed_over w es cmd name ver →
  wp (kentry_init R) (λ boot w', entered w es boot w') w.
Proof.
  intros Hh. pose proof (ho_uart _ _ _ _ _ Hh) as Hu.
  unfold kentry_init, early_init, disable_interrupts, enable_sse, read_cr0, read_cr4, mov_cr0, mov_cr4,
    register_serial_writer. wp_steps. cbv zeta. wp_steps.
  match goal with |- wp _ _ ?x => set (w1 := x) end.
  apply wp_early_write; [done|]. intros u1 p1 Hu1. cbv beta. wp_steps.
  destruct (gather_bootinfo_eq R (more_out u1 p1 w1) es cmd name ver 1)
    as (c & b & l & E & Hok & Ha & Hm & Hc & Hb & _).
  { by apply (limine_ok_early w), Hh. }
  { by apply (strings_ok_early w), Hh. }
  eapply wp_intro; [exact E|]. wp_step. set (w2 := set_lim _ _).
  apply wp_early_write; [done|]. intros u2 p2 Hu2. cbv beta. unfold console_init, Serial_init, set_logger. wp_steps.
  apply wp_write_raw; [done|]. intros u3 p3 Hu3. cbv beta. wp_steps.
  apply wp_write_raw; [done|]. intros u4 p4 Hu4. cbv beta. wp_steps.
  apply wp_write_raw; [done|]. intros u5 p5 Hu5. cbv beta. wp_steps.
  apply wp_logln; [done|]. intros u6 p6 Hu6. cbv beta. wp_steps.
  split; try done. by exists c, b.
Qed.

(** ** [kmain] up to the idle loop *)

(** The VM service can start in [wv]. *)
Lemma boot_ready_of w es cmd name ver wv c b : handed_over w es cmd name ver →
  env wv = env w → HHDM_OFFSET wv = hhdm_base (env w) →
  KAS_HANDLE (mmu wv) = None → length (CURRENT_PER_CPU (mmu wv)) = MAX_CPUS → NXE_ENABLED (mmu wv) = false →
  vm wv = vm w → apic wv = apic w → mem64 (hw wv) = mem64 (hw w) → cr3 (hw wv) = cr3 (hw w) →
  msrs (hw wv) = msrs (hw w) → lapic (hw wv) = lapic (hw w) →
  mem_entries (hw wv) = mem_entries (hw (map_stored es w)) →
  boot_ready wv (boot_info R es w 1 c b) (boot_alloc es w).
Proof.
  intros Hh He Ho Hk Hc Hn Hv Ha Hm H3 Hms Hla Hme.
  destruct Hh as [[_ _ Hd _ Hne _ _ Hmb] _ Hlm _ _ Hul _ _ _ Hmode Hab Hcr3 Hef Htree _ Hnx _ _].
  split.
  - by apply boot_alloc_new.
  - by apply boot_alloc_map.
  - cbn. lia.
  - by rewrite Hv.
  - done.
  - by rewrite H3.
  - split; [left; by rewrite Ha| |done]. destruct (ab_regs _ Hab) as [Hid Hr].
    split; [by rewrite He|by rewrite Hla].
  - unfold rd_msr. by rewrite Hms.
  - unfold nx_in_step. by rewrite Hn.
  - destruct Hd, Hlm. split; rewrite ?Ho, ?He; (done || lia).
  - unfold nx_faults, lma_traps, rd_msr. rewrite Hn, He, Hms. destruct (cpu_has_nx (env w)); [|done].
    unfold rd_msr in Hnx. rewrite Hnx by done. by rewrite andb_false_r.
  - by rewrite He, Hm, H3.
Qed.

(** The entries of the stored map before the first reclaimable one. *)
Definition first_entries es : Z := Z.of_nat (leading (kept es)).

(** The VM service, in terms of the machine [w] the kernel was started on:
    the tables Limine left are the kernel's address space, the allocator has
    the frames of Limine's map, and as long as it stays within the entries
    before the first reclaimable one, the service is ready for its calls. *)
Record vm_booted w es (w' : World) : Prop := mkVmBooted {
  vb_adopted : kernel_adopted (frame_of (cr3 (hw w))) w';
  vb_frames : ∀ f, available w' f ↔ limine_frame es f;
  vb_ready : kernel_ready boot_pt_alloc (frame_of (cr3 (hw w))) (confine (first_entries es) w');
  vb_alloc : PT_ALLOC (vm w') = Some (boot_alloc es w);
  vb_idle : PT_ALLOC_LOCKED (vm w') = false ∧ AS_SLOTS (mmu w') = AS_SLOTS (mmu w);
  vb_memory : mem64 (hw w') = mem64 (hw w);
  vb_map : mem_entries (hw w') = mem_entries (hw (map_stored es w))
}.

(** The descriptor tables, gates and segment registers are the kernel's. *)
Definition tables_up w (w' : World) : Prop :=
  let s := seg (sys w') in
  task_reg s = Some (0x18, tss_addr (segenv (sys w))) ∧ seg_cs s = 0x08 ∧
  seg_data s = mkDataSegs 0x10 0x10 0x10 0x10 0x10 ∧
  gates_up (segenv (sys w)) (IDT (seg (sys w))) (IDT s).

(** The running kernel, in terms of the machine [w] it was started on. *)
Record booted w es (w' : World) : Prop := mkBooted {
  (** the kernel's address space is the bootloader's *)
  bt_vm : vm_booted w es w';
  bt_nx : NXE_ENABLED (mmu w') = cpu_has_nx (env w) ∧ nx_in_step w';
  (** descriptor tables and gates *)
  bt_seg : tables_up w w';
  (** interrupts arrive and are handled *)
  bt_apic : apic_on w';
  bt_handler : HANDLER (hal (sys w')) = Some KERNEL_INTERRUPTS;
  bt_if : if_flag (cpu_flags (sys w')) = true;
  (** the log is up *)
  bt_log : log_up w' = true;
  bt_uart : uart_ok w';
  (** the clock ticks *)
  bt_hz : TSC_HZ (tsc (sys w')) = if cpu_invariant_tsc (env w) then default 0 (cpu_tsc_hz (env w)) else 0;
  bt_timer : cpu_invariant_tsc (env w) = true → TIMER (hal (sys w')) = Some TSC_TIMER;
  bt_tick : cpu_invariant_tsc (env w) = true → 100 <= default 0 (cpu_tsc_hz (env w)) →
    rd_msr w' IA32_TSC_DEADLINE =
    wrapping_add (tsc_counter (tsc (sys w))) (default 0 (cpu_tsc_hz (env w)) / 100)
}.

(** What [vm_booted] depends on. *)
Lemma kernel_ready_ext kr w w' : env w' = env w → HHDM_OFFSET w' = HHDM_OFFSET w → mmu w' = mmu w →
  vm w' = vm w → mem64 (hw w') = mem64 (hw w) → mem_entries (hw w') = mem_entries (hw w) →
  kernel_ready boot_pt_alloc kr w → kernel_ready boot_pt_alloc kr w'.
Proof.
  intros He Ho Hm Hv Hme Hen [Hh Hr [Hrd Ht Hi Hf]].
  destruct (@fa_stable boot_pt_alloc boot_alloc_laws w w') as [Hi' Hav]; [by split_and!|done|].
  split; [by rewrite Hm|by rewrite Hm|]. split; [|by rewrite He, Hme|done|].
  - destruct Hrd. split; rewrite ?He, ?Ho; done.
  - intros f Hfa. rewrite Hme. by apply Hf, Hav.
Qed.

Lemma vm_booted_ext w es w1 w2 : env w2 = env w1 → HHDM_OFFSET w2 = HHDM_OFFSET w1 → mmu w2 = mmu w1 →
  vm w2 = vm w1 → mem64 (hw w2) = mem64 (hw w1) → mem_entries (hw w2) = mem_entries (hw w1) →
  vm_booted w es w1 → vm_booted w es w2.
Proof.
  intros He Ho Hm Hv Hme Hen [[A1 A2 A3 A4 A5] B1 B2 B3 B4 B5 B6].
  destruct (@fa_stable boot_pt_alloc boot_alloc_laws w1 w2) as [Hi' Hav]; [by split_and!|done|].
  split; rewrite ?Hv, ?Hm, ?Hme, ?Hen; try done.
  - split; rewrite ?Hm, ?He, ?Hme; try done. destruct A3. split; rewrite ?He, ?Ho; done.
  - intros f. rewrite <- B1. apply Hav.
  - apply (kernel_ready_ext _ (confine (first_entries es) w1)); try done. cbn. by rewrite Hv.
Qed.

Lemma init_features_off w : init_features false w =
  Ret () (set_mmu (λ s, mkMmuSt (KAS s) (KAS_HANDLE s) (CURRENT_PER_CPU s) (AS_SLOTS s) false)
  (set_hw (λ h, let c := Z.lor (cr4 h) CR4_PGE in hw_cr4 c (tlb_after_cr4 h c) h)
   (set_hw (λ h, hw_cr0 (Z.lor (cr0 h) CR0_WP) h) w))).
Proof. by destruct w as [? h]; destruct h. Qed.

(** [kmain] to the point where the VM service starts. *)
Definition kmain_tables (boot : BootInfo) : M World unit :=
  early_write_str (bytes_of "ENTER kmain" ++ nl);;
  logln ["[init] arch core"];;
  init_core;;
  logln ["[init] arch mmu"];;
  init_mmu boot;;
  logln ["[init] interrupts"];;
  interrupts_init;;
  print_boot_info boot;;
  logln ["[init] vm"].

(** ... from there to the local APIC ... *)
Definition kmain_apic (boot : BootInfo) : M World bool :=
  logln ["[init] arch time"];;
  has_time ← init_time_source;
  logln ["[init] arch irqs"];;
  init_irqs boot has_time.

(** ... and to the idle loop. *)
Definition kmain_last (apic_ok : bool) : M World unit :=
  (if negb apic_ok then panic "arch irqs apic unavailable" else mret ());;
  logln ["[init] time"];;
  time_init;;
  enable_interrupts;;
  logln ["[ok] idle"].

Lemma kmain_init_split boot w :
  kmain_init boot w =
  (kmain_tables boot;; Vm.init boot;; apic_ok ← kmain_apic boot; kmain_last apic_ok) w.
Proof.
  unfold kmain_init, kmain_tables, kmain_apic, kmain_last, mbind, M_bind.
  repeat (match goal with |- match ?m ?x with _ => _ end = _ => destruct (m x) end; [|done..]). done.
Qed.

(** The state once the VM service is up. *)
Record vm_up w es (w' : World) : Prop := mkVmUp {
  vu_vm : vm_booted w es w';
  vu_nx : NXE_ENABLED (mmu w') = cpu_has_nx (env w) ∧ nx_in_step w';
  vu_seg : tables_up w w';
  vu_handler : HANDLER (hal (sys w')) = Some KERNEL_INTERRUPTS;
  vu_log : log_up w' = true;
  vu_uart : uart_ok w';
  vu_env : env w' = env w;
  vu_apic : apic_boot w';
  vu_tsc : tsc (sys w') = tsc (sys w)
}.

Lemma seg_boot_ext w w' : segenv (sys w') = segenv (sys w) → seg (sys w') = seg (sys w) →
  seg_boot w → seg_boot w'.
Proof. intros E1 E2 [? ? ? ? ? ? ?]. split; rewrite ?E1, ?E2; done. Qed.

Lemma apic_boot_ext w w' : env w' = env w → rd_msr w' APIC_BASE_msr = rd_msr w APIC_BASE_msr →
  lapic (hw w') = lapic (hw w) → apic_boot w → apic_boot w'.
Proof.
  intros E1 E2 E3 [? ? ? [? ?] ?]. split; unfold lapic_phys in *; rewrite ?E1, ?E2; try done.
  split; rewrite ?E1, ?E3; done.
Qed.

(** The state in which the VM service starts. *)
Record vm_starts w es (w' : World) : Prop := mkVmStarts {
  vs_env : env w' = env w;
  vs_hhdm : HHDM_OFFSET w' = hhdm_base (env w);
  vs_mmu : KAS_HANDLE (mmu w') = None ∧ length (CURRENT_PER_CPU (mmu w')) = MAX_CPUS ∧
       NXE_ENABLED (mmu w') = false ∧ AS_SLOTS (mmu w') = AS_SLOTS (mmu w);
  vs_kernel : vm w' = vm w ∧ apic w' = apic w;
  vs_hw : mem64 (hw w') = mem64 (hw w) ∧ cr3 (hw w') = cr3 (hw w) ∧ msrs (hw w') = msrs (hw w) ∧
      lapic (hw w') = lapic (hw w) ∧ mem_entries (hw w') = mem_entries (hw (map_stored es w));
  vs_seg : tables_up w w';
  vs_handler : HANDLER (hal (sys w')) = Some KERNEL_INTERRUPTS;
  vs_log : log_up w' = true;
  vs_uart : uart_ok w';
  vs_tsc : tsc (sys w') = tsc (sys w)
}.

Lemma wp_kmain_tables w es cmd name ver boot w0 : handed_over w es cmd name ver → entered w es boot w0 →
  wp (kmain_tables boot) (λ _ w', vm_starts w es w') w0.
Proof.
  intros Hh [(c & b & -> & Hc & Hb) Hstr Hview Hmap Hser Hlog Htim Hu].
  injection Hview as V1 V2 V3 V4 V5 V6 V7 V8 V9 V10 V11 V12.
  unfold kmain_tables. wp_step. apply wp_early_write; [done|]. intros u1 p1 Hu1. cbv beta. wp_step.
  apply wp_logln; [done|]. intros u2 p2 Hu2. cbv beta. wp_step.
  eapply wp_mono; [apply init_core_frame, (seg_boot_ext w); [done|done|apply Hh]|].
  intros ? w1 [Hcore Hk]. injection Hk as K1 K2 K3 K4 K5 K6 K7 K8 K9 K10 K11 K12 K13 K14 K15 K16. wp_step.
  assert (uart_ok w1) as Hu1' by (unfold uart_ok; rewrite K1, K9; exact Hu2).
  apply wp_logln; [done|]. intros u3 p3 Hu3. cbv beta. unfold init_mmu. wp_steps.
  eapply wp_intro; [apply init_features_off|]. cbv beta. wp_step.
  match goal with |- wp _ _ ?x => set (w2 := x) end. assert (uart_ok w2) as Hu2' by exact Hu3.
  apply wp_logln; [done|]. intros u4 p4 Hu4. cbv beta. unfold interrupts_init, register_handler. wp_steps.
  match goal with |- wp _ _ ?x => set (w3 := x) end. assert (uart_ok w3) as Hu3' by exact Hu4.
  assert (lim (sys w3) = lim (sys w0)) as Hlim by exact K15.
  assert (mem_entries (hw w3) = mem_entries (hw (map_stored es w))) as Hmem
    by (etransitivity; [exact K7|exact Hmap]).
  assert (es ≠ [] ∧ membuf_addr (lim (sys w)) ≠ 0) as [Hne Hmb] by (destruct Hh as [[]]; done).
  assert (mmu w1 = mmu w) as Emmu by (etransitivity; [exact K3|exact V3]).
  destruct Hcore as (C1 & C2 & C3 & _ & _ & C6 & _).
  eapply (wp_prints _ _ w3); [done|apply print_boot_info_eq with (es := boot_entries es)|].
  all: rewrite ?Hlim; try done.
  { destruct (boot_view_of es w Hne Hmb). split; try done. by rewrite Hmem. }
  intros u5 p5 Hu5. cbv beta. apply wp_logln; [done|]. intros u6 p6 Hu6. cbv beta. split; try done.
  - etransitivity; [exact K1|exact V1].
  - change (KAS_HANDLE (mmu w1) = None ∧ length (CURRENT_PER_CPU (mmu w1)) = MAX_CPUS ∧ false = false ∧
     AS_SLOTS (mmu w1) = AS_SLOTS (mmu w)).
    rewrite Emmu. split_and!; [apply Hh|apply Hh|done|done].
  - split; etransitivity; [exact K4|exact V4|exact K5|exact V5].
  - split_and!; [..|exact Hmem]; etransitivity;
     [exact K6|exact V6|exact K8|exact V7|exact K10|exact V8|exact K11|exact V9].
  - unfold tables_up. cbn in *. rewrite V10, V11 in *. by split_and!.
  - unfold log_up. cbn. rewrite K13. cbn. by rewrite Hlog, Hser.
  - etransitivity; [exact K14|exact V12].
Qed.

Lemma wp_kmain_vm w es cmd name ver c b w4 : handed_over w es cmd name ver → vm_starts w es w4 →
  wp (Vm.init (boot_info R es w 1 c b)) (λ _ w', vm_up w es w') w4.
Proof.
  intros Hh [S1 S2 (S3 & S4 & S5 & Sl) [S6 S7] (S8 & S9 & S10 & S11 & S12) S13 S14 S15 S16 S17].
  eapply wp_mono; [apply (vm_init_frame w4 _ (boot_alloc es w)); by eapply boot_ready_of|].
  intros ? w5 [(P1 & P2 & Pc & Pa & P3 & P4 & P5 & P6 & P7) Hnm].
  injection Hnm as N1 N2 N3 N4 Nl N5 N6 N7 N8 N9 N10. rewrite S9 in *.
  assert (direct_ok w ∧ es ≠ [] ∧ membuf_addr (lim (sys w)) ≠ 0) as (Hd & Hne & Hmb) by (destruct Hh as [[]]; done).
  pose proof (ho_map _ _ _ _ _ Hh) as Hlm.
  split.
  - split; try done.
    + intros f. rewrite P2. by apply (boot_alloc_usable es w).
    + apply Pc; [cbn [boot_alloc pa_entry_count]; unfold first_entries; pose proof (leading_le (kept es)); lia|].
      intros f Hf. rewrite S8. apply Hh. by apply (boot_alloc_clear es w w4).
    + by rewrite Nl.
    + by rewrite P6.
    + by rewrite N6.
  - by rewrite P5, S1, S5.
  - unfold tables_up. by rewrite N3.
  - by rewrite N3.
  - unfold log_up. by rewrite N3.
  - unfold uart_ok. by rewrite N1, N8.
  - by rewrite N1.
  - apply (apic_boot_ext w); [by rewrite N1| |by rewrite N9|apply Hh].
    rewrite N10. unfold rd_msr. by rewrite S10.
  - by rewrite N3.
Qed.


(** What [arm_next_tick] and the last steps leave alone. *)
Lemma apic_on_ext w w' : env w' = env w → apic w' = apic w → rd_msr w' APIC_BASE_msr = rd_msr w APIC_BASE_msr →
  apic_on w → apic_on w'.
Proof.
  intros E1 E2 E3 [Hr Hn]. unfold apic_on, apic_ready, x2apic_enabled, lapic_enabled, lapic_phys in *.
  by rewrite E1, E2, E3.
Qed.

Lemma rd_msr_armed t w n : n ≠ IA32_TSC_DEADLINE → rd_msr (armed t w) n = rd_msr w n.
Proof. intros Hn. unfold rd_msr, armed. cbn [set_hw hw msrs hw_msrs]. by rewrite lookup_insert_ne. Qed.

Lemma rd_msr_deadline t w :
  rd_msr (armed t w) IA32_TSC_DEADLINE = wrapping_add (tsc_counter (tsc (sys w))) t.
Proof. unfold rd_msr, armed. cbn [set_hw hw msrs hw_msrs]. by rewrite lookup_insert_eq. Qed.

(** The state before the first tick is armed. *)
Record irqs_up w es (w' : World) : Prop := mkIrqsUp {
  iu_vm : vm_booted w es w';
  iu_nx : NXE_ENABLED (mmu w') = cpu_has_nx (env w) ∧ nx_in_step w';
  iu_seg : tables_up w w';
  iu_apic : apic_on w';
  iu_handler : HANDLER (hal (sys w')) = Some KERNEL_INTERRUPTS;
  iu_log : log_up w' = true;
  iu_uart : uart_ok w';
  iu_hz : TSC_HZ (tsc (sys w')) = if cpu_invariant_tsc (env w) then default 0 (cpu_tsc_hz (env w)) else 0;
  iu_counter : tsc_counter (tsc (sys w')) = tsc_counter (tsc (sys w));
  iu_timer : cpu_invariant_tsc (env w) = true → TIMER (hal (sys w')) = Some TSC_TIMER
}.

Lemma wp_kmain_apic w es cmd name ver c b w5 : handed_over w es cmd name ver → vm_up w es w5 →
  wp (kmain_apic (boot_info R es w 1 c b)) (λ r w', r = true ∧ irqs_up w es w') w5.
Proof.
  intros Hh [U1 U4 U5 U6 U7 U8 U9 U10 U11]. unfold kmain_apic.
  wp_step. apply wp_logln; [done|]. intros u1 p1 Hu1. cbv beta. unfold init_time_source. wp_step.
  eapply wp_intro; [apply tsc_init_eq; cbn; rewrite U9; apply Hh|]. cbv beta.
  change (env (more_out u1 p1 w5)) with (env w5). rewrite U9.
  set (h := if cpu_invariant_tsc (env w) then _ else 0). wp_step. apply wp_logln; [done|].
  intros u2 p2 Hu2. cbv beta. set (w6 := more_out _ _ _). unfold init_irqs. wp_step.
  change (hhdm_offset (boot_info R es w 1 c b)) with (hhdm_base (env w)).
  assert (env w6 = env w) as E6 by exact U9. rewrite <- E6 at 1.
  eapply wp_mono; [apply apic_init_frame, (apic_boot_ext w5); done|].
  intros r w7 [[(-> & Hon & _) Hna] Hef]. injection Hna as A1 A2 A3 A4 A5 A6 A7 A8 A9.
  set (w8 := if cpu_invariant_tsc (env w) then set_hal (λ s, mkHalSt (SERIAL s) (Some TSC_TIMER) (HANDLER s) (LOGGER s)) w7 else w7).
  wp_step. eapply (wp_intro _ _ () _ w8); [unfold w8; by destruct (cpu_invariant_tsc (env w))|].
  cbv beta. wp_step. split; [done|].
  assert (∀ T (π : World → T), (∀ f, π (set_hal f w7) = π w7) → π w8 = π w7) as Hw8.
  { intros T π H. unfold w8. destruct (cpu_invariant_tsc (env w)); [apply H|done]. }
  assert (HANDLER (hal (sys w8)) = HANDLER (hal (sys w7)) ∧ log_up w8 = log_up w7) as [Hh8 Hl8].
  { unfold w8. by destruct (cpu_invariant_tsc (env w)). }
  split.
  - apply (vm_booted_ext w es w5); [rewrite (Hw8 _ env), A1; done|rewrite (Hw8 _ HHDM_OFFSET), A2; done|
    rewrite (Hw8 _ mmu), A3; done|rewrite (Hw8 _ vm), A4; done|rewrite (Hw8 _ (λ w, mem64 (hw w))), A6; done|
    rewrite (Hw8 _ (λ w, mem_entries (hw w))), A7; done|done].
  - rewrite (Hw8 _ mmu), A3 by done. split; [apply U4|]. unfold nx_in_step.
    rewrite (Hw8 _ mmu), A3 by done. change (rd_msr w8 EFER_msr) with (efer_of w8).
    rewrite (Hw8 _ efer_of), Hef by done. apply U4.
  - unfold tables_up. rewrite (Hw8 _ (λ w, seg (sys w))), A5 by done. exact U5.
  - apply (apic_on_ext w7); [by rewrite (Hw8 _ env)|by rewrite (Hw8 _ apic)|
     by rewrite (Hw8 _ (λ w, rd_msr w APIC_BASE_msr))|done].
  - rewrite Hh8, A5. exact U6.
  - rewrite Hl8. unfold log_up. rewrite A5. exact U7.
  - unfold uart_ok. rewrite (Hw8 _ env), (Hw8 _ (λ w, uart_busy (hw w))), A9 by done.
    rewrite A1. exact Hu2.
  - rewrite (Hw8 _ (λ w, tsc (sys w))), A5 by done. done.
  - rewrite (Hw8 _ (λ w, tsc (sys w))), A5 by done. cbn. by rewrite U11.
  - intros Hinv. unfold w8. by rewrite Hinv.
Qed.

(** Everything but the counter and the deadline. *)
Definition tick_view w :=
  (env w, HHDM_OFFSET w, mmu w, vm w, apic w, (mem64 (hw w), mem_entries (hw w), uart_busy (hw w)),
  (seg (sys w), hal (sys w), TSC_HZ (tsc (sys w)))).

Lemma wp_time_init w : 0 <= TSC_HZ (tsc (sys w)) < 2 ^ 40 →
  wp time_init (λ _ w', tick_view w' = tick_view w ∧
  (∀ n, n ≠ IA32_TSC_DEADLINE → rd_msr w' n = rd_msr w n) ∧
  (TIMER (hal (sys w)) = Some TSC_TIMER → 100 <= TSC_HZ (tsc (sys w)) →
  rd_msr w' IA32_TSC_DEADLINE =
   wrapping_add (tsc_counter (tsc (sys w))) (TSC_HZ (tsc (sys w)) / 100))) w.
Proof.
  intros Hh. unfold wp, time_init. rewrite arm_next_tick_eq by done. destruct (_ || _) eqn:E.
  - split_and!; [done|done|]. intros Ht H100. apply orb_true_iff in E as [E|E%Z.ltb_lt]; [|lia].
    apply bool_decide_eq_true in E. congruence.
  - split_and!; [done|intros n; apply rd_msr_armed|intros _ _; apply rd_msr_deadline].
Qed.

Lemma wp_kmain_last w es cmd name ver w0 : handed_over w es cmd name ver → irqs_up w es w0 →
  wp (kmain_last true) (λ _ w', booted w es w') w0.
Proof.
  intros Hh [I1 I4 I5 I6 I7 I8 I9 I10 I11 I12]. unfold kmain_last. cbn [negb]. wp_steps.
  apply wp_logln; [done|]. intros u1 p1 Hu1. cbv beta. wp_step. set (w1 := more_out u1 p1 w0) in *.
  pose proof (ho_hz _ _ _ _ _ Hh) as Hhz.
  eapply wp_mono; [apply (wp_time_init w1)|].
  { change (tsc (sys w1)) with (tsc (sys w0)). rewrite I10. destruct (cpu_invariant_tsc (env w)); [done|lia]. }
  intros ? w2 (Hv & Hmsr & Hdl). injection Hv as T1 T2 T3 T4 T5 T6 T7 T8 T9 T10 T11.
  unfold enable_interrupts. wp_steps. apply wp_logln; [unfold uart_ok; cbn; rewrite T1, T8; exact Hu1|].
  intros u2 p2 Hu2. cbv beta. set (w3 := more_out _ _ _).
  split; try done.
  - by apply (vm_booted_ext w es w0 w3 T1 T2 T3 T4 T6 T7).
  - change (mmu w3) with (mmu w2). rewrite T3. split; [apply I4|]. unfold nx_in_step.
    change (mmu w3) with (mmu w2). rewrite T3. change (rd_msr w3 EFER_msr) with (rd_msr w2 EFER_msr).
    rewrite Hmsr by done. apply I4.
  - unfold tables_up. change (seg (sys w3)) with (seg (sys w2)). by rewrite T9.
  - apply (apic_on_ext w0); [exact T1|exact T5|by apply (Hmsr APIC_BASE_msr)|done].
  - change (hal (sys w3)) with (hal (sys w2)). by rewrite T10.
  - unfold log_up. change (hal (sys w3)) with (hal (sys w2)). rewrite T10. exact I8.
  - change (tsc (sys w3)) with (tsc (sys w2)). rewrite T11. exact I10.
  - intros Hi. change (hal (sys w3)) with (hal (sys w2)). rewrite T10. exact (I12 Hi).
  - intros Hi H100. etransitivity; [apply Hdl; [exact (I12 Hi)|]|];
     change (tsc (sys w1)) with (tsc (sys w0)); rewrite I10, Hi; [exact H100|by rewrite I11].
Qed.

(** A booted kernel with a usable clock is ticking. *)
Lemma booted_ticking w es w' : booted w es w' → cpu_invariant_tsc (env w) = true →
  100 <= default 0 (cpu_tsc_hz (env w)) < 2 ^ 40 → 0 <= tsc_counter (tsc (sys w)) → tsc_counter (tsc (sys w)) + 2 ^ 40 < U64 →
  ticking w'.
Proof.
  intros [_ _ _ Ha Hh Hif _ _ Hz Ht Hd] Hi Hr H0 Hc. rewrite Hi in Hz. split; try done.
  - by apply Ht.
  - by rewrite Hz.
  - rewrite Hd by (done || lia). set (hz := default 0 _) in *.
    assert (1 <= hz / 100 <= hz) by (split; [apply Z.div_le_lower_bound|apply Z.div_le_upper_bound]; lia).
    unfold wrapping_add. rewrite Z.mod_small; lia.
Qed.

Lemma wp_boot w es cmd name ver : handed_over w es cmd name ver →
  wp (boot ← kentry_init R; kmain_init boot) (λ _ w', booted w es w') w.
Proof.
  intros Hh. wp_step. eapply wp_mono; [by eapply wp_kentry_init|]. intros boot w0 He.
  unfold wp. rewrite kmain_init_split. fold (wp (kmain_tables boot;; Vm.init boot;;
    apic_ok ← kmain_apic boot; kmain_last apic_ok) (λ _ w', booted w es w') w0).
  wp_step. eapply wp_mono; [by eapply wp_kmain_tables|]. intros ? w1 H1. wp_step.
  destruct He as [(c & b & -> & _) _ _ _ _ _ _ _].
  eapply wp_mono; [by eapply wp_kmain_vm|]. intros ? w2 H2. wp_step.
  eapply wp_mono; [by eapply wp_kmain_apic|]. intros r w3 [-> H3]. by eapply wp_kmain_last.
Qed.

(** C2: the boot sequence succeeds.  On the machine Limine hands over,
    [kentry] runs through every step of the initialisation without a panic
    and reaches the idle loop, with the segments, gates and task register
    loaded, Limine's page tables adopted as the kernel's address space and
    the frame allocator holding exactly the frames Limine declares usable or
    reclaimable, NX on when the processor
    has it, the local APIC and the interrupt handler in place, the log up,
    interrupts enabled and, when the processor has a usable clock, the first
    tick armed a hundredth of a second ahead, the state from which the idle
    loop's clock runs. *)
Theorem kentry_boots w es cmd name ver : handed_over w es cmd name ver →
  ∃ w', kentry R w = Spin w' ∧ booted w es w' ∧
  (cpu_invariant_tsc (env w) = true → 100 <= default 0 (cpu_tsc_hz (env w)) →
  0 <= tsc_counter (tsc (sys w)) → tsc_counter (tsc (sys w)) + 2 ^ 40 < U64 → ticking w') ∧
  ∃ boot w0, kentry_init R w = Ret boot w0 ∧ kmain_init boot w0 = Ret () w'.
Proof.
  intros Hh. destruct (wp_elim _ _ _ (wp_boot w es cmd name ver Hh)) as ([] & w' & E & Hb).
  pose proof (ho_hz _ _ _ _ _ Hh). exists w'. unfold mbind, M_bind in E.
  destruct (kentry_init R w) as [boot w0| | |] eqn:E0; try done. split_and!; [|done| |by eauto].
  - unfold kentry, kmain, mbind, M_bind. by rewrite E0, E.
  - intros. eapply booted_ticking; (done || lia).
Qed.

(** The early frames are the room of the allocator. *)
Lemma booted_room w es cmd name ver w' frames : handed_over w es cmd name ver → vm_booted w es w' →
  NoDup frames → (∀ f, f ∈ frames → early_frame es f) →
  has_entries (first_entries es) w' ∧ room (length frames) (confine (first_entries es) w').
Proof.
  intros Hh [_ _ [_ _ [_ _ Hi _]] Ha _ _ Hm] Hnd Hf. split.
  - exists (boot_alloc es w). split; [done|]. pose proof (leading_le (kept es)).
    cbn [boot_alloc pa_entry_count]. unfold first_entries. lia.
  - destruct Hi as (a & Hia & Hmo & Hc & _). cbn in Hia. rewrite Ha in Hia. injection Hia as <-.
    exists (set_count (first_entries es) (boot_alloc es w)). split_and!; [cbn; by rewrite Ha|done|done|].
    exists frames. split_and!; [done|lia|]. intros f Hin. apply (early_remaining es w); [apply Hh|done|by apply Hf].
Qed.

(** C4: the booted kernel serves its clients.  After the boot, any client of
    the VM service that keeps to its own handles and to user pages can make
    as many calls as there are frames for, three a call, in the entries
    Limine declares usable before the first reclaimable one: all of them
    return, the results are those of the abstract table of address spaces
    started empty, at the end the page tables implement that table, and the
    kernel's addresses translate as Limine left them. *)
Theorem clients_after_boot ub w es cmd name ver strat n frames :
  handed_over w es cmd name ver → well_behaved ub ∅ strat →
  NoDup frames → (∀ f, f ∈ frames → early_frame es f) → (3 * n <= length frames)%nat →
  wp (boot ← kentry_init R; kmain_init boot;; drive strat n []) (λ h w', ∃ A, avm_run ub ∅ h A ∧
    vm_rel ub (frame_of (cr3 (hw w))) (hw_walk (mem64 (hw w)) (frame_of (cr3 (hw w)))) A
      (confine (first_entries es) w')) w.
Proof.
  intros Hh Hwb Hnd Hfr Hn. set (kr := frame_of (cr3 (hw w))). set (fe := first_entries es).
  assert (wp ((boot ← kentry_init R; kmain_init boot);; drive strat n []) (λ h w', ∃ A, avm_run ub ∅ h A ∧
    vm_rel ub kr (hw_walk (mem64 (hw w)) kr) A (confine fe w')) w) as H.
  { wp_step. eapply wp_mono; [by eapply wp_boot|]. intros ? w1 [Hb _ _ _ _ _ _ _ _ _ _].
    destruct (booted_room w es cmd name ver w1 frames Hh Hb Hnd Hfr) as [He Hr].
    destruct Hb as [_ _ Hk _ [Hul Hsl] Hmem _].
    assert (vm_rel ub kr (hw_walk (mem64 (hw w)) kr) ∅ (confine fe w1)) as Hrel.
    { rewrite <- Hmem. apply (vm_rel_empty ub kr (confine fe w1)); [done|exact Hk|]. cbn. rewrite Hsl. apply Hh. }
    destruct (wp_elim _ _ _ (wp_drive ub kr _ ∅ strat n [] ∅ _ Hwb (run_nil _ _) Hrel)) as (h & wc & E & A & HA & HvA).
    pose proof (within_drive fe strat n [] 0%nat w1 He (room_mono (3 * n + 0) (length frames) _ ltac:(lia) Hr)) as Hw.
    rewrite E in Hw. destruct Hw as (w' & E' & -> & _). eapply wp_intro; [exact E'|]. by exists A. }
  unfold wp, mbind, M_bind in *. by destruct (kentry_init R w).
Qed.

(** C37: without the protocol revision the glue asks for, the kernel gets an
    information block without direct map and memory map, and the VM service
    stops the boot with its message before it touches anything. *)
Theorem no_protocol_no_vm w cpu : base_is_valid R && base_is_supported R = false →
  ∃ b l, gather_bootinfo R cpu w = Ret b (set_lim (λ _, l) w) ∧
  ∀ w1, Vm.init b w1 = Panic "vm: missing HHDM or memmap" w1.
Proof.
  intros H. destruct (gather_minimal R w cpu H) as [l E]. by exists (minimal_bootinfo X86_64 cpu), l.
Qed.
End boot.
