(* ===== verification/Examples.v ===== *)
(** * A concrete machine

    A small machine on which the theorems' hypotheses hold: 4 GiB of memory
    behind the direct map, one usable MiB at 2 MiB, the bootloader's root
    table at 0x1000 and NX.  The witnesses run the theorems on it; the
    examples at the end run the kernel's code on it. *)

From S2P Require Import Prelude Layout Bootabi HalTypes Paging World Hal Cpu Apic ApicSpec X86Mmu Seg Time Intr MmuProofs SegSpec MmuSpec TlbSpec IntrSpec AspaceSpec AspaceDestroy BootSpec Vm VmProofs VmSpec VmRefine VmFrame.

#[local] Abbreviation m_of w := (mem64 (hw w)).

(** ** The machine *)

Definition env0 : Env :=
  mkEnv 0xffff800000000000 0x100000000
    (λ l _, if l =? 1 then (0, 0, bit 21, 0)
            else if l =? 0x80000000 then (0x80000008, 0, 0, 0)
            else if l =? 0x80000001 then (0, 0, 0, bit 20) else (0, 0, 0, 0))
    0 2 2 10 true.

Definition map0 : gmap Z MemMapEntry :=
  list_to_map [(0xffffffff80100000, mkMemMapEntry 0 0x100000 MT_Reserved 0 0);
               (0xffffffff80100018, mkMemMapEntry 0x200000 0x100000 MT_Usable 0 0)].

(** Long mode is active (EFER.LMA) and the local APIC sits at its usual
    address. *)
Definition hw0 (m : ram) : Hw :=
  mkHw 0 0 0x1000 0 (list_to_map [(EFER_msr, bit 10); (APIC_BASE_msr, 0xfee00000)]) ∅ m map0 ∅
    0 [] 0 0 [].

Definition boot0 : BootInfo :=
  mkBootInfo (mkBootHeader BOOTABI_MAGIC BOOTABI_VERSION 120) X86_64 0 1 52 48 0xffff800000000000
    (mkMemMapView 0xffffffff80100000 2 24 0) 0 (mkFramebuffer 0 0 0 0 0 Fb_Unknown)
    ByteSpan_empty ByteSpan_empty 0.

Definition alloc0 : BootPtAlloc :=
  mkBootPtAlloc 0xffffffff80100000 2 0 0 0xffff800000000000 (replicate MAX_FREE_FRAMES EMPTY_PADDR) 0.

(** The linker's addresses, the statics of the tables, and a 1 GHz counter. *)
Definition segenv0 : SegEnv :=
  mkSegEnv 0xffffffff80020010 0xffffffff80020100 0xffffffff80021000 0xffffffff80030000
    0xffff800000010000 ((λ i, 0xffffffff80040000 + 16 * Z.of_nat i) <$> seq 0 32)
    ((λ i, 0xffffffff80041000 + 16 * Z.of_nat i) <$> seq 0 16) 0xffffffff80042000 0xffffffff80042010.

Definition sys0 : SysSt :=
  mkSysSt segenv0 seg_init_st (mkHalSt None None None None) (mkTscSt 0 1000 7)
    (mkLimineSt (replicate 4096 0) 0 0xffffffff80050000 0xffffffff80100000) (mkFlagsSt true false).

(** As the bootloader leaves it, with memory [m]. *)
Definition w_boot (m : ram) : World :=
  mkWorld env0 (hw0 m) 0xffff800000000000 mmu_init_st (mkApicSt 0 0) (mkVmSt None false) sys0.

(** Initialised: the kernel's address space at 0x1000, and an address space
    with root 0x2000 in slot 0. *)
Definition mmu0 : MmuSt :=
  mkMmuSt (Some (mkX86AddressSpace 0x1000)) (Some AsKas) (replicate MAX_CPUS None)
    (mkSlot true (mkX86AddressSpace 0x2000) (AsSlot 0) :: replicate 63 EMPTY_SLOT) true.

Definition w_up (m : ram) : World :=
  mkWorld env0 (hw0 m) 0xffff800000000000 mmu0 (mkApicSt 0 0) (mkVmSt (Some alloc0) false) sys0.

(** ** Its invariants *)

Lemma alloc0_new : BootPtAlloc_new boot0 = Some alloc0.
Proof. reflexivity. Qed.

Lemma map0_entries i : 0 <= i < 2 →
  (map0 !! (0xffffffff80100000 + sizeof_MemMapEntry * i)) =
  Some (if i =? 0 then mkMemMapEntry 0 0x100000 MT_Reserved 0 0
        else mkMemMapEntry 0x200000 0x100000 MT_Usable 0 0).
Proof.
  intros Hi. assert (i = 0 ∨ i = 1) as [-> | ->] by lia; reflexivity.
Qed.

Lemma alloc0_map w : env w = env0 → mem_entries (hw w) = map0 → map_ok w alloc0.
Proof.
  intros He Hm. split; rewrite ?He; [reflexivity|by vm_compute|by vm_compute|by vm_compute|..].
  - intros i Hi. eexists. split; [unfold map_entry; rewrite Hm; by apply map0_entries|].
    destruct (i =? 0); cbn; [done|lia].
  - intros i j ei ej f Hi Hj. unfold map_entry. rewrite Hm.
    change (pa_entries_ptr alloc0) with 0xffffffff80100000.
    rewrite !map0_entries by done. intros [= <-] [= <-] (U1 & _) (U2 & _).
    destruct (Z.eqb_spec i 0), (Z.eqb_spec j 0); try done. cbn in Hi, Hj. lia.
Qed.

Lemma alloc0_usable w f : mem_entries (hw w) = map0 → usable_frame w alloc0 f → 0x200000 <= f.
Proof.
  intros Hm (i & e & Hi & He & Hu & _ & Hb & _). unfold map_entry in He. rewrite Hm in He.
  change (pa_entries_ptr alloc0) with 0xffffffff80100000 in He. rewrite map0_entries in He by done.
  injection He as <-. destruct (i =? 0); [done|exact Hb].
Qed.

(** A root without present entries. *)
Lemma empty_follow m root p t : (∀ i, table_index i → pte_present (pte m root i) = false) →
  Forall table_index p → follow m root p = Some t → p = [] ∧ t = root.
Proof.
  intros He Hp Hf. destruct p as [|i p]; [by injection Hf as <-|].
  apply Forall_cons in Hp as [Hi _]. cbn [follow] in Hf. by rewrite He in Hf.
Qed.

Lemma empty_reachable m root t : (∀ i, table_index i → pte_present (pte m root i) = false) →
  reachable m root t → t = root.
Proof. intros He (p & [_ Hp] & Hf). by eapply empty_follow in Hf as [_ ->]. Qed.

Lemma empty_tree limit m root : (∀ i, table_index i → pte_present (pte m root i) = false) →
  root mod 4096 = 0 → 0 <= root → root + 4096 <= limit → tree_ok limit m root.
Proof.
  intros He Ha H0 Hl. split; [done| |].
  - intros p q t [_ Hp] [_ Hq] H1 H2.
    eapply empty_follow in H1 as [-> _]; [|done|done]. by eapply empty_follow in H2 as [-> _].
  - intros t Ht. by rewrite (empty_reachable m root t He Ht).
Qed.

Lemma empty_path P m root va : (∀ i, table_index i → pte_present (pte m root i) = false) →
  path_entries P m root va.
Proof.
  intros He k t Hk Hf Hp. exfalso.
  eapply empty_follow in Hf as [_ ->]; [|done|apply (take_path_ok k va); lia].
  rewrite He in Hp; [done|apply index_range].
Qed.

(** All memory zero: every root is empty. *)
Lemma pte_no_memory t i : pte_present (pte ∅ t i) = false.
Proof. unfold pte, rd. by rewrite lookup_empty. Qed.

Lemma w_up_hhdm m : hhdm_ready (w_up m).
Proof. by split. Qed.

Lemma w_up_alloc m : alloc_inv (w_up m) ∧ ∀ f, available (w_up m) f → 0x200000 <= f.
Proof.
  destruct (fresh_alloc_inv (w_up m) alloc0) as [Hi Hav];
    [by apply (BootPtAlloc_new_fresh boot0)|by apply alloc0_map|done|done|].
  split; [done|]. intros f Hf. apply Hav in Hf. exact (alloc0_usable (w_up m) f eq_refl Hf).
Qed.

(** Both address spaces of [w_up] can be operated on. *)
Lemma w_up_space root : 0 <= root < 0x200000 → root mod 4096 = 0 →
  space_inv boot_pt_alloc root (w_up ∅).
Proof.
  intros Hr Ha. destruct (w_up_alloc ∅) as [Hi Hav].
  split; [apply w_up_hhdm| |done|].
  - apply empty_tree; [intros; apply pte_no_memory|done|lia|cbn; lia].
  - intros f Hf%Hav Hx. apply empty_reachable in Hx; [|intros; apply pte_no_memory]. lia.
Qed.

Lemma w_up_kernel : kernel_ready boot_pt_alloc 0x1000 (w_up ∅).
Proof. split; [done|done|]. by apply w_up_space. Qed.

Lemma w_up_path P va : path_entries P (m_of (w_up ∅)) 0x2000 va.
Proof. apply empty_path. intros. apply pte_no_memory. Qed.

Lemma w_up_cpu m : cpu_ready (w_up m).
Proof.
  split; [by left| |done]. split; [done|]. intros off v. cbn. by rewrite lookup_empty.
Qed.

Lemma page_arg_0x400000 : page_arg 0x400000.
Proof. done. Qed.

(** ** Witnesses *)

Lemma w_up_ready : space_ready 0x2000 (w_up ∅).
Proof. apply (space_inv_ready boot_pt_alloc). by apply w_up_space. Qed.





Lemma page_arguments_checked_witness :
  X86Mmu.map_4k boot_pt_alloc (AsSlot 0) 0x400123 0x7000 WRITE (w_up ∅) = Ret (Err Unaligned) (w_up ∅) ∧
  X86Mmu.unmap_4k (AsSlot 0) 0x800000000000 (w_up ∅) = Ret (Err InvalidArgs) (w_up ∅) ∧
  ∀ w', X86Mmu.unmap_4k (AsSlot 0) 0x7ffffffff000 (w_up ∅) ≠ Ret (Err InvalidArgs) w'.
Proof.
  split_and!.
  - destruct (page_arguments_checked boot_pt_alloc (AsSlot 0) 0x400123 0x7000 WRITE (w_up ∅))
      as (H & _); [done|]. apply H. left. done.
  - destruct (page_arguments_checked boot_pt_alloc (AsSlot 0) 0x800000000000 0x7000 WRITE (w_up ∅))
      as (_ & _ & H & _); [done|]. apply H; [reflexivity|unfold canonical; lia].
  - intros w'. destruct (page_arguments_checked boot_pt_alloc (AsSlot 0) 0x7ffffffff000 0x7000 WRITE (w_up ∅))
      as (_ & _ & _ & H); [done|]. apply H; [reflexivity|unfold canonical; lia].
Defined.

Lemma map_then_translate_witness :
  wp (r ← X86Mmu.map_4k boot_pt_alloc (AsSlot 0) 0x400000 0x7000 WRITE;
      t ← X86Mmu.translate (AsSlot 0) 0x400123; mret (r, t))
    (λ '(r, t) _, is_ok r = true → t = Ok 0x7123) (w_up ∅).
Proof.
  apply (map_then_translate boot_pt_alloc (w_up ∅) (AsSlot 0) 0x2000 0x400000
           eq_refl (w_up_space 0x2000 ltac:(lia) eq_refl) (w_up_path _ _) page_arg_0x400000
           0x7000 WRITE 0x400123); [reflexivity|lia|done|reflexivity].
Defined.

Lemma map_then_unmap_witness :
  wp (r ← X86Mmu.map_4k boot_pt_alloc (AsSlot 0) 0x400000 0x7000 WRITE;
      u ← X86Mmu.unmap_4k (AsSlot 0) 0x400000; mret (r, u))
    (λ '(r, u) w', is_ok r = true → u = Ok () ∧
      ∀ v, canonical v → hw_walk (m_of w') 0x2000 v = hw_walk (m_of (w_up ∅)) 0x2000 v) (w_up ∅).
Proof.
  apply (map_then_unmap boot_pt_alloc (w_up ∅) (AsSlot 0) 0x2000 0x400000
           eq_refl (w_up_space 0x2000 ltac:(lia) eq_refl) (w_up_path _ _) page_arg_0x400000
           0x7000 WRITE). reflexivity.
Defined.

Lemma map_4k_isolated_witness :
  wp (X86Mmu.map_4k boot_pt_alloc (AsSlot 0) 0x400000 0x7000 WRITE) (λ _ w',
    ∀ v, hw_walk (m_of w') 0x1000 v = hw_walk (m_of (w_up ∅)) 0x1000 v) (w_up ∅).
Proof.
  apply (map_4k_isolated boot_pt_alloc (w_up ∅) (AsSlot 0) 0x2000 0x1000 0x400000 0x7000 WRITE);
    [reflexivity|by apply w_up_space|apply w_up_path|done|reflexivity| |].
  - split; [reflexivity|]. intros x k Hx%empty_reachable Hk Hf; [|intros; apply pte_no_memory].
    eapply empty_follow in Hf as [_ ->]; [done|intros; apply pte_no_memory|].
    apply (take_path_ok k 0x400000). done.
  - intros x Hx%empty_reachable; [|intros; apply pte_no_memory].
    intros Hav%w_up_alloc. subst x. by apply Hav.
Defined.

(** [w_up] starts with an empty translation cache. *)
Lemma w_up_coherent root m : tlb_coherent root (w_up m).
Proof. intros v mp _ _. cbn. by rewrite lookup_empty. Qed.

Lemma page_ops_tlb_coherent_witness :
  wp (X86Mmu.map_4k boot_pt_alloc (AsSlot 0) 0x400000 0x7000 WRITE) (λ _ w', tlb_coherent 0x2000 w')
    (w_up ∅) ∧
  wp (X86Mmu.protect_4k (AsSlot 0) 0x400000 WRITE) (λ _ w', tlb_coherent 0x2000 w') (w_up ∅).
Proof.
  destruct (page_ops_tlb_coherent (w_up ∅) (AsSlot 0) 0x2000 0x400000 eq_refl (w_up_path _ _)
              page_arg_0x400000 (w_up_coherent _ _) boot_pt_alloc 0x7000 WRITE
              (w_up_space 0x2000 ltac:(lia) eq_refl)) as (Hm & _ & Hp).
  split; [by apply Hm|exact Hp].
Defined.

Lemma activate_then_current_witness :
  wp (activate (AsSlot 0);; current) (λ r w', r = AsSlot 0 ∧ cr3 (hw w') = 0x2000) (w_up ∅).
Proof.
  eapply wp_mono.
  - apply (activate_then_current (AsSlot 0) 0x2000 (w_up ∅)); [reflexivity|reflexivity|lia|apply w_up_cpu].
  - intros r w' (Hr & Hc & _). by split.
Defined.

Lemma activate_tlb_coherent_witness :
  wp (activate (AsSlot 0)) (λ _ w', tlb_coherent 0x2000 w') (w_up ∅).
Proof.
  apply (activate_tlb_coherent (AsSlot 0) 0x2000 0x1000 (w_up ∅));
    [reflexivity|reflexivity|lia|apply w_up_cpu|apply w_up_coherent| |].
  - intros v mp _. cbn. by rewrite lookup_empty.
  - intros v _. unfold hw_walk. rewrite !walk_absent by apply pte_no_memory. reflexivity.
Defined.

Lemma w_boot_cpu m : cpu_ready (w_boot m).
Proof.
  split; [by left| |done]. split; [done|]. intros off v. cbn. by rewrite lookup_empty.
Qed.

Lemma init_kernel_adopts_witness :
  wp (r1 ← init_kernel; w1 ← gets id; r2 ← init_kernel; c ← current; mret (r1, w1, r2, c))
    (λ '(r1, w1, r2, c) _, r1 = Ok AsKas ∧ r2 = Ok AsKas ∧ c = AsKas ∧
       aspace_root (mmu w1) AsKas = Some 0x1000) (w_boot ∅).
Proof.
  pose proof (init_kernel_adopts (w_boot ∅) eq_refl (w_boot_cpu ∅)) as H. rewrite decide_False in H by done.
  eapply wp_mono; [exact H|]. intros [[[r1 w1] r2] c] w' (-> & -> & -> & _ & _ & Hr & _). by split_and!.
Defined.

Lemma enable_nx_in_step_witness :
  wp enable_nx (λ r w', r = Ok () ∧ NXE_ENABLED (mmu w') = true ∧
    Z.testbit (rd_msr w' EFER_msr) 10 = true) (w_boot ∅).
Proof.
  eapply wp_mono.
  - exact (enable_nx_in_step (w_boot ∅) ltac:(done) ltac:(done)).
  - intros r w' (-> & _ & Hn & Hl & _). by split_and!.
Defined.

(** Global pages on, with a global and a local translation cached. *)
Definition w_global : World :=
  set_hw (λ h, hw_tlb {[0x400 := mkMapping 0x7000 true false false true 0;
                        0x401 := mkMapping 0x8000 true false false false 0]}
                 (hw_cr4 CR4_PGE (tlb h) h)) (w_up ∅).


Lemma address_space_new_correct_witness :
  wp (address_space_new boot_pt_alloc) (λ _ w', kernel_ready boot_pt_alloc 0x1000 w') (w_up ∅).
Proof.
  eapply wp_mono.
  - apply (address_space_new_correct boot_pt_alloc (w_up ∅) 0x1000). apply w_up_kernel.
  - intros r w' (_ & Hk & _). exact Hk.
Defined.

Lemma address_space_destroy_correct_witness :
  wp (address_space_destroy boot_pt_alloc (AsSlot 0)) (λ _ w',
    m_of w' = ∅ ∧ ∀ g, available (w_up ∅) g → available w' g) (w_up ∅).
Proof.
  pose proof (address_space_destroy_correct boot_pt_alloc (w_up ∅) (AsSlot 0) 0x2000 eq_refl
                (w_up_space 0x2000 ltac:(lia) eq_refl)) as H. rewrite decide_False in H by done.
  eapply wp_mono; [exact H|]. intros ? w' (Hm & _ & Hk & _). by split.
Defined.

Lemma slot_table_correct_witness :
  ∃ h slots', take_slot 0 (AS_SLOTS mmu0) 0x5000 = Some (h, slots') ∧ h = AsSlot 1 ∧ slots_ok slots'.
Proof.
  assert (slots_ok (AS_SLOTS mmu0)) as Hok.
  { intros [|i] s Hs; cbn in Hs; [by injection Hs as <-|].
    apply (list_elem_of_lookup_2 (replicate 63 EMPTY_SLOT)) in Hs. apply elem_of_replicate in Hs as [-> _].
    done. }
  pose proof (slot_table_correct (AS_SLOTS mmu0) 0x5000 Hok) as H.
  change (take_slot 0 (AS_SLOTS mmu0) 0x5000) with
    (Some (AsSlot 1, mkSlot true (mkX86AddressSpace 0x2000) (AsSlot 0)
       :: mkSlot true (mkX86AddressSpace 0x5000) (AsSlot 1) :: replicate 62 EMPTY_SLOT)) in H |- *.
  destruct H as (i & s & _ & _ & _ & Hok' & _). eexists _, _. split_and!; [reflexivity|done|exact Hok'].
Defined.

Lemma boot_alloc_frame_witness :
  wp pa_alloc_frame_4k (λ r w', alloc_inv w') (w_up ∅).
Proof.
  eapply wp_mono.
  - apply (boot_alloc_frame (w_up ∅)). apply w_up_alloc.
  - intros r w' [Hi _]. exact Hi.
Defined.

Lemma boot_alloc_distinct_witness :
  wp (alloc_frames 3) (λ fs w', NoDup fs) (w_up ∅).
Proof.
  eapply wp_mono.
  - apply (boot_alloc_distinct 3 (w_up ∅)). apply w_up_alloc.
  - intros fs w' (_ & Hnd & _). exact Hnd.
Defined.

(** The frames run out, and 0x200000 is among those handed out before. *)
Lemma boot_alloc_exhausts_witness :
  wp (alloc_frames (S (Z.to_nat (0x100000000 / 4096)))) (λ fs w', 0x200000 ∈ fs ∧ ∀ g, ¬ available w' g) (w_up ∅).
Proof.
  eapply wp_mono.
  - apply (boot_alloc_exhausts (S (Z.to_nat (0x100000000 / 4096))) (w_up ∅)); [apply w_up_alloc|].
    change (phys_limit (env (w_up ∅))) with 0x100000000. apply Nat.lt_succ_diag_r.
  - intros fs w' (_ & Hin & Hno). split; [|exact Hno]. apply Hin.
    exists alloc0. split; [done|]. right. exists 1, (mkMemMapEntry 0x200000 0x100000 MT_Usable 0 0).
    split_and!; [done|done|reflexivity|by vm_compute|done].
Defined.

Lemma boot_free_then_alloc_witness :
  wp (pa_free_frame_4k 0x5000;; w1 ← gets id; r ← pa_alloc_frame_4k; mret (w1, r))
    (λ '(w1, r) _, r = Some 0x5000) (w_up ∅).
Proof.
  eapply wp_mono.
  - apply (boot_free_then_alloc (w_up ∅) 0x5000); [apply w_up_alloc|done| |vm_compute; lia].
    intros Hav%w_up_alloc. by apply Hav.
  - intros [w1 r] w' [Hr _]. exact Hr.
Defined.

Lemma w_boot_ready : boot_ready (w_boot ∅) boot0 alloc0.
Proof.
  split; [done|by apply alloc0_map|done|done|done|done|apply w_boot_cpu|done|done|done|done|].
  apply empty_tree; [intros; apply pte_no_memory|done|done|done].
Qed.

Lemma vm_init_ready_witness :
  wp (Vm.init boot0) (λ _ w', kernel_adopted 0x1000 w' ∧ NXE_ENABLED (mmu w') = true ∧
    kernel_ready boot_pt_alloc 0x1000 (confine 2 w')) (w_boot ∅).
Proof.
  eapply wp_mono.
  - apply (vm_init_ready (w_boot ∅) boot0 alloc0). apply w_boot_ready.
  - intros r w' (Hk & _ & Hc & _ & _ & _ & Hn & _). split_and!; [done|done|]. apply Hc; [done|].
    intros f Hf Hx. change (set_count 2 alloc0) with alloc0 in Hf. apply alloc0_usable in Hf; [|done].
    apply empty_reachable in Hx; [|intros; apply pte_no_memory]. subst f. by apply Hf.
Defined.

Lemma vm_new_map_translate_witness :
  wp (r ← new_address_space;
      match r with
      | Err e => mret (inl e)
      | Ok h => m ← Vm.map_4k h 0x400000 0x7000 (Z.lor WRITE USER);
                t ← Vm.translate h 0x400123; mret (inr (h, m, t))
      end)
    (λ o _, match o with
            | inr (_, Ok _, t) => t = Ok 0x7123
            | inr (_, Err e, _) | inl e => e = OutOfMemory
            end) (w_up ∅).
Proof.
  eapply wp_mono.
  - apply (vm_new_map_translate (w_up ∅) 0x1000 eq_refl w_up_kernel 0x400000 0x7000 0x400123
             (Z.lor WRITE USER) page_arg_0x400000);
      [unfold kernel_half; by vm_compute|reflexivity|lia|done|reflexivity].
  - intros [e|[[h [[]|e]] t]] w' (_ & _ & H); [exact H|exact (proj1 H)|exact H].
Defined.

Lemma vm_destroy_gives_back_witness :
  wp (destroy_address_space (AsSlot 0)) (λ _ w', available w' 0x2000 ∧
    AS_SLOTS (mmu w') !! 0%nat = Some (mkSlot false (mkX86AddressSpace 0) (AsSlot 0))) (w_up ∅).
Proof.
  destruct (vm_destroy_gives_back (w_up ∅) (AsSlot 0) 0x2000 eq_refl eq_refl) as [_ H];
    [done|by apply w_up_space|vm_compute; lia|].
  eapply wp_mono; [exact H|]. intros ? w' (_ & _ & Hav & Hs). split; [|by rewrite Hs].
  apply Hav. auto.
Defined.

Lemma w_up_apic_boot : apic_boot (w_up ∅).
Proof.
  split; [done|done|done| |done|done]. split; [done|]. intros off v. cbn. by rewrite lookup_empty.
Qed.

Lemma apic_init_ready_witness :
  wp (Apic.init 0xffff800000000000) (λ r w', r = true ∧ apic_on w' ∧
    APIC_MODE (apic w') = APIC_MODE_X2APIC) (w_up ∅).
Proof.
  eapply wp_mono.
  - apply (apic_init_ready (w_up ∅)). apply w_up_apic_boot.
  - intros r w' (Hr & Hon & _ & Hm & _). by split_and!.
Defined.

(** [w_up] with the local APIC in xAPIC mode. *)
Definition w_xapic : World :=
  set_apic (λ _, mkApicSt APIC_MODE_XAPIC 0xffff8000fee00000)
    (with_apic_base 0xfee00800 (w_up ∅)).

Lemma send_ipi_sends_one_witness :
  wp (send_ipi_all_others TLB_SHOOTDOWN_VEC) (λ _ w', ipis (hw w') = [0xc00e1]) w_xapic.
Proof.
  eapply wp_mono.
  - apply (send_ipi_sends_one w_xapic TLB_SHOOTDOWN_VEC).
    + split; [|done]. right. right. by vm_compute.
    + split; [done|]. intros off v. cbn. by rewrite lookup_empty.
    + done.
    + cbn. lia.
  - intros ? w' [Hi _]. exact Hi.
Defined.

(** ** Tables, time and interrupts *)

Lemma descriptors_roundtrip_witness :
  ∃ lo hi, make_tss_desc 0xffffffff80020010 sizeof_Tss64 (w_boot ∅) = Ret (lo, hi) (w_boot ∅) ∧
    desc_base lo hi = 0xffffffff80020010.
Proof.
  destruct (descriptors_roundtrip 0xffffffff80020010 sizeof_Tss64 0xffffffff80040000 0 (w_boot ∅)
              ltac:(unfold is_u64, U64; lia) ltac:(vm_compute; split; done) ltac:(unfold is_u64, U64; lia))
    as [(lo & hi & H & Hb & _) _]. eauto.
Defined.

Lemma w_boot_seg m : seg_boot (w_boot m).
Proof.
  split; [done|done|done|by eexists _, _| |done|done|].
  - split; [vm_compute; by split|]. right. vm_compute; by split.
  - apply Forall_forall. intros h Hh. vm_compute in Hh. unfold is_u64, U64.
    repeat (apply elem_of_cons in Hh as [->|Hh]; [lia|]). by apply elem_of_nil in Hh.
Qed.

Lemma init_core_ready_witness :
  wp init_core (λ _ w', task_reg (seg (sys w')) = Some (0x18, 0xffffffff80020010) ∧
    ∃ g, IDT (seg (sys w')) !! 8%nat = Some g ∧ gate_to g 0xffffffff80040080 1) (w_boot ∅).
Proof.
  eapply wp_mono; [apply (init_core_ready (w_boot ∅)); apply w_boot_seg|].
  intros ? w' (Ht & _ & _ & _ & _ & Hi & _). split; [exact Ht|].
  destruct (Hi 8%nat ltac:(lia)) as (g & Hg & H). exists g. split; [exact Hg|exact H].
Defined.

(** A 1 GHz counter, the timer and the handler registered, x2APIC on. *)
Definition w_ticking : World :=
  set_sys (λ s, mkSysSt (segenv s) (seg s)
                  (mkHalSt None (Some TSC_TIMER) (Some KERNEL_INTERRUPTS) None) (mkTscSt 1000000000 1000 7) (lim s) (cpu_flags s))
    (set_apic (λ _, mkApicSt APIC_MODE_X2APIC 0) (with_apic_base 0xfee00c00 (w_up ∅))).

Lemma tick_armed_in_10ms_witness :
  ∃ w', on_timer_tick w_ticking = Ret () w' ∧ rd_msr w' IA32_TSC_DEADLINE = 10001000.
Proof.
  eexists. split; [exact (tick_armed_in_10ms w_ticking ltac:(vm_compute; done))|]. by vm_compute.
Defined.

Definition gprs0 : Gprs := mkGprs 1 2 3 4 5 6 7 8 9 10 11 12 13 14 15.
Definition frame0 : CpuFrame := mkCpuFrame 0xffffffff80001234 8 0x202 0xffff800000010000 16.

(** A dispatcher that leaves its own values in the vector registers. *)
Definition clobbers : ExceptionContext → SseState → SseState := λ _ x, mkSseState (replicate 16 0) (mxcsr x).
Definition sse0 : SseState := mkSseState (Z.of_nat <$> seq 0 16) 0x1f80.

Lemma irq_handled_and_resumed_witness :
  ∃ w', stub clobbers TIMER_VEC gprs0 sse0 (cpu_stack TIMER_VEC 0 frame0 []) w_ticking =
      Ret (gprs0, frame0, mkSseState (replicate 16 0) 0x1f80) w' ∧
    rd_msr w' IA32_TSC_DEADLINE = 10001000 ∧ eois (hw w') = 1%nat.
Proof.
  eexists. split.
  - exact (irq_handled_and_resumed clobbers w_ticking TIMER_VEC gprs0 sse0 frame0 []
             ltac:(split; [right; left; by vm_compute|done]) ltac:(vm_compute; done) ltac:(vm_compute; done)).
  - by vm_compute.
Defined.

Lemma stub_context_witness :
  read_context (stub_entry 14 gprs0 (cpu_stack 14 2 frame0 [])) = Some (mkExceptionContext gprs0 14 2 frame0).
Proof.
  exact (proj1 (stub_context 14 2 gprs0 frame0 [] 0xffff800000010000
                  ltac:(lia) ltac:(lia) ltac:(lia) eq_refl)).
Defined.

(** [w_ticking] with the gates of [init_core]. *)
Definition idt0 : list IdtEntry :=
  match init_core w_ticking with Ret _ w' => IDT (seg (sys w')) | _ => [] end.
Definition w_gates : World :=
  set_seg (λ s, mkSegSt (TSS s) (GDT s) (TSS_DESC s) (FULL s) idt0 (gdtr s) (idtr s) (seg_cs s) (seg_data s)
                  (task_reg s)) w_ticking.

Lemma w_gates_up : gates_up segenv0 (IDT (seg (sys w_ticking))) (IDT (seg (sys w_gates))).
Proof.
  assert (seg_boot w_ticking) as Hb by (destruct (w_boot_seg ∅); by split).
  destruct (wp_elim _ _ _ (wp_init_core w_ticking Hb)) as ([] & w' & E & _ & _ & _ & _ & _ & Hg & _).
  unfold w_gates, idt0. rewrite E. exact Hg.
Qed.

Lemma exception_ends_in_panic_witness :
  deliver clobbers 14 2 gprs0 sse0 frame0 [] w_gates = Panic "fault PageFault err=0x2 addr=0x0" w_gates.
Proof.
  exact (exception_ends_in_panic clobbers w_gates _ 14 2 gprs0 sse0 frame0 [] w_gates_up eq_refl
           ltac:(lia) ltac:(lia) ltac:(lia) ltac:(lia) ltac:(lia)).
Defined.

(** ** The lock *)

(** [w_up] with the lock held. *)
Definition w_locked : World := set_lock true (w_up ∅).

Lemma vm_lock_discipline_witness :
  exec CNew w_locked = Spin w_locked ∧
  exec (CTranslate 0 0x400000) w_locked = omap (set_lock true) (exec (CTranslate 0 0x400000) (w_up ∅)).
Proof.
  split.
  - exact (proj1 (vm_lock_discipline CNew w_locked) eq_refl).
  - exact (proj1 (vm_lock_discipline (CTranslate 0 0x400000) (w_up ∅) _)).
Defined.
