(* ===== verification/BootExamples.v ===== *)
(** * A concrete boot

    The machine of [Examples] as Limine hands it to the kernel: its responses,
    with a three-entry memory map whose last entry is reclaimable memory with
    the page tables at 0x301000 and the command line "hi" at 0x303000, and a
    processor with an invariant 2.4 GHz counter.  The theorems on the boot run
    on it. *)

From S2P Require Import Prelude Fmt Layout Bootabi HalTypes Paging World Hal Cpu Apic ApicSpec X86Mmu Seg Time Intr SegSpec TlbSpec IntrSpec AspaceSpec AspaceDestroy SpaceFrames BootSpec MmuProofs MmuSpec Vm VmProofs VmSpec VmRefine VmFrame Log Limine LimineSpec BootPrint BootPrintSpec IdleSpec Kmain KmainFrames KmainSpec Examples.

(** ** What Limine left *)

(** The protocol's constants. *)
Definition limine0 : LimineCrate := mkLimineCrate Z _ 0 1 2 Z _ 0 1 2 3 4 5 6.

Definition entries0 : list (Entry limine0) :=
  [mkEntry (L:=limine0) 0 0x1000 1; mkEntry (L:=limine0) 0x200000 0x100000 0;
   mkEntry (L:=limine0) 0x300000 0x10000 5].

Definition responses0 : Responses limine0 :=
  mkResponses (L:=limine0) true true (Some 1) (Some 0xffff800000000000) (Some 0xe0000) (Some entries0) (Some 0x303000) None.

(** "hi" *)
Definition cmd0 : list Z := [104; 105].

Definition env_start : Env :=
  mkEnv 0xffff800000000000 0x100000000
    (λ l _, if l =? 0 then (0x16, 0, 0, 0)
            else if l =? 1 then (0, 0, bit 21, 0)
            else if l =? 0x16 then (2400, 0, 0, 0)
            else if l =? 0x80000000 then (0x80000008, 0, 0, 0)
            else if l =? 0x80000001 then (0, 0, 0, bit 20)
            else if l =? 0x80000007 then (0, 0, 0, bit 8) else (0, 0, 0, 0))
    0 2 2 10 true.

Definition ram_start : ram := {[0x303000 := 0x6968]}.

Definition w_start : World :=
  mkWorld env_start
    (mkHw 0 0 0x301000 0 (list_to_map [(EFER_msr, Z.lor (bit 10) (bit 11)); (APIC_BASE_msr, 0xfee00000)]) ∅ ram_start ∅ ∅
       0 [] 0 0 [])
    0 mmu_init_st (mkApicSt 0 0) (mkVmSt None false) sys0.

Lemma entries0_cases (e : Entry limine0) i : entries0 !! i = Some e →
  i = 0%nat ∧ e = mkEntry (L:=limine0) 0 0x1000 1 ∨ i = 1%nat ∧ e = mkEntry (L:=limine0) 0x200000 0x100000 0 ∨
  i = 2%nat ∧ e = mkEntry (L:=limine0) 0x300000 0x10000 5.
Proof. destruct i as [|[|[|i]]]; intros [= <-]; auto. Qed.

Lemma w_start_limine : limine_ok responses0 w_start entries0.
Proof. split; try done. by right. Qed.

Lemma w_start_cmd : mem_bytes ram_start 0x303000 (cmd0 ++ [0]).
Proof. intros [|[|[|i]]] b; intros [= <-]; reflexivity. Qed.

Lemma w_start_strings : strings_ok responses0 w_start entries0 cmd0 [] [].
Proof.
  split; [|done|done]. right. split; [done|exact w_start_cmd|set_solver|done|done|].
  exists (mkMemMapEntry 0x300000 0x10000 MT_BootloaderReclaimable 0 0). split; [|by vm_compute].
  exists 2%nat. split_and!; [done|by vm_compute|by vm_compute|by vm_compute|].
  intros [|[|j]] e' Hj; [..|lia]; intros [= <-]; (split; [by vm_compute|]); cbn; lia.
Qed.

Lemma w_start_map : limine_map w_start entries0.
Proof.
  split.
  - cbn. repeat (constructor; [set_solver|]). constructor.
  - by vm_compute.
  - intros e [i He]%list_elem_of_lookup _. apply entries0_cases in He as [[_ ->]|[[_ ->]|[_ ->]]]; by vm_compute.
  - intros i j ei ej Hij Hi Hj Hu Hv.
    apply entries0_cases in Hi as [[-> ->]|[[-> ->]|[-> ->]]], Hj as [[-> ->]|[[-> ->]|[-> ->]]]; cbn; lia.
Qed.

Lemma w_start_root i : table_index i → pte_present (pte ram_start 0x301000 i) = false.
Proof.
  intros Hi. unfold pte, rd, ram_start. rewrite lookup_singleton_ne; [done|].
  unfold table_index in Hi. lia.
Qed.

Lemma w_start_handed_over : handed_over responses0 w_start entries0 cmd0 [] [].
Proof.
  split; [exact w_start_limine|exact w_start_strings|exact w_start_map| |by vm_compute; lia|done|done|done| |done| |done|
          done| | |done|done|by vm_compute].
  - exact (seg_boot_ext (w_boot ∅) w_start eq_refl eq_refl (w_boot_seg ∅)).
  - intros i s Hs. apply (list_elem_of_lookup_2 (replicate 64 EMPTY_SLOT)) in Hs.
    apply elem_of_replicate in Hs as [-> _]. done.
  - split; [done|done|done| |done|done]. split; [done|]. intros off v. cbn. by rewrite lookup_empty.
  - apply empty_tree; [apply w_start_root|done|done|done].
  - intros f (_ & e & [i He]%list_elem_of_lookup & Hu & _ & Ht) Hx.
    apply empty_reachable in Hx; [|apply w_start_root]. change (kept entries0) with entries0 in He.
    change (frame_of (cr3 (hw w_start))) with 0x301000 in Hx. subst f.
    apply entries0_cases in He as [[_ ->]|[[_ ->]|[_ ->]]]; [done|by apply Ht|done].
Qed.

(** Limine's constants, and room for the client below. *)
Lemma limine0_constants : limine_constants (L:=limine0).
Proof. split; cbn; repeat (constructor; [set_solver|]); constructor. Qed.

Definition frames0 : list Z := (λ i, 0x200000 + 0x1000 * Z.of_nat i) <$> seq 0 6.

Lemma frames0_early f : f ∈ frames0 → early_frame entries0 f.
Proof.
  intros Hf. vm_compute in Hf.
  repeat (apply elem_of_cons in Hf as [->|Hf];
    [split; [done|]; exists 1%nat, (mkEntry (L:=limine0) 0x200000 0x100000 0);
     split_and!; [vm_compute; lia|done|done|done|done]|]).
  by apply elem_of_nil in Hf.
Qed.

(** ** Witnesses *)

Lemma kentry_boots_witness :
  ∃ w', kentry responses0 w_start = Spin w' ∧ ticking w' ∧ available w' 0x200000.
Proof.
  destruct (kentry_boots responses0 w_start entries0 cmd0 [] [] w_start_handed_over)
    as (w' & Hk & Hb & Ht & _).
  exists w'. split_and!; [exact Hk|apply Ht; by vm_compute|].
  apply (vb_frames _ _ _ (bt_vm _ _ _ Hb)). split; [done|].
  exists (mkEntry (L:=limine0) 0x200000 0x100000 0). split_and!; [|by left|done|done].
  apply (list_elem_of_lookup_2 _ 1). reflexivity.
Defined.

Lemma gather_bootinfo_correct_witness :
  wp (gather_bootinfo responses0 1) (λ b w', span_bytes (lim (sys w')) (cmdline b) = cmd0 ∧
    BootMode_from_raw (boot_mode b) = BM_Uefi ∧
    ∃ m, mem_entries (hw w') !! (entries_ptr (mem b) + 48) = Some m ∧ base m = 0x300000 ∧ len m = 0x10000 ∧
      mem_type m = MT_BootloaderReclaimable) w_start.
Proof.
  eapply wp_mono.
  - apply (gather_bootinfo_correct responses0 w_start entries0 cmd0 [] [] 1 limine0_constants
             w_start_limine w_start_strings).
  - intros b w' (_ & _ & [_ Hm] & _ & _ & _ & _ & He & _ & _ & Hc & _).
    split_and!; [exact Hc|apply Hm; by left|].
    destruct (He 2%nat _ ltac:(lia) eq_refl) as (m & Hl & Hb & Hn & Ht). exists m.
    split_and!; [exact Hl|exact Hb|exact Hn|by apply Ht].
Defined.

Lemma gather_feeds_vm_witness :
  wp (gather_bootinfo responses0 1) (λ b w', ∃ a, BootPtAlloc_new b = Some a ∧ map_ok w' a) w_start.
Proof.
  eapply wp_mono.
  - apply (gather_feeds_vm responses0 w_start entries0 cmd0 [] [] 1 w_start_limine w_start_strings w_start_map).
  - intros b w' (a & Ha & Hm & _). by exists a.
Defined.

(** A bootloader that does not know the revision. *)
Definition responses_old : Responses limine0 :=
  mkResponses (L:=limine0) true false None None None None None None.

Lemma no_protocol_no_vm_witness :
  ∃ b w1, gather_bootinfo responses_old 1 w_start = Ret b w1 ∧
    Vm.init b w1 = Panic "vm: missing HHDM or memmap" w1.
Proof.
  destruct (no_protocol_no_vm responses_old w_start 1 eq_refl) as (b & l & E & H). eauto.
Defined.

(** The serial writer and the log's console are registered. *)
Definition w_logging : World := set_hal (λ s, mkHalSt (Some COM1_WRITER) None None (Some CONSOLE_SERIAL)) (w_boot ∅).

Lemma w_logging_uart : uart_ok w_logging.
Proof. by vm_compute; lia. Qed.

Lemma text_reaches_uart_witness :
  ∃ w', klogln [bytes_of "ok"] w_logging = Ret () w' ∧
    ports (hw w') = [(COM1, 10); (COM1, 13); (COM1, 107); (COM1, 111)].
Proof.
  eexists. split; [exact (proj2 (text_reaches_uart w_logging [] [bytes_of "ok"] w_logging_uart))|reflexivity].
Defined.

Lemma boot_info_printed_witness :
  ∃ w', print_boot_info boot0 w_logging = Ret () w' ∧ (length (ports (hw w')) > 100)%nat.
Proof.
  eexists. split.
  - refine (boot_info_printed w_logging boot0
      [mkMemMapEntry 0 0x100000 MT_Reserved 0 0; mkMemMapEntry 0x200000 0x100000 MT_Usable 0 0]
      w_logging_uart _ (or_introl eq_refl) (or_introl eq_refl) _); [by vm_compute|].
    split; try done. intros [|[|i]] e; intros [= <-]; reflexivity.
  - vm_compute. lia.
Defined.

(** Ticking, with the next tick at 5000. *)
Definition w_armed : World := set_hw (λ h, hw_msrs (<[IA32_TSC_DEADLINE := 5000]> (msrs h)) h) w_ticking.

Lemma ticks_forever_witness :
  ∃ w'', idle_step clobbers (at_time 4000 w_armed) w'' ∧ rd_msr w'' IA32_TSC_DEADLINE = 10006000.
Proof.
  destruct (ticks_forever clobbers w_armed (at_time 4000 w_armed) 6000) as (_ & _ & w'' & Hs & _ & _ & _ & _ & Hd).
  - split; [|done|done|by vm_compute|done|by vm_compute]. split; [right; left; by vm_compute|by vm_compute].
  - apply rtc_once, idle_relax. by vm_compute.
  - by vm_compute.
  - by vm_compute.
  - by vm_compute.
  - exists w''. split; [exact Hs|]. rewrite Hd. by vm_compute.
Defined.

(** ** The VM service *)

Lemma w_up_empty_tables r x : x ∈ user_tables (mem64 (hw (w_up ∅))) r → x = r.
Proof. intros Hx. eapply fresh_user_tables; [|exact Hx]. intros j _. unfold pte, rd. cbn. by rewrite lookup_empty. Qed.

(** One address space without pages, in slot 0. *)
Lemma w_up_rel ub : vm_rel ub 0x1000 (hw_walk ∅ 0x1000) {[0%nat := ∅]} (w_up ∅).
Proof.
  assert (∀ i, live_root (w_up ∅) i = if decide (i = 0%nat) then Some 0x2000 else None) as Hl.
  { intros [|i]; [done|]. unfold live_root. cbn [AS_SLOTS mmu w_up mmu0 lookup list_lookup].
    destruct (replicate 63 EMPTY_SLOT !! i) as [s|] eqn:E; [|done].
    apply lookup_replicate in E as [-> _]. done. }
  split; [done|apply w_up_kernel|done| |..].
  - intros [|i] s Hs; cbn in Hs; [by injection Hs as <-|].
    apply (list_elem_of_lookup_2 (replicate 63 EMPTY_SLOT)) in Hs. apply elem_of_replicate in Hs as [-> _]. done.
  - intros i ps [<- <-]%lookup_singleton_Some. exists 0x2000. split; [done|].
    split; [by apply w_up_space| |done| | |intros n pa flags Hn; by rewrite lookup_empty in Hn].
    + intros v _. apply w_up_path.
    + intros x ->%w_up_empty_tables Hx. apply empty_reachable in Hx; [done|intros; apply pte_no_memory].
    + intros v _. rewrite lookup_empty. apply live_leaf_none; [apply w_up_path|].
      apply walk_absent, pte_no_memory.
  - intros i Hi%lookup_singleton_None. rewrite Hl. by case_decide.
  - intros i j r r' x Hij. rewrite !Hl. repeat case_decide; congruence.
Qed.

(** A user page, mapped by a client that maps user pages only. *)
Definition user_rw : MapFlags := Z.lor WRITE USER.

Lemma user_map_valid A i : is_Some (A !! i) → valid_call true A (CMap i 0x400000 0x7000 user_rw).
Proof. intros HA. split; [done|]. split; [done|]. split; [done|]. by intros _. Qed.

Lemma vm_refines_witness :
  ∃ ret w' A', exec (CMap 0 0x400000 0x7000 user_rw) (w_up ∅) = Ret ret w' ∧
    avm_step {[0%nat := ∅]} (CMap 0 0x400000 0x7000 user_rw) ret A' ∧ vm_rel true 0x1000 (hw_walk ∅ 0x1000) A' w'.
Proof.
  apply (vm_refines true 0x1000 (hw_walk ∅ 0x1000) {[0%nat := ∅]} (w_up ∅)); [apply w_up_rel|].
  apply user_map_valid. by exists ∅.
Defined.

(** The world after that call, as the refinement describes it. *)
Definition w_mapped : World :=
  match exec (CMap 0 0x400000 0x7000 user_rw) (w_up ∅) with Ret _ w' => w' | _ => w_up ∅ end.

Lemma w_mapped_rel : vm_rel true 0x1000 (hw_walk ∅ 0x1000) {[0%nat := {[page_of 0x400000 := (0x7000, user_rw)]}]} w_mapped.
Proof.
  destruct (wp_elim _ _ _ (step_valid true 0x1000 (hw_walk ∅ 0x1000) {[0%nat := ∅]} (w_up ∅) (w_up_rel true)
    (CMap 0 0x400000 0x7000 user_rw) (user_map_valid {[0%nat := ∅]} 0 ltac:(by exists ∅))))
    as (ret & w' & E & A' & Hs & Hr).
  assert (ret = RMap (Ok ())) as ->.
  { assert ((match exec (CMap 0 0x400000 0x7000 user_rw) (w_up ∅) with Ret r _ => Some r | _ => None end) =
      Some (RMap (Ok ()))) as H by (vm_compute; reflexivity). rewrite E in H. congruence. }
  assert (A' = {[0%nat := {[page_of 0x400000 := (0x7000, user_rw)]}]}) as ->.
  { clear -Hs. inversion Hs as [| | |i ps va pa fl Hp _| | | | | | | |]. clear -Hp.
    rewrite lookup_singleton_eq in Hp. injection Hp as <-. by rewrite insert_singleton_eq. }
  unfold w_mapped. rewrite E. exact Hr.
Qed.

Lemma vm_contents_witness :
  ∃ r mp, aspace_root (mmu w_mapped) (AsSlot 0) = Some r ∧ hw_walk (mem64 (hw w_mapped)) r 0x400123 = Some mp ∧
    m_pa mp = 0x7123 ∧ m_w mp = true ∧ m_u mp = true.
Proof.
  destruct (vm_contents true 0x1000 (hw_walk ∅ 0x1000) _ w_mapped 0 _ w_mapped_rel eq_refl)
    as (r & Hr & _ & Hv). specialize (Hv 0x400123 ltac:(by split)).
  destruct Hv as (mp & Hw & Hp & H1 & _ & _ & H2). exists r, mp. by split_and!.
Defined.

(** A client that makes an address space and maps a user page into it. *)
Definition client0 : strategy := λ h,
  match h with
  | [] => Some CNew
  | [(CNew, RNew (Ok (AsSlot i)))] => Some (CMap i 0x400000 0x7000 user_rw)
  | _ => None
  end.

Lemma client0_ok : well_behaved true ∅ client0.
Proof.
  intros h A c Hrun Hc. destruct h as [|[c1 r1] h]; [by injection Hc as <-|].
  destruct c1; try done. destruct r1 as [[[|i|]|]| | |]; try done. destruct h; [|done]. injection Hc as <-.
  inversion Hrun as [|? ? ? ? ? Hr _ Hs]; subst. inversion Hr; subst. inversion Hs; subst.
  apply user_map_valid. by rewrite lookup_insert_eq.
Qed.

Lemma clients_after_boot_witness :
  wp (boot ← kentry_init responses0; kmain_init boot;; drive client0 2 []) (λ h w', ∃ A,
    avm_run true ∅ h A ∧ vm_rel true 0x301000 (hw_walk ram_start 0x301000) A (confine 2 w')) w_start.
Proof.
  apply (clients_after_boot responses0 true w_start entries0 cmd0 [] [] client0 2 frames0 w_start_handed_over client0_ok).
  - vm_compute. repeat (constructor; [set_solver|]). constructor.
  - apply frames0_early.
  - vm_compute. lia.
Defined.

(** 5000 bytes do not fit, "hi" does. *)
Lemma strbuf_never_overrun_witness :
  (∃ s l', strbuf_alloc_join (replicate 5000 65) [] w_start = Ret s (set_lim (λ _, l') w_start) ∧ strbuf_ok l') ∧
  (∃ s l', strbuf_alloc_join cmd0 [] w_start = Ret s (set_lim (λ _, l') w_start) ∧ span_in l' s).
Proof.
  split.
  - destruct (strbuf_never_overrun (replicate 5000 65) [] w_start) as (s & l' & E & Hok & _); [by vm_compute|by vm_compute|].
    by exists s, l'.
  - destruct (strbuf_never_overrun cmd0 [] w_start) as (s & l' & E & _ & Hs & _); [by vm_compute|by vm_compute|].
    by exists s, l'.
Defined.

(** ** The log of a boot *)

(** The text on the wire, without carriage returns. *)
Definition wire_text (w : World) : list Z :=
  filter (λ b, b ≠ 13) (snd <$> reverse (filter (λ p, p.1 = COM1) (ports (hw w)))).

(** The model run from the entry point to the idle loop. *)
Example boot_log :
  match kentry responses0 w_start with
  | Spin w' => wire_text w' = mjoin ((λ s, bytes_of s ++ nl) <$>
      ["ENTER kentry"; "AFTER bootinfo"; "OK"; "logger up"; "ENTER kmain"; "[init] arch core"; "[init] arch mmu";
       "[init] interrupts"; "[boot] hdr magic=0x424f4f54 version=1 size=120"; "[boot] mode=UEFI";
       "[boot] arch=X86_64 cpu_count=1 phys_bits=52 virt_bits=48";
       "[boot] hhdm=0xffff800000000000 acpi_rsdp=0xe0000"; "[boot] boot_flags=0x0"; "[boot] cmdline=hi";
       "[boot] bootloader=<none>"; "[boot] fb=<none>"; "[mem] entries=3 entry_size=24 flags=0x0";
       "[mem] 00 base=0x0 len=0x1000 type=reserved"; "[mem] 01 base=0x200000 len=0x100000 type=usable";
       "[mem] 02 base=0x300000 len=0x10000 type=bootloader_reclaimable"; "[init] vm"; "[init] arch time"; "[init] arch irqs";
       "[init] time"; "[ok] idle"]%string)
  | _ => False
  end.
Proof. vm_compute. reflexivity. Qed.
