(* ===== verification/Corners.v ===== *)
(** * Corners of the code

    Behaviours outside the hypotheses of the main theorems, shown by running
    the code on the concrete machine: what the page operations do to large
    pages, to user mappings below kernel tables and to frames beyond the
    address field, what the allocator does with reclaimable memory, kernel
    pages mapped after an address space was created, a frame lost when the
    slots run out, and the per-CPU slot before and after the local APIC is
    brought up. *)

From S2P Require Import Prelude Layout Bootabi HalTypes Paging World Hal Cpu Apic ApicSpec X86Mmu MmuProofs MmuSpec TlbSpec AspaceSpec AspaceDestroy BootSpec Vm VmProofs VmSpec Examples.

#[local] Abbreviation m_of w := (mem64 (hw w)).

(** The returned value and final world of a run, when it returns. *)
Definition returned {A} (o : outcome World A) : option (A * World) :=
  match o with Ret a w => Some (a, w) | _ => None end.

(** ** Large pages *)

(** Slot 0's tables map 0x400000 .. 0x5fffff with one 2 MiB page at
    0x600000. *)
Definition large_ram : ram :=
  <[0x2000 := 0x3003]> (<[0x3000 := 0x4003]> (<[0x4010 := 0x600083]> ∅)).

(** The page operations do not look at the page-size bit above the page
    table.  Inside a 2 MiB page the processor translates, [translate] reports
    [NotMapped], and [map_4k] succeeds by writing a page-table entry into the
    mapped memory itself, while the processor's translation stays the large
    page. *)
Theorem large_page_ignored :
  m_pa <$> hw_walk large_ram 0x2000 0x400000 = Some 0x600000 ∧
  X86Mmu.translate (AsSlot 0) 0x400000 (w_up large_ram) = Ret (Err TE_NotMapped) (w_up large_ram) ∧
  (let o := returned (X86Mmu.map_4k boot_pt_alloc (AsSlot 0) 0x400000 0x7000 WRITE (w_up large_ram)) in
   fst <$> o = Some (Ok ()) ∧
   rd large_ram 0x600000 = 0 ∧
   (λ '(_, w'), frame_of (rd (m_of w') 0x600000)) <$> o = Some 0x7000 ∧
   (λ '(_, w'), m_pa <$> hw_walk (m_of w') 0x2000 0x400000) <$> o = Some (Some 0x600000)).
Proof. vm_compute. split_and!; reflexivity. Qed.

(** ** User pages below kernel tables *)

(** [ensure_table] never adds the user bit to a table that exists: after a
    kernel page was mapped in a region, a page mapped there with [USER] is
    reported as mapped but the processor does not let user mode reach it; the
    same call in an untouched region gives a user page. *)
Theorem user_below_kernel_table :
  let kernel_first := _ ← X86Mmu.map_4k boot_pt_alloc (AsSlot 0) 0x400000 0x7000 WRITE;
                      X86Mmu.map_4k boot_pt_alloc (AsSlot 0) 0x401000 0x8000 USER in
  let alone := X86Mmu.map_4k boot_pt_alloc (AsSlot 0) 0x401000 0x8000 USER in
  let user_page := λ '(r, w'), (is_ok r, m_u <$> hw_walk (m_of w') 0x2000 0x401000) in
  user_page <$> returned (kernel_first (w_up ∅)) = Some (true, Some false) ∧
  user_page <$> returned (alone (w_up ∅)) = Some (true, Some true).
Proof. vm_compute. split; reflexivity. Qed.

(** ** Frames beyond the address field *)

(** [map_4k] accepts any aligned physical address and drops the bits above
    51: mapping frame 2^52 succeeds and maps frame 0. *)
Theorem map_4k_truncates :
  (λ '(t, _), t) <$> returned ((_ ← X86Mmu.map_4k boot_pt_alloc (AsSlot 0) 0x400000 (2 ^ 52) WRITE;
                                X86Mmu.translate (AsSlot 0) 0x400000) (w_up ∅)) = Some (Ok 0).
Proof. vm_compute. reflexivity. Qed.

(** ** Reclaimable memory *)

(** The bootloader's tables lie in memory it declares reclaimable. *)
Definition reclaim_map : gmap Z MemMapEntry :=
  <[0xffffffff80100000 := mkMemMapEntry 0x1000 0x1000 MT_BootloaderReclaimable 0 0]> map0.

Definition w_reclaim : World :=
  set_hw (λ h, mkHw (cr0 h) (cr2 h) (cr3 h) (cr4 h) (msrs h) (tlb h) (<[0x1800 := 0x3003]> ∅)
                 reclaim_map (lapic h) (icr_busy h) (ipis h) (eois h) (uart_busy h) (ports h)) (w_up ∅).

(** The allocator treats bootloader-reclaimable memory as usable, so the
    first frame it hands out can be the root the processor is running on,
    which it zeroes. *)
Theorem reclaimable_root_handed_out :
  let o := returned (pa_alloc_frame_4k w_reclaim) in
  cr3 (hw w_reclaim) = 0x1000 ∧
  fst <$> o = Some (Some 0x1000) ∧
  pte_present (pte (m_of w_reclaim) 0x1000 256) = true ∧
  (λ '(_, w'), pte (m_of w') 0x1000 256) <$> o = Some 0.
Proof. vm_compute. split_and!; reflexivity. Qed.

(** ** Kernel mappings made later *)

(** [address_space_new] copies the kernel half of the root once: a kernel
    page mapped afterwards below a root entry that was empty is seen in the
    kernel's own address space and in none of the others. *)
Theorem kernel_half_copied_once :
  let run := X86Mmu.map_4k boot_pt_alloc AsKas 0xffffc00000000000 0x7000 WRITE in
  (λ '(r, w'), (is_ok r, m_pa <$> hw_walk (m_of w') 0x1000 0xffffc00000000000,
                m_pa <$> hw_walk (m_of w') 0x2000 0xffffc00000000000)) <$> returned (run (w_up ∅))
  = Some (true, Some 0x7000, None).
Proof. vm_compute. reflexivity. Qed.

(** ** Running out of slots *)

Definition w_full : World :=
  set_mmu (λ s, mkMmuSt (KAS s) (KAS_HANDLE s) (CURRENT_PER_CPU s)
                  (replicate MAX_ADDRESS_SPACES (mkSlot true (mkX86AddressSpace 0x2000) (AsSlot 0)))
                  (NXE_ENABLED s)) (w_up ∅).

(** With every slot in use [address_space_new] fails, but keeps the frame
    it took for the root: the next allocation returns another frame and the
    free list stays empty. *)
Theorem new_without_slot_loses_frame :
  (λ '(r, _), r) <$> returned (address_space_new boot_pt_alloc w_full) = Some (Err OutOfMemory) ∧
  (λ '(f, w'), (f, pa_free_count <$> PT_ALLOC (vm w'))) <$>
    returned ((_ ← address_space_new boot_pt_alloc; pa_alloc_frame_4k) w_full)
    = Some (Some 0x201000, Some 0) ∧
  (λ '(f, _), f) <$> returned (pa_alloc_frame_4k w_full) = Some (Some 0x200000).
Proof. vm_compute. split_and!; reflexivity. Qed.

(** ** The current address space of a processor whose APIC id is not 0 *)

Definition w_cpu1 : World :=
  mkWorld (mkEnv 0xffff800000000000 0x100000000 (cpuid_leaf env0) 1 2 2 10 true) (hw0 ∅) 0xffff800000000000
    mmu_init_st (mkApicSt 0 0) (mkVmSt None false) sys0.

(** [init_kernel] runs before the local APIC is brought up and records the
    current address space under index 0; once the APIC is up, [current] looks
    under the processor's APIC id, so on a processor whose id is not 0 it
    panics until the next [activate]. *)
Theorem current_lost_after_apic_init :
  (λ '(c, _), c) <$> returned ((init_kernel;; current) w_cpu1) = Some AsKas ∧
  ∃ w', (init_kernel;; Apic.init 0xffff800000000000;; current) w_cpu1 = Panic "MMU not initialized" w'.
Proof. split; [reflexivity|]. eexists. vm_compute. reflexivity. Qed.
